(* ===== verification/_CoqProject ===== *)
-Q . S2P
Prelude.v
Operation.v
Values.v
Resource.v
Status.v
Engine.v
Lifecycle.v
Contracts.v
Provisioning.v
Records.v
References.v
Submission.v
Outputs.v
Text.v
Encoding.v
Json.v
Strconv.v
JsonTokens.v
Codec.v
Identity.v
Fingerprint.v
Kube.v
Crossplane.v
CrossplaneFacts.v
CrossplaneCalls.v
Cluster.v
Fakeapi.v
CrossplaneScenario.v
Pulumi.v
PulumiOutputs.v
PulumiCalls.v
PulumiRuns.v
PulumiScenario.v
Work.v
Recovery.v
Policy.v
Dependencies.v
Outbox.v
Store.v
History.v
Rights.v
Evidence.v
Admission.v
Inventory.v
Idempotency.v
Operator.v
Diagnostics.v
Reads.v
Handlers.v
Worker.v
WorkerRights.v
Observer.v
System.v
Scenario.v
Driving.v
Coherence.v
Refinement.v
