(* ===== verification/Prelude.v ===== *)
(** * Liftr: a verification development of the resource control plane

    Liftr is a control plane: developers ask for platform resources, Liftr
    admits the request, drives one operation per resource through a lifecycle,
    hands work to provisioners and records what they report.  This library
    models the core of the Go program under [src/internal] - the domain values,
    the lifecycle engine, the application's rules about contracts, references,
    provider evidence, outputs, policy, recovery and work items, the in-memory
    store with its transactions, the admission of requests, and the worker -
    closes them into a transition system of requests, workers, providers and
    crashes over one store, and proves what makes it correct.

    ** How Go is read

    A Go function that returns a value and an error is a Rocq function into
    [outcome]: [Ok] a value, [Err] an error, or [Panic] (a nil dereference, an
    index out of range).  Errors keep their identity: sentinels, [%w] chains
    ([errors_is] is [errors.Is]) and their unformatted arguments; where code
    stores the printed form of an error, the printer is a parameter.  A
    [uint64] is an [N] whose only arithmetic, [++], is [u64_incr] modulo 2^64;
    [time.Time] is an integer number of nanoseconds.  Strings are byte strings
    and enumerations are the strings the code uses, so values outside an
    enumeration are covered.  A field assignment on a copied struct is
    [r <| field := v |>].  A clock reading or an order of a map iteration that
    the code takes is an argument; SHA-256 is a parameter.  Maps whose order
    shows are association lists or explicit orders, others are [gmap]s.

    ** The files

    - [Prelude] (this file): the reading of Go above, sorting, automation.
    - [Operation] ([domain/operation.go]): operations, their phases and the
      transitions; states and the invariant by rule induction.
    - [Values] ([domain/spec.go], [spec_numeric.go], [outputs.go]): developer
      values, exact integers, output snapshots.
    - [Resource] ([domain/resource.go], [resource_type.go]).
    - [Status] ([domain/status.go], [observed_facts.go], [event.go]).
    - [Engine] ([lifecycle/engine.go], [observation.go]): the stateless engine;
      one definition per entry point, with what each accepts and establishes.
    - [Lifecycle]: a resource, its status and its latest operation as one
      world whose steps are the engine's calls; its theorems are about every
      reachable world.
    - [Contracts] ([resourcecontract/*.go]): output and reference contracts,
      canonical violations.
    - [Provisioning] ([provisioning/contract.go]): the provider boundary.
    - [Records] ([application/application.go], [work.go], [references.go]):
      the persistent records.
    - [References] ([application/references.go]): canonical edges, validation,
      differences, and the bounded cycle detection.
    - [Submission] ([application/submission.go]): how evidence from a dispatch
      or an observation is interpreted, and how an operation is finished.
    - [Outputs] ([application/outputs.go]): the plan for terminal success.
    - [Text], [Encoding]: keys built by formatting, read back; hexadecimal,
      base64url, big-endian integers and framed strings, and their inverses.
    - [Json], [Strconv]: the JSON trees the code marshals, rendered as
      [encoding/json] does; [ParseBool], [ParseInt] and the like, and the bits
      of floating-point numbers.
    - [Codec] ([postgres/spec_codec.go]): developer values as stored documents.
    - [Identity] ([identity/*.go], [auth/mapping.go], [authorizer.go],
      [operator_authorizer.go]): principals, claim mapping, owner policies.
    - [Fingerprint] ([application/fingerprint.go]): the commands, and the digest
      by which a repeated request is recognised.
    - [Kube] ([provisioning/crossplane/kube]): the Kubernetes client of the
      Crossplane adapter: objects, API errors, requests, and computations that
      call the server.
    - [Crossplane], [CrossplaneFacts], [CrossplaneCalls]
      ([provisioning/crossplane]): the adapter's bindings, metadata and
      manifests; the facts it reads off an object; [Submit] and [Observe].
    - [Cluster]: the interface of an API server, as a class with its documented
      laws, and what the adapter does to any server with these laws.
    - [Fakeapi] ([kube/fakeapi/server.go]): the control plane of the adapter's
      tests, an instance of that interface.
    - [CrossplaneScenario]: runs of the adapter against it.
    - [JsonTokens]: [Decoder.Token] of [encoding/json], on the bytes.
    - [Pulumi], [PulumiOutputs], [PulumiCalls] ([provisioning/pulumi]): the
      Pulumi adapter's programs, names and environment; the strict reading of
      its output envelope; [Submit] and [Observe] as computations that call the
      host and the SDK, down to the stack operations of [automation.go].
    - [PulumiRuns]: what they do whatever the host answers, and how the
      application reads their answers; [PulumiScenario]: concrete runs.
    - [Work] ([application/work.go]): outbox messages and their identities.
    - [Recovery] ([application/recovery_planner.go], [operator_mutations.go]):
      which recovery actions are safe, and the work they create.
    - [Policy] ([application/policy.go], [policy/policy.go]): policy documents
      and admission decisions.
    - [Dependencies] ([application/dependencies.go]): the gate before a
      submission, against the interface [GateReads] of what it reads.
    - [Outbox] ([application/fake/store.go]): leases and deduplication.
    - [Store] ([application/fake/store.go], [references.go]): every repository
      of the store, as computations of the monad [tx]; [Within] commits one or
      leaves the store as it was.
    - [History]: what any transaction preserves ([integrity], [progress]).  A
      computation that only uses the repositories is [scripted]; its [rights]
      say which of them it uses.
    - [Rights]: what the absence of a right guarantees.
    - [Evidence] ([application/application.go]): the checks of persisted
      terminal evidence, of retries and of output recoveries.
    - [Admission] ([application/application.go], [authorization.go]): the
      creation, update, deletion and retry of resources, with idempotency,
      policy and authorisation.
    - [Inventory] ([application/inventory.go], [fake/store.go]): the resource
      list, its cursors and pages.
    - [Idempotency]: the service as sequences of requests and transactions.
    - [Operator] ([application/operator_mutations.go], [operator.go],
      [operator_diagnostics.go]): the operator's recoveries, each one unit of
      work with its audit row and its key; the revisions they are fenced with.
    - [Diagnostics] ([application/operator_diagnostics.go]): what an operator is
      shown of a resource, an operation and a work item.
    - [Reads] ([application/read.go], [authorization.go], [resourcetype.go]): the
      reads on behalf of a principal, and the access checks.
    - [Handlers] ([worker/drive.go], [dependencies.go], [executor.go],
      [worker.go]): one definition per transaction of the worker.
    - [Worker] ([worker/dispatcher.go], [executor.go]): the calls of a worker
      as trees of transactions and provider calls; [RunOnce].
    - [WorkerRights]: every transaction of the worker is scripted, with rights.
    - [Observer] ([worker/observer.go], [executor.go]): the periodic pass that
      schedules passive observations, and the calls that schedule one.
    - [System]: requests, operators and any number of workers over one store.
    - [Scenario]: an executable scheduler, and a run of the whole system.
    - [Driving]: what a drive does.
    - [Coherence]: the invariant of the engine, for the running system.
    - [Refinement]: the running system implements the lifecycle specification.

    ** What the theorems show

    - The system: however requests, operators, workers, provider answers and
      crashes interleave, an attempt is submitted at most once, and once more for each
      time it was given back ([submission_bounded],
      [submitted_at_most_once]); the tables stay consistent
      ([system_consistent]); every resource, its status and the operation that
      determines it satisfy the engine's invariant ([system_coherent]), and
      every step is a sequence of transitions of the lifecycles
      ([system_refines_lifecycle]); nothing
      is dispatched before its dependencies have converged ([driveUnit_spec]).
    - The service: a request is admitted exactly once whatever is replayed
      ([exactly_once], [replay_answers]), completely or not at all
      ([admission_complete]), and while no other operation is active
      ([one_active_operation]); a key answers one request only
      ([key_answers_one_creation]); transactions preserve the history
      ([transaction_history]).
    - The operator plane: an accepted recovery schedules exactly one work item,
      never a dispatch, audits it and binds its key, and everything else leaves
      the store alone ([operator_mutation_effect]); a key answers one recovery
      only ([operator_key_answers_one_mutation]); the revision an operator was
      shown is honoured ([shown_revision_honoured]).
    - The engine: in every reachable world status, resource and operation agree
      ([engine_coherence]); an active operation can always be finished
      ([engine_never_strands]); a request is admitted exactly when the rules
      say ([request_admission]); time and generations never go back
      ([step_monotone]); the engine never panics ([engine_total]).
    - The domain: an operation makes finitely many transitions and ends
      ([transitions_bounded], [operation_progress]); snapshots round-trip;
      constructors accept exactly what they should.
    - Evidence: the outcome of every submission and observation as a table
      ([InterpretSubmission_spec], [InterpretObservation_spec]); an accepted
      request is never dispatched again ([accepted_never_redispatched]);
      terminal evidence always settles ([BuildFinishEvidence_spec]).
    - References: cycle detection is sound, and exact within its bounds;
      canonical forms and differences are what they claim.
    - Work: leases fence messages, one active message per aggregate, exact
      deduplication keys, safe recovery, a gate that opens only on convergence,
      outputs published only when they realise their contract, and policy
      decisions that mean what the document says.

    - Encodings: two creations have one fingerprint exactly when they ask for
      the same ([create_fingerprint_exact]); a spec is read back from its stored
      document as it was, values and widths included ([spec_persistence]).
    - Visibility: a read discloses what the stored owner lets the principal see,
      and changes nothing ([reads_disclose]); a listing shows the owners that reads are granted for
      ([list_visibility_equals_read]); following its cursors enumerates the
      visible inventory, each resource once ([traversal_enumerates]), and a
      cursor is only good for the listing that issued it
      ([cursor_roundtrip]); group claims grant nothing of their own
      ([claims_grant_only]) and callers are told apart
      ([principal_ids_distinct]).

    - The Crossplane adapter, while others write to the same cluster: a
      submission changes nothing but its own target, and overwrites or deletes
      it only as an object verified to be the resource's
      ([submit_spares_others]); its answer says whether a write took effect
      ([submit_evidence]); an observation writes nothing and reports a success
      only on evidence ([observed_success], [evaluateObject_ready]); every call
      ends ([calls_bounded]).  The fake control plane has the laws these rest on
      ([fakeapi_laws]) and stays sound whatever it is asked ([handle_sound]).

    - The Pulumi adapter, whatever the host answers: a submission launches at
      most one change, of its own stack, and rejects exactly if it launched
      nothing ([submit_launches]); the application, interpreting its answers,
      agrees ([submit_interpreted]); an observation reads off the paged history
      what a reference reads off the list of records ([observe_exact]); outputs
      come from an envelope of this mapping, resource and generation only
      ([decodeSelectedOutputEnvelope_sound]).

    A few lemmas record where the code differs from its documentation, for
    instance [required_slot_unenforced], [refusal_reveals_existence],
    [blank_reason_never_settles], [gate_class_order],
    [gate_failure_not_replayed], [false_condition_succeeds],
    [oversized_success_rejected] and [source_digest_not_injective].

    The periodic pass observes each resource at most once, ever
    ([periodic_observation_once]): its messages are named after the resource
    alone, and the outbox deduplicates against work that has ended.

    ** Bounds and fuel

    The definitions of the code take no artificial fuel, with two exceptions:
    [wakeFrom] and [observePages] take the number of pages a call visits, and end
    with the verdict [Unfinished] when there are more; the theorems hold for every number of
    pages.  The scheduler [run_call] of [Scenario] takes the number of turns of a
    call, and leaves the call where it is when they run out.  The cycle walk
    recurses on the depth that remains and carries the code's own node budget
    ([MaxDependencyDepth], [MaxCycleTraversalNodes]); the JSON scan recurses on
    the document, the strict decoder of outputs on the levels and keys it still
    allows, the scan of a stack's history on the pages it still may read.  Counters wrap at 2^64 as in Go; theorems that need it assume
    they do not.

    ** What is not modelled

    SQL persistence, the HTTP and command-line front ends, the verification of
    tokens and the OpenTofu adapter are input and output around this core, or
    rest on external engines.  Of the Kubernetes client the reading of
    credentials is left out, of the Pulumi adapter the making of workspace
    directories and the control of its processes.  Of the application service the eager execution
    flows are the next part of the development.  Telemetry never influences
    what is stored. *)

From Stdlib Require Export ZArith Lia Ascii String.
From stdpp Require Export base tactics option list strings gmap sorting relations.
#[export] Set Default Goal Selector "!".

(** ** Go values *)

(** A Go [uint64] is an [N] below [2^64]; the only wrap-around operation the
    modelled code performs on one is [++]. *)
Abbreviation uint64 := N (only parsing).
Definition two64 : N := 18446744073709551616.
Definition MaxUint64 : uint64 := 18446744073709551615.
Definition MaxInt64 : Z := 9223372036854775807.
Definition u64_incr (n : uint64) : uint64 := ((n + 1) mod two64)%N.

(** [time.Time] is the number of nanoseconds since the zero time
    (January 1, year 1, UTC); [IsZero] tests that instant. *)
Abbreviation Time := Z (only parsing).
Definition time_zero : Time := 0%Z.
Definition IsZero (t : Time) : bool := bool_decide (t = time_zero).
Definition Before (t u : Time) : bool := Z.ltb t u.
Definition After (t u : Time) : bool := Z.ltb u t.

(** ** Errors and outcomes *)

(** The values a format string is applied to. *)
Inductive arg :=
  | ArgS (s : string)
  | ArgN (n : N)
  | ArgZ (z : Z)
  | ArgB (b : bool).

(** A violation an application error carries ([application.SpecViolation], the
    violation type of [resourcecontract]); the message the application prints
    is kept as its format and arguments. *)
Record SpecViolation := {
  sv_Path : string;
  sv_Keyword : string;
  sv_Message : string;
  sv_Args : list arg }.

(** [errors.New] package variables are [Sentinel]s, identified by their
    variable; [fmt.Errorf] builds [Errorf], or [Wrapf] when the format wraps a
    cause with [%w]; [Notef] wraps its cause and only prints a second error
    with [%v]; [Rejection] is an error type of the code that carries
    violations. *)
Inductive error :=
  | Sentinel (variable : string)
  | Errorf (format : string) (args : list arg)
  | Wrapf (cause : error) (format : string) (args : list arg)
  | Notef (cause : error) (format : string) (printed : error)
  | Rejection (go_type : string) (violations : list SpecViolation).

#[export] Instance arg_eq_dec : EqDecision arg.
Proof. solve_decision. Defined.
#[export] Instance SpecViolation_eq_dec : EqDecision SpecViolation.
Proof. solve_decision. Defined.
#[export] Instance error_eq_dec : EqDecision error.
Proof. solve_decision. Defined.

(** [errors.Is]: follow the chain of wrapped causes. *)
Fixpoint errors_is (e target : error) : bool :=
  bool_decide (e = target) ||
  match e with
  | Wrapf cause _ _ | Notef cause _ _ => errors_is cause target
  | _ => false
  end.

(** The outcome of a Go call that returns [(A, error)] and may panic. *)
Inductive outcome (A : Type) :=
  | Ok (a : A)
  | Err (e : error)
  | Panic (message : string).
Arguments Ok {A} a.
Arguments Err {A} e.
Arguments Panic {A} message.

#[export] Instance outcome_eq_dec {A} `{EqDecision A} : EqDecision (outcome A).
Proof. solve_decision. Defined.

#[export] Instance outcome_ret : MRet outcome := @Ok.
#[export] Instance outcome_bind : MBind outcome := λ A B f m,
  match m with
  | Ok a => f a
  | Err e => Err e
  | Panic s => Panic s
  end.

Definition is_ok {A} (m : outcome A) : bool :=
  match m with Ok _ => true | _ => false end.

Declare Scope go_scope.
Delimit Scope go_scope with go.

(** [if b { return err }] followed by the rest of the function. *)
Notation "'fail_if' b 'with' e ';;' k" := (if b then Err e else k)
  (at level 100, b at level 99, e at level 99, k at level 200,
   right associativity,
   format "'[v' 'fail_if'  b  'with'  e ';;' '/' k ']'") : go_scope.

(** Go's [==] and [!=] on comparable values. *)
Notation "x =? y" := (bool_decide (x = y)) (at level 70, no associativity) : go_scope.
Notation "x <>? y" := (negb (bool_decide (x = y)))
  (at level 70, no associativity) : go_scope.

(** ** Pointers and field updates *)

(** A nil check followed by a test of the pointee: [p != nil && ...]. *)
Definition non_nil {A} (p : option A) (f : A → bool) : bool :=
  match p with Some x => f x | None => false end.

Lemma non_nil_true {A} (p : option A) f :
  non_nil p f = true ↔ ∃ x, p = Some x ∧ f x = true.
Proof. destruct p; cbn; naive_solver. Qed.

(** [r <| p := v |>] is Go's [r.p = v] on a copied struct.  A record type
    declares its eta expansion once ([Fields]); the setter of a field is that
    expansion with the field's projection replaced. *)
Class Fields (R : Type) := fields : R → R.
Class Setter {R E : Type} (p : R → E) := Build_Setter { set_field : E → R → R }.
Arguments set_field {R E} p {_} _ _ /.

Ltac build_setter R p :=
  let v := fresh "v" in let r := fresh "r" in
  refine (Build_Setter R _ p (λ v r, _));
  let eta := eval hnf in (fields (R:=R) r) in
  lazymatch eta with context C [p r] => let body := context C [v] in exact body end.
#[export] Hint Extern 0 (@Setter ?R _ ?p) => build_setter R p : typeclass_instances.

Notation "r <| p := v |>" := (set_field p v r)
  (at level 1, left associativity, p at level 9, v at level 200,
   format "r  <|  p  :=  v  |>") : go_scope.

Section outcome_lemmas.
Context {A B : Type}.
Implicit Types (m : outcome A) (f : A → outcome B) (b : bool).

Lemma bind_Ok m f y : m ≫= f = Ok y ↔ ∃ x, m = Ok x ∧ f x = Ok y.
Proof. destruct m; cbn; naive_solver. Qed.

Lemma bind_Err m f e :
  m ≫= f = Err e ↔ m = Err e ∨ ∃ x, m = Ok x ∧ f x = Err e.
Proof. destruct m; cbn; naive_solver. Qed.

Lemma bind_Panic m f s :
  m ≫= f = Panic s ↔ m = Panic s ∨ ∃ x, m = Ok x ∧ f x = Panic s.
Proof. destruct m; cbn; naive_solver. Qed.

Lemma fail_if_Ok b e m x :
  (if b then Err e else m) = Ok x ↔ b = false ∧ m = Ok x.
Proof. destruct b; naive_solver. Qed.

Lemma fail_if_Panic b e m s :
  (if b then Err e else m) = Panic s ↔ b = false ∧ m = Panic s.
Proof. destruct b; naive_solver. Qed.

Lemma is_ok_spec m : is_ok m = true ↔ ∃ x, m = Ok x.
Proof. destruct m; cbn; naive_solver. Qed.
End outcome_lemmas.

(** ** strings.TrimSpace

    Go trims every Unicode [White_Space] code point; a Go string is its bytes,
    so the two- and three-byte code points appear as their UTF-8 encodings. *)

Definition space1 (c : ascii) : bool :=
  let n := N_of_ascii c in ((9 <=? n) && (n <=? 13) || (n =? 32))%N.
Definition space2 (c d : ascii) : bool :=
  let n := N_of_ascii c in let k := N_of_ascii d in
  ((n =? 194) && ((k =? 133) || (k =? 160)))%N.
Definition space3 (c d e : ascii) : bool :=
  let n := N_of_ascii c in let k := N_of_ascii d in let j := N_of_ascii e in
  (((n =? 225) && (k =? 154) && (j =? 128)) ||
   ((n =? 226) && (k =? 128) &&
      ((128 <=? j) && (j <=? 138) || (j =? 168) || (j =? 169) || (j =? 175))) ||
   ((n =? 226) && (k =? 129) && (j =? 159)) ||
   ((n =? 227) && (k =? 128) && (j =? 128)))%N.

(** Trim the front; [rev] tells that the bytes are read from the end. *)
Fixpoint trim_bytes (rev : bool) (l : list ascii) : list ascii :=
  match l with
  | [] => []
  | c :: l1 =>
      if space1 c then trim_bytes rev l1 else
      match l1 with
      | [] => l
      | d :: l2 =>
          if (if rev then space2 d c else space2 c d) then trim_bytes rev l2 else
          match l2 with
          | [] => l
          | e :: l3 =>
              if (if rev then space3 e d c else space3 c d e)
              then trim_bytes rev l3 else l
          end
      end
  end.

Definition TrimSpace (s : string) : string :=
  string_of_list_ascii
    (rev (trim_bytes true (rev (trim_bytes false (list_ascii_of_string s))))).

(** [strings.TrimSpace(s) == ""], the code's test for a missing value. *)
Definition blank (s : string) : bool := bool_decide (TrimSpace s = "").

Lemma blank_empty : blank "" = true.
Proof. reflexivity. Qed.

Lemma nonblank_nonempty s : blank s = false → s ≠ "".
Proof. intros H ->. by rewrite blank_empty in H. Qed.

Lemma canonical_blank s : TrimSpace s = s → blank s = bool_decide (s = "").
Proof. unfold blank. by intros ->. Qed.

(** The separator ["\x00"] of composite keys. *)
Definition NUL : string := String "000" EmptyString.

(** ** Sorting: Go's [sort] with a total order *)

Section sorting.
Context {A : Type} (R : relation A) `{!∀ x y, Decision (R x y)}.

Lemma merge_sort_elem_of x (l : list A) : x ∈ merge_sort R l ↔ x ∈ l.
Proof. by rewrite (merge_sort_Permutation R l). Qed.

Lemma merge_sort_unique `{!Transitive R, !AntiSymm (=) R, !Total R} (l k : list A) :
  l ≡ₚ k → merge_sort R l = merge_sort R k.
Proof.
  intros Hlk. apply (StronglySorted_unique R).
  - by apply StronglySorted_merge_sort.
  - by apply StronglySorted_merge_sort.
  - by rewrite !merge_sort_Permutation.
Qed.

Lemma merge_sort_NoDup (l : list A) : NoDup (merge_sort R l) ↔ NoDup l.
Proof. by rewrite (merge_sort_Permutation R l). Qed.
End sorting.

(** A list sorted by a key of a total order is determined by its members when
    no two of them share a key. *)
Lemma sorted_by_key_unique {A K} (key : A → K) (R : relation K) `{!AntiSymm (=) R}
    (l k : list A) :
  NoDup (key <$> l) →
  StronglySorted (λ x y, R (key x) (key y)) l →
  StronglySorted (λ x y, R (key x) (key y)) k →
  l ≡ₚ k → l = k.
Proof.
  intros Hnd Hl Hk Hlk. eapply StronglySorted_unique_strong; [|done..].
  intros x y Hx Hy Hxy Hyx.
  assert (Hkey : key x = key y) by by apply (anti_symm R).
  rewrite <- Hlk in Hy.
  apply list_elem_of_lookup in Hx as [i Hi], Hy as [j Hj].
  assert (i = j) as <-.
  { apply (NoDup_lookup _ _ _ (key x) Hnd); rewrite list_lookup_fmap.
    - by rewrite Hi.
    - by rewrite Hj, Hkey. }
  congruence.
Qed.

(** The order of a comparison that looks at a first key and, when it ties, at
    a second one. *)
Definition pair_le {A B} (R : relation A) (S : relation B) : relation (A * B) :=
  λ x y, (x.1 ≠ y.1 ∧ R x.1 y.1) ∨ (x.1 = y.1 ∧ S x.2 y.2).

Section pair_le.
Context {A B : Type} (R : relation A) (S : relation B) `{!EqDecision A}.

#[export] Instance pair_le_dec `{!RelDecision R, !RelDecision S} : RelDecision (pair_le R S).
Proof. intros x y. unfold pair_le. apply _. Defined.

#[export] Instance pair_le_trans `{!Transitive R, !AntiSymm (=) R, !Transitive S} :
  Transitive (pair_le R S).
Proof.
  intros [a1 b1] [a2 b2] [a3 b3]; unfold pair_le; cbn.
  intros [[Hn Hr]|[-> Hs]] [[Hn' Hr']|[-> Hs']].
  - left. split; [|by etrans]. intros ->. by destruct Hn; apply (anti_symm R).
  - by left.
  - by left.
  - right. split; [done|by etrans].
Qed.

#[export] Instance pair_le_antisymm `{!AntiSymm (=) R, !AntiSymm (=) S} :
  AntiSymm (=) (pair_le R S).
Proof.
  intros [a1 b1] [a2 b2]; unfold pair_le; cbn. intros [[Hn Hr]|[-> Hs]] [[Hn' Hr']|[? Hs']].
  - by destruct Hn; apply (anti_symm R).
  - congruence.
  - congruence.
  - f_equal. by apply (anti_symm S).
Qed.

#[export] Instance pair_le_total `{!Total R, !Total S} : Total (pair_le R S).
Proof.
  intros [a1 b1] [a2 b2]; unfold pair_le; cbn.
  destruct (decide (a1 = a2)) as [->|Hn].
  - destruct (total S b1 b2); [left|right]; by right.
  - destruct (total R a1 a2); [left|right]; left; by split.
Qed.
End pair_le.

(** ** Sorting by a key *)

Section sort_by.
Context {A K : Type} (key : A → K) (R : relation K).
Context `{!∀ x y, Decision (R x y), !EqDecision K}.
Context `{!Reflexive R, !Transitive R, !AntiSymm (=) R, !Total R}.

Definition by_key : relation A := λ x y, R (key x) (key y).

#[local] Instance by_key_dec x y : Decision (by_key x y).
Proof. unfold by_key. apply _. Defined.

(** [sort.Slice] with [key(a) < key(b)], for distinct keys: the sorted order is
    then unique, so the instability of Go's sort does not show. *)
Definition sort_by (l : list A) : list A := merge_sort by_key l.

(** The first key that two neighbours share. *)
Fixpoint adjacent_duplicate (l : list A) : option K :=
  match l with
  | [] => None
  | x :: l' =>
      match l' with
      | [] => None
      | y :: _ => if bool_decide (key y = key x) then Some (key y) else adjacent_duplicate l'
      end
  end.

#[local] Instance by_key_trans : Transitive by_key.
Proof. intros x y z. unfold by_key. apply transitivity. Qed.
#[local] Instance by_key_total : Total by_key.
Proof. intros x y. apply (total R). Qed.

Lemma sort_by_Permutation l : sort_by l ≡ₚ l.
Proof. apply merge_sort_Permutation. Qed.

Lemma sort_by_sorted l : StronglySorted by_key (sort_by l).
Proof. apply StronglySorted_merge_sort; apply _. Qed.

Lemma sort_by_elem_of x l : x ∈ sort_by l ↔ x ∈ l.
Proof. by rewrite sort_by_Permutation. Qed.

Lemma sort_by_unique l k :
  NoDup (key <$> l) → l ≡ₚ k → sort_by l = sort_by k.
Proof.
  intros Hnd Hlk. apply (sorted_by_key_unique key R).
  - by rewrite sort_by_Permutation.
  - apply sort_by_sorted.
  - apply sort_by_sorted.
  - by rewrite !sort_by_Permutation.
Qed.

Lemma adjacent_duplicate_None l :
  StronglySorted by_key l → adjacent_duplicate l = None ↔ NoDup (key <$> l).
Proof.
  induction 1 as [|x l Hl IH Hx]; cbn; [split; [constructor|done]|].
  rewrite NoDup_cons. destruct l as [|y l].
  { split; [|done]. intros _. split; [by apply not_elem_of_nil|constructor]. }
  destruct (bool_decide_reflect (key y = key x)) as [E|E].
  { split; [done|]. intros [[] _]. cbn. rewrite E. by left. }
  rewrite IH. split; [|by intros [_ ?]]. intros Hnd. split; [|done].
  intros (z & Hz & Hin)%list_elem_of_fmap. destruct E.
  inversion Hl as [|? ? Hl' Hy]; subst. inversion Hx as [|? ? Hxy Hxl]; subst.
  apply (anti_symm R); [|done].
  apply elem_of_cons in Hin as [->|Hin]; [by rewrite Hz|].
  rewrite Hz. by apply (proj1 (Forall_forall _ _) Hy).
Qed.

Lemma sort_by_adjacent l : adjacent_duplicate (sort_by l) = None ↔ NoDup (key <$> l).
Proof. rewrite adjacent_duplicate_None by apply sort_by_sorted. by rewrite sort_by_Permutation. Qed.
End sort_by.

(** Byte-wise order of strings. *)
Abbreviation string_le := String.le (only parsing).

(** Members of a list whose keys are distinct are determined by their key. *)
Lemma NoDup_fmap_inj {A K} (key : A → K) (l : list A) x y :
  NoDup (key <$> l) → x ∈ l → y ∈ l → key x = key y → x = y.
Proof.
  intros Hnd [i Hi]%list_elem_of_lookup [j Hj]%list_elem_of_lookup Hxy.
  assert (i = j) as ->; [|congruence].
  apply (NoDup_lookup _ _ _ (key x) Hnd); rewrite list_lookup_fmap; [by rewrite Hi|].
  by rewrite Hj, Hxy.
Qed.

(** ** Automation *)

Create Rewrite HintDb go_bool.
#[export] Hint Rewrite
  orb_false_iff orb_true_iff andb_true_iff andb_false_iff negb_true_iff negb_false_iff
  @bool_decide_eq_true @bool_decide_eq_false
  Z.ltb_lt Z.ltb_ge Z.leb_le Z.leb_gt Z.eqb_eq Z.eqb_neq
  N.ltb_lt N.ltb_ge N.leb_le N.leb_gt N.eqb_eq N.eqb_neq : go_bool.

(** Turn boolean equations of hypotheses into propositions. *)
Ltac bool_facts :=
  unfold IsZero, Before, After, time_zero in *;
  autorewrite with go_bool in *.

(** Open the successful runs in the hypotheses. *)
Ltac ok_inv :=
  repeat match goal with
  | H : mbind _ _ = Ok _ |- _ => apply bind_Ok in H as (? & ? & ?)
  | H : (if _ then Err _ else _) = Ok _ |- _ => apply fail_if_Ok in H as [? ?]
  | H : Ok _ = Ok _ |- _ => injection H as H; subst
  | H : mret _ = Ok _ |- _ => injection H as H; subst
  | H : Err _ = Ok _ |- _ => discriminate H
  | H : Panic _ = Ok _ |- _ => discriminate H
  | H : match ?x with pair _ _ => _ end = Ok _ |- _ => is_var x; destruct x
  end.

(** Compute the decisions between closed values that the goal contains. *)
Ltac eval_decides :=
  repeat match goal with
  | |- context [@bool_decide ?P ?d] =>
      let v := eval vm_compute in (@bool_decide P d) in
      lazymatch v with
      | true => change (@bool_decide P d) with true
      | false => change (@bool_decide P d) with false
      end
  end; cbn.

Ltac eval_decides_in H :=
  repeat match type of H with
  | context [@bool_decide ?P ?d] =>
      let v := eval vm_compute in (@bool_decide P d) in
      lazymatch v with
      | true => change (@bool_decide P d) with true in H
      | false => change (@bool_decide P d) with false in H
      end
  end; cbn in H.

Ltac conj_solve := split_and!; first [done | lia | discriminate].

(** Case analysis on the conditions of a branching hypothesis. *)
Ltac case_if_in H :=
  match type of H with
  | context [if ?b then _ else _] => destruct b eqn:?; cbv iota in H
  end.
