(* ===== verification/Operation.v ===== *)
(** * Operations: the asynchronous lifecycle state machine

    Models [src/internal/domain/operation.go] and the capability vocabulary of
    [src/internal/domain/resource_type.go]: the [Operation] record, its
    constructor, its persistence snapshot, the four transitions and the legal
    phase order per capability.  Methods with a pointer receiver return the
    updated operation. *)

From S2P Require Import Prelude.
Open Scope string_scope.
Open Scope go_scope.

(** ** Identifiers, capabilities, states and phases *)

Abbreviation OperationID := string (only parsing).
Abbreviation ResourceID := string (only parsing).

Abbreviation Capability := string (only parsing).
Definition CapabilityCreate : Capability := "create".
Definition CapabilityUpdate : Capability := "update".
Definition CapabilityDelete : Capability := "delete".
Definition CapabilityObserve : Capability := "observe".

Abbreviation OperationState := string (only parsing).
Definition OperationStatePending : OperationState := "Pending".
Definition OperationStateRunning : OperationState := "Running".
Definition OperationStateSucceeded : OperationState := "Succeeded".
Definition OperationStateFailed : OperationState := "Failed".
Definition OperationStateCanceled : OperationState := "Canceled".

Abbreviation OperationPhase := string (only parsing).
Definition OperationPhaseRequested : OperationPhase := "Requested".
Definition OperationPhaseValidating : OperationPhase := "Validating".
Definition OperationPhasePlanning : OperationPhase := "Planning".
Definition OperationPhaseApplying : OperationPhase := "Applying".
Definition OperationPhaseDestroying : OperationPhase := "Destroying".

Definition ErrInvalidOperationTransition : error :=
  Sentinel "domain.ErrInvalidOperationTransition".

Record OperationFailure := { failure_reason : string; failure_message : string }.

Record Operation := {
  op_id : OperationID;
  op_resourceID : ResourceID;
  op_capability : Capability;
  op_targetGeneration : uint64;
  op_retryOf : OperationID;
  op_state : OperationState;
  op_phase : OperationPhase;
  op_requestedAt : Time;
  op_startedAt : Time;
  op_phaseChangedAt : Time;
  op_completedAt : Time;
  op_failure : option OperationFailure }.

Record OperationSnapshot := {
  os_ID : OperationID;
  os_ResourceID : ResourceID;
  os_Capability : Capability;
  os_TargetGeneration : uint64;
  os_RetryOfOperationID : OperationID;
  os_State : OperationState;
  os_Phase : OperationPhase;
  os_RequestedAt : Time;
  os_StartedAt : Time;
  os_PhaseChangedAt : Time;
  os_CompletedAt : Time;
  os_FailureReason : string;
  os_FailureMessage : string }.

#[export] Instance OperationFailure_eq_dec : EqDecision OperationFailure.
Proof. solve_decision. Defined.
#[export] Instance Operation_eq_dec : EqDecision Operation.
Proof. solve_decision. Defined.

(** ** Construction *)

Definition Capability_validate (c : Capability) : outcome unit :=
  fail_if blank c with Errorf "capability is required" [] ;;
  fail_if c <>? TrimSpace c
    with Errorf "capability %q cannot contain surrounding whitespace" [ArgS c] ;;
  Ok tt.

Definition validOperationState (state : OperationState) : bool :=
  (state =? OperationStatePending) || (state =? OperationStateRunning) ||
  (state =? OperationStateSucceeded) || (state =? OperationStateFailed) ||
  (state =? OperationStateCanceled).

Definition validOperationPhase (phase : OperationPhase) : bool :=
  (phase =? OperationPhaseRequested) || (phase =? OperationPhaseValidating) ||
  (phase =? OperationPhasePlanning) || (phase =? OperationPhaseApplying) ||
  (phase =? OperationPhaseDestroying).

(** The variadic [retryOf ...OperationID] is a list. *)
Definition NewOperation (id : OperationID) (resourceID : ResourceID)
    (capability : Capability) (targetGeneration : uint64) (requestedAt : Time)
    (retryOf : list OperationID) : outcome Operation :=
  fail_if blank id with Errorf "operation ID is required" [] ;;
  fail_if blank resourceID with Errorf "resource ID is required" [] ;;
  Capability_validate capability ≫= λ _,
  fail_if targetGeneration =? 0%N
    with Errorf "operation target generation must be greater than zero" [] ;;
  fail_if IsZero requestedAt with Errorf "operation request time is required" [] ;;
  fail_if Nat.ltb 1 (length retryOf)
    with Errorf "operation may retry at most one operation" [] ;;
  match retryOf with
  | [r] =>
      fail_if blank r && (r <>? "")
        with Errorf "retry operation ID cannot be blank" [] ;;
      fail_if r =? id with Errorf "operation cannot retry itself" [] ;;
      Ok r
  | _ => Ok ""
  end ≫= λ retryOfOperationID,
  Ok {| op_id := id; op_resourceID := resourceID; op_capability := capability;
        op_targetGeneration := targetGeneration; op_retryOf := retryOfOperationID;
        op_state := OperationStatePending; op_phase := OperationPhaseRequested;
        op_requestedAt := requestedAt; op_startedAt := time_zero;
        op_phaseChangedAt := requestedAt; op_completedAt := time_zero;
        op_failure := None |}.

(** [RestoreOperation] checks the start time by state: absent when pending,
    required when running or succeeded, optional otherwise. *)
Definition restoreStartTimes (s : OperationSnapshot) : outcome unit :=
  if os_State s =? OperationStatePending then
    fail_if (os_Phase s <>? OperationPhaseRequested) ||
            negb (IsZero (os_StartedAt s)) || negb (IsZero (os_CompletedAt s))
      with Errorf "invalid pending operation snapshot" [] ;; Ok tt
  else if (os_State s =? OperationStateRunning) ||
          (os_State s =? OperationStateSucceeded) then
    fail_if IsZero (os_StartedAt s) || Before (os_StartedAt s) (os_RequestedAt s)
      with Errorf "invalid operation start time" [] ;; Ok tt
  else
    fail_if negb (IsZero (os_StartedAt s)) && Before (os_StartedAt s) (os_RequestedAt s)
      with Errorf "invalid operation start time" [] ;; Ok tt.

Definition restoreFailure (s : OperationSnapshot) : outcome (option OperationFailure) :=
  if os_State s =? OperationStateFailed then
    fail_if blank (os_FailureReason s)
      with Errorf "failed operation reason is required" [] ;;
    Ok (Some {| failure_reason := os_FailureReason s;
                failure_message := os_FailureMessage s |})
  else
    fail_if (os_FailureReason s <>? "") || (os_FailureMessage s <>? "")
      with Errorf "non-failed operation cannot contain failure" [] ;;
    Ok None.

Definition RestoreOperation (s : OperationSnapshot) : outcome Operation :=
  NewOperation (os_ID s) (os_ResourceID s) (os_Capability s) (os_TargetGeneration s)
    (os_RequestedAt s) [os_RetryOfOperationID s] ≫= λ operation,
  fail_if IsZero (os_PhaseChangedAt s) ||
          Before (os_PhaseChangedAt s) (os_RequestedAt s)
    with Errorf "operation phase change time is invalid" [] ;;
  fail_if negb (validOperationState (os_State s)) ||
          negb (validOperationPhase (os_Phase s))
    with Errorf "invalid persisted operation state or phase" [] ;;
  restoreStartTimes s ≫= λ _,
  let terminal := (os_State s =? OperationStateSucceeded) ||
                  (os_State s =? OperationStateFailed) ||
                  (os_State s =? OperationStateCanceled) in
  fail_if negb (Bool.eqb terminal (negb (IsZero (os_CompletedAt s))))
    with Errorf "operation completion time does not match terminal state" [] ;;
  fail_if terminal && Before (os_CompletedAt s) (os_PhaseChangedAt s)
    with Errorf "operation completion precedes its phase" [] ;;
  restoreFailure s ≫= λ failure,
  Ok {| op_id := op_id operation; op_resourceID := op_resourceID operation;
        op_capability := op_capability operation;
        op_targetGeneration := op_targetGeneration operation;
        op_retryOf := op_retryOf operation;
        op_state := os_State s; op_phase := os_Phase s;
        op_requestedAt := op_requestedAt operation;
        op_startedAt := os_StartedAt s; op_phaseChangedAt := os_PhaseChangedAt s;
        op_completedAt := os_CompletedAt s; op_failure := failure |}.

(** ** Transitions *)

Definition IsTerminal (o : Operation) : bool :=
  (op_state o =? OperationStateSucceeded) || (op_state o =? OperationStateFailed) ||
  (op_state o =? OperationStateCanceled).

Definition validateTransitionTime (o : Operation) (at_ : Time) : outcome unit :=
  fail_if IsZero at_ with Errorf "operation transition time is required" [] ;;
  fail_if Before at_ (op_requestedAt o)
    with Errorf "operation transition cannot precede its request" [] ;;
  fail_if Before at_ (op_phaseChangedAt o)
    with Errorf "operation transition cannot precede its current phase" [] ;;
  Ok tt.

Definition canAdvanceTo (o : Operation) (next : OperationPhase) : bool :=
  if op_state o =? OperationStatePending then
    (op_phase o =? OperationPhaseRequested) && (next =? OperationPhaseValidating)
  else if op_state o <>? OperationStateRunning then false
  else if (op_capability o =? CapabilityCreate) ||
          (op_capability o =? CapabilityUpdate) then
    ((op_phase o =? OperationPhaseValidating) && (next =? OperationPhasePlanning)) ||
    ((op_phase o =? OperationPhasePlanning) && (next =? OperationPhaseApplying))
  else if op_capability o =? CapabilityDelete then
    (op_phase o =? OperationPhaseValidating) && (next =? OperationPhaseDestroying)
  else false.

Definition isFinalPhase (o : Operation) : bool :=
  if (op_capability o =? CapabilityCreate) || (op_capability o =? CapabilityUpdate)
  then op_phase o =? OperationPhaseApplying
  else if op_capability o =? CapabilityDelete
  then op_phase o =? OperationPhaseDestroying
  else false.

Definition AdvancePhase (o : Operation) (next : OperationPhase) (changedAt : Time)
    : outcome Operation :=
  fail_if IsTerminal o
    with Wrapf ErrInvalidOperationTransition
      "%w: cannot change phase of operation in state %s" [ArgS (op_state o)] ;;
  fail_if negb (canAdvanceTo o next)
    with Wrapf ErrInvalidOperationTransition
      "%w: cannot move %s operation from phase %s to %s"
      [ArgS (op_capability o); ArgS (op_phase o); ArgS next] ;;
  validateTransitionTime o changedAt ≫= λ _,
  let pending := op_state o =? OperationStatePending in
  Ok {| op_id := op_id o; op_resourceID := op_resourceID o;
        op_capability := op_capability o; op_targetGeneration := op_targetGeneration o;
        op_retryOf := op_retryOf o;
        op_state := if pending then OperationStateRunning else op_state o;
        op_phase := next; op_requestedAt := op_requestedAt o;
        op_startedAt := if pending then changedAt else op_startedAt o;
        op_phaseChangedAt := changedAt; op_completedAt := op_completedAt o;
        op_failure := op_failure o |}.

Definition Start (o : Operation) (startedAt : Time) : outcome Operation :=
  AdvancePhase o OperationPhaseValidating startedAt.

Definition complete (o : Operation) (state : OperationState) (completedAt : Time)
    (failure : option OperationFailure) : outcome Operation :=
  validateTransitionTime o completedAt ≫= λ _,
  Ok {| op_id := op_id o; op_resourceID := op_resourceID o;
        op_capability := op_capability o; op_targetGeneration := op_targetGeneration o;
        op_retryOf := op_retryOf o; op_state := state; op_phase := op_phase o;
        op_requestedAt := op_requestedAt o; op_startedAt := op_startedAt o;
        op_phaseChangedAt := op_phaseChangedAt o; op_completedAt := completedAt;
        op_failure := failure |}.

Definition Succeed (o : Operation) (completedAt : Time) : outcome Operation :=
  fail_if op_state o <>? OperationStateRunning
    with Wrapf ErrInvalidOperationTransition
      "%w: cannot succeed operation in state %s" [ArgS (op_state o)] ;;
  fail_if negb (isFinalPhase o)
    with Wrapf ErrInvalidOperationTransition
      "%w: cannot succeed %s operation in phase %s"
      [ArgS (op_capability o); ArgS (op_phase o)] ;;
  complete o OperationStateSucceeded completedAt None.

Definition Fail (o : Operation) (reason message : string) (completedAt : Time)
    : outcome Operation :=
  fail_if (op_state o <>? OperationStatePending) && (op_state o <>? OperationStateRunning)
    with Wrapf ErrInvalidOperationTransition
      "%w: cannot fail operation in state %s" [ArgS (op_state o)] ;;
  fail_if blank reason with Errorf "operation failure reason is required" [] ;;
  complete o OperationStateFailed completedAt
    (Some {| failure_reason := reason; failure_message := message |}).

Definition Cancel (o : Operation) (completedAt : Time) : outcome Operation :=
  fail_if (op_state o <>? OperationStatePending) && (op_state o <>? OperationStateRunning)
    with Wrapf ErrInvalidOperationTransition
      "%w: cannot cancel operation in state %s" [ArgS (op_state o)] ;;
  complete o OperationStateCanceled completedAt None.

(** The snapshot the persistence layer writes; the failure strings are empty
    when there is no failure. *)
Definition snapshot (o : Operation) : OperationSnapshot :=
  {| os_ID := op_id o; os_ResourceID := op_resourceID o;
     os_Capability := op_capability o; os_TargetGeneration := op_targetGeneration o;
     os_RetryOfOperationID := op_retryOf o; os_State := op_state o;
     os_Phase := op_phase o; os_RequestedAt := op_requestedAt o;
     os_StartedAt := op_startedAt o; os_PhaseChangedAt := op_phaseChangedAt o;
     os_CompletedAt := op_completedAt o;
     os_FailureReason := match op_failure o with
                         | Some f => failure_reason f | None => "" end;
     os_FailureMessage := match op_failure o with
                          | Some f => failure_message f | None => "" end |}.

(** ** Transitions as a step relation *)

Inductive op_step (o : Operation) : Operation → Prop :=
  | step_advance next at_ o' : AdvancePhase o next at_ = Ok o' → op_step o o'
  | step_succeed at_ o' : Succeed o at_ = Ok o' → op_step o o'
  | step_fail reason message at_ o' : Fail o reason message at_ = Ok o' → op_step o o'
  | step_cancel at_ o' : Cancel o at_ = Ok o' → op_step o o'.

Inductive op_reachable : Operation → Prop :=
  | reachable_new id resourceID capability gen at_ retryOf o :
      NewOperation id resourceID capability gen at_ retryOf = Ok o → op_reachable o
  | reachable_step o o' : op_reachable o → op_step o o' → op_reachable o'.

(** The operation as it was when it was constructed. *)
Definition initial (o : Operation) : Operation :=
  {| op_id := op_id o; op_resourceID := op_resourceID o;
     op_capability := op_capability o; op_targetGeneration := op_targetGeneration o;
     op_retryOf := op_retryOf o; op_state := OperationStatePending;
     op_phase := OperationPhaseRequested; op_requestedAt := op_requestedAt o;
     op_startedAt := time_zero; op_phaseChangedAt := op_requestedAt o;
     op_completedAt := time_zero; op_failure := None |}.

(** A phase an operation of this capability can be in once it has started. *)
Definition started_phase (c : Capability) (p : OperationPhase) : Prop :=
  p = OperationPhaseValidating ∨
  ((c = CapabilityCreate ∨ c = CapabilityUpdate) ∧
     (p = OperationPhasePlanning ∨ p = OperationPhaseApplying)) ∨
  (c = CapabilityDelete ∧ p = OperationPhaseDestroying).

(** The well-formedness invariant of an operation. *)
Record op_wf (o : Operation) : Prop := {
  wf_header : NewOperation (op_id o) (op_resourceID o) (op_capability o)
    (op_targetGeneration o) (op_requestedAt o) [op_retryOf o] = Ok (initial o);
  wf_state : validOperationState (op_state o) = true;
  wf_times : op_requestedAt o ≠ time_zero ∧ op_phaseChangedAt o ≠ time_zero ∧
    (op_requestedAt o ≤ op_phaseChangedAt o)%Z;
  wf_phase :
    (op_phase o = OperationPhaseRequested ∧ op_startedAt o = time_zero ∧
     op_state o ≠ OperationStateRunning ∧ op_state o ≠ OperationStateSucceeded) ∨
    (started_phase (op_capability o) (op_phase o) ∧ op_startedAt o ≠ time_zero ∧
     (op_requestedAt o ≤ op_startedAt o ≤ op_phaseChangedAt o)%Z ∧
     op_state o ≠ OperationStatePending);
  wf_succeeded : op_state o = OperationStateSucceeded → isFinalPhase o = true;
  wf_completed :
    if IsTerminal o
    then op_completedAt o ≠ time_zero ∧ (op_phaseChangedAt o ≤ op_completedAt o)%Z
    else op_completedAt o = time_zero;
  wf_failure : match op_failure o with
    | Some f => op_state o = OperationStateFailed ∧ blank (failure_reason f) = false
    | None => op_state o ≠ OperationStateFailed
    end }.

(** How many transitions an operation still has. *)
Definition op_rank (o : Operation) : nat :=
  if IsTerminal o then 0
  else if op_state o =? OperationStatePending then 4
  else if op_phase o =? OperationPhaseValidating then 3
  else if op_phase o =? OperationPhasePlanning then 2
  else 1.

(** ** Lemmas *)

(** Unfold the state, phase and capability constants. *)
Ltac op_consts :=
  unfold OperationStatePending, OperationStateRunning, OperationStateSucceeded,
    OperationStateFailed, OperationStateCanceled, OperationPhaseRequested,
    OperationPhaseValidating, OperationPhasePlanning, OperationPhaseApplying,
    OperationPhaseDestroying, CapabilityCreate, CapabilityUpdate,
    CapabilityDelete in *.

Lemma validateTransitionTime_ok o at_ u :
  validateTransitionTime o at_ = Ok u →
  at_ ≠ time_zero ∧ (op_requestedAt o ≤ at_)%Z ∧ (op_phaseChangedAt o ≤ at_)%Z.
Proof. unfold validateTransitionTime. intros. ok_inv. bool_facts. naive_solver lia. Qed.

Lemma validateTransitionTime_accepts o at_ :
  at_ ≠ time_zero → (op_requestedAt o ≤ at_)%Z → (op_phaseChangedAt o ≤ at_)%Z →
  validateTransitionTime o at_ = Ok tt.
Proof.
  intros Hz Hr Hp. unfold validateTransitionTime, IsZero, Before, time_zero in *.
  rewrite bool_decide_eq_false_2 by done.
  by rewrite (proj2 (Z.ltb_ge _ _) Hr), (proj2 (Z.ltb_ge _ _) Hp).
Qed.

Lemma NewOperation_header id resourceID capability gen at_ retryOf o :
  NewOperation id resourceID capability gen at_ retryOf = Ok o →
  o = initial o ∧ at_ ≠ time_zero ∧ op_requestedAt o = at_ ∧ id ≠ "" ∧
  op_id o = id ∧ op_resourceID o = resourceID ∧ op_capability o = capability ∧
  op_targetGeneration o = gen ∧
  NewOperation id resourceID capability gen at_ [op_retryOf o] = Ok o.
Proof.
  unfold NewOperation. intros H. ok_inv. cbn [op_id op_resourceID op_capability
    op_targetGeneration op_retryOf op_requestedAt length Nat.ltb Nat.leb].
  match goal with H : blank id = _ |- _ => rename H into Hid end.
  match goal with H : IsZero at_ = _ |- _ => rename H into Hat end.
  match goal with H : match retryOf with _ => _ end = _ |- _ => rename H into Hr end.
  split_and!; try done.
  - intros ->. by bool_facts.
  - by apply nonblank_nonempty.
  - assert (("" =? id) = false) as Hne
      by (apply bool_decide_eq_false_2; intros <-; done).
    destruct retryOf as [|r [|? ?]]; ok_inv; cbn;
      change (blank "" && ("" <>? "")) with false;
      by repeat match goal with H : _ = _ |- _ => rewrite H; clear H; cbn end.
Qed.

(** Transitions keep the identity and the intent of an operation. *)
Lemma step_initial o o' : op_step o o' → initial o' = initial o.
Proof.
  destruct 1 as [next at_ o' H|at_ o' H|reason message at_ o' H|at_ o' H];
    unfold AdvancePhase, Succeed, Fail, Cancel, complete in H; by ok_inv.
Qed.

Lemma canAdvanceTo_running o next :
  canAdvanceTo o next = true → op_state o ≠ OperationStatePending →
  op_state o = OperationStateRunning ∧
  started_phase (op_capability o) next ∧ op_phase o ≠ OperationPhaseRequested.
Proof.
  unfold canAdvanceTo, started_phase. intros H Hp.
  repeat case_if_in H; bool_facts; try done; op_consts; intuition congruence.
Qed.

Lemma new_wf id resourceID capability gen at_ retryOf o :
  NewOperation id resourceID capability gen at_ retryOf = Ok o → op_wf o.
Proof.
  intros H. apply NewOperation_header in H as (Hi & Hat & Hreq & _ & ? & ? & ? & ? & Hnew).
  destruct o. unfold initial in *; cbn in *; subst. injection Hi as -> -> -> -> -> ->.
  split; cbn; try done. left. by split_and!.
Qed.

Lemma advance_wf o o' next at_ : op_wf o → AdvancePhase o next at_ = Ok o' → op_wf o'.
Proof.
  intros [Hh Hs (Hr & Hp & Hrp) Hph Hsuc Hc Hf] H.
  unfold AdvancePhase in H. ok_inv.
  match goal with H : validateTransitionTime _ _ = _ |- _ =>
    apply validateTransitionTime_ok in H as (Hz & Hat & Hpat) end.
  rename H into Hterm, H0 into Hcan. rewrite Hterm in Hc.
  apply negb_false_iff in Hcan.
  destruct (decide (op_state o = OperationStatePending)) as [E|E].
  - rewrite (bool_decide_eq_true_2 _ E).
    assert (next = OperationPhaseValidating) as ->.
    { unfold canAdvanceTo in Hcan. rewrite (bool_decide_eq_true_2 _ E) in Hcan.
      bool_facts. tauto. }
    split; cbn; try done.
    + right. split_and!; try done. by left.
    + destruct (op_failure o); [|done]. destruct Hf as [Hf _]. by rewrite Hf in E.
  - rewrite (bool_decide_eq_false_2 _ E).
    apply canAdvanceTo_running in Hcan as (Hrun & Hst & Hreq); [|done].
    destruct Hph as [(? & ?)|(? & ? & ? & ?)]; [done|].
    split; cbn; try done.
    + right. split_and!; try done; lia.
    + rewrite Hrun. discriminate.
    + unfold IsTerminal in *. cbn. by rewrite Hterm.
Qed.

Lemma complete_wf o o' state at_ failure :
  op_wf o → IsTerminal o = false → complete o state at_ failure = Ok o' →
  (state = OperationStateSucceeded ∧ failure = None ∧ isFinalPhase o = true ∧
     op_state o = OperationStateRunning) ∨
  (state = OperationStateFailed ∧
     ∃ f, failure = Some f ∧ blank (failure_reason f) = false) ∨
  (state = OperationStateCanceled ∧ failure = None) →
  op_wf o'.
Proof.
  intros [Hh Hs Ht Hph Hsuc Hc Hf] Hterm H Hcase.
  unfold complete in H. ok_inv.
  match goal with H : validateTransitionTime _ _ = _ |- _ =>
    apply validateTransitionTime_ok in H as (Hz & Hat & Hpat) end.
  destruct Hcase as [(-> & -> & Hfin & Hrun)|[(-> & f & -> & Hb)|(-> & ->)]];
    (split; cbn; [done|done|done| |try done; discriminate|done|try done; discriminate]).
  - right. destruct Hph as [(? & ? & ? & ?)|(? & ? & ? & ?)]; [done|].
    conj_solve.
  - destruct Hph as [(? & ? & ? & ?)|(? & ? & ? & ?)]; [left|right]; conj_solve.
  - destruct Hph as [(? & ? & ? & ?)|(? & ? & ? & ?)]; [left|right]; conj_solve.
Qed.

Lemma nonterminal_states o :
  validOperationState (op_state o) = true → IsTerminal o = false →
  op_state o = OperationStatePending ∨ op_state o = OperationStateRunning.
Proof. unfold validOperationState, IsTerminal. intros. bool_facts. intuition. Qed.

Lemma active_nonterminal o :
  op_state o = OperationStatePending ∨ op_state o = OperationStateRunning →
  IsTerminal o = false.
Proof. unfold IsTerminal. by intros [->| ->]. Qed.

Lemma not_pending_nor_running o :
  (op_state o <>? OperationStatePending) && (op_state o <>? OperationStateRunning) = false ↔
  op_state o = OperationStatePending ∨ op_state o = OperationStateRunning.
Proof. rewrite andb_false_iff, !negb_false_iff. by rewrite !bool_decide_eq_true. Qed.

Lemma step_wf o o' : op_wf o → op_step o o' → op_wf o'.
Proof.
  intros Hwf [next at_ o1 H|at_ o1 H|reason message at_ o1 H|at_ o1 H].
  - by eapply advance_wf.
  - unfold Succeed in H. ok_inv.
    match goal with H : (op_state o <>? _) = false |- _ =>
      apply negb_false_iff, bool_decide_eq_true in H end.
    eapply complete_wf; [done|apply active_nonterminal; by right|done|].
    left. split_and!; try done. by apply negb_false_iff.
  - unfold Fail in H. ok_inv.
    match goal with H : _ && _ = false |- _ => apply not_pending_nor_running in H end.
    eapply complete_wf; [done|by apply active_nonterminal|done|].
    right. left. eauto.
  - unfold Cancel in H. ok_inv.
    match goal with H : _ && _ = false |- _ => apply not_pending_nor_running in H end.
    eapply complete_wf; [done|by apply active_nonterminal|done|]. tauto.
Qed.

Lemma reachable_wf o : op_reachable o → op_wf o.
Proof. induction 1; eauto using new_wf, step_wf. Qed.

Lemma op_rank_step o o' : op_step o o' → (op_rank o' < op_rank o)%nat.
Proof.
  intros [next at_ o1 H|at_ o1 H|reason message at_ o1 H|at_ o1 H].
  - unfold AdvancePhase in H. ok_inv. rename H into Hterm, H0 into Hcan.
    apply negb_false_iff in Hcan. unfold op_rank at 2. rewrite Hterm.
    unfold canAdvanceTo in Hcan. unfold op_rank, IsTerminal. cbn.
    destruct (op_state o =? OperationStatePending) eqn:E1.
    { apply andb_true_iff in Hcan as [_ Hn]. apply bool_decide_eq_true in Hn as ->.
      eval_decides. lia. }
    case_if_in Hcan; [done|]. apply negb_false_iff, bool_decide_eq_true in Heqb as ->.
    cbn. repeat case_if_in Hcan; bool_facts;
      [destruct Hcan as [[-> ->]|[-> ->]]|destruct Hcan as [-> ->]|done]; eval_decides; lia.
  - unfold Succeed, complete in H. ok_inv.
    match goal with H : (op_state o <>? _) = false |- _ =>
      apply negb_false_iff, bool_decide_eq_true in H; rename H into E end.
    unfold op_rank, IsTerminal. rewrite E. eval_decides. repeat case_match; lia.
  - unfold Fail, complete in H. ok_inv.
    match goal with H : _ && _ = false |- _ => apply not_pending_nor_running in H; rename H into E end.
    unfold op_rank. rewrite (active_nonterminal o) by done. unfold IsTerminal.
    eval_decides. repeat case_match; lia.
  - unfold Cancel, complete in H. ok_inv.
    match goal with H : _ && _ = false |- _ => apply not_pending_nor_running in H; rename H into E end.
    unfold op_rank. rewrite (active_nonterminal o) by done. unfold IsTerminal.
    eval_decides. repeat case_match; lia.
Qed.

Lemma op_rank_le o : (op_rank o ≤ 4)%nat.
Proof. unfold op_rank. repeat case_match; lia. Qed.

Lemma terminal_no_step o o' : IsTerminal o = true → ¬ op_step o o'.
Proof.
  intros Ht Hs. apply op_rank_step in Hs. unfold op_rank in Hs at 2. rewrite Ht in Hs. lia.
Qed.

Lemma restore_start_wf o :
  op_wf o → ∃ u, restoreStartTimes (snapshot o) = Ok u.
Proof.
  intros [_ Hs _ Hph _ Hc _]. unfold restoreStartTimes, snapshot; cbn.
  destruct Hph as [(Hr & Hst & Hnr & Hns)|(_ & Hst & Hle & Hnp)].
  - rewrite Hr, Hst. rewrite (bool_decide_eq_false_2 _ Hnr), (bool_decide_eq_false_2 _ Hns).
    cbn. destruct (op_state o =? OperationStatePending) eqn:E; cbn; [|eauto].
    unfold IsTerminal in Hc. apply bool_decide_eq_true in E. rewrite E in Hc.
    cbn in Hc. rewrite Hc. cbn. eauto.
  - rewrite (bool_decide_eq_false_2 _ Hnp).
    assert (Before (op_startedAt o) (op_requestedAt o) = false) as ->
      by (unfold Before; apply Z.ltb_ge; lia).
    assert (IsZero (op_startedAt o) = false) as -> by (by apply bool_decide_eq_false_2).
    cbn. destruct (_ || _); eauto.
Qed.

Lemma restore_wf o : op_wf o → RestoreOperation (snapshot o) = Ok o.
Proof.
  intros Hwf. destruct (restore_start_wf o Hwf) as [u Hu].
  destruct Hwf as [Hh Hs (Hr & Hp & Hrp) Hph Hsuc Hc Hf].
  unfold RestoreOperation. rewrite Hu. cbn. rewrite Hh. cbn.
  assert (IsZero (op_phaseChangedAt o) || Before (op_phaseChangedAt o) (op_requestedAt o)
          = false) as ->.
  { unfold IsZero, Before. rewrite bool_decide_eq_false_2 by done. apply Z.ltb_ge. lia. }
  assert (validOperationPhase (op_phase o) = true) as ->.
  { unfold validOperationPhase. destruct Hph as [(-> & _)|([->|[[_ [->| ->]]|[_ ->]]] & _)]; done. }
  rewrite Hs. cbn.
  change ((op_state o =? OperationStateSucceeded) || (op_state o =? OperationStateFailed)
    || (op_state o =? OperationStateCanceled)) with (IsTerminal o).
  assert (IsTerminal o = negb (IsZero (op_completedAt o)) ∧
          IsTerminal o && Before (op_completedAt o) (op_phaseChangedAt o) = false)
    as [E1 E2].
  { destruct (IsTerminal o); [destruct Hc as [Hc1 Hc2]|]; unfold IsZero, Before; cbn.
    - rewrite (bool_decide_eq_false_2 _ Hc1). split; [done|by apply Z.ltb_ge].
    - by rewrite (bool_decide_eq_true_2 _ Hc). }
  rewrite E2, <- E1, Bool.eqb_reflx. cbn.
  unfold restoreFailure, snapshot; cbn.
  destruct o as [id rid cap gen retry st ph req sta pca com [[fr fm]|]];
    unfold initial in *; cbn in *.
  - destruct Hf as [-> Hb]. cbn. rewrite Hb. done.
  - by rewrite (bool_decide_eq_false_2 _ Hf).
Qed.

(** The phase that follows, for a capability with a lifecycle flow. *)
Definition following_phase (o : Operation) : option OperationPhase :=
  if op_phase o =? OperationPhaseRequested then Some OperationPhaseValidating
  else if op_phase o =? OperationPhaseValidating then
    Some (if op_capability o =? CapabilityDelete then OperationPhaseDestroying
          else OperationPhasePlanning)
  else if op_phase o =? OperationPhasePlanning then Some OperationPhaseApplying
  else None.

Lemma operation_ready o at_ reason message :
  op_reachable o → IsTerminal o = false →
  op_capability o = CapabilityCreate ∨ op_capability o = CapabilityUpdate ∨
    op_capability o = CapabilityDelete →
  (op_phaseChangedAt o ≤ at_)%Z → at_ ≠ time_zero → blank reason = false →
  is_ok (Fail o reason message at_) = true ∧
  match following_phase o with
  | Some next => is_ok (Succeed o at_) = false ∧
      ∀ p, is_ok (AdvancePhase o p at_) = bool_decide (p = next)
  | None => is_ok (Succeed o at_) = true ∧
      ∀ p, is_ok (AdvancePhase o p at_) = false
  end.
Proof.
  intros Hr Hterm Hcap Hat Hz Hb. apply reachable_wf in Hr as [_ Hs (_ & _ & Ht) Hph _ _ _].
  pose proof (nonterminal_states _ Hs Hterm) as Hst.
  assert (Hv : validateTransitionTime o at_ = Ok tt)
    by (apply validateTransitionTime_accepts; [done|lia|lia]).
  unfold Fail, Succeed, AdvancePhase, complete. rewrite Hv, Hterm, Hb.
  rewrite (proj2 (not_pending_nor_running o) Hst). cbn. split; [done|].
  unfold following_phase, isFinalPhase, canAdvanceTo.
  destruct Hph as [(-> & _ & Hnr & _)|(Hsp & _ & _ & Hnp)].
  - destruct Hst as [->|]; [|done]. eval_decides. split; [done|]. intros p.
    by case_bool_decide; subst; eval_decides.
  - destruct Hst as [| ->]; [done|]. cbn.
    destruct Hsp as [->|[[Hc [->| ->]]|[-> ->]]];
      [destruct Hcap as [->|[->| ->]]|destruct Hc as [->| ->]..|]; eval_decides;
      (split; [done|]); intros p; repeat case_bool_decide; subst; by eval_decides.
Qed.

(** ** Properties *)

(** Every operation the domain can construct and move through its
    transitions survives persistence: restoring its snapshot yields the same
    operation, so [RestoreOperation]'s validation never rejects a state the
    state machine can reach. *)
Theorem restore_snapshot_roundtrip o :
  op_reachable o → RestoreOperation (snapshot o) = Ok o.
Proof. intros H. by apply restore_wf, reachable_wf. Qed.

(** Every operation terminates: whatever transitions are applied, and from
    whatever operation they start, at most four of them can succeed; a terminal
    operation accepts none, and every transition keeps the operation's intent. *)
Theorem transitions_bounded o o' n :
  nsteps op_step n o o' →
  (n ≤ 4)%nat ∧ initial o' = initial o ∧ (IsTerminal o = true → n = 0%nat).
Proof.
  intros Hn. assert ((n + op_rank o' ≤ op_rank o)%nat ∧ initial o' = initial o) as [Hle Hi].
  { induction Hn as [|n x y z Hs _ [IH1 IH2]]; [done|].
    pose proof (op_rank_step _ _ Hs). split; [lia|].
    by rewrite IH2, (step_initial x y Hs). }
  pose proof (op_rank_le o). split_and!; [lia|done|].
  intros Ht. destruct Hn as [|n x y z Hs _]; [done|]. by apply terminal_no_step in Hs.
Qed.


(** No reachable create, update or delete operation is ever stuck: while it
    is not terminal, at any time from its last phase change on, it accepts
    exactly one continuation — the following phase, or success in the last
    phase — and it can always be failed with a reason. *)
Theorem operation_progress o at_ reason message :
  op_reachable o → IsTerminal o = false →
  op_capability o = CapabilityCreate ∨ op_capability o = CapabilityUpdate ∨
    op_capability o = CapabilityDelete →
  (op_phaseChangedAt o ≤ at_)%Z → at_ ≠ time_zero → blank reason = false →
  is_ok (Fail o reason message at_) = true ∧
  match following_phase o with
  | Some next => is_ok (Succeed o at_) = false ∧
      ∀ p, is_ok (AdvancePhase o p at_) = bool_decide (p = next)
  | None => is_ok (Succeed o at_) = true ∧
      ∀ p, is_ok (AdvancePhase o p at_) = false
  end.
Proof. apply operation_ready. Qed.

(** ** Witnesses *)

Definition sample_created : Operation :=
  {| op_id := "op-1"; op_resourceID := "r-1"; op_capability := CapabilityCreate;
     op_targetGeneration := 1; op_retryOf := ""; op_state := OperationStatePending;
     op_phase := OperationPhaseRequested; op_requestedAt := 10; op_startedAt := 0;
     op_phaseChangedAt := 10; op_completedAt := 0; op_failure := None |}.

Definition sample_failed : Operation :=
  {| op_id := "op-1"; op_resourceID := "r-1"; op_capability := CapabilityCreate;
     op_targetGeneration := 1; op_retryOf := ""; op_state := OperationStateFailed;
     op_phase := OperationPhaseValidating; op_requestedAt := 10; op_startedAt := 11;
     op_phaseChangedAt := 11; op_completedAt := 12;
     op_failure := Some {| failure_reason := "Boom"; failure_message := "" |} |}.

Definition sample_validating : Operation :=
  {| op_id := "op-1"; op_resourceID := "r-1"; op_capability := CapabilityCreate;
     op_targetGeneration := 1; op_retryOf := ""; op_state := OperationStateRunning;
     op_phase := OperationPhaseValidating; op_requestedAt := 10; op_startedAt := 11;
     op_phaseChangedAt := 11; op_completedAt := 0; op_failure := None |}.

Lemma sample_created_reachable : op_reachable sample_created.
Proof.
  by apply (reachable_new "op-1" "r-1" CapabilityCreate 1 10 []).
Qed.

Lemma sample_advances : AdvancePhase sample_created OperationPhaseValidating 11 = Ok sample_validating.
Proof. reflexivity. Qed.

Lemma sample_fails : Fail sample_validating "Boom" "" 12 = Ok sample_failed.
Proof. reflexivity. Qed.

Lemma sample_failed_reachable : op_reachable sample_failed.
Proof.
  eapply reachable_step; [eapply reachable_step|].
  - apply sample_created_reachable.
  - eapply step_advance, sample_advances.
  - eapply step_fail, sample_fails.
Qed.

Lemma restore_snapshot_roundtrip_witness :
  RestoreOperation (snapshot sample_failed) = Ok sample_failed.
Proof. apply restore_snapshot_roundtrip, sample_failed_reachable. Defined.

Lemma transitions_bounded_witness :
  (2 ≤ 4)%nat ∧ initial sample_failed = initial sample_created ∧
  (IsTerminal sample_created = true → 2%nat = 0%nat).
Proof.
  apply transitions_bounded. eapply nsteps_l; [eapply step_advance, sample_advances|].
  eapply nsteps_l; [eapply step_fail, sample_fails|]. apply nsteps_O.
Defined.


Lemma operation_progress_witness :
  is_ok (Fail sample_created "Boom" "" 12) = true ∧
  is_ok (Succeed sample_created 12) = false ∧
  ∀ p, is_ok (AdvancePhase sample_created p 12) = bool_decide (p = OperationPhaseValidating).
Proof.
  refine (operation_progress sample_created 12 "Boom" "" sample_created_reachable _ _ _ _ _);
    [reflexivity|by left|cbn; lia|done|reflexivity].
Defined.
