(* ===== verification/Values.v ===== *)
(** * Specs and outputs: the dynamic values a Resource carries

    Models [src/internal/domain/spec.go], [spec_numeric.go] and [outputs.go].
    A Go [any] is a tagged [value]; a [map[string]any] is the list of its
    entries in iteration order, whose keys are distinct. *)

From S2P Require Import Prelude.
From Stdlib Require Import SpecFloat.
Open Scope string_scope.
Open Scope go_scope.

Inductive int_kind :=
  | Int | Int8 | Int16 | Int32 | Int64
  | Uint | Uint8 | Uint16 | Uint32 | Uint64.

(** [VOther] is a value of any Go type the type switches do not list. *)
Inductive value :=
  | VNil
  | VBool (b : bool)
  | VString (s : string)
  | VInt (k : int_kind) (z : Z)
  | VFloat32 (f : spec_float)
  | VFloat64 (f : spec_float)
  | VMap (entries : list (string * value))
  | VList (items : list value)
  | VOther (go_type : string).

#[export] Instance int_kind_eq_dec : EqDecision int_kind.
Proof. solve_decision. Defined.
#[export] Instance spec_float_eq_dec : EqDecision spec_float.
Proof. solve_decision. Defined.

(** The range of an integer kind; [int] and [uint] have 64 bits. *)
Definition int_range (k : int_kind) : Z * Z :=
  (match k with
   | Int | Int64 => (-2^63, 2^63 - 1)
   | Int8 => (-2^7, 2^7 - 1)
   | Int16 => (-2^15, 2^15 - 1)
   | Int32 => (-2^31, 2^31 - 1)
   | Uint | Uint64 => (0, 2^64 - 1)
   | Uint8 => (0, 2^8 - 1)
   | Uint16 => (0, 2^16 - 1)
   | Uint32 => (0, 2^32 - 1)
   end)%Z.

Definition in_kind (k : int_kind) (z : Z) : Prop :=
  (fst (int_range k) ≤ z ≤ snd (int_range k))%Z.

(** [math.IsNaN(x) || math.IsInf(x, 0)]. *)
Definition non_finite (f : spec_float) : bool :=
  match f with
  | S754_nan | S754_infinity _ => true
  | _ => false
  end.

(** ** Specs *)

(** The loop of [cloneObject], with the clone function of the values. *)
Definition cloneObjectWith (clone : value → outcome value)
    : list (string * value) → outcome (list (string * value)) :=
  fix go m :=
    match m with
    | [] => Ok []
    | (key, v) :: m' =>
        fail_if key =? "" with Errorf "resource spec property name cannot be empty" [] ;;
        match clone v with
        | Ok copyValue => cloned ← go m'; Ok ((key, copyValue) :: cloned)
        | Err e => Err (Wrapf e "resource spec property %q: %w" [ArgS key])
        | Panic s => Panic s
        end
    end.

Definition cloneListWith (clone : value → outcome value)
    : N → list value → outcome (list value) :=
  fix go i l :=
    match l with
    | [] => Ok []
    | item :: l' =>
        match clone item with
        | Ok copyValue => cloned ← go (i + 1)%N l'; Ok (copyValue :: cloned)
        | Err e => Err (Wrapf e "list item %d: %w" [ArgN i])
        | Panic s => Panic s
        end
    end.

Fixpoint cloneSpecValue (v : value) : outcome value :=
  match v with
  | VNil | VBool _ | VString _ | VInt _ _ => Ok v
  | VFloat32 f | VFloat64 f =>
      fail_if non_finite f with Errorf "non-finite number is not supported" [] ;; Ok v
  | VMap m => cloned ← cloneObjectWith cloneSpecValue m; Ok (VMap cloned)
  | VList l => cloned ← cloneListWith cloneSpecValue 0 l; Ok (VList cloned)
  | VOther t => Err (Errorf "unsupported value type %T" [ArgS t])
  end.

Definition cloneObject (m : list (string * value)) : outcome (list (string * value)) :=
  cloneObjectWith cloneSpecValue m.

Record ResourceSpec := { spec_values : list (string * value) }.

(** A nil map is [None]. *)
Definition NewResourceSpec (values : option (list (string * value)))
    : outcome ResourceSpec :=
  cloned ← cloneObject (default [] values); Ok {| spec_values := cloned |}.

Definition Values (s : ResourceSpec) : outcome (list (string * value)) :=
  match cloneObject (spec_values s) with
  | Ok cloned => Ok cloned
  | _ => Panic "domain.ResourceSpec contains an invalid value: "
  end.

(** ** Numbers *)

Definition maxExactIntegerFloat : Z := 2^53.

Definition fromUint64 (z : Z) : Z * bool :=
  if Z.ltb MaxInt64 z then (0%Z, false) else (z, true).

(** A finite float is [± m * 2^e]; [Trunc] differs from it exactly when the
    division by [2^-e] leaves a remainder. *)
Definition fromFloat (f : spec_float) : Z * bool :=
  match f with
  | S754_nan | S754_infinity _ => (0%Z, false)
  | S754_zero _ => (0%Z, true)
  | S754_finite s m e =>
      let scale := (2 ^ (Z.abs e))%Z in
      let fractional := Z.ltb e 0 && negb (Z.eqb (Z.pos m mod scale) 0) in
      let magnitude := if Z.ltb e 0 then (Z.pos m / scale)%Z else (Z.pos m * scale)%Z in
      if fractional || Z.ltb maxExactIntegerFloat magnitude then (0%Z, false)
      else (if s then (- magnitude)%Z else magnitude, true)
  end.

Definition IntegralValue (v : value) : Z * bool :=
  match v with
  | VInt (Uint | Uint64) z => fromUint64 z
  | VInt _ z => (z, true)
  | VFloat32 f | VFloat64 f => fromFloat f
  | _ => (0%Z, false)
  end.

(** ** Outputs *)

(** [%T] of the values that are no output scalars. *)
Definition go_type (v : value) : string :=
  match v with
  | VMap _ => "map[string]interface {}"
  | VList _ => "[]interface {}"
  | VOther t => t
  | _ => "<nil>"
  end.

Definition canonicalOutputValue (v : value) : outcome value :=
  match v with
  | VString _ | VBool _ => Ok v
  | VInt (Uint | Uint64) z =>
      fail_if Z.ltb MaxInt64 z
        with Errorf "integer value is out of the supported range" [] ;;
      Ok (VInt Int64 z)
  | VInt _ z => Ok (VInt Int64 z)
  | VFloat32 f =>
      fail_if non_finite f with Errorf "non-finite number is not supported" [] ;;
      Ok (VFloat64 f)
  | VFloat64 f =>
      fail_if non_finite f with Errorf "non-finite number is not supported" [] ;; Ok v
  | _ => Err (Errorf "unsupported output value type %T; outputs carry flat scalars only"
                [ArgS (go_type v)])
  end.

Record ResourceOutputs := {
  ro_observedGeneration : uint64;
  ro_values : list (string * value);
  ro_publishedAt : Time }.

Fixpoint canonicalOutputs (m : list (string * value)) : outcome (list (string * value)) :=
  match m with
  | [] => Ok []
  | (key, v) :: m' =>
      fail_if blank key || (key <>? TrimSpace key)
        with Errorf "resource outputs property name %q is empty or not canonical" [ArgS key] ;;
      match canonicalOutputValue v with
      | Ok scalar => cloned ← canonicalOutputs m'; Ok ((key, scalar) :: cloned)
      | Err e => Err (Wrapf e "resource outputs property %q: %w" [ArgS key])
      | Panic s => Panic s
      end
  end.

Definition NewResourceOutputs (observedGeneration : uint64)
    (values : list (string * value)) (publishedAt : Time) : outcome ResourceOutputs :=
  fail_if observedGeneration =? 0%N
    with Errorf "resource outputs observed generation must be greater than zero" [] ;;
  fail_if IsZero publishedAt
    with Errorf "resource outputs publication time is required" [] ;;
  cloned ← canonicalOutputs values;
  Ok {| ro_observedGeneration := observedGeneration; ro_values := cloned;
        ro_publishedAt := publishedAt |}.

(** ** Well-formed values and the integer a value denotes *)

Section value_induction.
Context (P : value → Prop).
Hypothesis HNil : P VNil.
Hypothesis HBool : ∀ b, P (VBool b).
Hypothesis HString : ∀ s, P (VString s).
Hypothesis HInt : ∀ k z, P (VInt k z).
Hypothesis HFloat32 : ∀ f, P (VFloat32 f).
Hypothesis HFloat64 : ∀ f, P (VFloat64 f).
Hypothesis HMap : ∀ m, Forall (λ kv, P kv.2) m → P (VMap m).
Hypothesis HList : ∀ l, Forall P l → P (VList l).
Hypothesis HOther : ∀ t, P (VOther t).

Fixpoint value_nested_ind (v : value) : P v :=
  match v with
  | VNil => HNil
  | VBool b => HBool b
  | VString s => HString s
  | VInt k z => HInt k z
  | VFloat32 f => HFloat32 f
  | VFloat64 f => HFloat64 f
  | VMap m => HMap m ((fix go m : Forall (λ kv, P kv.2) m :=
      match m with
      | [] => Forall_nil_2 _
      | kv :: m' => Forall_cons_2 _ kv m' (value_nested_ind kv.2) (go m')
      end) m)
  | VList l => HList l ((fix go l : Forall P l :=
      match l with
      | [] => Forall_nil_2 _
      | x :: l' => Forall_cons_2 _ x l' (value_nested_ind x) (go l')
      end) l)
  | VOther t => HOther t
  end.
End value_induction.

(** What a spec may contain: named properties, finite numbers, no foreign type. *)
Inductive spec_valid : value → Prop :=
  | valid_nil : spec_valid VNil
  | valid_bool b : spec_valid (VBool b)
  | valid_string s : spec_valid (VString s)
  | valid_int k z : spec_valid (VInt k z)
  | valid_float32 f : non_finite f = false → spec_valid (VFloat32 f)
  | valid_float64 f : non_finite f = false → spec_valid (VFloat64 f)
  | valid_map m : Forall (λ kv, kv.1 ≠ "" ∧ spec_valid kv.2) m → spec_valid (VMap m)
  | valid_list l : Forall spec_valid l → spec_valid (VList l).

(** [denotes v z]: the number [v] is exactly the integer [z]. *)
Inductive denotes : value → Z → Prop :=
  | denotes_int k z : denotes (VInt k z) z
  | denotes_float v f z :
      v = VFloat32 f ∨ v = VFloat64 f →
      match f with
      | S754_zero _ => z = 0
      | S754_finite s m e =>
          z * 2 ^ Z.max 0 (- e) = (if s then -1 else 1) * Z.pos m * 2 ^ Z.max 0 e
      | _ => False
      end%Z → denotes v z.

Definition well_typed (v : value) : Prop :=
  match v with VInt k z => in_kind k z | _ => True end.

Definition is_float (v : value) : bool :=
  match v with VFloat32 _ | VFloat64 _ => true | _ => false end.

(** ** Lemmas *)

Lemma cloneObjectWith_ok (P : value → Prop) m :
  Forall (λ kv, ∀ c, cloneSpecValue kv.2 = Ok c ↔ P kv.2 ∧ c = kv.2) m →
  ∀ r, cloneObjectWith cloneSpecValue m = Ok r ↔
       Forall (λ kv, kv.1 ≠ "" ∧ P kv.2) m ∧ r = m.
Proof.
  induction 1 as [|[k v] m Hv _ IH]; cbn; intros r; [naive_solver|].
  rewrite fail_if_Ok, bool_decide_eq_false, Forall_cons. cbn in *. split.
  - intros [Hk H]. destruct (cloneSpecValue v) as [c| |] eqn:E; try done.
    apply bind_Ok in H as (m' & Hm & [= <-]). apply IH in Hm as [Hall ->].
    destruct (proj1 (Hv c) eq_refl) as [? ->]. done.
  - intros [[[Hk Hp] Hall] ->]. split; [done|].
    rewrite (proj2 (Hv v)) by done. by rewrite (proj2 (IH m)).
Qed.

Lemma cloneListWith_ok (P : value → Prop) l :
  Forall (λ v, ∀ c, cloneSpecValue v = Ok c ↔ P v ∧ c = v) l →
  ∀ i r, cloneListWith cloneSpecValue i l = Ok r ↔ Forall P l ∧ r = l.
Proof.
  induction 1 as [|v l Hv _ IH]; cbn; intros i r; [naive_solver|].
  rewrite Forall_cons. split.
  - intros H. destruct (cloneSpecValue v) as [c| |] eqn:E; try done.
    apply bind_Ok in H as (l' & Hl & [= <-]). apply IH in Hl as [Hall ->].
    destruct (proj1 (Hv c) eq_refl) as [? ->]. done.
  - intros [[Hp Hall] ->]. rewrite (proj2 (Hv v)) by done.
    by rewrite (proj2 (IH (i + 1)%N l)).
Qed.

Lemma cloneSpecValue_ok v : ∀ c, cloneSpecValue v = Ok c ↔ spec_valid v ∧ c = v.
Proof.
  induction v as [|b|s|k z|f|f|m IH|l IH|t] using value_nested_ind; intros c; cbn;
    try (split; [intros [= <-]; by split; constructor|by intros [_ ->]]).
  - rewrite fail_if_Ok. split; [intros [? [= <-]]; by split; [constructor|]|].
    by intros [H ->]; inversion H.
  - rewrite fail_if_Ok. split; [intros [? [= <-]]; by split; [constructor|]|].
    by intros [H ->]; inversion H.
  - rewrite bind_Ok. setoid_rewrite (cloneObjectWith_ok spec_valid m IH). split.
    + intros (? & [? ->] & [= <-]). by split; [constructor|].
    + intros [H ->]. inversion H; subst. naive_solver.
  - rewrite bind_Ok. setoid_rewrite (cloneListWith_ok spec_valid l IH). split.
    + intros (? & [? ->] & [= <-]). by split; [constructor|].
    + intros [H ->]. inversion H; subst. naive_solver.
  - split; [done|]. intros [H _]. inversion H.
Qed.

Lemma cloneObject_ok m r :
  cloneObject m = Ok r ↔ Forall (λ kv, kv.1 ≠ "" ∧ spec_valid kv.2) m ∧ r = m.
Proof.
  apply cloneObjectWith_ok. apply Forall_true. intros [k v] c. apply cloneSpecValue_ok.
Qed.

Lemma canonicalOutputValue_idem v c :
  well_typed v → canonicalOutputValue v = Ok c →
  canonicalOutputValue c = Ok c ∧ well_typed c ∧ IntegralValue c = IntegralValue v ∧
  (∀ z, denotes c z ↔ denotes v z).
Proof.
  unfold well_typed, in_kind. destruct v as [|b|s|k z|f|f|m|l|t]; try done.
  - by intros _ [= <-].
  - by intros _ [= <-].
  - assert (∀ z', denotes (VInt Int64 z) z' ↔ denotes (VInt k z) z') as Hden.
    { intros z'; split; inversion 1; subst; first [constructor|naive_solver]. }
    intros Hk H. destruct k; cbn in *; unfold fromUint64, MaxInt64 in *; ok_inv; cbn;
      try (by split_and!; try done; lia);
      match goal with E : (_ <? _)%Z = false |- _ => rewrite E; apply Z.ltb_ge in E end;
      split_and!; try done; lia.
  - intros _ H. cbn in H. ok_inv. cbn. rewrite H. split_and!; try done.
    intros z; split; inversion 1; naive_solver eauto using denotes.
  - intros _ H. cbn in H. ok_inv. cbn. rewrite H. by split_and!.
Qed.

Lemma fromFloat_spec f z :
  fromFloat f = (z, true) ↔
  denotes (VFloat64 f) z ∧ (Z.abs z ≤ maxExactIntegerFloat)%Z.
Proof.
  assert (denotes (VFloat64 f) z ↔
    match f with
    | S754_zero _ => z = 0
    | S754_finite s m e =>
        z * 2 ^ Z.max 0 (- e) = (if s then -1 else 1) * Z.pos m * 2 ^ Z.max 0 e
    | _ => False
    end%Z) as ->.
  { split; [inversion 1; destruct H0; by simplify_eq|]. intros. eapply denotes_float; eauto. }
  destruct f as [s|s| |s m e]; cbn [fromFloat]; unfold maxExactIntegerFloat.
  - split; [intros [= <-]; split; [done|cbn; lia]|by intros [-> _]].
  - split; [done|]. by intros [[] _].
  - split; [done|]. by intros [[] _].
  - assert (0 < 2 ^ Z.abs e)%Z as Hpow by (apply Z.pow_pos_nonneg; lia).
    destruct (Z.ltb_spec e 0) as [He|He]; cbn.
    + rewrite (Z.max_l 0 e), Z.pow_0_r, Z.mul_1_r by lia.
      replace (Z.max 0 (- e)) with (Z.abs e) by lia.
      set (p := (2 ^ Z.abs e)%Z) in *. clearbody p.
      destruct (Z.eqb_spec (Z.pos m mod p) 0) as [Hm|Hm]; cbn.
      * apply Z.mod_divide in Hm as [q Hq]; [|lia]. rewrite Hq, Z.div_mul by lia.
        assert (0 < q)%Z by nia.
        destruct (Z.ltb_spec (2^53) q) as [Hq2|Hq2]; destruct s;
          split; intros H0; simplify_eq; try (destruct H0 as [H1 H2]); try lia.
        all: try (split; lia). all: first [f_equal; nia|nia].
      * split; [done|]. intros [H _]. exfalso. apply Hm, Z.mod_divide; [lia|].
        destruct s; [exists (-z)%Z|exists z]; lia.
    + rewrite (Z.max_l 0 (- e)), Z.pow_0_r, Z.mul_1_r by lia.
      replace (Z.max 0 e) with (Z.abs e) by lia.
      set (p := (2 ^ Z.abs e)%Z) in *. clearbody p.
      assert (0 < Z.pos m * p)%Z by nia.
      destruct (Z.ltb_spec (2^53) (Z.pos m * p)) as [Hq2|Hq2]; destruct s;
        split; intros H0; simplify_eq; try (destruct H0 as [H1 H2]); try lia.
      all: try (split; lia). all: f_equal; lia.
Qed.

(** ** Properties *)

(** A spec is accepted exactly when every property is named, every number
    finite and every value of a JSON-like type; an accepted spec holds the
    submitted values, and reading it back never panics. *)
Theorem NewResourceSpec_spec values spec :
  NewResourceSpec values = Ok spec ↔
  spec_valid (VMap (default [] values)) ∧ spec_values spec = default [] values ∧
  Values spec = Ok (default [] values).
Proof.
  unfold NewResourceSpec, Values. rewrite bind_Ok. setoid_rewrite cloneObject_ok. split.
  - intros (m & [Hm ->] & [= <-]). cbn [spec_values]. split_and!; [by constructor|done|].
    by rewrite (proj2 (cloneObject_ok _ _) (conj Hm eq_refl)).
  - intros (Hv & Hs & _). inversion Hv; subst. eexists. split; [by split|].
    destruct spec. cbn in *. by subst.
Qed.

(** C38: [IntegralValue] returns an integer exactly when the value denotes that
    integer and it is representable: any integer kind within [int64], and any
    float with no fractional part of magnitude at most [2^53]. *)
Theorem IntegralValue_spec v z :
  well_typed v →
  IntegralValue v = (z, true) ↔
  denotes v z ∧
  (if is_float v then Z.abs z ≤ maxExactIntegerFloat else - 2^63 ≤ z ≤ MaxInt64)%Z.
Proof.
  intros Hwt. destruct v as [|b|s|k z'|f|f|m|l|t]; cbn [IntegralValue is_float];
    try (split; [done|intros [Hd _]; inversion Hd; naive_solver]).
  - unfold well_typed, in_kind in Hwt. unfold MaxInt64.
    assert (denotes (VInt k z') z ↔ z = z') as ->.
    { split; [inversion 1; naive_solver|intros ->; constructor]. }
    destruct k; cbn in Hwt; unfold fromUint64, MaxInt64;
      try (destruct (Z.ltb_spec 9223372036854775807 z'));
      split; intros H0; simplify_eq; try (destruct H0 as [-> ?]); try lia; try (split; lia); done.
  - rewrite fromFloat_spec. split; intros [Hd ?]; split; try done;
      inversion Hd; naive_solver eauto using denotes.
  - apply fromFloat_spec.
Qed.

(** Published output values are canonical: the accepted snapshot keeps its
    property names, every stored value is a fixed point of canonicalisation and
    denotes what the provider sent, and two integers of different Go widths
    that denote the same number are stored identically. *)
Theorem NewResourceOutputs_canonical gen m at_ ro :
  Forall (λ kv, well_typed kv.2) m →
  NewResourceOutputs gen m at_ = Ok ro →
  ro_observedGeneration ro = gen ∧ gen ≠ 0%N ∧
  Forall2 (λ kv kc, kc.1 = kv.1 ∧ blank kc.1 = false ∧
             canonicalOutputValue kc.2 = Ok kc.2 ∧ (∀ z, denotes kc.2 z ↔ denotes kv.2 z) ∧
             ∀ k z, kv.2 = VInt k z → kc.2 = VInt Int64 z) m (ro_values ro).
Proof.
  intros Hwt H. unfold NewResourceOutputs in H. ok_inv. rename H1 into Hm.
  split_and!; [done|by apply bool_decide_eq_false in H|]. cbn. clear H H0.
  revert x Hm. induction Hwt as [|[k v] m Hv _ IH]; cbn; intros x Hm; ok_inv; [constructor|].
  destruct (canonicalOutputValue v) as [c| |] eqn:E; try done. ok_inv.
  constructor; [|by apply IH]. cbn in *.
  apply orb_false_iff in H as [Hb _].
  apply canonicalOutputValue_idem in E as Hc; [|done].
  split_and!; try done; try apply Hc.
  intros k' z ->. destruct k'; cbn in E; by ok_inv.
Qed.

(** ** Witnesses *)

Lemma IntegralValue_spec_witness :
  IntegralValue (VFloat64 (S754_finite true 5 2)) = (-20, true)%Z ↔
  denotes (VFloat64 (S754_finite true 5 2)) (-20) ∧ (Z.abs (-20) ≤ maxExactIntegerFloat)%Z.
Proof. refine (IntegralValue_spec (VFloat64 (S754_finite true 5 2)) (-20) _). exact I. Defined.

Definition sample_outputs : list (string * value) :=
  [("hostname", VString "db.example"); ("port", VInt Uint16 5432)].

Lemma NewResourceOutputs_canonical_witness :
  Forall2 (λ kv kc, kc.1 = kv.1 ∧ blank kc.1 = false ∧
             canonicalOutputValue kc.2 = Ok kc.2 ∧ (∀ z, denotes kc.2 z ↔ denotes kv.2 z) ∧
             ∀ k z, kv.2 = VInt k z → kc.2 = VInt Int64 z)
    sample_outputs [("hostname", VString "db.example"); ("port", VInt Int64 5432)].
Proof.
  refine (proj2 (proj2 (NewResourceOutputs_canonical 3 sample_outputs 7
    {| ro_observedGeneration := 3;
       ro_values := [("hostname", VString "db.example"); ("port", VInt Int64 5432)];
       ro_publishedAt := 7 |} _ _))); [|reflexivity].
  repeat constructor; cbn; lia.
Defined.
