(* ===== verification/Resource.v ===== *)
(** * Resources and resource types: developer-owned desired state

    Models [src/internal/domain/resource.go] and
    [src/internal/domain/resource_type.go]: the [Resource] record with its
    generation counter, its persistence snapshot, and the capability list of a
    [ResourceType]. *)

From S2P Require Import Prelude Operation Values.
Open Scope string_scope.
Open Scope go_scope.

Record ResourceTypeRef := { ref_Name : string; ref_Version : string }.
Record OwnerRef := { owner_Kind : string; owner_ID : string }.

#[export] Instance ResourceTypeRef_eq_dec : EqDecision ResourceTypeRef.
Proof. solve_decision. Defined.
#[export] Instance OwnerRef_eq_dec : EqDecision OwnerRef.
Proof. solve_decision. Defined.

Definition ResourceTypeRef_validate (r : ResourceTypeRef) : outcome unit :=
  fail_if blank (ref_Name r) with Errorf "resource type name is required" [] ;;
  fail_if blank (ref_Version r) with Errorf "resource type version is required" [] ;;
  Ok tt.

Definition OwnerRef_validate (o : OwnerRef) : outcome unit :=
  fail_if blank (owner_Kind o) with Errorf "owner kind is required" [] ;;
  fail_if blank (owner_ID o) with Errorf "owner ID is required" [] ;;
  Ok tt.

Record Resource := {
  res_id : ResourceID;
  res_type : ResourceTypeRef;
  res_owner : OwnerRef;
  res_generation : uint64;
  res_spec : ResourceSpec;
  res_createdAt : Time;
  res_updatedAt : Time }.

(** [ResourceSnapshot] has the fields of a [Resource], exported. *)
Record ResourceSnapshot := {
  rs_ID : ResourceID;
  rs_Type : ResourceTypeRef;
  rs_Owner : OwnerRef;
  rs_Generation : uint64;
  rs_Spec : ResourceSpec;
  rs_CreatedAt : Time;
  rs_UpdatedAt : Time }.

Definition NewResource (id : ResourceID) (typeRef : ResourceTypeRef) (owner : OwnerRef)
    (spec : ResourceSpec) (createdAt : Time) : outcome Resource :=
  fail_if blank id with Errorf "resource ID is required" [] ;;
  ResourceTypeRef_validate typeRef ≫= λ _,
  OwnerRef_validate owner ≫= λ _,
  fail_if IsZero createdAt with Errorf "resource creation time is required" [] ;;
  Ok {| res_id := id; res_type := typeRef; res_owner := owner; res_generation := 1;
        res_spec := spec; res_createdAt := createdAt; res_updatedAt := createdAt |}.

Definition RestoreResource (s : ResourceSnapshot) : outcome Resource :=
  fail_if rs_Generation s =? 0%N
    with Errorf "resource generation must be greater than zero" [] ;;
  NewResource (rs_ID s) (rs_Type s) (rs_Owner s) (rs_Spec s) (rs_CreatedAt s) ≫= λ resource,
  fail_if IsZero (rs_UpdatedAt s) with Errorf "resource update time is required" [] ;;
  fail_if Before (rs_UpdatedAt s) (rs_CreatedAt s)
    with Errorf "resource update time cannot precede creation" [] ;;
  Ok {| res_id := res_id resource; res_type := res_type resource;
        res_owner := res_owner resource; res_generation := rs_Generation s;
        res_spec := res_spec resource; res_createdAt := res_createdAt resource;
        res_updatedAt := rs_UpdatedAt s |}.

Definition UpdateSpec (r : Resource) (spec : ResourceSpec) (updatedAt : Time)
    : outcome Resource :=
  fail_if IsZero updatedAt with Errorf "resource update time is required" [] ;;
  fail_if Before updatedAt (res_updatedAt r)
    with Errorf "resource update time cannot precede the previous update" [] ;;
  fail_if res_generation r =? MaxUint64
    with Errorf "resource generation cannot be incremented" [] ;;
  Ok {| res_id := res_id r; res_type := res_type r; res_owner := res_owner r;
        res_generation := u64_incr (res_generation r); res_spec := spec;
        res_createdAt := res_createdAt r; res_updatedAt := updatedAt |}.

Definition resource_snapshot (r : Resource) : ResourceSnapshot :=
  {| rs_ID := res_id r; rs_Type := res_type r; rs_Owner := res_owner r;
     rs_Generation := res_generation r; rs_Spec := res_spec r;
     rs_CreatedAt := res_createdAt r; rs_UpdatedAt := res_updatedAt r |}.

(** ** Resource types *)

Record ResourceType := {
  rt_ref : ResourceTypeRef;
  rt_description : string;
  rt_capabilities : list string }.

(** The loop of [NewResourceType]; [seen] is the set of the earlier ones. *)
Fixpoint checkCapabilities (seen capabilities : list string) : outcome (list string) :=
  match capabilities with
  | [] => Ok []
  | capability :: rest =>
      Capability_validate capability ≫= λ _,
      fail_if bool_decide (capability ∈ seen)
        with Errorf "capability %q is duplicated" [ArgS capability] ;;
      cloned ← checkCapabilities (capability :: seen) rest;
      Ok (capability :: cloned)
  end.

Definition NewResourceType (ref : ResourceTypeRef) (description : string)
    (capabilities : list string) : outcome ResourceType :=
  ResourceTypeRef_validate ref ≫= λ _,
  fail_if blank description with Errorf "resource type description is required" [] ;;
  fail_if Nat.eqb (length capabilities) 0
    with Errorf "resource type must define at least one capability" [] ;;
  cloned ← checkCapabilities [] capabilities;
  Ok {| rt_ref := ref; rt_description := description; rt_capabilities := cloned |}.

Definition Supports (r : ResourceType) (capability : string) : bool :=
  existsb (λ supported, supported =? capability) (rt_capabilities r).

(** ** Histories of a resource *)

Inductive resource_reachable : Resource → Prop :=
  | resource_new id typeRef owner spec at_ r :
      NewResource id typeRef owner spec at_ = Ok r → resource_reachable r
  | resource_updated r spec at_ r' :
      resource_reachable r → UpdateSpec r spec at_ = Ok r' → resource_reachable r'.

(** ** Lemmas *)

Lemma NewResource_ok id typeRef owner spec at_ r :
  NewResource id typeRef owner spec at_ = Ok r →
  r = {| res_id := id; res_type := typeRef; res_owner := owner; res_generation := 1;
         res_spec := spec; res_createdAt := at_; res_updatedAt := at_ |} ∧
  at_ ≠ time_zero ∧
  ∀ spec', NewResource id typeRef owner spec' at_ = Ok
    {| res_id := id; res_type := typeRef; res_owner := owner; res_generation := 1;
       res_spec := spec'; res_createdAt := at_; res_updatedAt := at_ |}.
Proof.
  intros H. unfold NewResource in *. ok_inv. split_and!; [done|by bool_facts|].
  intros spec'. repeat match goal with H : _ = _ |- _ => rewrite H; clear H; cbn end. done.
Qed.

Lemma UpdateSpec_ok r spec at_ r' :
  UpdateSpec r spec at_ = Ok r' ↔
  at_ ≠ time_zero ∧ (res_updatedAt r ≤ at_)%Z ∧ res_generation r ≠ MaxUint64 ∧
  r' = {| res_id := res_id r; res_type := res_type r; res_owner := res_owner r;
          res_generation := u64_incr (res_generation r); res_spec := spec;
          res_createdAt := res_createdAt r; res_updatedAt := at_ |}.
Proof.
  unfold UpdateSpec, IsZero, Before.
  rewrite !fail_if_Ok, !bool_decide_eq_false, Z.ltb_ge. naive_solver.
Qed.

Lemma u64_incr_small n : (n < MaxUint64)%N → u64_incr n = (n + 1)%N.
Proof. unfold u64_incr, two64, MaxUint64. intros. apply N.mod_small. lia. Qed.

Lemma resource_reachable_wf r :
  resource_reachable r →
  NewResource (res_id r) (res_type r) (res_owner r) (res_spec r) (res_createdAt r) =
    Ok {| res_id := res_id r; res_type := res_type r; res_owner := res_owner r;
          res_generation := 1; res_spec := res_spec r;
          res_createdAt := res_createdAt r; res_updatedAt := res_createdAt r |} ∧
  (res_createdAt r ≤ res_updatedAt r)%Z ∧ res_updatedAt r ≠ time_zero ∧
  (1 ≤ res_generation r ≤ MaxUint64)%N.
Proof.
  induction 1 as [id typeRef owner spec at_ r H|r spec at_ r' _ (Hn & Ht & Hu & Hg) H].
  - apply NewResource_ok in H as (-> & Hz & Hn). cbn. unfold MaxUint64. by split_and!.
  - apply UpdateSpec_ok in H as (Hz & Hle & Hmax & ->).
    apply NewResource_ok in Hn as (_ & _ & Hn). cbn.
    rewrite u64_incr_small by lia. split_and!; try done; lia.
Qed.

#[local] Opaque Capability_validate.

Lemma checkCapabilities_ok seen cs r :
  checkCapabilities seen cs = Ok r ↔
  r = cs ∧ NoDup cs ∧ (∀ c, c ∈ cs → c ∉ seen) ∧
  Forall (λ c, Capability_validate c = Ok tt) cs.
Proof.
  revert seen r. induction cs as [|c cs IH]; cbn; intros seen r.
  { split; [|by intros [-> _]]. intros [= <-]. split_and!; [done|constructor| |constructor].
    by intros c ?%not_elem_of_nil. }
  rewrite bind_Ok. setoid_rewrite fail_if_Ok. setoid_rewrite bind_Ok.
  setoid_rewrite IH. setoid_rewrite bool_decide_eq_false.
  rewrite NoDup_cons, Forall_cons. setoid_rewrite elem_of_cons. split.
  - intros ([] & Hv & Hc & ? & (-> & Hnd & Hs & Hall) & [= <-]).
    split_and!; try done; [naive_solver|].
    intros c' [->|Hin] Hseen; [done|]. apply (Hs c' Hin). by right.
  - intros (-> & [Hc Hnd] & Hs & Hv & Hall). exists tt. split; [done|].
    split; [by apply Hs; left|]. exists cs. split; [|done]. split_and!; try done.
    intros c' Hin [->|Hseen]; [done|]. apply (Hs c'); [by right|done].
Qed.

#[local] Transparent Capability_validate.

(** ** Properties *)

(** A resource's generation only ever grows by one, never wraps and stays
    positive; identity, type, owner and creation time are immutable, times are
    monotone, and every resource the domain can produce is restored unchanged
    from its persistence snapshot. *)
Theorem resource_history r :
  resource_reachable r →
  RestoreResource (resource_snapshot r) = Ok r ∧ (1 ≤ res_generation r ≤ MaxUint64)%N ∧
  ∀ spec at_ r', UpdateSpec r spec at_ = Ok r' →
    res_generation r' = (res_generation r + 1)%N ∧ (res_generation r' ≤ MaxUint64)%N ∧
    res_id r' = res_id r ∧ res_type r' = res_type r ∧ res_owner r' = res_owner r ∧
    res_createdAt r' = res_createdAt r ∧ (res_updatedAt r ≤ res_updatedAt r')%Z ∧
    res_spec r' = spec.
Proof.
  intros (Hn & Ht & Hu & Hg)%resource_reachable_wf. split_and!; [|lia..|].
  - unfold RestoreResource, resource_snapshot, IsZero, Before; cbn [rs_Generation rs_ID
      rs_Type rs_Owner rs_Spec rs_CreatedAt rs_UpdatedAt].
    rewrite bool_decide_eq_false_2 by lia. rewrite Hn. cbn.
    rewrite (bool_decide_eq_false_2 _ Hu), (proj2 (Z.ltb_ge _ _) Ht). by destruct r.
  - intros spec at_ r' (Hz & Hle & Hmax & ->)%UpdateSpec_ok. cbn.
    rewrite u64_incr_small by lia. split_and!; try done; lia.
Qed.

(** A resource type is accepted exactly when its reference, description
    and capabilities are given and no capability is repeated or padded with
    whitespace; it then supports exactly the capabilities it was built with. *)
Lemma NewResourceType_spec ref description capabilities t :
  NewResourceType ref description capabilities = Ok t ↔
  (blank (ref_Name ref) = false ∧ blank (ref_Version ref) = false ∧
   blank description = false ∧ capabilities ≠ [] ∧ NoDup capabilities ∧
   Forall (λ c, blank c = false ∧ c = TrimSpace c) capabilities) ∧
  t = {| rt_ref := ref; rt_description := description; rt_capabilities := capabilities |} ∧
  ∀ c, Supports t c = bool_decide (c ∈ capabilities).
Proof.
  assert (∀ c, Capability_validate c = Ok tt ↔ blank c = false ∧ c = TrimSpace c) as Hcap.
  { intros c. unfold Capability_validate.
    rewrite !fail_if_Ok, negb_false_iff, bool_decide_eq_true. naive_solver. }
  assert (∀ c, Supports {| rt_ref := ref; rt_description := description;
            rt_capabilities := capabilities |} c = bool_decide (c ∈ capabilities)) as Hsup.
  { intros c. unfold Supports. cbn. apply eq_true_iff_eq.
    rewrite existsb_exists, bool_decide_eq_true, list_elem_of_In.
    setoid_rewrite bool_decide_eq_true. naive_solver. }
  unfold NewResourceType. split.
  - intros H. ok_inv.
    match goal with H : ResourceTypeRef_validate _ = _ |- _ =>
      unfold ResourceTypeRef_validate in H end. ok_inv.
    match goal with H : checkCapabilities _ _ = _ |- _ =>
      apply checkCapabilities_ok in H as (-> & Hnd & _ & Hall) end.
    split; [|done]. split_and!; try done; [by intros ->|].
    eapply Forall_impl; [exact Hall|]. intros c. apply Hcap.
  - intros ((Hn & Hv & Hd & Hne & Hnd & Hall) & -> & _).
    unfold ResourceTypeRef_validate. rewrite Hn, Hv. cbn. rewrite Hd.
    destruct capabilities as [|c cs]; [done|]. cbn [length Nat.eqb].
    rewrite (proj2 (checkCapabilities_ok [] (c :: cs) (c :: cs))); [done|].
    split_and!; try done; [by intros c' _ ?%not_elem_of_nil|].
    eapply Forall_impl; [exact Hall|]. intros c'. apply Hcap.
Qed.

(** ** Witnesses *)

Definition sample_type : ResourceTypeRef :=
  {| ref_Name := "ObjectStorage"; ref_Version := "v1" |}.
Definition sample_owner : OwnerRef := {| owner_Kind := "team"; owner_ID := "payments" |}.
Definition sample_spec : ResourceSpec := {| spec_values := [("size", VInt Int 20)] |}.
Definition sample_resource : Resource :=
  {| res_id := "r-1"; res_type := sample_type; res_owner := sample_owner;
     res_generation := 1; res_spec := sample_spec; res_createdAt := 10;
     res_updatedAt := 10 |}.

Lemma sample_resource_reachable : resource_reachable sample_resource.
Proof. by apply (resource_new "r-1" sample_type sample_owner sample_spec 10). Qed.

Lemma resource_history_witness :
  RestoreResource (resource_snapshot sample_resource) = Ok sample_resource.
Proof. apply resource_history, sample_resource_reachable. Defined.
