(* ===== verification/Status.v ===== *)
(** * Status, conditions, observed facts and events

    Models [src/internal/domain/status.go], [observed_facts.go] and [event.go]:
    the normalized observation of a resource, the facts a provisioner reports
    and the append-only audit record. *)

From S2P Require Import Prelude Operation.
Open Scope string_scope.
Open Scope go_scope.

(** ** Resource states and conditions *)

Definition ResourceStateUnknown : string := "Unknown".
Definition ResourceStatePending : string := "Pending".
Definition ResourceStateReady : string := "Ready".
Definition ResourceStateDeleting : string := "Deleting".
Definition ResourceStateDeleted : string := "Deleted".
Definition ResourceStateFailed : string := "Failed".

Definition ResourceState_validate (s : string) : outcome unit :=
  if (s =? ResourceStateUnknown) || (s =? ResourceStatePending) ||
     (s =? ResourceStateReady) || (s =? ResourceStateDeleting) ||
     (s =? ResourceStateDeleted) || (s =? ResourceStateFailed)
  then Ok tt
  else Err (Errorf "invalid resource state %q" [ArgS s]).

Definition ConditionStatusTrue : string := "True".
Definition ConditionStatusFalse : string := "False".
Definition ConditionStatusUnknown : string := "Unknown".

Definition ConditionStatus_validate (s : string) : outcome unit :=
  if (s =? ConditionStatusTrue) || (s =? ConditionStatusFalse) ||
     (s =? ConditionStatusUnknown)
  then Ok tt
  else Err (Errorf "invalid condition status %q" [ArgS s]).

Record Condition := {
  cond_type : string;
  cond_status : string;
  cond_reason : string;
  cond_message : string;
  cond_observedGeneration : uint64;
  cond_lastTransitionAt : Time }.

#[export] Instance Condition_eq_dec : EqDecision Condition.
Proof. solve_decision. Defined.

Definition Condition_validate (c : Condition) : outcome unit :=
  fail_if blank (cond_type c) with Errorf "condition type is required" [] ;;
  ConditionStatus_validate (cond_status c) ≫= λ _,
  fail_if blank (cond_reason c) with Errorf "condition reason is required" [] ;;
  fail_if IsZero (cond_lastTransitionAt c)
    with Errorf "condition transition time is required" [] ;;
  Ok tt.

Definition NewCondition (typeName status reason message : string)
    (observedGeneration : uint64) (lastTransitionAt : Time) : outcome Condition :=
  let condition := {| cond_type := typeName; cond_status := status;
    cond_reason := reason; cond_message := message;
    cond_observedGeneration := observedGeneration;
    cond_lastTransitionAt := lastTransitionAt |} in
  Condition_validate condition ≫= λ _, Ok condition.

Record ResourceStatus := {
  st_resourceID : ResourceID;
  st_observedGeneration : uint64;
  st_state : string;
  st_conditions : list Condition;
  st_updatedAt : Time }.

#[export] Instance ResourceStatus_eq_dec : EqDecision ResourceStatus.
Proof. solve_decision. Defined.

(** The loop of [NewResourceStatus]: [i] is the index, [seen] the earlier types. *)
Fixpoint checkConditions (observedGeneration : uint64) (updatedAt : Time) (i : N)
    (seen : list string) (conditions : list Condition) : outcome (list Condition) :=
  match conditions with
  | [] => Ok []
  | c :: rest =>
      match Condition_validate c with
      | Ok _ =>
          fail_if bool_decide (cond_type c ∈ seen)
            with Errorf "condition type %q is duplicated" [ArgS (cond_type c)] ;;
          fail_if N.ltb observedGeneration (cond_observedGeneration c)
            with Errorf "condition %q observes a generation newer than the resource status"
              [ArgS (cond_type c)] ;;
          fail_if After (cond_lastTransitionAt c) updatedAt
            with Errorf "condition %q transition cannot follow the resource status update"
              [ArgS (cond_type c)] ;;
          cloned ← checkConditions observedGeneration updatedAt (i + 1)%N
                     (cond_type c :: seen) rest;
          Ok (c :: cloned)
      | Err e => Err (Wrapf e "condition %d: %w" [ArgN i])
      | Panic s => Panic s
      end
  end.

Definition NewResourceStatus (resourceID : ResourceID) (observedGeneration : uint64)
    (state : string) (conditions : list Condition) (updatedAt : Time)
    : outcome ResourceStatus :=
  fail_if blank resourceID with Errorf "resource ID is required" [] ;;
  ResourceState_validate state ≫= λ _,
  fail_if IsZero updatedAt with Errorf "resource status update time is required" [] ;;
  cloned ← checkConditions observedGeneration updatedAt 0 [] conditions;
  Ok {| st_resourceID := resourceID; st_observedGeneration := observedGeneration;
        st_state := state; st_conditions := cloned; st_updatedAt := updatedAt |}.

(** ** Observed facts *)

Definition ResourcePresencePresent : string := "Present".
Definition ResourcePresenceNotFound : string := "NotFound".
Definition ResourcePresenceUnknown : string := "Unknown".
Definition ResourceReadinessReady : string := "Ready".
Definition ResourceReadinessNotReady : string := "NotReady".
Definition ResourceReadinessUnknown : string := "Unknown".
Definition ResourceDriftInSync : string := "InSync".
Definition ResourceDriftDrifted : string := "Drifted".
Definition ResourceDriftUnknown : string := "Unknown".

Record ObservedFacts := {
  Presence : string;
  Readiness : string;
  Drift : string }.

#[export] Instance ObservedFacts_eq_dec : EqDecision ObservedFacts.
Proof. solve_decision. Defined.

(** The zero value [domain.ObservedFacts{}]. *)
Definition no_facts : ObservedFacts := {| Presence := ""; Readiness := ""; Drift := "" |}.

Definition ObservedFacts_Validate (f : ObservedFacts) : outcome unit :=
  fail_if (Presence f <>? ResourcePresencePresent) &&
          (Presence f <>? ResourcePresenceNotFound) &&
          (Presence f <>? ResourcePresenceUnknown)
    with Errorf "invalid resource presence %q" [ArgS (Presence f)] ;;
  fail_if (Readiness f <>? ResourceReadinessReady) &&
          (Readiness f <>? ResourceReadinessNotReady) &&
          (Readiness f <>? ResourceReadinessUnknown)
    with Errorf "invalid resource readiness %q" [ArgS (Readiness f)] ;;
  fail_if (Drift f <>? ResourceDriftInSync) && (Drift f <>? ResourceDriftDrifted) &&
          (Drift f <>? ResourceDriftUnknown)
    with Errorf "invalid resource drift %q" [ArgS (Drift f)] ;;
  fail_if (Presence f <>? ResourcePresencePresent) &&
          (Readiness f <>? ResourceReadinessUnknown)
    with Errorf "readiness %q requires a present resource" [ArgS (Readiness f)] ;;
  Ok tt.

(** ** Events *)

Record EventActor := { actor_ID : string; actor_Kind : string }.
Record EventAdmission := { PolicyRevision : string }.

Record Event := {
  ev_id : string;
  ev_resourceID : ResourceID;
  ev_operationID : OperationID;
  ev_generation : uint64;
  ev_type : string;
  ev_reason : string;
  ev_message : string;
  ev_occurredAt : Time;
  ev_actor : option EventActor;
  ev_admission : option EventAdmission }.

Definition NewEvent (id : string) (resourceID : ResourceID) (operationID : OperationID)
    (generation : uint64) (typeName reason message : string) (occurredAt : Time)
    : outcome Event :=
  fail_if blank id with Errorf "event ID is required" [] ;;
  fail_if blank resourceID with Errorf "resource ID is required" [] ;;
  fail_if generation =? 0%N with Errorf "event generation must be greater than zero" [] ;;
  fail_if blank typeName with Errorf "event type is required" [] ;;
  fail_if blank reason with Errorf "event reason is required" [] ;;
  fail_if IsZero occurredAt with Errorf "event occurrence time is required" [] ;;
  Ok {| ev_id := id; ev_resourceID := resourceID; ev_operationID := operationID;
        ev_generation := generation; ev_type := typeName; ev_reason := reason;
        ev_message := message; ev_occurredAt := occurredAt; ev_actor := None;
        ev_admission := None |}.

Definition WithActor (e : Event) (actor : EventActor) : outcome Event :=
  fail_if blank (actor_ID actor) with Errorf "event actor ID is required" [] ;;
  fail_if blank (actor_Kind actor) with Errorf "event actor kind is required" [] ;;
  Ok {| ev_id := ev_id e; ev_resourceID := ev_resourceID e;
        ev_operationID := ev_operationID e; ev_generation := ev_generation e;
        ev_type := ev_type e; ev_reason := ev_reason e; ev_message := ev_message e;
        ev_occurredAt := ev_occurredAt e;
        ev_actor := Some {| actor_ID := TrimSpace (actor_ID actor);
                            actor_Kind := TrimSpace (actor_Kind actor) |};
        ev_admission := ev_admission e |}.

(** [strings.TrimPrefix]. *)
Fixpoint TrimPrefix (s prefix : string) : string :=
  match prefix, s with
  | "", _ => s
  | String c p, String d t =>
      if Ascii.eqb c d then
        if String.prefix p t then TrimPrefix t p else s
      else s
  | _, "" => s
  end.

Definition hex_digit (c : ascii) : bool :=
  let n := N_of_ascii c in
  ((48 <=? n) && (n <=? 57) || (97 <=? n) && (n <=? 102) || (65 <=? n) && (n <=? 70))%N.

(** [hex.DecodeString] fails on an odd length or a byte that is no hex digit. *)
Definition hex_decodes (s : string) : bool :=
  Nat.even (String.length s) && forallb hex_digit (list_ascii_of_string s).

(** [s == strings.ToLower(s)], for the hexadecimal [s] the code applies it to. *)
Definition is_lower (s : string) : bool :=
  forallb (λ c, let n := N_of_ascii c in negb ((65 <=? n) && (n <=? 90))%N)
    (list_ascii_of_string s).

Definition WithAdmissionPolicyRevision (e : Event) (revision : string) : outcome Event :=
  let digest := TrimPrefix revision "pol_v1_" in
  fail_if (revision <>? TrimSpace revision) || negb (String.prefix "pol_v1_" revision) ||
          negb (Nat.eqb (String.length digest) 64) || negb (is_lower digest) ||
          negb (hex_decodes digest)
    with Errorf "event admission policy revision is invalid" [] ;;
  Ok {| ev_id := ev_id e; ev_resourceID := ev_resourceID e;
        ev_operationID := ev_operationID e; ev_generation := ev_generation e;
        ev_type := ev_type e; ev_reason := ev_reason e; ev_message := ev_message e;
        ev_occurredAt := ev_occurredAt e; ev_actor := ev_actor e;
        ev_admission := Some {| PolicyRevision := revision |} |}.

(** ** Well-formed statuses *)

Definition condition_wf (gen : uint64) (updatedAt : Time) (c : Condition) : Prop :=
  Condition_validate c = Ok tt ∧ (cond_observedGeneration c ≤ gen)%N ∧
  (cond_lastTransitionAt c ≤ updatedAt)%Z.

(** The conditions a status at this generation and time may hold. *)
Definition conditions_wf (gen : uint64) (updatedAt : Time) (cs : list Condition) : Prop :=
  NoDup (cond_type <$> cs) ∧ Forall (condition_wf gen updatedAt) cs.

Record status_wf (s : ResourceStatus) : Prop := {
  wf_resource : blank (st_resourceID s) = false;
  wf_resource_state : ResourceState_validate (st_state s) = Ok tt;
  wf_updated : st_updatedAt s ≠ time_zero;
  wf_conditions : conditions_wf (st_observedGeneration s) (st_updatedAt s) (st_conditions s) }.

(** ** Lemmas *)

Lemma checkConditions_ok gen at_ cs : ∀ i seen r,
  checkConditions gen at_ i seen cs = Ok r ↔
  r = cs ∧ conditions_wf gen at_ cs ∧ (∀ c, c ∈ cs → cond_type c ∉ seen).
Proof.
  unfold conditions_wf. induction cs as [|c cs IH]; cbn; intros i seen r.
  { split; [|by intros [-> _]]. intros [= <-]. split_and!; [done|constructor|constructor|].
    by intros c ?%not_elem_of_nil. }
  rewrite NoDup_cons, Forall_cons. unfold condition_wf at 1.
  split.
  - intros H. destruct (Condition_validate c) as [[]| |]; [|done..]. ok_inv.
    match goal with H : checkConditions _ _ _ _ _ = _ |- _ =>
      apply IH in H as (-> & [Hnd Hall] & Hseen) end.
    unfold After in *. bool_facts. split_and!; try done.
    + intros (c' & Hc' & Hin)%list_elem_of_fmap. apply (Hseen c' Hin). rewrite <- Hc'. by left.
    + intros c' [->|Hin]%elem_of_cons; [done|]. intros ?. apply (Hseen c' Hin). by right.
  - intros (-> & [[Hc Hnd] [(Hv & Hg & Ht) Hall]] & Hseen). rewrite Hv.
    rewrite bool_decide_eq_false_2 by (apply Hseen; by left).
    unfold After. rewrite (proj2 (N.ltb_ge _ _) Hg), (proj2 (Z.ltb_ge _ _) Ht).
    rewrite (proj2 (IH _ _ cs)); [done|]. split_and!; try done.
    intros c' Hin [Heq|Hs]%elem_of_cons; [|apply (Hseen c'); [by right|done]].
    apply Hc, list_elem_of_fmap. by exists c'.
Qed.

Lemma NewResourceStatus_ok id gen state cs at_ s :
  NewResourceStatus id gen state cs at_ = Ok s ↔
  status_wf s ∧ s = {| st_resourceID := id; st_observedGeneration := gen;
    st_state := state; st_conditions := cs; st_updatedAt := at_ |}.
Proof.
  unfold NewResourceStatus. split.
  - intros H. ok_inv. match goal with H : checkConditions _ _ _ _ _ = _ |- _ =>
      apply checkConditions_ok in H as (-> & Hc & _) end.
    split; [|done]. destruct x. split; cbn; try done. by bool_facts.
  - intros [[Hid Hst Ht Hc] ->]. cbn in *. rewrite Hid, Hst. cbn.
    unfold IsZero. rewrite (bool_decide_eq_false_2 _ Ht).
    rewrite (proj2 (checkConditions_ok gen at_ cs 0 [] cs)); [done|].
    split_and!; try done. by intros c _ ?%not_elem_of_nil.
Qed.

Lemma conditions_wf_weaken gen gen' at_ at' cs :
  conditions_wf gen at_ cs → (gen ≤ gen')%N → (at_ ≤ at')%Z → conditions_wf gen' at' cs.
Proof.
  intros [Hnd Hall] Hg Ht. split; [done|]. eapply Forall_impl; [exact Hall|].
  intros c (? & ? & ?). split_and!; [done|lia|lia].
Qed.

Lemma NewCondition_ok typeName status reason message gen at_ c :
  NewCondition typeName status reason message gen at_ = Ok c ↔
  Condition_validate c = Ok tt ∧
  c = {| cond_type := typeName; cond_status := status; cond_reason := reason;
         cond_message := message; cond_observedGeneration := gen;
         cond_lastTransitionAt := at_ |}.
Proof.
  unfold NewCondition. rewrite bind_Ok. split.
  - by intros ([] & Hv & [= <-]).
  - intros [Hv ->]. by exists tt.
Qed.
