(* ===== verification/Engine.v ===== *)
(** * The lifecycle engine

    Models [src/internal/lifecycle/engine.go] and [observation.go]: the
    stateless policy service that turns a request, a phase change or a terminal
    outcome of an operation, or a passive observation into the new operation,
    resource status and event.  [Fail] and [Request] of the Go [Engine] are
    [Engine_Fail] and [Engine_Request] here. *)

From S2P Require Import Prelude Operation Values Resource Status.
Open Scope string_scope.
Open Scope go_scope.

(** ** Vocabulary *)

Definition ConditionReady : string := "Ready".
Definition ConditionReconciled : string := "Reconciled".
Definition ConditionReconciling : string := "Reconciling".
Definition ConditionOperationFailed : string := "OperationFailed".
Definition ConditionDeleted : string := "Deleted".
Definition ConditionDependenciesReady : string := "DependenciesReady".

Definition EventLifecycleRequested : string := "LifecycleRequested".
Definition EventPhaseChanged : string := "LifecyclePhaseChanged".
Definition EventLifecycleSucceeded : string := "LifecycleSucceeded".
Definition EventLifecycleFailed : string := "LifecycleFailed".

Definition ErrInvalidTransition : error := Sentinel "lifecycle.ErrInvalidTransition".
Definition ErrOperationActive : error := Sentinel "lifecycle.ErrOperationActive".

Record Result := {
  r_Operation : Operation;
  r_Status : ResourceStatus;
  r_Event : Event }.

#[export] Instance Result_fields : Fields Result := λ r,
  {| r_Operation := r_Operation r; r_Status := r_Status r; r_Event := r_Event r |}.

(** ** Conditions *)

Fixpoint findCondition (conditions : list Condition) (typeName : string)
    : option Condition :=
  match conditions with
  | [] => None
  | c :: rest => if cond_type c =? typeName then Some c else findCondition rest typeName
  end.

(** Replace the first condition of the type, or append. *)
Fixpoint replaceCondition (conditions : list Condition) (condition : Condition)
    : list Condition :=
  match conditions with
  | [] => [condition]
  | c :: rest =>
      if cond_type c =? cond_type condition then condition :: rest
      else c :: replaceCondition rest condition
  end.

Definition setCondition (conditions : list Condition) (typeName status reason message : string)
    (generation : uint64) (at_ : Time) : outcome (list Condition) :=
  condition ← NewCondition typeName status reason message generation at_;
  Ok (replaceCondition conditions condition).

Definition ensurePreviouslyReady (conditions : list Condition) (generation : uint64)
    (at_ : Time) : outcome (list Condition) :=
  match findCondition conditions ConditionReady with
  | Some ready =>
      if cond_status ready =? ConditionStatusTrue then Ok conditions
      else setCondition conditions ConditionReady ConditionStatusTrue "PreviouslyReady" ""
             generation at_
  | None => setCondition conditions ConditionReady ConditionStatusTrue "PreviouslyReady" ""
              generation at_
  end.

(** [condition != nil && condition.Status() == ConditionStatusTrue]. *)
Definition isTrue (c : option Condition) : bool :=
  match c with Some c => cond_status c =? ConditionStatusTrue | None => false end.

(** ** Active operations *)

Definition activeStatusOperation (status : ResourceStatus) : bool * Capability :=
  if st_state status =? ResourceStatePending then (true, CapabilityCreate)
  else if st_state status =? ResourceStateDeleting then (true, CapabilityDelete)
  else if (st_state status =? ResourceStateReady) &&
          isTrue (findCondition (st_conditions status) ConditionReconciling)
  then (true, CapabilityUpdate)
  else (false, "").

Definition validateResourceContext (resource : Resource) (resourceType : ResourceType)
    (status : ResourceStatus) (at_ : Time) : outcome unit :=
  fail_if res_type resource <>? rt_ref resourceType
    with Wrapf ErrInvalidTransition "%w: resource type does not match its definition" [] ;;
  fail_if st_resourceID status <>? res_id resource
    with Wrapf ErrInvalidTransition "%w: status belongs to a different resource" [] ;;
  fail_if N.ltb (res_generation resource) (st_observedGeneration status)
    with Wrapf ErrInvalidTransition
      "%w: observed generation exceeds desired generation" [] ;;
  fail_if IsZero at_ || Before at_ (res_updatedAt resource) ||
          Before at_ (st_updatedAt status)
    with Wrapf ErrInvalidTransition
      "%w: transition time precedes current resource state" [] ;;
  Ok tt.

Definition validateOperationContext (resource : Resource) (status : ResourceStatus)
    (operation : Operation) (at_ : Time) : outcome unit :=
  fail_if (st_resourceID status <>? res_id resource) ||
          (op_resourceID operation <>? res_id resource)
    with Wrapf ErrInvalidTransition
      "%w: resource, status, and operation do not match" [] ;;
  fail_if N.ltb (res_generation resource) (op_targetGeneration operation)
    with Wrapf ErrInvalidTransition "%w: operation targets a future generation" [] ;;
  fail_if st_observedGeneration status <>? op_targetGeneration operation
    with Wrapf ErrInvalidTransition
      "%w: active operation target does not match the evaluated generation" [] ;;
  fail_if IsZero at_ || Before at_ (st_updatedAt status)
    with Wrapf ErrInvalidTransition "%w: transition time precedes current status" [] ;;
  if negb (IsTerminal operation) then
    let '(statusActive, expectedCapability) := activeStatusOperation status in
    fail_if negb statusActive
      with Wrapf ErrInvalidTransition
        "%w: active operation %q is not represented by the resource status"
        [ArgS (op_id operation)] ;;
    fail_if op_capability operation <>? expectedCapability
      with Wrapf ErrInvalidTransition
        "%w: active operation capability %q does not match status capability %q"
        [ArgS (op_capability operation); ArgS expectedCapability] ;;
    Ok tt
  else Ok tt.

Definition validateOperationSnapshot (resource : Resource) (status : ResourceStatus)
    (latest : option Operation) : outcome unit :=
  let '(statusActive, expectedCapability) := activeStatusOperation status in
  let operationActive := match latest with Some o => negb (IsTerminal o) | None => false end in
  fail_if negb (Bool.eqb statusActive operationActive)
    with Wrapf ErrInvalidTransition "%w: status active=%t but operation active=%t"
      [ArgB statusActive; ArgB operationActive] ;;
  match latest with
  | None => Ok tt
  | Some latest =>
      fail_if op_resourceID latest <>? res_id resource
        with Wrapf ErrInvalidTransition
          "%w: latest operation belongs to a different resource" [] ;;
      if negb operationActive then Ok tt else
      fail_if op_capability latest <>? expectedCapability
        with Wrapf ErrInvalidTransition
          "%w: active operation capability %q does not match expected capability %q"
          [ArgS (op_capability latest); ArgS expectedCapability] ;;
      fail_if op_targetGeneration latest <>? st_observedGeneration status
        with Wrapf ErrInvalidTransition
          "%w: active operation target generation %d does not match observed generation %d"
          [ArgN (op_targetGeneration latest); ArgN (st_observedGeneration status)] ;;
      Ok tt
  end.

(** The cases of the switch that return nil. *)
Definition requestAdmissible (resource : Resource) (status : ResourceStatus)
    (capability : Capability) (retry : bool) : bool :=
  if capability =? CapabilityCreate then
    (st_state status =? ResourceStateUnknown) ||
    (st_state status =? ResourceStatePending) ||
    ((st_state status =? ResourceStateFailed) && retry) ||
    ((st_state status =? ResourceStateDeleted) &&
       N.ltb (st_observedGeneration status) (res_generation resource))
  else if capability =? CapabilityUpdate then
    ((st_state status =? ResourceStateReady) &&
       N.ltb (st_observedGeneration status) (res_generation resource)) ||
    ((st_state status =? ResourceStateReady) && retry)
  else if capability =? CapabilityDelete then
    (st_state status =? ResourceStateReady) || (st_state status =? ResourceStateFailed)
  else false.

Definition validateRequestPrecondition (resource : Resource) (status : ResourceStatus)
    (capability : Capability) (retry : bool) : outcome unit :=
  if requestAdmissible resource status capability retry then Ok tt
  else Err (Wrapf ErrInvalidTransition
    "%w: cannot request %q from state %s at generations desired=%d observed=%d"
    [ArgS capability; ArgS (st_state status); ArgN (res_generation resource);
     ArgN (st_observedGeneration status)]).

(** [strings.ToUpper] of a one-byte string: a byte above 127 alone is invalid
    UTF-8 and becomes U+FFFD. *)
Definition upper_byte (c : ascii) : string :=
  let n := N_of_ascii c in
  if ((97 <=? n) && (n <=? 122))%N then String (ascii_of_N (n - 32)) ""
  else if (n <? 128)%N then String c ""
  else string_of_list_ascii [ascii_of_N 239; ascii_of_N 191; ascii_of_N 189].

(** [capability[:1]] panics on the empty string. *)
Definition capitalized (capability : Capability) : outcome string :=
  match capability with
  | "" => Panic "slice bounds out of range [:1] with length 0"
  | String c rest => Ok (upper_byte c ++ rest)%string
  end.

Definition requestReason (capability : Capability) (retry : bool) : outcome string :=
  prefix ← capitalized capability;
  Ok (if retry then prefix ++ "RetryRequested" else prefix ++ "Requested")%string.

Definition successReason (capability : Capability) : outcome string :=
  prefix ← capitalized capability; Ok (prefix ++ "Succeeded")%string.

(** ** Requesting an operation *)

(** Whether the request retries the latest operation, which operation it
    retries and the generation it targets. *)
Definition requestTarget (resource : Resource) (latest : option Operation)
    (capability : Capability) (operationID : OperationID)
    : outcome (bool * OperationID * uint64) :=
  match latest with
  | None => Ok (false, "", res_generation resource)
  | Some latest =>
      fail_if op_resourceID latest <>? res_id resource
        with Wrapf ErrInvalidTransition
          "%w: latest operation belongs to a different resource" [] ;;
      fail_if op_id latest =? operationID
        with Wrapf ErrInvalidTransition "%w: operation ID %q has already been used"
          [ArgS operationID] ;;
      fail_if negb (IsTerminal latest)
        with Wrapf ErrOperationActive "%w: resource %q has operation %q"
          [ArgS (res_id resource); ArgS (op_id latest)] ;;
      if (op_state latest =? OperationStateFailed) && (op_capability latest =? capability)
      then Ok (true, op_id latest, op_targetGeneration latest)
      else Ok (false, "", res_generation resource)
  end.

Definition Engine_Request (resource : Resource) (resourceType : ResourceType)
    (status : ResourceStatus) (latest : option Operation) (capability : Capability)
    (operationID : OperationID) (eventID : string) (requestedAt : Time) : outcome Result :=
  validateResourceContext resource resourceType status requestedAt ≫= λ _,
  fail_if negb (Supports resourceType capability)
    with Wrapf ErrInvalidTransition "%w: resource type does not support capability %q"
      [ArgS capability] ;;
  fail_if (capability <>? CapabilityCreate) && (capability <>? CapabilityUpdate) &&
          (capability <>? CapabilityDelete)
    with Wrapf ErrInvalidTransition "%w: capability %q has no lifecycle flow"
      [ArgS capability] ;;
  validateOperationSnapshot resource status latest ≫= λ _,
  requestTarget resource latest capability operationID ≫=
    λ '(retry, retryOfOperationID, targetGeneration),
  validateRequestPrecondition resource status capability retry ≫= λ _,
  operation ← NewOperation operationID (res_id resource) capability targetGeneration
    requestedAt [retryOfOperationID];
  let target := op_targetGeneration operation in
  (if st_state status =? ResourceStateReady
   then ensurePreviouslyReady (st_conditions status) (st_observedGeneration status) requestedAt
   else Ok (st_conditions status)) ≫= λ conditions,
  reason ← requestReason capability retry;
  conditions ← setCondition conditions ConditionReconciling ConditionStatusTrue reason ""
    target requestedAt;
  conditions ← setCondition conditions ConditionReconciled ConditionStatusFalse
    "LifecycleRequested" "" target requestedAt;
  conditions ← setCondition conditions ConditionOperationFailed ConditionStatusFalse
    "NoFailure" "" target requestedAt;
  (if capability =? CapabilityCreate then
     conditions ← setCondition conditions ConditionReady ConditionStatusFalse
       "CreatePending" "" target requestedAt;
     conditions ← setCondition conditions ConditionDeleted ConditionStatusFalse
       "CreatePending" "" target requestedAt;
     Ok (ResourceStatePending, conditions)
   else if capability =? CapabilityDelete then
     conditions ← setCondition conditions ConditionDeleted ConditionStatusFalse
       "DeletePending" "" target requestedAt;
     Ok (ResourceStateDeleting, conditions)
   else Ok (st_state status, conditions)) ≫= λ '(state, conditions),
  updatedStatus ← NewResourceStatus (res_id resource) target state conditions requestedAt;
  event ← NewEvent eventID (res_id resource) (op_id operation) target
    EventLifecycleRequested reason "" requestedAt;
  Ok {| r_Operation := operation; r_Status := updatedStatus; r_Event := event |}.

(** ** Phases and outcomes *)

Definition Engine_Advance (resource : Resource) (status : ResourceStatus)
    (operation : Operation) (next : OperationPhase) (eventID : string) (changedAt : Time)
    : outcome Result :=
  validateOperationContext resource status operation changedAt ≫= λ _,
  updatedOperation ← AdvancePhase operation next changedAt;
  let target := op_targetGeneration operation in
  conditions ← setCondition (st_conditions status) ConditionReconciling ConditionStatusTrue
    next "" target changedAt;
  conditions ← setCondition conditions ConditionReconciled ConditionStatusFalse
    next "" target changedAt;
  updatedStatus ← NewResourceStatus (res_id resource) (st_observedGeneration status)
    (st_state status) conditions changedAt;
  event ← NewEvent eventID (res_id resource) (op_id operation) target EventPhaseChanged
    next "" changedAt;
  Ok {| r_Operation := updatedOperation; r_Status := updatedStatus; r_Event := event |}.

Definition completeOutcome (capability : Capability) (target : uint64) (at_ : Time)
    (conditions : list Condition) : outcome (string * list Condition) :=
  if capability =? CapabilityCreate then
    conditions ← setCondition conditions ConditionReady ConditionStatusTrue
      "LifecycleSucceeded" "" target at_;
    conditions ← setCondition conditions ConditionDeleted ConditionStatusFalse
      "ResourceCreated" "" target at_;
    Ok (ResourceStateReady, conditions)
  else if capability =? CapabilityUpdate then
    conditions ← setCondition conditions ConditionReady ConditionStatusTrue
      "LifecycleSucceeded" "" target at_;
    Ok (ResourceStateReady, conditions)
  else if capability =? CapabilityDelete then
    conditions ← setCondition conditions ConditionReady ConditionStatusFalse
      "Deleted" "" target at_;
    conditions ← setCondition conditions ConditionDeleted ConditionStatusTrue
      "DestructionSucceeded" "" target at_;
    Ok (ResourceStateDeleted, conditions)
  else Err (Wrapf ErrInvalidTransition "%w: capability %q has no completion semantics"
              [ArgS capability]).

(** The tail both outcomes share: a newer desired generation stays pending. *)
Definition settleReconciling (resource : Resource) (target : uint64) (at_ : Time)
    (reason message : string) (conditions : list Condition) : outcome (list Condition) :=
  if N.ltb target (res_generation resource) then
    conditions ← setCondition conditions ConditionReconciled ConditionStatusFalse
      "NewerGenerationPending" "" target at_;
    setCondition conditions ConditionReconciling ConditionStatusFalse
      "NewerGenerationPending" "" target at_
  else setCondition conditions ConditionReconciling ConditionStatusFalse reason message
         target at_.

Definition Engine_Complete (resource : Resource) (status : ResourceStatus)
    (operation : Operation) (eventID : string) (completedAt : Time) : outcome Result :=
  validateOperationContext resource status operation completedAt ≫= λ _,
  updatedOperation ← Succeed operation completedAt;
  let target := op_targetGeneration operation in
  conditions ← setCondition (st_conditions status) ConditionReconciled ConditionStatusTrue
    "LifecycleSucceeded" "" target completedAt;
  conditions ← setCondition conditions ConditionOperationFailed ConditionStatusFalse
    "NoFailure" "" target completedAt;
  completeOutcome (op_capability operation) target completedAt conditions ≫=
    λ '(state, conditions),
  conditions ← settleReconciling resource target completedAt "LifecycleSucceeded" ""
    conditions;
  updatedStatus ← NewResourceStatus (res_id resource) (st_observedGeneration status)
    state conditions completedAt;
  reason ← successReason (op_capability operation);
  event ← NewEvent eventID (res_id resource) (op_id operation) target
    EventLifecycleSucceeded reason "" completedAt;
  Ok {| r_Operation := updatedOperation; r_Status := updatedStatus; r_Event := event |}.

Definition failOutcome (capability : Capability) (reason message : string)
    (target : uint64) (at_ : Time) (conditions : list Condition)
    : outcome (string * list Condition) :=
  if capability =? CapabilityCreate then
    conditions ← setCondition conditions ConditionReady ConditionStatusFalse
      reason message target at_;
    Ok (ResourceStateFailed, conditions)
  else if capability =? CapabilityUpdate then Ok (ResourceStateReady, conditions)
  else if capability =? CapabilityDelete then
    let state := if isTrue (findCondition conditions ConditionReady)
                 then ResourceStateReady else ResourceStateFailed in
    conditions ← setCondition conditions ConditionDeleted ConditionStatusFalse
      reason message target at_;
    Ok (state, conditions)
  else Err (Wrapf ErrInvalidTransition "%w: capability %q has no failure semantics"
              [ArgS capability]).

Definition Engine_Fail (resource : Resource) (status : ResourceStatus)
    (operation : Operation) (reason message : string) (eventID : string) (failedAt : Time)
    : outcome Result :=
  validateOperationContext resource status operation failedAt ≫= λ _,
  updatedOperation ← Fail operation reason message failedAt;
  let target := op_targetGeneration operation in
  conditions ← setCondition (st_conditions status) ConditionReconciled ConditionStatusFalse
    reason message target failedAt;
  conditions ← setCondition conditions ConditionOperationFailed ConditionStatusTrue
    reason message target failedAt;
  failOutcome (op_capability operation) reason message target failedAt conditions ≫=
    λ '(state, conditions),
  conditions ← settleReconciling resource target failedAt "OperationFailed" message
    conditions;
  updatedStatus ← NewResourceStatus (res_id resource) (st_observedGeneration status)
    state conditions failedAt;
  event ← NewEvent eventID (res_id resource) (op_id operation) target
    EventLifecycleFailed reason message failedAt;
  Ok {| r_Operation := updatedOperation; r_Status := updatedStatus; r_Event := event |}.

Definition SetDependencyCondition (status : ResourceStatus)
    (conditionStatus reason message : string) (at_ : Time) : outcome ResourceStatus :=
  conditions ← setCondition (st_conditions status) ConditionDependenciesReady
    conditionStatus reason message (st_observedGeneration status) at_;
  NewResourceStatus (st_resourceID status) (st_observedGeneration status)
    (st_state status) conditions at_.

(** ** Observations *)

Definition readinessCondition (facts : ObservedFacts) : string * string :=
  if Presence facts =? ResourcePresenceNotFound then
    (ConditionStatusFalse, "ResourceNotFound")
  else if Readiness facts =? ResourceReadinessReady then
    (ConditionStatusTrue, "ResourceReady")
  else if Readiness facts =? ResourceReadinessNotReady then
    (ConditionStatusFalse, "ResourceNotReady")
  else (ConditionStatusUnknown, "ReadinessUnknown").

Definition driftCondition (facts : ObservedFacts) : string * string :=
  if Drift facts =? ResourceDriftInSync then (ConditionStatusFalse, "InSync")
  else if Drift facts =? ResourceDriftDrifted then (ConditionStatusTrue, "DriftDetected")
  else (ConditionStatusUnknown, "DriftUnknown").

(** The state the facts settle on when the state is not preserved. *)
Definition observedState (facts : ObservedFacts) (state : string) : string :=
  if (Presence facts =? ResourcePresencePresent) &&
     (Readiness facts =? ResourceReadinessReady) then ResourceStateReady
  else if (Presence facts =? ResourcePresenceNotFound) ||
          ((Presence facts =? ResourcePresencePresent) &&
             (Readiness facts =? ResourceReadinessNotReady)) then ResourceStateUnknown
  else state.

Definition applyObservation (resource : Resource) (status : ResourceStatus)
    (facts : ObservedFacts) (observedAt : Time) (preserveState : bool)
    : outcome ResourceStatus :=
  match ObservedFacts_Validate facts with
  | Err e => Err (Notef ErrInvalidTransition "%w: %v" e)
  | Panic s => Panic s
  | Ok _ =>
  fail_if st_resourceID status <>? res_id resource
    with Wrapf ErrInvalidTransition "%w: status belongs to a different resource" [] ;;
  fail_if IsZero observedAt || Before observedAt (st_updatedAt status) ||
          Before observedAt (res_updatedAt resource)
    with Wrapf ErrInvalidTransition "%w: observation time precedes current state" [] ;;
  fail_if fst (activeStatusOperation status)
    with Wrapf ErrInvalidTransition
      "%w: passive observation cannot replace an active operation" [] ;;
  let preserveState := preserveState || (st_state status =? ResourceStateDeleted) ||
                       (st_state status =? ResourceStateFailed) in
  let generation := st_observedGeneration status in
  (if (Presence facts <>? ResourcePresenceUnknown) ||
      (Readiness facts <>? ResourceReadinessUnknown) ||
      match findCondition (st_conditions status) ConditionReady with
      | None => true | Some _ => false end
   then
     let '(readyStatus, readyReason) := readinessCondition facts in
     setCondition (st_conditions status) ConditionReady readyStatus readyReason ""
       generation observedAt
   else Ok (st_conditions status)) ≫= λ conditions,
  let '(driftStatus, driftReason) := driftCondition facts in
  conditions ← setCondition conditions "Drifted" driftStatus driftReason "" generation
    observedAt;
  (if Drift facts =? ResourceDriftDrifted then
     let reconciled := findCondition conditions ConditionReconciled in
     if match reconciled with None => true | Some _ => isTrue reconciled end
     then setCondition conditions ConditionReconciled ConditionStatusFalse
            "DriftDetected" "" generation observedAt
     else Ok conditions
   else Ok conditions) ≫= λ conditions,
  let state := if preserveState then st_state status
               else observedState facts (st_state status) in
  NewResourceStatus (res_id resource) generation state conditions observedAt
  end.

Definition ApplyObservation (resource : Resource) (status : ResourceStatus)
    (facts : ObservedFacts) (observedAt : Time) : outcome ResourceStatus :=
  applyObservation resource status facts observedAt false.

Definition ApplyPostOperationObservation (resource : Resource) (status : ResourceStatus)
    (facts : ObservedFacts) (observedAt : Time) : outcome ResourceStatus :=
  applyObservation resource status facts observedAt true.

(** ** Laws of conditions *)

Lemma find_replace cs c T :
  findCondition (replaceCondition cs c) T =
  if cond_type c =? T then Some c else findCondition cs T.
Proof.
  induction cs as [|d cs IH]; cbn; [done|].
  destruct (bool_decide_reflect (cond_type d = cond_type c)) as [E|E]; cbn.
  - rewrite E. by case_bool_decide.
  - rewrite IH. repeat case_bool_decide; congruence.
Qed.

Lemma replace_elem cs c d : d ∈ replaceCondition cs c → d = c ∨ d ∈ cs.
Proof.
  induction cs as [|e cs IH]; cbn; [by intros ->%list_elem_of_singleton; left|].
  case_bool_decide; rewrite !elem_of_cons; tauto.
Qed.

Lemma replace_types_elem cs c T :
  T ∈ (cond_type <$> replaceCondition cs c) ↔ T = cond_type c ∨ T ∈ (cond_type <$> cs).
Proof.
  induction cs as [|d cs IH]; cbn; [by rewrite !elem_of_cons|].
  case_bool_decide as E; cbn; rewrite !elem_of_cons; [rewrite <- E; tauto|].
  rewrite IH. tauto.
Qed.

Lemma replace_wf gen at_ cs c :
  conditions_wf gen at_ cs → condition_wf gen at_ c →
  conditions_wf gen at_ (replaceCondition cs c).
Proof.
  intros [Hnd Hall] Hc. split.
  - clear Hall. induction cs as [|d cs IH]; cbn; [apply NoDup_singleton|].
    inversion_clear Hnd. case_bool_decide as E; cbn; constructor; try done.
    + by rewrite <- E.
    + rewrite replace_types_elem. intros [?|?]; done.
    + by apply IH.
  - apply Forall_forall. intros d [->|Hd]%replace_elem; [done|].
    by apply (proj1 (Forall_forall _ _) Hall).
Qed.

(** [c_ok] conditions have a type, a known status and a reason. *)
Definition c_ok (typeName status reason : string) : Prop :=
  blank typeName = false ∧ ConditionStatus_validate status = Ok tt ∧ blank reason = false.

Lemma c_ok_validate T s r m g at_ :
  c_ok T s r → at_ ≠ time_zero →
  Condition_validate {| cond_type := T; cond_status := s; cond_reason := r;
    cond_message := m; cond_observedGeneration := g; cond_lastTransitionAt := at_ |} = Ok tt.
Proof.
  intros (HT & Hs & Hr) Ht. unfold Condition_validate, IsZero;
    cbn [cond_type cond_status cond_reason cond_lastTransitionAt].
  rewrite HT, Hs, Hr. cbn. by rewrite (bool_decide_eq_false_2 _ Ht).
Qed.

Lemma setCondition_ok cs T s r m g at_ cs' :
  setCondition cs T s r m g at_ = Ok cs' ↔
  c_ok T s r ∧ at_ ≠ time_zero ∧
  cs' = replaceCondition cs {| cond_type := T; cond_status := s; cond_reason := r;
    cond_message := m; cond_observedGeneration := g; cond_lastTransitionAt := at_ |}.
Proof.
  unfold setCondition. rewrite bind_Ok. setoid_rewrite NewCondition_ok. split.
  - intros (c & [H ->] & [= <-]). unfold Condition_validate in H;
      cbn [cond_type cond_status cond_reason cond_lastTransitionAt] in H.
    ok_inv. bool_facts. destruct x. by split_and!.
  - intros (Hc & Ht & ->). eexists. split; [|done]. by rewrite c_ok_validate.
Qed.

Lemma setCondition_wf gen at_ cs T s r m g cs' :
  setCondition cs T s r m g at_ = Ok cs' → conditions_wf gen at_ cs → (g ≤ gen)%N →
  conditions_wf gen at_ cs'.
Proof.
  intros (Hc & Ht & ->)%setCondition_ok Hwf Hg. apply replace_wf; [done|].
  split_and!; [by apply c_ok_validate|done|cbn; lia].
Qed.

Ltac cond_consts :=
  unfold ConditionReady, ConditionReconciled, ConditionReconciling,
    ConditionOperationFailed, ConditionDeleted, ConditionDependenciesReady,
    ConditionStatusTrue, ConditionStatusFalse, ConditionStatusUnknown in *.
Ltac state_consts :=
  unfold ResourceStateUnknown, ResourceStatePending, ResourceStateReady,
    ResourceStateDeleting, ResourceStateDeleted, ResourceStateFailed in *.

(** Read a condition off a list built by [setCondition]s. *)
Ltac find_conditions :=
  repeat (rewrite find_replace; cbn [cond_type cond_status isTrue]; eval_decides).

(** Open the successful [setCondition]s of the hypotheses. *)
Ltac set_inv :=
  repeat match goal with
  | H : setCondition _ _ _ _ _ _ _ = Ok _ |- _ => apply setCondition_ok in H as (? & ? & ->)
  end.

(** ** What an accepted call establishes *)

Definition lifecycle_capability (c : Capability) : Prop :=
  c = CapabilityCreate ∨ c = CapabilityUpdate ∨ c = CapabilityDelete.

Lemma lifecycle_capability_spec c :
  (c <>? CapabilityCreate) && (c <>? CapabilityUpdate) && (c <>? CapabilityDelete) = false ↔
  lifecycle_capability c.
Proof.
  unfold lifecycle_capability.
  rewrite !andb_false_iff, !negb_false_iff, !bool_decide_eq_true. tauto.
Qed.

Definition requestedState (st : ResourceStatus) (capability : Capability) : string :=
  if capability =? CapabilityCreate then ResourceStatePending
  else if capability =? CapabilityDelete then ResourceStateDeleting else st_state st.

Record requested (r : Resource) (rt : ResourceType) (st : ResourceStatus)
    (latest : option Operation) (capability : Capability) (opID : OperationID)
    (evID : string) (at_ : Time) (retry : bool) (retryOf : OperationID)
    (target : uint64) : Prop := {
  rq_context : validateResourceContext r rt st at_ = Ok tt;
  rq_supports : Supports rt capability = true;
  rq_capability : lifecycle_capability capability;
  rq_snapshot : validateOperationSnapshot r st latest = Ok tt;
  rq_target : requestTarget r latest capability opID = Ok (retry, retryOf, target);
  rq_admissible : requestAdmissible r st capability retry = true;
  rq_event : blank evID = false }.

(** The status a transition leaves behind. *)
Record moved (r : Resource) (st' : ResourceStatus) (gen : uint64) (state : string)
    (at_ : Time) (reconciling : bool) : Prop := {
  mv_status : status_wf st';
  mv_id : st_resourceID st' = res_id r;
  mv_generation : st_observedGeneration st' = gen;
  mv_state : st_state st' = state;
  mv_time : st_updatedAt st' = at_;
  mv_reconciling :
    isTrue (findCondition (st_conditions st') ConditionReconciling) = reconciling }.

Lemma NewEvent_ok id rid oid gen T reason message at_ e :
  NewEvent id rid oid gen T reason message at_ = Ok e → blank id = false ∧ gen ≠ 0%N.
Proof. unfold NewEvent. intros. ok_inv. by bool_facts. Qed.

Lemma unit_ok (m : outcome unit) u : m = Ok u → m = Ok tt.
Proof. by destruct u. Qed.

Lemma status_moved r gen state cs at_ st reconciling :
  NewResourceStatus (res_id r) gen state cs at_ = Ok st →
  isTrue (findCondition cs ConditionReconciling) = reconciling →
  moved r st gen state at_ reconciling.
Proof. intros (Hwf & ->)%NewResourceStatus_ok Hr. by split. Qed.

Lemma Request_inv r rt st latest capability opID evID at_ res :
  Engine_Request r rt st latest capability opID evID at_ = Ok res →
  ∃ retry retryOf target,
    requested r rt st latest capability opID evID at_ retry retryOf target ∧
    NewOperation opID (res_id r) capability target at_ [retryOf] = Ok (r_Operation res) ∧
    moved r (r_Status res) target (requestedState st capability) at_ true.
Proof.
  unfold Engine_Request. intros H. ok_inv.
  match goal with H : requestTarget _ _ _ _ = Ok (?a, ?b, ?c) |- _ =>
    exists a, b, c; rename H into Htarget end.
  match goal with H : NewOperation _ _ _ _ _ _ = _ |- _ =>
    pose proof (NewOperation_header _ _ _ _ _ _ _ H) as (_ & _ & _ & _ & _ & _ & _ & Ht & _) end.
  match goal with H : NewResourceStatus _ _ _ _ _ = _ |- _ => rename H into Hst end.
  match goal with H : validateRequestPrecondition _ _ _ _ = _ |- _ =>
    unfold validateRequestPrecondition in H; case_if_in H; [|done] end.
  match goal with H : NewEvent _ _ _ _ _ _ _ _ = _ |- _ => apply NewEvent_ok in H as [Hev _] end.
  cbn [r_Operation r_Status]. rewrite Ht in *. clear Ht. split_and!.
  - split; try done; try (by eapply unit_ok); [by apply negb_false_iff|].
    by apply lifecycle_capability_spec.
  - done.
  - set_inv. unfold requestedState.
    match goal with H : (if _ =? CapabilityCreate then _ else _) = Ok _ |- _ => rename H into Hs end.
    repeat case_if_in Hs; ok_inv; set_inv;
      (eapply status_moved; [exact Hst|by find_conditions]).
Qed.

(** [validateOperationContext] accepts exactly the active operation of its
    resource, at a time no earlier than its status. *)
Record in_context (r : Resource) (st : ResourceStatus) (o : Operation) (at_ : Time) : Prop := {
  ic_status : st_resourceID st = res_id r;
  ic_operation : op_resourceID o = res_id r;
  ic_future : (op_targetGeneration o ≤ res_generation r)%N;
  ic_target : st_observedGeneration st = op_targetGeneration o;
  ic_time : at_ ≠ time_zero ∧ (st_updatedAt st ≤ at_)%Z;
  ic_active : IsTerminal o = false → activeStatusOperation st = (true, op_capability o) }.

Lemma validateOperationContext_ok r st o at_ :
  validateOperationContext r st o at_ = Ok tt ↔ in_context r st o at_.
Proof.
  unfold validateOperationContext. split.
  - intros H. ok_inv. bool_facts. destruct H as [? ?], H2 as [? ?].
    split; try done. intros Ht. rewrite Ht in H3. cbn in H3.
    destruct (activeStatusOperation st) as [[] c]; ok_inv; [|done].
    bool_facts. by subst.
  - intros [Hs Ho Hf Ht [Hz Ha] Hact].
    rewrite (bool_decide_eq_true_2 _ Hs), (bool_decide_eq_true_2 _ Ho),
      (bool_decide_eq_true_2 _ Ht). unfold IsZero, Before.
    rewrite (bool_decide_eq_false_2 _ Hz), (proj2 (N.ltb_ge _ _) Hf), (proj2 (Z.ltb_ge _ _) Ha).
    cbn. destruct (IsTerminal o); [done|]. rewrite Hact by done. cbn.
    by rewrite bool_decide_eq_true_2.
Qed.

Lemma Advance_inv r st o next evID at_ res :
  Engine_Advance r st o next evID at_ = Ok res →
  in_context r st o at_ ∧ AdvancePhase o next at_ = Ok (r_Operation res) ∧
  moved r (r_Status res) (st_observedGeneration st) (st_state st) at_ true.
Proof.
  unfold Engine_Advance. intros H. ok_inv. cbn [r_Operation r_Status].
  split_and!; [by apply validateOperationContext_ok; eapply unit_ok|done|].
  set_inv. eapply status_moved; [done|by find_conditions].
Qed.

Lemma settleReconciling_ok r target at_ reason message cs cs' :
  settleReconciling r target at_ reason message cs = Ok cs' →
  isTrue (findCondition cs' ConditionReconciling) = false.
Proof.
  unfold settleReconciling. intros H. case_if_in H; ok_inv; set_inv; by find_conditions.
Qed.

Definition completedState (capability : Capability) : string :=
  if capability =? CapabilityDelete then ResourceStateDeleted else ResourceStateReady.

Lemma Complete_inv r st o evID at_ res :
  Engine_Complete r st o evID at_ = Ok res →
  in_context r st o at_ ∧ Succeed o at_ = Ok (r_Operation res) ∧
  moved r (r_Status res) (st_observedGeneration st) (completedState (op_capability o)) at_ false.
Proof.
  unfold Engine_Complete. intros H. ok_inv. cbn [r_Operation r_Status].
  split_and!; [by apply validateOperationContext_ok; eapply unit_ok|done|].
  match goal with H : completeOutcome _ _ _ _ = _ |- _ =>
    unfold completeOutcome in H; rename H into Hc end.
  match goal with H : settleReconciling _ _ _ _ _ _ = _ |- _ =>
    apply settleReconciling_ok in H end.
  assert (s = completedState (op_capability o)) as <-; [|by eapply status_moved].
  unfold completedState. repeat case_if_in Hc; ok_inv; bool_facts; try done;
    match goal with H : op_capability o = _ |- _ => rewrite H end; by eval_decides.
Qed.

Definition failedState (st : ResourceStatus) (capability : Capability) : string :=
  if capability =? CapabilityUpdate then ResourceStateReady
  else if (capability =? CapabilityDelete) &&
          isTrue (findCondition (st_conditions st) ConditionReady)
  then ResourceStateReady else ResourceStateFailed.

Lemma Fail_inv r st o reason message evID at_ res :
  Engine_Fail r st o reason message evID at_ = Ok res →
  in_context r st o at_ ∧ Fail o reason message at_ = Ok (r_Operation res) ∧
  moved r (r_Status res) (st_observedGeneration st) (failedState st (op_capability o)) at_ false.
Proof.
  unfold Engine_Fail. intros H. ok_inv. cbn [r_Operation r_Status].
  split_and!; [by apply validateOperationContext_ok; eapply unit_ok|done|].
  match goal with H : failOutcome _ _ _ _ _ _ = _ |- _ =>
    unfold failOutcome in H; rename H into Hc end.
  match goal with H : settleReconciling _ _ _ _ _ _ = _ |- _ =>
    apply settleReconciling_ok in H end.
  assert (s = failedState st (op_capability o)) as <-; [|by eapply status_moved].
  unfold failedState. set_inv. rewrite !find_replace in Hc. cbn [cond_type] in Hc.
  change (ConditionOperationFailed =? ConditionReady) with false in Hc.
  change (ConditionReconciled =? ConditionReady) with false in Hc. cbv iota in Hc.
  repeat case_if_in Hc; ok_inv; bool_facts; try done;
    match goal with H : op_capability o = _ |- _ => rewrite H in * end;
    eval_decides; try done;
    match goal with H : isTrue _ = _ |- _ => by rewrite H end.
Qed.

Record observed (r : Resource) (st : ResourceStatus) (facts : ObservedFacts) (at_ : Time)
    : Prop := {
  ob_facts : ObservedFacts_Validate facts = Ok tt;
  ob_id : st_resourceID st = res_id r;
  ob_time : at_ ≠ time_zero ∧ (st_updatedAt st ≤ at_)%Z ∧ (res_updatedAt r ≤ at_)%Z;
  ob_inactive : fst (activeStatusOperation st) = false }.

Definition settledState (st : ResourceStatus) (facts : ObservedFacts) (preserve : bool) : string :=
  if preserve || (st_state st =? ResourceStateDeleted) || (st_state st =? ResourceStateFailed)
  then st_state st else observedState facts (st_state st).

Lemma Observe_inv r st facts at_ preserve st' :
  applyObservation r st facts at_ preserve = Ok st' →
  observed r st facts at_ ∧
  moved r st' (st_observedGeneration st) (settledState st facts preserve) at_
    (isTrue (findCondition (st_conditions st) ConditionReconciling)).
Proof.
  unfold applyObservation. intros H.
  destruct (ObservedFacts_Validate facts) as [[]| |] eqn:Hf; [|done..]. ok_inv.
  destruct (readinessCondition facts) as [rs rr], (driftCondition facts) as [ds dr].
  ok_inv. split.
  { bool_facts. split; try done; tauto. }
  match goal with H : (if (Presence facts <>? _) || _ || _ then _ else _) = _ |- _ =>
    rename H into Hready end.
  match goal with H : (if Drift facts =? _ then _ else _) = _ |- _ => rename H into Hdrift end.
  set_inv. eapply status_moved; [done|].
  repeat case_if_in Hdrift; ok_inv; set_inv; repeat case_if_in Hready; ok_inv; set_inv;
    by find_conditions.
Qed.

Lemma Dependency_inv r st status reason message at_ st' :
  st_resourceID st = res_id r →
  SetDependencyCondition st status reason message at_ = Ok st' →
  moved r st' (st_observedGeneration st) (st_state st) at_
    (isTrue (findCondition (st_conditions st) ConditionReconciling)).
Proof.
  unfold SetDependencyCondition. intros Hid H. ok_inv. set_inv. rewrite Hid in *.
  eapply status_moved; [done|]. by find_conditions.
Qed.

(** ** When a call is accepted *)

Lemma setCondition_accepts gen at_ cs T s r m g :
  conditions_wf gen at_ cs → at_ ≠ time_zero → c_ok T s r → (g ≤ gen)%N →
  ∃ cs', setCondition cs T s r m g at_ = Ok cs' ∧ conditions_wf gen at_ cs'.
Proof.
  intros Hwf Ht Hc Hg. eexists.
  assert (setCondition cs T s r m g at_ = Ok (replaceCondition cs {| cond_type := T;
    cond_status := s; cond_reason := r; cond_message := m; cond_observedGeneration := g;
    cond_lastTransitionAt := at_ |})) as E by by apply setCondition_ok.
  split; [exact E|]. by eapply setCondition_wf.
Qed.

Lemma NewResourceStatus_accepts id gen state cs at_ :
  blank id = false → ResourceState_validate state = Ok tt → at_ ≠ time_zero →
  conditions_wf gen at_ cs → ∃ st, NewResourceStatus id gen state cs at_ = Ok st.
Proof. intros. eexists. apply NewResourceStatus_ok. split; [|done]. by split. Qed.

Lemma NewEvent_accepts id rid oid gen T reason message at_ :
  blank id = false → blank rid = false → gen ≠ 0%N → blank T = false →
  blank reason = false → at_ ≠ time_zero →
  ∃ e, NewEvent id rid oid gen T reason message at_ = Ok e.
Proof.
  intros Hi Hr Hg HT Hre Ht. unfold NewEvent, IsZero.
  rewrite Hi, Hr, HT, Hre, (bool_decide_eq_false_2 _ Hg), (bool_decide_eq_false_2 _ Ht). eauto.
Qed.

(** Push an accepted [setCondition] through the goal. *)
Ltac set_accept :=
  match goal with
  | Hwf : conditions_wf ?G ?t ?cs |- context [setCondition ?cs ?T ?s ?r ?m ?g ?t] =>
      let E := fresh in let Hwf' := fresh in
      destruct (setCondition_accepts G t cs T s r m g Hwf) as (? & E & Hwf');
      [done|by split_and!|lia|rewrite E; clear E; cbn; clear Hwf]
  end.

Ltac status_accept :=
  match goal with
  | |- context [NewResourceStatus ?i ?g ?s ?cs ?t] =>
      let E := fresh in
      destruct (NewResourceStatus_accepts i g s cs t) as [? E]; [done..|];
      rewrite E; clear E; cbn
  end.
Ltac event_accept :=
  match goal with
  | |- context [NewEvent ?i ?r ?o ?g ?T ?re ?m ?t] =>
      let E := fresh in
      destruct (NewEvent_accepts i r o g T re m t) as [? E]; [done..|];
      rewrite E; clear E; cbn
  end.

Lemma settleReconciling_accepts r gen target at_ reason message cs :
  conditions_wf gen at_ cs → at_ ≠ time_zero → (target ≤ gen)%N → blank reason = false →
  ∃ cs', settleReconciling r target at_ reason message cs = Ok cs' ∧ conditions_wf gen at_ cs'.
Proof.
  intros Hwf Ht Hg Hr. unfold settleReconciling. case_match.
  - set_accept. by apply setCondition_accepts.
  - by apply setCondition_accepts.
Qed.

Lemma completeOutcome_accepts c gen target at_ cs :
  lifecycle_capability c → conditions_wf gen at_ cs → at_ ≠ time_zero → (target ≤ gen)%N →
  ∃ state cs', completeOutcome c target at_ cs = Ok (state, cs') ∧ conditions_wf gen at_ cs' ∧
    ResourceState_validate state = Ok tt.
Proof.
  intros [->|[->| ->]] Hwf Ht Hg; unfold completeOutcome; eval_decides;
    repeat set_accept; eauto 6.
Qed.

Lemma failOutcome_accepts c reason message gen target at_ cs :
  lifecycle_capability c → conditions_wf gen at_ cs → at_ ≠ time_zero → (target ≤ gen)%N →
  blank reason = false →
  ∃ state cs', failOutcome c reason message target at_ cs = Ok (state, cs') ∧
    conditions_wf gen at_ cs' ∧ ResourceState_validate state = Ok tt.
Proof.
  intros [->|[->| ->]] Hwf Ht Hg Hr; unfold failOutcome; eval_decides;
    repeat set_accept; eauto 6. case_match; eauto 6.
Qed.

Ltac settle_accept :=
  match goal with
  | Hwf : conditions_wf ?G ?t ?cs |- context [settleReconciling ?r ?g ?t ?re ?m ?cs] =>
      let E := fresh in
      destruct (settleReconciling_accepts r G g t re m cs Hwf) as (? & E & ?); [done..|];
      rewrite E; clear E; cbn
  end.

Lemma observedState_valid facts state :
  ResourceState_validate state = Ok tt → ResourceState_validate (observedState facts state) = Ok tt.
Proof. unfold observedState. by repeat case_match. Qed.

Lemma Observe_accepts r st facts at_ preserve :
  observed r st facts at_ → status_wf st →
  ∃ st', applyObservation r st facts at_ preserve = Ok st'.
Proof.
  intros [Hf Hid (Hz & Hst & Hr) Hact] [Hblank Hstate _ Hwf].
  unfold applyObservation, IsZero, Before.
  rewrite Hf, Hid, (bool_decide_eq_true_2 _ eq_refl), (bool_decide_eq_false_2 _ Hz),
    (proj2 (Z.ltb_ge _ _) Hst), (proj2 (Z.ltb_ge _ _) Hr), Hact. cbn [orb negb].
  apply (conditions_wf_weaken _ (st_observedGeneration st) _ at_) in Hwf; [|done..].
  assert (Hstate' : ∀ b : bool, ResourceState_validate
    (if b then st_state st else observedState facts (st_state st)) = Ok tt).
  { intros []; [done|]. by apply observedState_valid. }
  destruct (readinessCondition facts) as [rs rr] eqn:Hrs.
  destruct (driftCondition facts) as [ds dr] eqn:Hds.
  assert (Hrok : c_ok ConditionReady rs rr).
  { unfold readinessCondition in Hrs. repeat case_match; simplify_eq; by split_and!. }
  assert (Hdok : c_ok "Drifted" ds dr).
  { unfold driftCondition in Hds. repeat case_match; simplify_eq; by split_and!. }
  rewrite Hid in Hblank.
  assert (Hready : ∃ cs', (if (Presence facts <>? ResourcePresenceUnknown) ||
      (Readiness facts <>? ResourceReadinessUnknown) ||
      match findCondition (st_conditions st) ConditionReady with
      | None => true | Some _ => false end
    then setCondition (st_conditions st) ConditionReady rs rr "" (st_observedGeneration st) at_
    else Ok (st_conditions st)) = Ok cs' ∧ conditions_wf (st_observedGeneration st) at_ cs').
  { case_match; [by apply setCondition_accepts|by eexists]. }
  destruct Hready as (cs & -> & Hcs). cbn.
  destruct (setCondition_accepts _ at_ cs "Drifted" ds dr "" (st_observedGeneration st) Hcs)
    as (cs2 & -> & Hcs2); [done|done|lia|]. cbn.
  match goal with |- ∃ st', (if ?b then (if ?c then _ else _) else _) ≫= _ = _ =>
    destruct b, c end; cbn; try set_accept; by apply NewResourceStatus_accepts.
Qed.

(** The status and reason of a condition, when it is present. *)
Definition conditionOf (st : ResourceStatus) (T : string) : option (string * string) :=
  (λ c, (cond_status c, cond_reason c)) <$> findCondition (st_conditions st) T.

Lemma validateResourceContext_ok r rt st at_ :
  validateResourceContext r rt st at_ = Ok tt ↔
  res_type r = rt_ref rt ∧ st_resourceID st = res_id r ∧
  (st_observedGeneration st ≤ res_generation r)%N ∧ at_ ≠ time_zero ∧
  (res_updatedAt r ≤ at_)%Z ∧ (st_updatedAt st ≤ at_)%Z.
Proof.
  unfold validateResourceContext, IsZero, Before.
  rewrite !fail_if_Ok, !orb_false_iff, !negb_false_iff, !bool_decide_eq_true,
    bool_decide_eq_false, N.ltb_ge, !Z.ltb_ge. tauto.
Qed.

Lemma NewOperation_accepts id rid cap gen at_ retryOf :
  blank id = false → blank rid = false → lifecycle_capability cap → gen ≠ 0%N →
  at_ ≠ time_zero → retryOf ≠ id → (retryOf = "" ∨ blank retryOf = false) →
  ∃ o, NewOperation id rid cap gen at_ [retryOf] = Ok o.
Proof.
  intros Hid Hr Hc Hg Ht Hne Hb. unfold NewOperation, IsZero. rewrite Hid, Hr.
  assert (Capability_validate cap = Ok tt) as -> by by destruct Hc as [->|[->| ->]].
  cbn. rewrite (bool_decide_eq_false_2 _ Hg), (bool_decide_eq_false_2 _ Ht). cbn.
  rewrite (bool_decide_eq_false_2 _ Hne).
  assert (blank retryOf && (retryOf <>? "") = false) as ->; [|by eexists].
  destruct Hb as [->| ->]; done.
Qed.

Lemma ensurePreviouslyReady_accepts gen g at_ cs :
  conditions_wf gen at_ cs → at_ ≠ time_zero → (g ≤ gen)%N →
  ∃ cs', ensurePreviouslyReady cs g at_ = Ok cs' ∧ conditions_wf gen at_ cs'.
Proof.
  intros Hwf Ht Hg. unfold ensurePreviouslyReady.
  repeat case_match; first [by apply setCondition_accepts|by eexists].
Qed.

(** ** Panics *)

(** Open the panicking runs in the hypotheses. *)
Ltac panic_inv :=
  repeat match goal with
  | H : mbind _ _ = Panic _ |- _ => apply bind_Panic in H as [H|(? & ? & H)]
  | H : (if _ then Err _ else _) = Panic _ |- _ => apply fail_if_Panic in H as [? H]
  | H : Ok _ = Panic _ |- _ => discriminate H
  | H : Err _ = Panic _ |- _ => discriminate H
  | H : match ?x with pair _ _ => _ end = Panic _ |- _ => destruct x
  | H : (if ?b then _ else _) = Panic _ |- _ => destruct b
  | H : match ?x with Some _ => _ | None => _ end = Panic _ |- _ => destruct x
  end.

Lemma Condition_validate_total c s : Condition_validate c ≠ Panic s.
Proof. unfold Condition_validate, ConditionStatus_validate. intros H. panic_inv. Qed.

Lemma checkConditions_total gen at_ cs s : ∀ i seen, checkConditions gen at_ i seen cs ≠ Panic s.
Proof.
  induction cs as [|c cs IH]; cbn; intros i seen H; [done|].
  destruct (Condition_validate c) eqn:E; [|done|by apply Condition_validate_total in E].
  panic_inv. by apply IH in H.
Qed.

Lemma NewResourceStatus_total id gen state cs at_ s :
  NewResourceStatus id gen state cs at_ ≠ Panic s.
Proof.
  unfold NewResourceStatus, ResourceState_validate. intros H. panic_inv.
  by apply checkConditions_total in H.
Qed.

Lemma setCondition_total cs T st r m g at_ s : setCondition cs T st r m g at_ ≠ Panic s.
Proof.
  unfold setCondition, NewCondition. intros H. panic_inv.
  by apply Condition_validate_total in H.
Qed.

Lemma NewEvent_total id rid oid gen T reason message at_ s :
  NewEvent id rid oid gen T reason message at_ ≠ Panic s.
Proof. unfold NewEvent. intros H. panic_inv. Qed.

Lemma NewOperation_total id rid cap gen at_ retryOf s :
  NewOperation id rid cap gen at_ retryOf ≠ Panic s.
Proof.
  unfold NewOperation, Capability_validate. intros H. panic_inv.
  destruct retryOf as [|? [|? ?]]; panic_inv.
Qed.

Lemma validateTransitionTime_total o at_ s : validateTransitionTime o at_ ≠ Panic s.
Proof. unfold validateTransitionTime. intros H. panic_inv. Qed.

Lemma capitalized_total c s : lifecycle_capability c → capitalized c ≠ Panic s.
Proof. by intros [->|[->| ->]]. Qed.

Ltac never_panics :=
  intros H; panic_inv;
  try match goal with
  | H : setCondition _ _ _ _ _ _ _ = _ |- _ => by apply setCondition_total in H
  | H : NewResourceStatus _ _ _ _ _ = _ |- _ => by apply NewResourceStatus_total in H
  | H : NewEvent _ _ _ _ _ _ _ _ = _ |- _ => by apply NewEvent_total in H
  | H : NewOperation _ _ _ _ _ _ = _ |- _ => by apply NewOperation_total in H
  | H : validateTransitionTime _ _ = _ |- _ => by apply validateTransitionTime_total in H
  end.

Lemma Request_total r rt st latest capability opID evID at_ s :
  Engine_Request r rt st latest capability opID evID at_ ≠ Panic s.
Proof.
  unfold Engine_Request, validateResourceContext, validateOperationSnapshot, requestTarget,
    validateRequestPrecondition, ensurePreviouslyReady, requestReason. never_panics.
  match goal with H : _ && _ && _ = false |- _ => apply lifecycle_capability_spec in H end.
  by eapply capitalized_total.
Qed.

Lemma Advance_total r st o next evID at_ s : Engine_Advance r st o next evID at_ ≠ Panic s.
Proof. unfold Engine_Advance, validateOperationContext, AdvancePhase. never_panics. Qed.

Lemma isFinalPhase_lifecycle o : isFinalPhase o = true → lifecycle_capability (op_capability o).
Proof.
  unfold isFinalPhase, lifecycle_capability. intros H. repeat case_if_in H; bool_facts; first [done|tauto].
Qed.

Lemma Complete_total r st o evID at_ s : Engine_Complete r st o evID at_ ≠ Panic s.
Proof.
  unfold Engine_Complete, validateOperationContext, completeOutcome, settleReconciling,
    successReason, Succeed, complete. never_panics.
  all: ok_inv; match goal with H : negb (isFinalPhase _) = false |- _ =>
    apply negb_false_iff, isFinalPhase_lifecycle in H; by eapply capitalized_total end.
Qed.

Lemma Fail_total r st o reason message evID at_ s :
  Engine_Fail r st o reason message evID at_ ≠ Panic s.
Proof.
  unfold Engine_Fail, validateOperationContext, failOutcome, settleReconciling,
    Fail, complete. never_panics.
Qed.

Lemma Observe_total r st facts at_ preserve s :
  applyObservation r st facts at_ preserve ≠ Panic s.
Proof.
  unfold applyObservation. intros H.
  destruct (ObservedFacts_Validate facts) eqn:E;
    [|done|unfold ObservedFacts_Validate in E; panic_inv].
  revert H. never_panics.
Qed.

Lemma Dependency_total st status reason message at_ s :
  SetDependencyCondition st status reason message at_ ≠ Panic s.
Proof. unfold SetDependencyCondition. never_panics. Qed.

(** ** Properties *)

(** Open an accepted outcome down to the conditions its branches set. *)
Ltac outcome_open H :=
  ok_inv; cbn [r_Status];
  match goal with H : NewResourceStatus _ _ _ _ _ = _ |- _ =>
    apply NewResourceStatus_ok in H as [_ ->] end;
  set_inv; unfold conditionOf; cbn [st_conditions];
  repeat match goal with H : (if ?b then _ else _) = Ok _ |- _ =>
    destruct b eqn:?; ok_inv; set_inv end.
Ltac read_outcome :=
  bool_facts; try done;
  try match goal with H : op_capability _ = _ |- _ => rewrite H end;
  rewrite !find_replace; cbn [cond_type]; eval_decides; split_and!; try done.

(** A terminal outcome leaves the documented conditions: success marks the
    resource Reconciled unless a newer generation is pending, clears
    OperationFailed and sets Ready and Deleted by capability; failure marks it
    not Reconciled, records the reason on OperationFailed and keeps an updated
    resource Ready; neither leaves it Reconciling. *)
Theorem outcome_conditions r st o reason message evID at_ res :
  let pending := N.ltb (op_targetGeneration o) (res_generation r) in
  (Engine_Complete r st o evID at_ = Ok res →
   st_state (r_Status res) = completedState (op_capability o) ∧
   conditionOf (r_Status res) ConditionReconciled =
     Some (if pending then (ConditionStatusFalse, "NewerGenerationPending")
           else (ConditionStatusTrue, "LifecycleSucceeded")) ∧
   conditionOf (r_Status res) ConditionOperationFailed =
     Some (ConditionStatusFalse, "NoFailure") ∧
   fst <$> conditionOf (r_Status res) ConditionReconciling = Some ConditionStatusFalse ∧
   conditionOf (r_Status res) ConditionReady =
     Some (if op_capability o =? CapabilityDelete then (ConditionStatusFalse, "Deleted")
           else (ConditionStatusTrue, "LifecycleSucceeded")) ∧
   (op_capability o = CapabilityDelete → conditionOf (r_Status res) ConditionDeleted =
     Some (ConditionStatusTrue, "DestructionSucceeded"))) ∧
  (Engine_Fail r st o reason message evID at_ = Ok res →
   st_state (r_Status res) = failedState st (op_capability o) ∧
   conditionOf (r_Status res) ConditionReconciled =
     Some (ConditionStatusFalse, if pending then "NewerGenerationPending" else reason) ∧
   conditionOf (r_Status res) ConditionOperationFailed = Some (ConditionStatusTrue, reason) ∧
   fst <$> conditionOf (r_Status res) ConditionReconciling = Some ConditionStatusFalse ∧
   (op_capability o = CapabilityCreate →
     conditionOf (r_Status res) ConditionReady = Some (ConditionStatusFalse, reason)) ∧
   (op_capability o ≠ CapabilityCreate →
     conditionOf (r_Status res) ConditionReady = conditionOf st ConditionReady)).
Proof.
  cbn zeta. split; intros H.
  - apply Complete_inv in H as Hinv. destruct Hinv as (_ & _ & [_ _ _ Hs _ _]).
    split; [exact Hs|clear Hs]. unfold Engine_Complete, settleReconciling, completeOutcome in H.
    outcome_open H; read_outcome.
  - apply Fail_inv in H as Hinv. destruct Hinv as (_ & _ & [_ _ _ Hs _ _]).
    split; [exact Hs|clear Hs]. unfold Engine_Fail, settleReconciling, failOutcome in H.
    outcome_open H; read_outcome.
Qed.

(** An accepted observation never touches an active operation and only
    settles what it observed: it keeps the observed generation, keeps every
    condition but Ready, Drifted and Reconciled, changes Reconciled only on
    drift, keeps Ready when it learnt nothing, and moves the state to Ready or
    Unknown only when the status is neither Deleted nor Failed and the state
    is not preserved. *)
Theorem observation_settles r st facts at_ preserve st' :
  applyObservation r st facts at_ preserve = Ok st' →
  fst (activeStatusOperation st) = false ∧
  st_observedGeneration st' = st_observedGeneration st ∧
  st_state st' = settledState st facts preserve ∧
  (∀ T, T ≠ ConditionReady → T ≠ "Drifted" → T ≠ ConditionReconciled →
    findCondition (st_conditions st') T = findCondition (st_conditions st) T) ∧
  (Drift facts ≠ ResourceDriftDrifted →
    findCondition (st_conditions st') ConditionReconciled =
    findCondition (st_conditions st) ConditionReconciled) ∧
  conditionOf st' "Drifted" = Some (driftCondition facts) ∧
  conditionOf st' ConditionReady =
    (if (Presence facts =? ResourcePresenceUnknown) &&
        (Readiness facts =? ResourceReadinessUnknown) &&
        match findCondition (st_conditions st) ConditionReady with
        | Some _ => true | None => false end
     then conditionOf st ConditionReady else Some (readinessCondition facts)).
Proof.
  intros H. pose proof (Observe_inv _ _ _ _ _ _ H) as [[_ _ _ Hi] [_ _ Hg Hs _ _]].
  split; [exact Hi|split; [exact Hg|split; [exact Hs|]]]. clear Hi Hg Hs. unfold applyObservation in H.
  destruct (ObservedFacts_Validate facts); [|done..].
  destruct (readinessCondition facts) as [rs rr], (driftCondition facts) as [ds dr].
  ok_inv. match goal with H : NewResourceStatus _ _ _ _ _ = _ |- _ =>
    apply NewResourceStatus_ok in H as [_ ->] end.
  set_inv. unfold conditionOf. cbn [st_conditions].
  match goal with |- context [if ?k then _ else Some _] =>
    match goal with H : (if ?b then _ else _) = Ok _ |- _ =>
      assert (k = negb b) as -> by (by destruct (Presence facts =? ResourcePresenceUnknown),
        (Readiness facts =? ResourceReadinessUnknown), (findCondition (st_conditions st) _))
    end end.
  rewrite <- (bool_decide_eq_false (Drift facts = ResourceDriftDrifted)).
  repeat match goal with H : (if ?b then _ else _) = Ok _ |- _ =>
    destruct b eqn:?; ok_inv; set_inv end.
  all: split_and!; first
    [ done
    | intros T HT1 HT2 HT3; rewrite !find_replace; cbn [cond_type];
      repeat rewrite bool_decide_eq_false_2 by congruence; done
    | by (try intros _); rewrite !find_replace; cbn [cond_type]; eval_decides ].
Qed.

(** C36: The engine never panics: whatever resource, status, operation, facts,
    identifiers and time it is given, every entry point returns a result or an
    error. *)
Theorem engine_total r rt st latest o capability opID next reason message evID facts preserve at_ s :
  Engine_Request r rt st latest capability opID evID at_ ≠ Panic s ∧
  Engine_Advance r st o next evID at_ ≠ Panic s ∧
  Engine_Complete r st o evID at_ ≠ Panic s ∧
  Engine_Fail r st o reason message evID at_ ≠ Panic s ∧
  applyObservation r st facts at_ preserve ≠ Panic s ∧
  SetDependencyCondition st next reason message at_ ≠ Panic s.
Proof.
  split_and!; [apply Request_total|apply Advance_total|apply Complete_total
    |apply Fail_total|apply Observe_total|apply Dependency_total].
Qed.

(** ** Witnesses *)

Definition sample_lifecycle_type : ResourceType :=
  {| rt_ref := sample_type; rt_description := "object storage";
     rt_capabilities := [CapabilityCreate; CapabilityUpdate; CapabilityDelete] |}.

Definition sample_status : ResourceStatus :=
  {| st_resourceID := "r-1"; st_observedGeneration := 0; st_state := ResourceStateUnknown;
     st_conditions := []; st_updatedAt := 10 |}.

(** The value of a successful computation. *)
Ltac run e := let v := eval vm_compute in e in lazymatch v with Ok ?r => exact r end.

Definition sample_requested : Result :=
  ltac:(run (Engine_Request sample_resource sample_lifecycle_type sample_status None
    CapabilityCreate "op-1" "ev-1" 10)).

Definition sample_failure : Result :=
  ltac:(run (Engine_Fail sample_resource (r_Status sample_requested)
    (r_Operation sample_requested) "ProviderRejected" "" "ev-2" 12)).

Lemma outcome_conditions_witness :
  conditionOf (r_Status sample_failure) ConditionOperationFailed =
    Some (ConditionStatusTrue, "ProviderRejected").
Proof.
  apply (outcome_conditions sample_resource (r_Status sample_requested)
    (r_Operation sample_requested) "ProviderRejected" "" "ev-2" 12 sample_failure).
  reflexivity.
Defined.

Definition sample_facts : ObservedFacts :=
  {| Presence := ResourcePresencePresent; Readiness := ResourceReadinessReady;
     Drift := ResourceDriftDrifted |}.

Definition sample_observed : ResourceStatus :=
  ltac:(run (ApplyObservation sample_resource (r_Status sample_failure) sample_facts 14)).

Lemma observation_settles_witness : st_state sample_observed = ResourceStateFailed.
Proof.
  apply (observation_settles sample_resource (r_Status sample_failure) sample_facts 14 false
    sample_observed). reflexivity.
Defined.
