(* ===== verification/Lifecycle.v ===== *)
(** * The lifecycle of one resource

    The engine, specification updates, observations and dependency conditions
    as the transitions of one resource's [world], its coherence invariant and
    the progress and admission theorems of the engine over the reachable
    worlds. *)

From S2P Require Import Prelude Operation Values Resource Status Engine.
Open Scope string_scope.
Open Scope go_scope.

(** ** The lifecycle of one resource

    The application serialises the changes of one resource in transactions; a
    [world] is what one of them reads and writes: the resource, its status and
    the latest operation.  A world starts with the admitted create. *)

Record world := {
  w_resource : Resource;
  w_status : ResourceStatus;
  w_latest : Operation }.

Section lifecycle.
Context (rt : ResourceType).

(** The caller reads the latest operation, or only the active one. *)
Definition latest_read (w : world) (latest : option Operation) : Prop :=
  latest = Some (w_latest w) ∨ (latest = None ∧ IsTerminal (w_latest w) = true).

Inductive created : world → Prop :=
  | created_intro id owner spec opID evID at_ r st res :
      NewResource id (rt_ref rt) owner spec at_ = Ok r →
      NewResourceStatus (res_id r) 0 ResourceStateUnknown [] at_ = Ok st →
      Engine_Request r rt st None CapabilityCreate opID evID at_ = Ok res →
      created {| w_resource := r; w_status := r_Status res; w_latest := r_Operation res |}.

Inductive step (w : world) : world → Prop :=
  | step_spec spec at_ r :
      UpdateSpec (w_resource w) spec at_ = Ok r →
      step w {| w_resource := r; w_status := w_status w; w_latest := w_latest w |}
  | step_request latest capability opID evID at_ res :
      latest_read w latest →
      Engine_Request (w_resource w) rt (w_status w) latest capability opID evID at_ = Ok res →
      step w {| w_resource := w_resource w; w_status := r_Status res;
                w_latest := r_Operation res |}
  | step_phase next evID at_ res :
      Engine_Advance (w_resource w) (w_status w) (w_latest w) next evID at_ = Ok res →
      step w {| w_resource := w_resource w; w_status := r_Status res;
                w_latest := r_Operation res |}
  | step_complete evID at_ res :
      Engine_Complete (w_resource w) (w_status w) (w_latest w) evID at_ = Ok res →
      step w {| w_resource := w_resource w; w_status := r_Status res;
                w_latest := r_Operation res |}
  | step_failed reason message evID at_ res :
      Engine_Fail (w_resource w) (w_status w) (w_latest w) reason message evID at_ = Ok res →
      step w {| w_resource := w_resource w; w_status := r_Status res;
                w_latest := r_Operation res |}
  | step_observe facts at_ preserve st :
      applyObservation (w_resource w) (w_status w) facts at_ preserve = Ok st →
      step w {| w_resource := w_resource w; w_status := st; w_latest := w_latest w |}
  | step_dependency status reason message at_ st :
      SetDependencyCondition (w_status w) status reason message at_ = Ok st →
      (st_updatedAt (w_status w) ≤ at_)%Z →
      step w {| w_resource := w_resource w; w_status := st; w_latest := w_latest w |}.

Inductive reachable : world → Prop :=
  | reach_created w : created w → reachable w
  | reach_step w w' : reachable w → step w w' → reachable w'.
End lifecycle.

(** Whether the operation is running, and with which capability. *)
Definition activeOperation (o : Operation) : bool * Capability :=
  if IsTerminal o then (false, "") else (true, op_capability o).

(** The coherence of resource, status and latest operation. *)
Record coherent (rt : ResourceType) (w : world) : Prop := {
  coh_resource : resource_reachable (w_resource w);
  coh_type : res_type (w_resource w) = rt_ref rt;
  coh_status : status_wf (w_status w);
  coh_id : st_resourceID (w_status w) = res_id (w_resource w);
  coh_generation :
    (1 ≤ st_observedGeneration (w_status w) ≤ res_generation (w_resource w))%N;
  coh_operation : op_reachable (w_latest w);
  coh_owner : op_resourceID (w_latest w) = res_id (w_resource w);
  coh_target : op_targetGeneration (w_latest w) = st_observedGeneration (w_status w);
  coh_capability : op_capability (w_latest w) = CapabilityCreate ∨
    op_capability (w_latest w) = CapabilityUpdate ∨
    op_capability (w_latest w) = CapabilityDelete;
  coh_time : (op_phaseChangedAt (w_latest w) ≤ st_updatedAt (w_status w))%Z;
  coh_active : activeStatusOperation (w_status w) = activeOperation (w_latest w);
  coh_reconciling :
    isTrue (findCondition (st_conditions (w_status w)) ConditionReconciling) =
    negb (IsTerminal (w_latest w));
  coh_deleted : st_state (w_status w) = ResourceStateDeleted →
    op_state (w_latest w) = OperationStateSucceeded ∧
    op_capability (w_latest w) = CapabilityDelete;
  coh_failed : st_state (w_status w) = ResourceStateFailed →
    op_state (w_latest w) = OperationStateFailed ∧
    (op_capability (w_latest w) = CapabilityCreate ∨
     op_capability (w_latest w) = CapabilityDelete) }.

(** ** Coherence is invariant *)

Definition activeState (state : string) (reconciling : bool) : bool * Capability :=
  if state =? ResourceStatePending then (true, CapabilityCreate)
  else if state =? ResourceStateDeleting then (true, CapabilityDelete)
  else if (state =? ResourceStateReady) && reconciling then (true, CapabilityUpdate)
  else (false, "").

Lemma moved_active r st gen state at_ reconciling :
  moved r st gen state at_ reconciling →
  activeStatusOperation st = activeState state reconciling.
Proof. intros [_ _ _ <- _ <-]. done. Qed.

Lemma activeState_idle state :
  state ≠ ResourceStatePending → state ≠ ResourceStateDeleting →
  activeState state false = (false, "").
Proof.
  intros Hp Hd. unfold activeState. rewrite (bool_decide_eq_false_2 _ Hp),
    (bool_decide_eq_false_2 _ Hd). by rewrite andb_false_r.
Qed.

Lemma inactive_state st :
  fst (activeStatusOperation st) = false →
  st_state st ≠ ResourceStatePending ∧ st_state st ≠ ResourceStateDeleting.
Proof. unfold activeStatusOperation. intros H. by split; intros E; rewrite E in H. Qed.

Lemma terminal_inactive rt w :
  coherent rt w → IsTerminal (w_latest w) = true →
  activeStatusOperation (w_status w) = (false, "").
Proof. intros [] Ht. unfold activeOperation in *. by rewrite Ht in *. Qed.

Lemma running_active rt w :
  coherent rt w → IsTerminal (w_latest w) = false →
  activeStatusOperation (w_status w) = (true, op_capability (w_latest w)).
Proof. intros [] Ht. unfold activeOperation in *. by rewrite Ht in *. Qed.

Lemma new_operation_facts id rid cap gen at_ retryOf o :
  NewOperation id rid cap gen at_ retryOf = Ok o →
  op_reachable o ∧ op_resourceID o = rid ∧ op_capability o = cap ∧
  op_targetGeneration o = gen ∧ op_phaseChangedAt o = at_ ∧ IsTerminal o = false ∧
  op_requestedAt o = at_ ∧ op_id o = id.
Proof.
  intros H. split; [by econstructor|].
  apply NewOperation_header in H as (Hi & _ & Hr & _ & ? & ? & ? & ? & _).
  split_and!; try done; rewrite Hi; done.
Qed.

(** A transition that replaces the operation and moves the status keeps the
    world coherent. *)
Lemma moved_coherent rt r st o gen state at_ reconciling :
  resource_reachable r → res_type r = rt_ref rt → (1 ≤ gen ≤ res_generation r)%N →
  moved r st gen state at_ reconciling → op_reachable o → op_resourceID o = res_id r →
  op_targetGeneration o = gen → lifecycle_capability (op_capability o) →
  (op_phaseChangedAt o ≤ at_)%Z → reconciling = negb (IsTerminal o) →
  activeState state reconciling = activeOperation o →
  (state = ResourceStateDeleted →
    op_state o = OperationStateSucceeded ∧ op_capability o = CapabilityDelete) →
  (state = ResourceStateFailed → op_state o = OperationStateFailed ∧
    (op_capability o = CapabilityCreate ∨ op_capability o = CapabilityDelete)) →
  coherent rt {| w_resource := r; w_status := st; w_latest := o |}.
Proof.
  intros Hr Ht Hg Hm Ho Hid Hgen Hc Htime Hrec Hact Hdel Hfail.
  pose proof (moved_active _ _ _ _ _ _ Hm) as Hma. destruct Hm as [? ? <- <- <- ?].
  split; cbn; try done; congruence.
Qed.

Lemma requestTarget_ok r latest cap id retry retryOf target :
  requestTarget r latest cap id = Ok (retry, retryOf, target) →
  (retry = false ∧ retryOf = "" ∧ target = res_generation r) ∨
  (∃ o, latest = Some o ∧ op_state o = OperationStateFailed ∧ op_capability o = cap ∧
     retry = true ∧ retryOf = op_id o ∧ target = op_targetGeneration o).
Proof.
  unfold requestTarget. intros H. destruct latest as [o|]; [|by injection H as <- <- <-; left].
  ok_inv. case_if_in H2; [|by injection H2 as <- <- <-; left].
  injection H2 as <- <- <-. bool_facts. right. exists o. by destruct Heqb.
Qed.

Lemma requested_active st capability r retry :
  lifecycle_capability capability → requestAdmissible r st capability retry = true →
  activeState (requestedState st capability) true = (true, capability).
Proof.
  intros [->|[->| ->]]; unfold requestAdmissible, requestedState; eval_decides; try done.
  intros H. bool_facts. by destruct H as [[-> _]|[-> _]].
Qed.

Lemma Request_coherent rt r st latest capability opID evID at_ res :
  resource_reachable r → res_type r = rt_ref rt →
  (∀ o, latest = Some o → (1 ≤ op_targetGeneration o ≤ res_generation r)%N) →
  Engine_Request r rt st latest capability opID evID at_ = Ok res →
  coherent rt {| w_resource := r; w_status := r_Status res; w_latest := r_Operation res |}.
Proof.
  intros Hr Ht Hl (retry & retryOf & target & [] & Hnew & Hm)%Request_inv.
  apply new_operation_facts in Hnew as (? & ? & ? & ? & ? & Hterm & _).
  pose proof (requested_active _ _ _ _ rq_capability rq_admissible) as Hact.
  eapply moved_coherent; try done; try congruence.
  - apply requestTarget_ok in rq_target as [(_ & _ & ->)|(o & -> & _ & _ & _ & _ & ->)]; [|by apply Hl].
    pose proof (resource_reachable_wf r Hr) as (_ & _ & _ & ?). lia.
  - lia.
  - by rewrite Hterm.
  - rewrite Hact. unfold activeOperation. rewrite Hterm. congruence.
  - intros E. by rewrite E in Hact.
  - intros E. by rewrite E in Hact.
Qed.

Lemma terminal_state o state :
  op_state o = state →
  state = OperationStateSucceeded ∨ state = OperationStateFailed → IsTerminal o = true.
Proof. unfold IsTerminal. by intros -> [->| ->]. Qed.

Lemma Succeed_facts o at_ o' :
  Succeed o at_ = Ok o' →
  op_state o' = OperationStateSucceeded ∧ IsTerminal o = false ∧ initial o' = initial o ∧
  op_phaseChangedAt o' = op_phaseChangedAt o ∧ (op_phaseChangedAt o ≤ at_)%Z.
Proof.
  intros H. pose proof (step_initial o o' (step_succeed o at_ o' H)) as Hi.
  unfold Succeed, complete in H. ok_inv.
  match goal with H : validateTransitionTime _ _ = _ |- _ =>
    apply validateTransitionTime_ok in H as (_ & _ & Hp) end.
  bool_facts. split_and!; try done. apply active_nonterminal. by right.
Qed.

Lemma Fail_facts o reason message at_ o' :
  Fail o reason message at_ = Ok o' →
  op_state o' = OperationStateFailed ∧ IsTerminal o = false ∧ initial o' = initial o ∧
  op_phaseChangedAt o' = op_phaseChangedAt o ∧ (op_phaseChangedAt o ≤ at_)%Z.
Proof.
  intros H. pose proof (step_initial o o' (step_fail o reason message at_ o' H)) as Hi.
  unfold Fail, complete in H. ok_inv.
  match goal with H : validateTransitionTime _ _ = _ |- _ =>
    apply validateTransitionTime_ok in H as (_ & _ & Hp) end.
  match goal with H : _ && _ = false |- _ => apply not_pending_nor_running in H end.
  split_and!; try done. by apply active_nonterminal.
Qed.

Lemma Advance_facts o next at_ o' :
  AdvancePhase o next at_ = Ok o' →
  IsTerminal o = false ∧ IsTerminal o' = false ∧ initial o' = initial o ∧
  op_phaseChangedAt o' = at_.
Proof.
  intros H. pose proof (step_initial o o' (step_advance o next at_ o' H)) as Hi.
  unfold AdvancePhase in H. ok_inv. split_and!; try done.
  unfold IsTerminal in *. cbn. by destruct (op_state o =? OperationStatePending).
Qed.

Lemma initial_eq o o' :
  initial o' = initial o →
  op_id o' = op_id o ∧ op_resourceID o' = op_resourceID o ∧
  op_capability o' = op_capability o ∧ op_targetGeneration o' = op_targetGeneration o.
Proof. by intros [= -> -> -> -> _ _ _]. Qed.

Lemma UpdateSpec_facts r spec at_ r' :
  resource_reachable r → UpdateSpec r spec at_ = Ok r' →
  resource_reachable r' ∧ res_id r' = res_id r ∧ res_type r' = res_type r ∧
  res_generation r' = (res_generation r + 1)%N.
Proof.
  intros Hr H. split; [by econstructor|].
  pose proof (resource_reachable_wf r Hr) as (_ & _ & _ & ?).
  apply UpdateSpec_ok in H as (_ & _ & Hmax & ->). cbn. by rewrite u64_incr_small by lia.
Qed.

Lemma observedState_cases facts state :
  observedState facts state = ResourceStateReady ∨
  observedState facts state = ResourceStateUnknown ∨ observedState facts state = state.
Proof. unfold observedState. repeat case_match; tauto. Qed.

Lemma settledState_cases st facts preserve :
  settledState st facts preserve = st_state st ∨
  ((settledState st facts preserve = ResourceStateReady ∨
    settledState st facts preserve = ResourceStateUnknown) ∧
   st_state st ≠ ResourceStateDeleted ∧ st_state st ≠ ResourceStateFailed).
Proof.
  unfold settledState. case_match eqn:E; [by left|]. bool_facts. destruct E as [[_ ?] ?].
  destruct (observedState_cases facts (st_state st)) as [?|[?|?]]; tauto.
Qed.

(** A status change that keeps the operation. *)
Lemma status_coherent rt w st state at_ :
  coherent rt w →
  moved (w_resource w) st (st_observedGeneration (w_status w)) state at_
    (isTrue (findCondition (st_conditions (w_status w)) ConditionReconciling)) →
  (st_updatedAt (w_status w) ≤ at_)%Z →
  (state = st_state (w_status w) ∨
   (fst (activeStatusOperation (w_status w)) = false ∧
    (state = ResourceStateReady ∨ state = ResourceStateUnknown))) →
  coherent rt {| w_resource := w_resource w; w_status := st; w_latest := w_latest w |}.
Proof.
  intros Hw Hm Hat Hstate. pose proof Hw as []. eapply moved_coherent; try done; [lia| |..].
  - destruct Hstate as [->|[Hi Hs]]; [done|].
    assert (IsTerminal (w_latest w) = true) as Ht.
    { rewrite coh_active0 in Hi. unfold activeOperation in Hi. by case_match. }
    rewrite coh_reconciling0. unfold activeOperation. rewrite Ht.
    by destruct Hs as [->| ->].
  - destruct Hstate as [->|[_ [->| ->]]]; done.
  - destruct Hstate as [->|[_ [->| ->]]]; done.
Qed.

Lemma created_coherent rt w : created rt w → coherent rt w.
Proof.
  intros [id owner spec opID evID at_ r st res Hr Hst H].
  eapply (Request_coherent rt r st None); [by eapply resource_new| |done|exact H].
  by apply NewResource_ok in Hr as [-> _].
Qed.

Lemma outcome_coherent rt w st o state at_ :
  coherent rt w →
  moved (w_resource w) st (st_observedGeneration (w_status w)) state at_ false →
  op_reachable o → IsTerminal o = true → initial o = initial (w_latest w) →
  op_phaseChangedAt o = op_phaseChangedAt (w_latest w) →
  (op_phaseChangedAt (w_latest w) ≤ at_)%Z →
  (state = ResourceStateReady ∨
   (state = ResourceStateDeleted ∧ op_state o = OperationStateSucceeded ∧
      op_capability o = CapabilityDelete) ∨
   (state = ResourceStateFailed ∧ op_state o = OperationStateFailed ∧
      (op_capability o = CapabilityCreate ∨ op_capability o = CapabilityDelete))) →
  coherent rt {| w_resource := w_resource w; w_status := st; w_latest := o |}.
Proof.
  intros Hw Hm Ho Hterm Hi Hp Hat Hs. pose proof Hw as [].
  apply initial_eq in Hi as (_ & Hrid & Hcap & Hgen).
  eapply moved_coherent; try done; unfold lifecycle_capability; try congruence;
    [by rewrite Hterm|..].
  - unfold activeOperation. rewrite Hterm.
    by destruct Hs as [->|[[-> _]|[-> _]]].
  - by destruct Hs as [->|[[-> ?]|[-> _]]].
  - by destruct Hs as [->|[[-> _]|[-> ?]]].
Qed.

Lemma step_coherent rt w w' : coherent rt w → step rt w w' → coherent rt w'.
Proof.
  intros Hw Hstep. pose proof Hw as [].
  destruct Hstep as [spec at_ r H|latest cap opID evID at_ res Hl H|next evID at_ res H
    |evID at_ res H|reason message evID at_ res H|facts at_ preserve st H
    |status reason message at_ st H Hat].
  - apply UpdateSpec_facts in H as (? & Hid & Ht & Hg); [|done].
    split; cbn; try done; try congruence. rewrite Hg. lia.
  - eapply Request_coherent; [done|done| |exact H]. intros o ->.
    destruct Hl as [[= ->]|[? _]]; [|done]. by rewrite coh_target0.
  - apply Advance_inv in H as (Hc & Ha & Hm).
    pose proof (reachable_step _ _ coh_operation0 (step_advance _ _ _ _ Ha)) as Hr.
    apply Advance_facts in Ha as (Hto & Ht & Hi & Hp).
    apply initial_eq in Hi as (_ & Hrid & Hcap & Hgen).
    eapply moved_coherent; try done; unfold lifecycle_capability; try congruence.
    + rewrite Hp. lia.
    + by rewrite Ht.
    + unfold activeOperation in *. rewrite Ht, Hcap. rewrite Hto in coh_active0.
      rewrite <- coh_active0. unfold activeStatusOperation, activeState.
      by rewrite coh_reconciling0, Hto.
    + intros E. destruct (coh_deleted0 E) as [Es _]. eapply terminal_state in Es; [|tauto]. congruence.
    + intros E. destruct (coh_failed0 E) as [Es _]. eapply terminal_state in Es; [|tauto]. congruence.
  - apply Complete_inv in H as (Hc & Hs & Hm).
    pose proof (reachable_step _ _ coh_operation0 (step_succeed _ _ _ Hs)) as Hr.
    apply Succeed_facts in Hs as (Hst & Hto & Hi & Hp & Ht).
    eapply outcome_coherent; try done; [eapply terminal_state; eauto|].
    apply initial_eq in Hi as (_ & _ & Hcap & _). unfold completedState. rewrite <- Hcap.
    case_bool_decide; tauto.
  - apply Fail_inv in H as (Hc & Hs & Hm).
    pose proof (reachable_step _ _ coh_operation0 (step_fail _ _ _ _ _ Hs)) as Hr.
    apply Fail_facts in Hs as (Hst & Hto & Hi & Hp & Ht).
    eapply outcome_coherent; try done; [eapply terminal_state; eauto|].
    apply initial_eq in Hi as (_ & _ & Hcap & _). unfold failedState. rewrite <- Hcap in *.
    unfold CapabilityCreate, CapabilityUpdate, CapabilityDelete in *.
    repeat case_match; bool_facts; intuition congruence.
  - apply Observe_inv in H as (Ho & Hm). destruct Ho as [_ _ (_ & Ht & _) Hi].
    eapply status_coherent; try done.
    destruct (settledState_cases (w_status w) facts preserve) as [->|[? _]]; tauto.
  - eapply Dependency_inv in H; [|done]. eapply status_coherent; try done. by left.
Qed.

Lemma reachable_coherent rt w : reachable rt w → coherent rt w.
Proof. induction 1; eauto using created_coherent, step_coherent. Qed.

(** ** When a call is accepted *)

Lemma coherent_conditions rt w at_ :
  coherent rt w → (st_updatedAt (w_status w) ≤ at_)%Z →
  conditions_wf (st_observedGeneration (w_status w)) at_ (st_conditions (w_status w)).
Proof. intros [] Ht. eapply conditions_wf_weaken; [apply coh_status0|lia|done]. Qed.

Lemma coherent_ids rt w :
  coherent rt w →
  blank (res_id (w_resource w)) = false ∧ op_targetGeneration (w_latest w) ≠ 0%N ∧
  (op_targetGeneration (w_latest w) ≤ st_observedGeneration (w_status w))%N ∧
  ResourceState_validate (st_state (w_status w)) = Ok tt.
Proof.
  intros []. destruct coh_status0 as [Hid Hs _ _]. rewrite coh_target0.
  split_and!; [congruence|lia|lia|done].
Qed.

Section accepted.
Context (rt : ResourceType) (w : world) (evID : string) (at_ : Time).
Hypothesis Hw : coherent rt w.
Hypothesis Htime : (st_updatedAt (w_status w) ≤ at_)%Z.
Hypothesis Hzero : at_ ≠ time_zero.
Hypothesis Hev : blank evID = false.

Lemma coherent_context :
  validateOperationContext (w_resource w) (w_status w) (w_latest w) at_ = Ok tt.
Proof.
  pose proof Hw as []. apply validateOperationContext_ok. split; try done.
  - rewrite coh_target0. lia.
  - by apply running_active with rt.
Qed.

Lemma Advance_accepts next :
  blank next = false →
  is_ok (Engine_Advance (w_resource w) (w_status w) (w_latest w) next evID at_) =
  is_ok (AdvancePhase (w_latest w) next at_).
Proof.
  intros Hn. pose proof (coherent_conditions rt w at_ Hw Htime) as Hcs.
  destruct (coherent_ids rt w Hw) as (Hid & Hg0 & Hg & Hs).
  unfold Engine_Advance. rewrite coherent_context. cbn.
  destruct (AdvancePhase (w_latest w) next at_) as [o| |] eqn:E; [|done..]. cbn.
  repeat set_accept.
  status_accept.
  by event_accept.
Qed.

Lemma Complete_accepts :
  is_ok (Engine_Complete (w_resource w) (w_status w) (w_latest w) evID at_) =
  is_ok (Succeed (w_latest w) at_).
Proof.
  pose proof (coherent_conditions rt w at_ Hw Htime) as Hcs.
  destruct (coherent_ids rt w Hw) as (Hid & Hg0 & Hg & Hs).
  unfold Engine_Complete. rewrite coherent_context. cbn.
  destruct (Succeed (w_latest w) at_) as [o| |] eqn:E; [|done..]. cbn.
  repeat set_accept.
  edestruct completeOutcome_accepts as (state & cs' & Hco & Hwf & Hstate);
    [apply (coh_capability _ _ Hw)|done|exact Hzero|exact Hg|]. rewrite Hco. cbn.
  settle_accept.
  status_accept.
  assert (∃ reason, successReason (op_capability (w_latest w)) = Ok reason ∧
            blank reason = false) as (reason & Hre & Hb).
  { destruct (coh_capability _ _ Hw) as [->|[->| ->]]; by eexists. }
  rewrite Hre. cbn.
  by event_accept.
Qed.

Lemma Fail_accepts reason message :
  blank reason = false →
  is_ok (Engine_Fail (w_resource w) (w_status w) (w_latest w) reason message evID at_) =
  is_ok (Fail (w_latest w) reason message at_).
Proof.
  intros Hb. pose proof (coherent_conditions rt w at_ Hw Htime) as Hcs.
  destruct (coherent_ids rt w Hw) as (Hid & Hg0 & Hg & Hs).
  unfold Engine_Fail. rewrite coherent_context. cbn.
  destruct (Fail (w_latest w) reason message at_) as [o| |] eqn:E; [|done..]. cbn.
  repeat set_accept.
  edestruct failOutcome_accepts as (state & cs' & Hco & Hwf & Hstate);
    [apply (coh_capability _ _ Hw)|done|exact Hzero|exact Hg|exact Hb|]. rewrite Hco. cbn.
  settle_accept.
  status_accept.
  by event_accept.
Qed.
End accepted.

(** The states from which a capability may be requested: creation of what was
    never settled, of what failed to be created and of a deleted resource whose
    specification changed since; update of a ready resource with a generation
    that was not observed, or to retry; deletion of what has settled. *)
Definition state_admits (w : world) (capability : Capability) (retry : Prop) : Prop :=
  let state := st_state (w_status w) in
  let unobserved :=
    (st_observedGeneration (w_status w) < res_generation (w_resource w))%N in
  (capability = CapabilityCreate ∧
     (state = ResourceStateUnknown ∨ state = ResourceStatePending ∨
      (state = ResourceStateFailed ∧ retry) ∨
      (state = ResourceStateDeleted ∧ unobserved))) ∨
  (capability = CapabilityUpdate ∧ state = ResourceStateReady ∧ (unobserved ∨ retry)) ∨
  (capability = CapabilityDelete ∧
     (state = ResourceStateReady ∨ state = ResourceStateFailed)).

Lemma requestAdmissible_spec w capability (retry : bool) :
  requestAdmissible (w_resource w) (w_status w) capability retry = true ↔
  state_admits w capability (retry = true).
Proof.
  unfold requestAdmissible, state_admits. split.
  - intros H. repeat case_if_in H; bool_facts; try done; subst; tauto.
  - intros [[-> H]|[[-> H]|[-> H]]]; eval_decides;
      autorewrite with go_bool; tauto.
Qed.

Lemma state_admits_iff w capability (P Q : Prop) :
  P ↔ Q → state_admits w capability P ↔ state_admits w capability Q.
Proof. unfold state_admits. tauto. Qed.

(** A failed latest operation of the same capability makes a request a retry. *)
Lemma retry_admits w capability :
  let o := w_latest w in
  requestAdmissible (w_resource w) (w_status w) capability
    ((op_state o =? OperationStateFailed) && (op_capability o =? capability)) = true ↔
  state_admits w capability
    (op_state o = OperationStateFailed ∧ op_capability o = capability).
Proof.
  cbn. rewrite requestAdmissible_spec. apply state_admits_iff.
  by autorewrite with go_bool.
Qed.

(** When the lifecycle engine admits a request, as one condition. *)
Definition request_admitted (rt : ResourceType) (w : world) (capability : Capability)
    (opID : OperationID) (evID : string) (at_ : Time) : Prop :=
  let o := w_latest w in
  Supports rt capability = true ∧ lifecycle_capability capability ∧
  IsTerminal o = true ∧ op_id o ≠ opID ∧
  state_admits w capability
    (op_state o = OperationStateFailed ∧ op_capability o = capability) ∧
  at_ ≠ time_zero ∧ (res_updatedAt (w_resource w) ≤ at_)%Z ∧
  (st_updatedAt (w_status w) ≤ at_)%Z ∧ blank opID = false ∧ blank evID = false.

Lemma latest_id_nonblank rt w :
  coherent rt w → blank (op_id (w_latest w)) = false.
Proof.
  intros []. destruct (reachable_wf _ coh_operation0) as [Hh _ _ _ _ _ _].
  unfold NewOperation in Hh. by ok_inv.
Qed.

Lemma requestTarget_accepts rt w cap opID :
  coherent rt w → IsTerminal (w_latest w) = true → op_id (w_latest w) ≠ opID →
  blank opID = false →
  ∃ retryOf target,
    requestTarget (w_resource w) (Some (w_latest w)) cap opID =
      Ok ((op_state (w_latest w) =? OperationStateFailed) &&
          (op_capability (w_latest w) =? cap), retryOf, target) ∧
    retryOf ≠ opID ∧ (retryOf = "" ∨ blank retryOf = false) ∧
    (st_observedGeneration (w_status w) ≤ target ≤ res_generation (w_resource w))%N.
Proof.
  intros Hw Ht Hid Hb. pose proof (latest_id_nonblank _ _ Hw). pose proof Hw as [].
  unfold requestTarget. rewrite (bool_decide_eq_true_2 _ coh_owner0),
    (bool_decide_eq_false_2 _ Hid), Ht. cbn.
  destruct ((_ =? _) && (_ =? _)); eexists _, _; (split; [done|]); split_and!;
    first [done|lia|by right|by left|rewrite coh_target0; lia|idtac].
  intros <-. by rewrite blank_empty in Hb.
Qed.

Lemma Request_accepts rt w capability opID evID at_ :
  coherent rt w → request_admitted rt w capability opID evID at_ →
  is_ok (Engine_Request (w_resource w) rt (w_status w) (Some (w_latest w)) capability
           opID evID at_) = true.
Proof.
  intros Hw (Hsup & Hcap & Hterm & Hne & Hadm%retry_admits & Ht & Hru & Hsu & Hop & Hev).
  pose proof Hw as [].
  destruct (requestTarget_accepts rt w capability opID Hw Hterm Hne Hop)
    as (retryOf & target & Htarget & Hr1 & Hr2 & Hg1 & Hg2).
  destruct (coherent_ids rt w Hw) as (Hid & Hg0 & _ & Hs).
  pose proof (coherent_conditions rt w at_ Hw Hsu) as Hcs.
  apply (conditions_wf_weaken _ target at_ at_) in Hcs; [|done|lia].
  unfold Engine_Request.
  rewrite (proj2 (validateResourceContext_ok _ _ _ _)) by (split_and!; done || lia).
  cbn [mbind outcome_bind].
  rewrite Hsup, (proj2 (lifecycle_capability_spec _) Hcap). cbn [mbind outcome_bind negb].
  assert (validateOperationSnapshot (w_resource w) (w_status w) (Some (w_latest w)) = Ok tt) as ->.
  { unfold validateOperationSnapshot. rewrite (terminal_inactive rt w Hw Hterm), Hterm. cbn.
    by rewrite (bool_decide_eq_true_2 _ coh_owner0). }
  cbn [mbind outcome_bind]. rewrite Htarget. cbn. unfold validateRequestPrecondition. rewrite Hadm. cbn.
  destruct (NewOperation_accepts opID (res_id (w_resource w)) capability target at_ retryOf)
    as [o Ho]; [done..|lia|done|done|done|]. rewrite Ho. cbn.
  apply new_operation_facts in Ho as (_ & _ & _ & Htg & _).
  assert (∃ cs, (if st_state (w_status w) =? ResourceStateReady
    then ensurePreviouslyReady (st_conditions (w_status w))
           (st_observedGeneration (w_status w)) at_
    else Ok (st_conditions (w_status w))) = Ok cs ∧ conditions_wf target at_ cs)
    as (cs & Hcs' & Hwf).
  { case_match; [|by eexists]. by apply ensurePreviouslyReady_accepts. }
  clear Hcs. rewrite Hcs'. cbn. rewrite Htg.
  assert (∃ reason, requestReason capability ((op_state (w_latest w) =? OperationStateFailed) &&
          (op_capability (w_latest w) =? capability)) = Ok reason ∧ blank reason = false)
    as (reason & Hre & Hb).
  { destruct Hcap as [->|[->| ->]], (_ && _); by eexists. }
  rewrite Hre. cbn. do 3 set_accept.
  assert (target ≠ 0%N) by lia.
  destruct Hcap as [->|[->| ->]]; eval_decides; repeat set_accept; status_accept;
    by event_accept.
Qed.

(** ** Properties *)

(** C7: In every world the engine, specification updates, observations and
    dependency conditions can produce, the resource, its status and its latest
    operation agree: the status reports an active operation exactly when the
    latest operation is not terminal, with its capability and generation; the
    status is well-formed and never ahead of the desired generation; a resource
    is Deleted only after a delete succeeded and Failed only after a create or
    delete failed. *)
Theorem engine_coherence rt w : reachable rt w → coherent rt w.
Proof. apply reachable_coherent. Qed.

(** C8: No active operation is ever stranded by the engine: in every reachable
    world, at any time from the last status change on, the engine accepts the
    failure of the active operation, and it accepts exactly one way forward,
    the following phase, or completion once the operation is in its last
    phase. *)
Theorem engine_never_strands rt w evID at_ reason message :
  reachable rt w → IsTerminal (w_latest w) = false →
  (st_updatedAt (w_status w) ≤ at_)%Z → at_ ≠ time_zero →
  blank evID = false → blank reason = false →
  let r := w_resource w in let st := w_status w in let o := w_latest w in
  is_ok (Engine_Fail r st o reason message evID at_) = true ∧
  match following_phase o with
  | Some next => is_ok (Engine_Complete r st o evID at_) = false ∧
      ∀ p, is_ok (Engine_Advance r st o p evID at_) = bool_decide (p = next)
  | None => is_ok (Engine_Complete r st o evID at_) = true ∧
      ∀ p, is_ok (Engine_Advance r st o p evID at_) = false
  end.
Proof.
  intros Hw%reachable_coherent Hterm Hat Hz Hev Hb; cbn zeta.
  rewrite (Fail_accepts rt), (Complete_accepts rt) by done.
  assert (∀ p, is_ok (Engine_Advance (w_resource w) (w_status w) (w_latest w) p evID at_) =
               is_ok (AdvancePhase (w_latest w) p at_)) as Hadv.
  { intros p. destruct (blank p) eqn:Hp; [|by apply (Advance_accepts rt)].
    unfold Engine_Advance. rewrite (coherent_context rt) by done. cbn.
    unfold AdvancePhase. destruct (canAdvanceTo (w_latest w) p) eqn:Hc.
    - exfalso. unfold canAdvanceTo in Hc. repeat case_if_in Hc; bool_facts; try done;
        by intuition subst.
    - cbn. by destruct (IsTerminal (w_latest w)). }
  pose proof (coh_time _ _ Hw).
  destruct (operation_ready (w_latest w) at_ reason message) as [Hf Hn];
    [by apply (coh_operation rt)|done|by apply (coh_capability rt)|lia|done|done|].
  split; [done|]. destruct (following_phase (w_latest w)); by setoid_rewrite Hadv.
Qed.

(** In a reachable world the engine admits a request exactly under the
    documented conditions: the type supports the capability and it has a
    lifecycle flow, the latest operation is terminal and its ID is not reused,
    the state admits the capability (a failed operation of the same capability
    makes it a retry) and the time does not precede resource or status. *)
Theorem request_admission rt w capability opID evID at_ :
  reachable rt w →
  is_ok (Engine_Request (w_resource w) rt (w_status w) (Some (w_latest w)) capability
           opID evID at_) = true ↔
  request_admitted rt w capability opID evID at_.
Proof.
  intros Hw%reachable_coherent. split; [|by apply Request_accepts].
  intros [res H]%is_ok_spec.
  apply Request_inv in H as (retry & retryOf & target & Hrq & Hnew & _).
  destruct Hrq as [Hctx Hsup Hcap _ Htarget Hadm Hev].
  apply validateResourceContext_ok in Hctx as (_ & _ & _ & Hz & Hr & Hs).
  unfold requestTarget in Htarget. ok_inv.
  unfold NewOperation in Hnew. ok_inv.
  unfold request_admitted. split_and!; try done.
  - by apply negb_false_iff.
  - by eapply bool_decide_eq_false.
  - apply retry_admits.
    match goal with H : (if _ then Ok _ else Ok _) = _ |- _ => by case_if_in H; injection H as <- _ _ end.
Qed.

(** No transition loses ground: the desired and the observed generation and
    the time of the status never decrease, the resource keeps its identity and
    type, and a new operation never targets an older generation than the one it
    replaces. *)
Theorem step_monotone rt w w' :
  reachable rt w → step rt w w' →
  (res_generation (w_resource w) ≤ res_generation (w_resource w'))%N ∧
  (st_observedGeneration (w_status w) ≤ st_observedGeneration (w_status w'))%N ∧
  (op_targetGeneration (w_latest w) ≤ op_targetGeneration (w_latest w'))%N ∧
  (st_updatedAt (w_status w) ≤ st_updatedAt (w_status w'))%Z ∧
  res_id (w_resource w') = res_id (w_resource w) ∧
  res_type (w_resource w') = res_type (w_resource w).
Proof.
  intros Hr Hstep. pose proof (reachable_coherent _ _ Hr) as Hw.
  pose proof (step_coherent _ _ _ Hw Hstep) as Hw'.
  rewrite (coh_target _ _ Hw), (coh_target _ _ Hw').
  assert (∀ r st gen state at_ b, moved r st gen state at_ b →
    st_observedGeneration st = gen ∧ st_updatedAt st = at_) as Hmv by by intros ? ? ? ? ? ? [].
  destruct Hstep as [spec at_ r H|latest cap opID evID at_ res Hl H|next evID at_ res H
    |evID at_ res H|reason message evID at_ res H|facts at_ preserve st H
    |status reason message at_ st H Hat]; cbn.
  - apply UpdateSpec_facts in H as (_ & -> & -> & ->); [|apply Hw]. split_and!; lia || done.
  - apply Request_inv in H as (retry & retryOf & target & [Hctx _ _ _ Htgt _ _] & _ & Hm).
    apply validateResourceContext_ok in Hctx as (_ & _ & ? & _ & _ & ?).
    apply Hmv in Hm as [-> ->]. split_and!; try done.
    all: apply requestTarget_ok in Htgt as [(_ & _ & ->)|(o & -> & _ & _ & _ & _ & ->)];
      [done|destruct Hl as [[= ->]|[? _]]; [|done]; by rewrite (coh_target _ _ Hw)].
  - apply Advance_inv in H as ([_ _ _ _ [_ ?] _] & _ & Hm).
    apply Hmv in Hm as [-> ->]. split_and!; done.
  - apply Complete_inv in H as ([_ _ _ _ [_ ?] _] & _ & Hm).
    apply Hmv in Hm as [-> ->]. split_and!; done.
  - apply Fail_inv in H as ([_ _ _ _ [_ ?] _] & _ & Hm).
    apply Hmv in Hm as [-> ->]. split_and!; done.
  - apply Observe_inv in H as ([_ _ (_ & ? & _) _] & Hm).
    apply Hmv in Hm as [-> ->]. split_and!; done.
  - eapply Dependency_inv in H; [|apply Hw].
    apply Hmv in H as [-> ->]. split_and!; done.
Qed.

(** ** Witnesses *)

Definition sample_world : world :=
  {| w_resource := sample_resource; w_status := r_Status sample_requested;
     w_latest := r_Operation sample_requested |}.

Lemma sample_world_reachable : reachable sample_lifecycle_type sample_world.
Proof.
  apply reach_created.
  by apply (created_intro sample_lifecycle_type "r-1" sample_owner sample_spec "op-1" "ev-1"
    10 sample_resource sample_status sample_requested).
Qed.

Definition sample_failed_world : world :=
  {| w_resource := sample_resource; w_status := r_Status sample_failure;
     w_latest := r_Operation sample_failure |}.

Lemma sample_failed_step : step sample_lifecycle_type sample_world sample_failed_world.
Proof. by apply (step_failed _ sample_world "ProviderRejected" "" "ev-2" 12). Qed.

Lemma sample_failed_world_reachable : reachable sample_lifecycle_type sample_failed_world.
Proof. eapply reach_step; [apply sample_world_reachable|apply sample_failed_step]. Qed.

Lemma engine_coherence_witness : coherent sample_lifecycle_type sample_failed_world.
Proof. apply engine_coherence, sample_failed_world_reachable. Defined.

Lemma engine_never_strands_witness :
  is_ok (Engine_Fail sample_resource (r_Status sample_requested)
    (r_Operation sample_requested) "Boom" "" "ev-2" 11) = true ∧
  is_ok (Engine_Complete sample_resource (r_Status sample_requested)
    (r_Operation sample_requested) "ev-2" 11) = false ∧
  ∀ p, is_ok (Engine_Advance sample_resource (r_Status sample_requested)
    (r_Operation sample_requested) p "ev-2" 11) = bool_decide (p = OperationPhaseValidating).
Proof.
  refine (engine_never_strands sample_lifecycle_type sample_world "ev-2" 11 "Boom" ""
    sample_world_reachable _ _ _ _ _); [reflexivity|cbn; lia|done|reflexivity|reflexivity].
Defined.

Lemma request_admission_witness :
  is_ok (Engine_Request sample_resource sample_lifecycle_type (r_Status sample_failure)
    (Some (r_Operation sample_failure)) CapabilityDelete "op-2" "ev-3" 13) = true.
Proof.
  apply (request_admission sample_lifecycle_type sample_failed_world CapabilityDelete
    "op-2" "ev-3" 13 sample_failed_world_reachable).
  unfold request_admitted. split_and!; try done; [by right; right|].
  do 2 right. split; [done|]. by right.
Defined.

Lemma step_monotone_witness :
  (st_updatedAt (w_status sample_world) ≤ st_updatedAt (w_status sample_failed_world))%Z.
Proof. apply (step_monotone _ _ _ sample_world_reachable sample_failed_step). Defined.
