(* ===== verification/Contracts.v ===== *)
(** * Developer contracts

    Models [src/internal/resourcecontract/]: the output contract
    ([contract.go]), the reference contract ([reference.go]) and the
    normalisation of spec violations ([validation.go]).  A Go
    [map[string]any] is the list of its entries in iteration order. *)

From S2P Require Import Prelude Operation Values Resource.
Open Scope string_scope.
Open Scope go_scope.

(** ** Output contracts *)

Definition OutputTypeString : string := "string".
Definition OutputTypeInteger : string := "integer".
Definition OutputTypeNumber : string := "number".
Definition OutputTypeBoolean : string := "boolean".

Definition OutputType_valid (t : string) : bool :=
  (t =? OutputTypeString) || (t =? OutputTypeInteger) || (t =? OutputTypeNumber) ||
  (t =? OutputTypeBoolean).

Definition reservedOutputNames : list string := ["observedGeneration"; "values"].

Record OutputField := {
  of_Name : string;
  of_JSONType : string;
  of_RequiredWhenReady : bool }.

#[export] Instance OutputField_eq_dec : EqDecision OutputField.
Proof. solve_decision. Defined.

Record OutputContract := { oc_fields : list OutputField }.

Definition checkOutputField (field : OutputField) : outcome unit :=
  let name := TrimSpace (of_Name field) in
  fail_if (name =? "") || (name <>? of_Name field)
    with Errorf "output field name %q is empty or not canonical" [ArgS (of_Name field)] ;;
  fail_if bool_decide (name ∈ reservedOutputNames)
    with Errorf "output field name %q is reserved" [ArgS name] ;;
  fail_if negb (OutputType_valid (of_JSONType field))
    with Errorf "output field %q declares unknown JSON type %q"
      [ArgS name; ArgS (of_JSONType field)] ;;
  Ok tt.

Fixpoint checkOutputFields (fields : list OutputField) : outcome unit :=
  match fields with
  | [] => Ok tt
  | field :: rest => checkOutputField field ≫= λ _, checkOutputFields rest
  end.

Definition NewOutputContract (fields : list OutputField) : outcome OutputContract :=
  fail_if Nat.eqb (length fields) 0
    with Errorf "output contract must declare at least one field" [] ;;
  checkOutputFields fields ≫= λ _,
  let normalized := sort_by of_Name String.le fields in
  match adjacent_duplicate of_Name normalized with
  | Some name => Err (Errorf "output field %q is duplicated" [ArgS name])
  | None => Ok {| oc_fields := normalized |}
  end.

Definition RequiresOutputs (c : OutputContract) : bool :=
  existsb of_RequiredWhenReady (oc_fields c).

(** [values[name]] with its presence. *)
Fixpoint map_get (values : list (string * value)) (name : string) : option value :=
  match values with
  | [] => None
  | (key, v) :: rest => if key =? name then Some v else map_get rest name
  end.

Definition is_number (v : value) : bool :=
  match v with VInt _ _ | VFloat32 _ | VFloat64 _ => true | _ => false end.
Definition is_string (v : value) : bool := match v with VString _ => true | _ => false end.
Definition is_bool (v : value) : bool := match v with VBool _ => true | _ => false end.

Definition validateFieldType (field : OutputField) (v : value) : outcome unit :=
  if of_JSONType field =? OutputTypeString then
    fail_if negb (is_string v)
      with Errorf "output field %q must be a string" [ArgS (of_Name field)] ;; Ok tt
  else if of_JSONType field =? OutputTypeBoolean then
    fail_if negb (is_bool v)
      with Errorf "output field %q must be a boolean" [ArgS (of_Name field)] ;; Ok tt
  else if of_JSONType field =? OutputTypeInteger then
    fail_if negb (snd (IntegralValue v))
      with Errorf "output field %q must carry an integral number" [ArgS (of_Name field)] ;;
    Ok tt
  else if of_JSONType field =? OutputTypeNumber then
    fail_if negb (is_number v)
      with Errorf "output field %q must be a number" [ArgS (of_Name field)] ;; Ok tt
  else Err (Errorf "output field %q declares unknown JSON type %q"
              [ArgS (of_Name field); ArgS (of_JSONType field)]).

Fixpoint validateDeclared (fields : list OutputField) (values : list (string * value))
    : outcome unit :=
  match fields with
  | [] => Ok tt
  | field :: rest =>
      match map_get values (of_Name field) with
      | None => validateDeclared rest values
      | Some v => validateFieldType field v ≫= λ _, validateDeclared rest values
      end
  end.

Fixpoint validateUndeclared (declared : list string) (values : list (string * value))
    : outcome unit :=
  match values with
  | [] => Ok tt
  | (name, _) :: rest =>
      fail_if negb (bool_decide (name ∈ declared))
        with Errorf "output field %q is not declared by the resource type contract"
          [ArgS name] ;;
      validateUndeclared declared rest
  end.

Fixpoint validateRequired (fields : list OutputField) (values : list (string * value))
    : outcome unit :=
  match fields with
  | [] => Ok tt
  | field :: rest =>
      if negb (of_RequiredWhenReady field) then validateRequired rest values
      else match map_get values (of_Name field) with
           | None => Err (Errorf "required output field %q is missing" [ArgS (of_Name field)])
           | Some _ => validateRequired rest values
           end
  end.

Definition OutputContract_Validate (c : OutputContract) (values : list (string * value))
    : outcome unit :=
  validateDeclared (oc_fields c) values ≫= λ _,
  validateUndeclared (of_Name <$> oc_fields c) values ≫= λ _,
  validateRequired (oc_fields c) values.

(** ** Reference contracts *)

Definition MaxReferenceSlots : nat := 16.
Definition MaxSlotItems : Z := 16.

Definition reservedReferenceNames : list string :=
  ["id"; "type"; "owner"; "spec"; "status"; "generation"; "references"; "outputs";
   "latestOperation"; "createdAt"; "updatedAt"].

Record ReferenceSlot := {
  slot_Name : string;
  slot_AllowedTargetTypes : list ResourceTypeRef;
  slot_MinItems : Z;
  slot_MaxItems : Z }.

#[export] Instance ReferenceSlot_eq_dec : EqDecision ReferenceSlot.
Proof. solve_decision. Defined.

Record ReferenceContract := { rc_slots : list ReferenceSlot }.

(** The order of [sort.Slice] on targets: by name, then by version. *)
Definition target_key (t : ResourceTypeRef) : string * string := (ref_Name t, ref_Version t).
Definition sortTargets : list ResourceTypeRef → list ResourceTypeRef :=
  sort_by target_key (pair_le String.le String.le).

Fixpoint checkTargets (name : string) (seen : list ResourceTypeRef)
    (targets : list ResourceTypeRef) : outcome (list ResourceTypeRef) :=
  match targets with
  | [] => Ok []
  | target :: rest =>
      fail_if blank (ref_Name target) || blank (ref_Version target)
        with Errorf "reference slot %q declares an invalid target type: name and version are required"
          [ArgS name] ;;
      fail_if bool_decide (target ∈ seen)
        with Errorf "reference slot %q declares duplicate target type %s/%s"
          [ArgS name; ArgS (ref_Name target); ArgS (ref_Version target)] ;;
      targets ← checkTargets name (target :: seen) rest;
      Ok (target :: targets)
  end.

Definition normalizeSlot (slot : ReferenceSlot) : outcome ReferenceSlot :=
  let name := TrimSpace (slot_Name slot) in
  fail_if (name =? "") || (name <>? slot_Name slot)
    with Errorf "reference slot name %q is empty or not canonical" [ArgS (slot_Name slot)] ;;
  fail_if bool_decide (name ∈ reservedReferenceNames)
    with Errorf "reference slot name %q is reserved" [ArgS name] ;;
  fail_if Nat.eqb (length (slot_AllowedTargetTypes slot)) 0
    with Errorf "reference slot %q must declare at least one allowed target type"
      [ArgS name] ;;
  targets ← checkTargets name [] (slot_AllowedTargetTypes slot);
  let targets := sortTargets targets in
  fail_if (slot_MinItems slot <>? 0%Z) && (slot_MinItems slot <>? 1%Z)
    with Errorf "reference slot %q minItems must be 0 or 1" [ArgS name] ;;
  fail_if Z.ltb (slot_MaxItems slot) 1 || Z.ltb MaxSlotItems (slot_MaxItems slot)
    with Errorf "reference slot %q maxItems must be between 1 and %d"
      [ArgS name; ArgZ MaxSlotItems] ;;
  fail_if Z.ltb (slot_MaxItems slot) (slot_MinItems slot)
    with Errorf "reference slot %q minItems exceeds maxItems" [ArgS name] ;;
  Ok {| slot_Name := name; slot_AllowedTargetTypes := targets;
        slot_MinItems := slot_MinItems slot; slot_MaxItems := slot_MaxItems slot |}.

Fixpoint normalizeSlots (slots : list ReferenceSlot) : outcome (list ReferenceSlot) :=
  match slots with
  | [] => Ok []
  | slot :: rest =>
      slot ← normalizeSlot slot;
      normalized ← normalizeSlots rest;
      Ok (slot :: normalized)
  end.

Definition NewReferenceContract (slots : list ReferenceSlot) : outcome ReferenceContract :=
  fail_if Nat.eqb (length slots) 0
    with Errorf "reference contract must declare at least one slot" [] ;;
  fail_if Nat.ltb MaxReferenceSlots (length slots)
    with Errorf "reference contract declares %d slots; the maximum is %d"
      [ArgN (N.of_nat (length slots)); ArgN (N.of_nat MaxReferenceSlots)] ;;
  normalized ← normalizeSlots slots;
  let normalized := sort_by slot_Name String.le normalized in
  match adjacent_duplicate slot_Name normalized with
  | Some name => Err (Errorf "reference slot %q is duplicated" [ArgS name])
  | None => Ok {| rc_slots := normalized |}
  end.

Fixpoint findSlot (slots : list ReferenceSlot) (name : string) : option ReferenceSlot :=
  match slots with
  | [] => None
  | slot :: rest => if slot_Name slot =? name then Some slot else findSlot rest name
  end.

Definition Slot (c : ReferenceContract) (name : string) : option ReferenceSlot :=
  findSlot (rc_slots c) name.

Definition AllowsTarget (s : ReferenceSlot) (ref : ResourceTypeRef) : bool :=
  existsb (λ allowed, allowed =? ref) (slot_AllowedTargetTypes s).

(** ** Spec violations *)

Record Violation := { v_Path : string; v_Keyword : string; v_Message : string }.

#[export] Instance Violation_eq_dec : EqDecision Violation.
Proof. solve_decision. Defined.

Record ValidationError := {
  ve_TypeRef : ResourceTypeRef;
  ve_Violations : list Violation }.

(** The order of [SortViolations]. *)
Definition violation_key (v : Violation) : string * (string * string) :=
  (v_Path v, (v_Keyword v, v_Message v)).

Definition SortViolations : list Violation → list Violation :=
  sort_by violation_key (pair_le String.le (pair_le String.le String.le)).

Fixpoint uniqueViolations (seen violations : list Violation) : list Violation :=
  match violations with
  | [] => []
  | v :: rest =>
      if bool_decide (v ∈ seen) then uniqueViolations seen rest
      else v :: uniqueViolations (v :: seen) rest
  end.

Definition NewValidationError (ref : ResourceTypeRef) (violations : list Violation)
    : ValidationError :=
  {| ve_TypeRef := ref; ve_Violations := SortViolations (uniqueViolations [] violations) |}.

(** ** Lemmas *)

Lemma canonical_name_spec name :
  ((TrimSpace name =? "") || (TrimSpace name <>? name)) = false ↔
  name ≠ "" ∧ TrimSpace name = name.
Proof.
  rewrite orb_false_iff, negb_false_iff, bool_decide_eq_true, bool_decide_eq_false.
  split; intros [? E]; rewrite E in *; done.
Qed.

(** A field a contract may declare. *)
Definition declarable (field : OutputField) : Prop :=
  of_Name field ≠ "" ∧ TrimSpace (of_Name field) = of_Name field ∧
  (of_Name field ∉ reservedOutputNames) ∧ OutputType_valid (of_JSONType field) = true.

Lemma checkOutputField_ok field u : checkOutputField field = Ok u ↔ declarable field.
Proof.
  unfold checkOutputField, declarable. rewrite !fail_if_Ok, canonical_name_spec,
    bool_decide_eq_false, negb_false_iff. destruct u. split.
  - intros ([? E] & ? & ? & _). by rewrite E in *.
  - intros (? & E & ? & ?). by rewrite E.
Qed.

Lemma checkOutputFields_ok fields u :
  checkOutputFields fields = Ok u ↔ Forall declarable fields.
Proof.
  destruct u. induction fields as [|field fields IH]; cbn; [by split|].
  rewrite bind_Ok, Forall_cons. setoid_rewrite checkOutputField_ok. rewrite <- IH.
  split; [by intros (_ & ? & ?)|intros [? ?]; by exists tt].
Qed.

(** What a value of the declared type looks like. *)
Definition has_type (t : string) (v : value) : Prop :=
  (t = OutputTypeString ∧ is_string v = true) ∨ (t = OutputTypeBoolean ∧ is_bool v = true) ∨
  (t = OutputTypeInteger ∧ snd (IntegralValue v) = true) ∨
  (t = OutputTypeNumber ∧ is_number v = true).

Lemma validateFieldType_ok field v u :
  validateFieldType field v = Ok u ↔ has_type (of_JSONType field) v.
Proof.
  destruct u. unfold validateFieldType, has_type, OutputTypeString, OutputTypeBoolean,
    OutputTypeInteger, OutputTypeNumber.
  repeat case_bool_decide; rewrite ?fail_if_Ok, ?negb_false_iff; intuition congruence.
Qed.

Lemma map_get_Some values name v :
  NoDup (fst <$> values) → map_get values name = Some v ↔ (name, v) ∈ values.
Proof.
  induction values as [|[k w] values IH]; cbn; intros Hnd.
  { split; [done|]. by intros ?%not_elem_of_nil. }
  apply NoDup_cons in Hnd as [Hk Hnd]. rewrite elem_of_cons.
  case_bool_decide as E; [subst|].
  - split; [intros [= ->]; by left|]. intros [[= ->]|Hin]; [done|].
    destruct Hk. apply list_elem_of_fmap. by exists (name, v).
  - rewrite IH by done. split; [by right|]. by intros [[= -> ->]|].
Qed.

Lemma map_get_None values name : map_get values name = None ↔ name ∉ (fst <$> values).
Proof.
  induction values as [|[k w] values IH]; cbn; [by split; intros; [apply not_elem_of_nil|]|].
  rewrite not_elem_of_cons. case_bool_decide as E; [by split; [|intros [? _]]; subst|].
  rewrite IH. split; [by split|by intros [_ ?]].
Qed.

Lemma validateDeclared_ok fields values u :
  NoDup (fst <$> values) →
  validateDeclared fields values = Ok u ↔
  ∀ field v, field ∈ fields → (of_Name field, v) ∈ values → has_type (of_JSONType field) v.
Proof.
  intros Hnd. destruct u. induction fields as [|f fields IH]; cbn.
  { split; [|done]. by intros _ ? ? ?%not_elem_of_nil. }
  setoid_rewrite elem_of_cons. destruct (map_get values (of_Name f)) as [w|] eqn:E.
  - apply map_get_Some in E; [|done]. rewrite bind_Ok. setoid_rewrite validateFieldType_ok.
    setoid_rewrite IH. split.
    + intros (_ & Hw & Hrest) field v [->|Hin] Hv; [|by apply Hrest].
      assert (v = w) as ->; [|done]. apply map_get_Some in E, Hv; [|done..]. congruence.
    + intros H. exists tt. split; [apply (H f); [by left|done]|]. intros; apply H; [by right|done].
  - apply map_get_None in E. rewrite IH. split.
    + intros H field v [->|Hin] Hv; [|by apply H]. destruct E. apply list_elem_of_fmap.
      by exists (of_Name f, v).
    + intros H field v Hin Hv. apply H; [by right|done].
Qed.

Lemma validateUndeclared_ok declared values u :
  validateUndeclared declared values = Ok u ↔ ∀ name, name ∈ (fst <$> values) → name ∈ declared.
Proof.
  destruct u. induction values as [|[k w] values IH]; cbn.
  { split; [|done]. by intros _ ? ?%not_elem_of_nil. }
  rewrite fail_if_Ok, negb_false_iff, bool_decide_eq_true, IH. setoid_rewrite elem_of_cons.
  split; [intros [? H] name [->|?]; [done|by apply H]|intros H; split; [apply H; by left|]].
  intros; apply H; by right.
Qed.

Lemma validateRequired_ok fields values u :
  validateRequired fields values = Ok u ↔
  ∀ field, field ∈ fields → of_RequiredWhenReady field = true →
    of_Name field ∈ (fst <$> values).
Proof.
  destruct u. induction fields as [|f fields IH]; cbn.
  { split; [|done]. by intros _ ? ?%not_elem_of_nil. }
  setoid_rewrite elem_of_cons. destruct (of_RequiredWhenReady f) eqn:E; cbn.
  - destruct (map_get values (of_Name f)) eqn:Em.
    + assert (of_Name f ∈ fst <$> values) as Hin.
      { destruct (decide (of_Name f ∈ fst <$> values)) as [|Hn]; [done|].
        apply map_get_None in Hn. congruence. }
      rewrite IH. split; [intros H field [->|?] ?; [done|by apply H]|intros; eauto].
    + apply map_get_None in Em. split; [done|]. intros H. destruct Em. apply H; [by left|done].
  - rewrite IH. split; [intros H field [->|?] ?; [congruence|by apply H]|intros; eauto].
Qed.

Lemma checkTargets_ok name seen targets r :
  checkTargets name seen targets = Ok r ↔
  r = targets ∧ NoDup targets ∧ (∀ t, t ∈ targets → t ∉ seen) ∧
  Forall (λ t, blank (ref_Name t) = false ∧ blank (ref_Version t) = false) targets.
Proof.
  revert seen r. induction targets as [|t targets IH]; cbn; intros seen r.
  { split; [|by intros [-> _]]. intros [= <-]. split_and!; [done|constructor| |constructor].
    by intros t ?%not_elem_of_nil. }
  rewrite !fail_if_Ok, orb_false_iff, bool_decide_eq_false, bind_Ok, NoDup_cons, Forall_cons.
  setoid_rewrite IH. setoid_rewrite elem_of_cons. split.
  - intros ([? ?] & Ht & r' & (-> & Hnd & Hs & Hall) & [= <-]). split_and!; try done.
    + intros Hin. apply (Hs t Hin). by left.
    + intros t' [->|Hin]; [done|]. intros ?. apply (Hs t' Hin). by right.
  - intros (-> & [Ht Hnd] & Hs & Hv & Hall). split; [done|]. split; [apply Hs; by left|].
    exists targets. split; [|done]. split_and!; try done.
    intros t' Hin [->|Hseen]; [done|]. apply (Hs t'); [by right|done].
Qed.

(** A slot a contract may declare. *)
Definition slot_ok (s : ReferenceSlot) : Prop :=
  (slot_Name s ≠ "" ∧ TrimSpace (slot_Name s) = slot_Name s ∧
   (slot_Name s ∉ reservedReferenceNames)) ∧
  (slot_AllowedTargetTypes s ≠ [] ∧ NoDup (slot_AllowedTargetTypes s) ∧
   Forall (λ t, blank (ref_Name t) = false ∧ blank (ref_Version t) = false)
     (slot_AllowedTargetTypes s)) ∧
  (slot_MinItems s = 0 ∨ slot_MinItems s = 1)%Z ∧
  (1 ≤ slot_MaxItems s ≤ MaxSlotItems)%Z.

Definition canonical_slot (s : ReferenceSlot) : ReferenceSlot :=
  {| slot_Name := slot_Name s;
     slot_AllowedTargetTypes := sortTargets (slot_AllowedTargetTypes s);
     slot_MinItems := slot_MinItems s; slot_MaxItems := slot_MaxItems s |}.

Lemma normalizeSlot_ok s r : normalizeSlot s = Ok r ↔ slot_ok s ∧ r = canonical_slot s.
Proof.
  unfold normalizeSlot, slot_ok, canonical_slot. rewrite !fail_if_Ok, canonical_name_spec,
    bool_decide_eq_false, Nat.eqb_neq, bind_Ok.
  setoid_rewrite checkTargets_ok. do 3 setoid_rewrite fail_if_Ok.
  unfold MaxSlotItems. split.
  - intros ([? E] & ? & Hl & ts & (-> & Hnd & _ & Hall) & Hmin & Hmax & Hle & [= <-]).
    rewrite E in *. bool_facts. split; [|done]. split_and!; try done; try tauto; try lia.
    intros E'. by rewrite E' in Hl.
  - intros (((? & E & ?) & (Hne & Hnd & Hall) & Hmin & Hmax) & ->). rewrite E.
    split_and!; try done; [by destruct (slot_AllowedTargetTypes s)|].
    eexists. split; [split_and!; try done; by intros ? _ ?%not_elem_of_nil|].
    assert ((slot_MinItems s <>? 0%Z) && (slot_MinItems s <>? 1%Z) = false) as ->.
    { destruct Hmin as [->| ->]; done. }
    rewrite (proj2 (Z.ltb_ge _ _)), (proj2 (Z.ltb_ge _ _)), (proj2 (Z.ltb_ge _ _)) by lia. done.
Qed.

Lemma normalizeSlots_ok slots r :
  normalizeSlots slots = Ok r ↔ Forall slot_ok slots ∧ r = canonical_slot <$> slots.
Proof.
  revert r. induction slots as [|s slots IH]; cbn; intros r.
  { split; [by intros [= <-]|by intros [_ ->]]. }
  rewrite bind_Ok, Forall_cons. setoid_rewrite bind_Ok. setoid_rewrite normalizeSlot_ok.
  setoid_rewrite IH. split.
  - intros (? & [? ->] & ? & [? ->] & [= <-]). done.
  - intros ([? ?] & ->). eauto 10.
Qed.

Lemma findSlot_Some slots s :
  NoDup (slot_Name <$> slots) → s ∈ slots → findSlot slots (slot_Name s) = Some s.
Proof.
  induction slots as [|x slots IH]; cbn; intros Hnd; [by intros ?%not_elem_of_nil|].
  apply NoDup_cons in Hnd as [Hx Hnd]. intros [->|Hin]%elem_of_cons.
  - by rewrite bool_decide_eq_true_2.
  - rewrite bool_decide_eq_false_2; [by apply IH|]. intros E. destruct Hx. rewrite E.
    by apply list_elem_of_fmap_2.
Qed.

Lemma findSlot_None slots name : findSlot slots name = None ↔ name ∉ (slot_Name <$> slots).
Proof.
  induction slots as [|s slots IH]; cbn; [by split; intros; [apply not_elem_of_nil|]|].
  rewrite not_elem_of_cons. case_bool_decide as E; [by split; [|intros [? _]]; subst|].
  rewrite IH. split; [by split|by intros [_ ?]].
Qed.

Lemma findSlot_elem slots name s :
  findSlot slots name = Some s → s ∈ slots ∧ slot_Name s = name.
Proof.
  induction slots as [|x slots IH]; cbn; [done|].
  case_bool_decide as E; [intros [= <-]; by split; [left|]|].
  intros [? ?]%IH. by split; [right|].
Qed.

Lemma AllowsTarget_spec s ref :
  AllowsTarget s ref = bool_decide (ref ∈ slot_AllowedTargetTypes s).
Proof.
  unfold AllowsTarget. apply eq_true_iff_eq.
  rewrite existsb_exists, bool_decide_eq_true, list_elem_of_In.
  setoid_rewrite bool_decide_eq_true. naive_solver.
Qed.

Lemma sortTargets_elem_of ref targets : ref ∈ sortTargets targets ↔ ref ∈ targets.
Proof. apply (sort_by_elem_of target_key (pair_le String.le String.le)). Qed.

Lemma uniqueViolations_spec violations : ∀ seen,
  NoDup (uniqueViolations seen violations) ∧
  ∀ v, v ∈ uniqueViolations seen violations ↔ v ∈ violations ∧ v ∉ seen.
Proof.
  induction violations as [|w violations IH]; cbn; intros seen.
  { split; [constructor|]. intros v. split; [by intros ?%not_elem_of_nil|by intros [? _]]. }
  case_bool_decide as E.
  - destruct (IH seen) as [? H]. split; [done|]. intros v. rewrite H, elem_of_cons.
    split; [tauto|]. by intros [[->|?] ?].
  - destruct (IH (w :: seen)) as [Hnd H]. split.
    + constructor; [|done]. rewrite H. intros [_ Hn]. apply Hn. by left.
    + intros v. rewrite !elem_of_cons, H, elem_of_cons.
      destruct (decide (v = w)) as [->|]; tauto.
Qed.

Lemma output_type_valid t : OutputType_valid t = true ↔
  t = OutputTypeString ∨ t = OutputTypeInteger ∨ t = OutputTypeNumber ∨ t = OutputTypeBoolean.
Proof. unfold OutputType_valid. rewrite !orb_true_iff, !bool_decide_eq_true. tauto. Qed.

(** ** Properties *)

(** An output contract is accepted exactly when it declares at least one
    field, every name is canonical, unreserved and unique and every type known;
    it then holds the declared fields in name order, whatever order they were
    declared in. *)
Theorem NewOutputContract_spec fields c :
  NewOutputContract fields = Ok c ↔
  (fields ≠ [] ∧ Forall declarable fields ∧ NoDup (of_Name <$> fields)) ∧
  oc_fields c ≡ₚ fields ∧
  StronglySorted (λ x y, String.le (of_Name x) (of_Name y)) (oc_fields c).
Proof.
  unfold NewOutputContract. rewrite fail_if_Ok, Nat.eqb_neq, bind_Ok.
  setoid_rewrite checkOutputFields_ok.
  pose proof (sort_by_adjacent of_Name String.le fields) as Hadj.
  pose proof (sort_by_Permutation of_Name String.le fields) as Hperm.
  pose proof (sort_by_sorted of_Name String.le fields) as Hsort.
  split.
  - intros (Hl & _ & Hall & H). case_match; [done|]. injection H as <-. cbn.
    split_and!; try done; [by intros ->|by apply Hadj].
  - intros ((Hne & Hall & Hnd) & Hp & Hs). split; [by destruct fields|].
    exists tt. split; [done|]. rewrite (proj2 Hadj Hnd). destruct c as [cs]; cbn in *. do 2 f_equal.
    apply (sorted_by_key_unique of_Name String.le); try done; by rewrite Hperm.
Qed.

(** Values conform to an output contract exactly when every value is
    declared and has its declared scalar type, without coercion, and every
    required field is present. *)
Theorem OutputContract_Validate_spec fields c values :
  NewOutputContract fields = Ok c → NoDup (fst <$> values) →
  OutputContract_Validate c values = Ok tt ↔
  (∀ name v, (name, v) ∈ values →
     ∃ field, field ∈ fields ∧ of_Name field = name ∧ has_type (of_JSONType field) v) ∧
  (∀ field, field ∈ fields → of_RequiredWhenReady field = true →
     ∃ v, (of_Name field, v) ∈ values).
Proof.
  intros ((_ & _ & Hnames) & Hp & _)%NewOutputContract_spec Hnd.
  unfold OutputContract_Validate. rewrite bind_Ok. setoid_rewrite bind_Ok.
  setoid_rewrite validateDeclared_ok; [|done..]. setoid_rewrite validateUndeclared_ok.
  setoid_rewrite validateRequired_ok. setoid_rewrite Hp.
  assert (∀ name, name ∈ fst <$> values ↔ ∃ v, (name, v) ∈ values) as Hkeys.
  { intros name. rewrite list_elem_of_fmap. split.
    - intros ([k v] & -> & ?). by exists v.
    - intros [v ?]. by exists (name, v). }
  setoid_rewrite Hkeys. split.
  - intros (_ & Hdecl & _ & Hun & Hreq). split; [|done]. intros name v Hin.
    assert (name ∈ of_Name <$> fields) as (field & -> & Hf)%list_elem_of_fmap
      by (apply Hun; by eexists).
    exists field. split_and!; [done..|]. by apply Hdecl.
  - intros [Hval Hreq]. exists tt. split.
    + intros field v Hin Hv. destruct (Hval _ _ Hv) as (field' & Hin' & Hn & Ht).
      by rewrite <- (NoDup_fmap_inj of_Name fields field' field).
    + exists tt. split; [|done]. intros name [v Hv].
      destruct (Hval _ _ Hv) as (field & Hin & <- & _). by apply list_elem_of_fmap_2.
Qed.

Lemma canonical_names (slots : list ReferenceSlot) :
  slot_Name <$> (canonical_slot <$> slots) = slot_Name <$> slots.
Proof. rewrite <- list_fmap_compose. by apply list_fmap_ext. Qed.

(** A reference contract is accepted exactly when it declares between one
    and sixteen acceptable slots with distinct names; it then holds those slots
    in name order with their targets sorted. *)
Theorem NewReferenceContract_spec slots c :
  NewReferenceContract slots = Ok c ↔
  ((1 ≤ length slots ≤ MaxReferenceSlots)%nat ∧ Forall slot_ok slots ∧
   NoDup (slot_Name <$> slots)) ∧
  rc_slots c ≡ₚ canonical_slot <$> slots ∧
  StronglySorted (λ x y, String.le (slot_Name x) (slot_Name y)) (rc_slots c).
Proof.
  unfold NewReferenceContract. rewrite !fail_if_Ok, Nat.eqb_neq, Nat.ltb_ge, bind_Ok.
  setoid_rewrite normalizeSlots_ok.
  pose proof (sort_by_adjacent slot_Name String.le (canonical_slot <$> slots)) as Hadj.
  pose proof (sort_by_Permutation slot_Name String.le (canonical_slot <$> slots)) as Hperm.
  pose proof (sort_by_sorted slot_Name String.le (canonical_slot <$> slots)) as Hsort.
  rewrite canonical_names in Hadj. split.
  - intros (Hl & Hm & ns & (Hall & ->) & H). case_match; [done|]. injection H as <-. cbn.
    split_and!; try done; [lia|by apply Hadj].
  - intros ((Hl & Hall & Hnd) & Hp & Hs). split_and!; [lia|lia|].
    exists (canonical_slot <$> slots). split; [done|]. rewrite (proj2 Hadj Hnd).
    destruct c as [cs]; cbn in *. do 2 f_equal.
    apply (sorted_by_key_unique slot_Name String.le); try done.
    + by rewrite Hperm, canonical_names.
    + by rewrite Hperm.
Qed.

(** The lookups of an accepted reference contract are those of its
    declaration: a declared name yields its slot with the declared bounds
    ([0 <= MinItems <= 1 <= MaxItems <= MaxSlotItems]) and admits exactly the
    declared targets, any other name yields none. *)
Theorem reference_contract_lookup slots c :
  NewReferenceContract slots = Ok c →
  (∀ s, s ∈ slots → ∃ d, Slot c (slot_Name s) = Some d ∧ slot_Name d = slot_Name s ∧
     slot_MinItems d = slot_MinItems s ∧ slot_MaxItems d = slot_MaxItems s ∧
     (0 ≤ slot_MinItems d ≤ 1 ∧ 1 ≤ slot_MaxItems d ≤ MaxSlotItems)%Z ∧
     ∀ ref, AllowsTarget d ref = bool_decide (ref ∈ slot_AllowedTargetTypes s)) ∧
  (∀ name, Slot c name = None ↔ name ∉ (slot_Name <$> slots)).
Proof.
  intros ((_ & Hall & Hnd) & Hp & _)%NewReferenceContract_spec. unfold Slot. split.
  - intros s Hin. exists (canonical_slot s).
    assert (slot_ok s) as (_ & _ & Hmin & Hmax) by by eapply Forall_forall.
    split_and!; try done; [|cbn; lia..|].
    + apply (findSlot_Some (rc_slots c) (canonical_slot s)).
      * by rewrite Hp, canonical_names.
      * rewrite Hp. by apply list_elem_of_fmap_2.
    + intros ref. rewrite AllowsTarget_spec. apply bool_decide_ext. cbn.
      apply sortTargets_elem_of.
  - intros name. by rewrite findSlot_None, Hp, canonical_names.
Qed.

(** Spec violations are normalised canonically: the rejection carries each
    submitted violation exactly once, ordered by path, keyword and message, so
    two validations that find the same violations report equal rejections. *)
Lemma NewValidationError_canonical ref violations :
  let e := NewValidationError ref violations in
  NoDup (ve_Violations e) ∧
  (∀ v, v ∈ ve_Violations e ↔ v ∈ violations) ∧
  StronglySorted (λ x y, pair_le String.le (pair_le String.le String.le)
    (violation_key x) (violation_key y)) (ve_Violations e) ∧
  (∀ violations', (∀ v, v ∈ violations ↔ v ∈ violations') →
     NewValidationError ref violations' = e).
Proof.
  cbn. unfold NewValidationError, SortViolations. cbn.
  assert (∀ vs, NoDup (violation_key <$> uniqueViolations [] vs)) as Hkeys.
  { intros vs. apply NoDup_fmap_2; [|apply uniqueViolations_spec].
    by intros [? ? ?] [? ? ?] [= -> -> ->]. }
  split_and!.
  - rewrite sort_by_Permutation. apply uniqueViolations_spec.
  - intros v. rewrite sort_by_elem_of, (proj2 (uniqueViolations_spec violations [])).
    split; [by intros [? _]|]. intros ?. split; [done|apply not_elem_of_nil].
  - apply (sort_by_sorted violation_key (pair_le String.le (pair_le String.le String.le))).
  - intros vs' Heq. f_equal. apply sort_by_unique; [apply _..|done|].
    apply NoDup_Permutation; [apply uniqueViolations_spec..|]. intros v.
    rewrite !(proj2 (uniqueViolations_spec _ [])). by rewrite Heq.
Qed.

(** ** Witnesses *)

Definition sample_fields : list OutputField :=
  [ {| of_Name := "port"; of_JSONType := OutputTypeInteger; of_RequiredWhenReady := true |};
    {| of_Name := "hostname"; of_JSONType := OutputTypeString; of_RequiredWhenReady := true |} ].

Definition sample_output_contract : OutputContract := {| oc_fields := rev sample_fields |}.

Lemma OutputContract_Validate_spec_witness :
  OutputContract_Validate sample_output_contract
    [("hostname", VString "db.example"); ("port", VInt Int 5432)] = Ok tt ∧
  OutputContract_Validate sample_output_contract [("port", VInt Int 5432)] ≠ Ok tt.
Proof.
  split.
  - apply (OutputContract_Validate_spec sample_fields); [reflexivity|by apply (bool_decide_unpack _)|]. split.
    + intros name v. rewrite !elem_of_cons. intros [[= -> ->]|[[= -> ->]|[]%elem_of_nil]].
      * exists {| of_Name := "hostname"; of_JSONType := OutputTypeString;
          of_RequiredWhenReady := true |}. split_and!; [by right; left|done|by left].
      * exists {| of_Name := "port"; of_JSONType := OutputTypeInteger;
          of_RequiredWhenReady := true |}.
        split_and!; [by left|done|by right; right; left].
    + intros field. unfold sample_fields. rewrite !elem_of_cons.
      intros [->|[->|[]%elem_of_nil]] _; cbn.
      * exists (VInt Int 5432). by right; left.
      * exists (VString "db.example"). by left.
  - done.
Defined.

Definition sample_slot : ReferenceSlot :=
  {| slot_Name := "network"; slot_AllowedTargetTypes := [sample_type];
     slot_MinItems := 1; slot_MaxItems := 2 |}.

Definition sample_reference_contract : ReferenceContract := {| rc_slots := [sample_slot] |}.

Lemma reference_contract_lookup_witness :
  Slot sample_reference_contract "database" = None.
Proof.
  apply (reference_contract_lookup [sample_slot] sample_reference_contract); [reflexivity|].
  cbn. rewrite list_elem_of_singleton. discriminate.
Defined.
