(* ===== verification/Provisioning.v ===== *)
(** * The provisioning contract

    Models [src/internal/provisioning/contract.go]: the provider-neutral
    requests, submissions, observations and output evidence, and the
    validations Liftr applies at that boundary.  The provisioners themselves
    are parameters of the components that call them. *)

From S2P Require Import Prelude Operation Values Resource Status.
Open Scope string_scope.
Open Scope go_scope.

Definition ErrAmbiguousSubmission : error := Sentinel "provisioning.ErrAmbiguousSubmission".
Definition ErrSubmissionNotAttempted : error := Sentinel "provisioning.ErrSubmissionNotAttempted".
Definition ErrObservationFailure : error := Sentinel "provisioning.ErrObservationFailure".

(** ** Requests *)

Record ExecutionFence := {
  fence_MessageID : string;
  fence_LeaseToken : string;
  fence_Passive : bool }.

Definition ExecutionFence_Validate (f : ExecutionFence) : outcome unit :=
  fail_if blank (fence_MessageID f) || blank (fence_LeaseToken f)
    with Errorf "message ID and lease token are required" [] ;;
  Ok tt.

Record ExecutionRequest := {
  er_OperationID : OperationID;
  er_AttemptNumber : uint64;
  er_ResourceID : ResourceID;
  er_ResourceType : ResourceTypeRef;
  er_Spec : ResourceSpec;
  er_Capability : Capability;
  er_TargetGeneration : uint64;
  er_OutputMappingRef : string }.

Definition ExecutionRequest_Validate (r : ExecutionRequest) : outcome unit :=
  fail_if blank (er_OperationID r) with Errorf "operation ID is required" [] ;;
  fail_if er_AttemptNumber r =? 0%N
    with Errorf "attempt number must be greater than zero" [] ;;
  fail_if blank (er_ResourceID r) with Errorf "resource ID is required" [] ;;
  fail_if blank (ref_Name (er_ResourceType r)) || blank (ref_Version (er_ResourceType r))
    with Errorf "resource type reference is required" [] ;;
  fail_if blank (er_Capability r) with Errorf "capability is required" [] ;;
  fail_if er_TargetGeneration r =? 0%N
    with Errorf "target generation must be greater than zero" [] ;;
  Ok tt.

(** An opaque backend token; the code never branches on its contents. *)
Record ExecutionHandle := { handle_token : string }.

Definition NewExecutionHandle (token : string) : outcome ExecutionHandle :=
  fail_if blank token with Errorf "execution handle is required" [] ;;
  Ok {| handle_token := token |}.

Record ObservationRequest := {
  or_OperationID : OperationID;
  or_AttemptNumber : uint64;
  or_ResourceID : ResourceID;
  or_ResourceType : ResourceTypeRef;
  or_Spec : ResourceSpec;
  or_Capability : Capability;
  or_TargetGeneration : uint64;
  or_Handle : option ExecutionHandle;
  or_OutputMappingRef : string;
  or_OutputSourceMappingRef : string }.

Definition ObservationRequest_Validate (r : ObservationRequest) : outcome unit :=
  fail_if blank (or_ResourceID r) with Errorf "resource ID is required" [] ;;
  fail_if blank (ref_Name (or_ResourceType r)) || blank (ref_Version (or_ResourceType r))
    with Errorf "resource type reference is required" [] ;;
  fail_if or_TargetGeneration r =? 0%N
    with Errorf "target generation must be greater than zero" [] ;;
  let hasOperation := negb (blank (or_OperationID r)) in
  let hasAttempt := or_AttemptNumber r <>? 0%N in
  let hasCapability := negb (blank (or_Capability r)) in
  fail_if negb (Bool.eqb hasOperation hasAttempt) ||
          negb (Bool.eqb hasOperation hasCapability)
    with Errorf "operation ID, attempt number, and capability must be provided together" [] ;;
  fail_if negb (blank (or_OutputSourceMappingRef r)) &&
          (negb hasOperation || blank (or_OutputMappingRef r))
    with Errorf "output source mapping requires an operation and selected output mapping" [] ;;
  Ok tt.

(** ** Executions, observations and submissions *)

Definition ExecutionStateAccepted : string := "Accepted".
Definition ExecutionStateRunning : string := "Running".
Definition ExecutionStateSucceeded : string := "Succeeded".
Definition ExecutionStateFailed : string := "Failed".
Definition ExecutionStateUnknown : string := "Unknown".

Definition RequestCorrelationFound : string := "Found".
Definition RequestCorrelationNotFound : string := "NotFound".
Definition RequestCorrelationUnknown : string := "Unknown".

Definition FailureInvalidRequest : string := "InvalidRequest".
Definition FailureUnsupported : string := "Unsupported".
Definition FailureUnavailable : string := "Unavailable".
Definition FailureTimeout : string := "Timeout".
Definition FailureNotFound : string := "NotFound".
Definition FailureExecution : string := "ExecutionFailed".
Definition FailureUnknown : string := "Unknown".

Record ExecutionFailure := {
  ef_Kind : string;
  ef_Reason : string;
  ef_Message : string }.

#[export] Instance ExecutionFailure_fields : Fields ExecutionFailure := λ r,
  {| ef_Kind := ef_Kind r; ef_Reason := ef_Reason r; ef_Message := ef_Message r |}.

Record Execution := {
  ex_State : string;
  ex_Handle : option ExecutionHandle;
  ex_Failure : option ExecutionFailure }.

Definition OutputsUnavailable : string := "Unavailable".
Definition OutputsAvailable : string := "Available".
Definition OutputsInvalid : string := "Invalid".

Record OutputEvidence := {
  oe_State : string;
  oe_Values : list (string * value);
  oe_OutputMappingRef : string;
  oe_Reason : string }.

Record ExecutionObservation := {
  eo_Correlation : string;
  eo_Execution : option Execution;
  eo_Resource : ObservedFacts;
  eo_ObservedAt : Time;
  eo_Outputs : option OutputEvidence }.

#[export] Instance ExecutionObservation_fields : Fields ExecutionObservation := λ r,
  {| eo_Correlation := eo_Correlation r; eo_Execution := eo_Execution r; eo_Resource
     := eo_Resource r; eo_ObservedAt := eo_ObservedAt r; eo_Outputs := eo_Outputs r |}.

Record Submission := { sub_Observation : ExecutionObservation }.

#[export] Instance Submission_fields : Fields Submission := λ r,
  {| sub_Observation := sub_Observation r |}.

Definition Submission_IsZero (s : Submission) : bool :=
  let observation := sub_Observation s in
  (eo_Correlation observation =? "") &&
  match eo_Execution observation with None => true | Some _ => false end &&
  (eo_Resource observation =? no_facts) && IsZero (eo_ObservedAt observation) &&
  match eo_Outputs observation with None => true | Some _ => false end.

(** [ExecutionFailure.Error]. *)
Definition ExecutionFailure_Error (f : ExecutionFailure) : string :=
  if ef_Message f =? "" then (ef_Kind f ++ ": " ++ ef_Reason f)%string
  else (ef_Kind f ++ ": " ++ ef_Reason f ++ ": " ++ ef_Message f)%string.

Record SubmissionNotAttemptedError := { sna_Failure : ExecutionFailure }.

Definition SubmissionNotAttemptedError_Validate (e : SubmissionNotAttemptedError)
    : outcome unit :=
  fail_if (ef_Kind (sna_Failure e) <>? FailureUnavailable) &&
          (ef_Kind (sna_Failure e) <>? FailureTimeout)
    with Errorf "submission not attempted failure kind must be Unavailable or Timeout" [] ;;
  fail_if blank (ef_Reason (sna_Failure e))
    with Errorf "submission not attempted failure reason is required" [] ;;
  Ok tt.

(** What [Observe] may return beside its answer: an [ObservationError], or
    another error, which wraps [ErrObservationFailure] likewise. *)
Inductive observationError :=
  | ObservationError (failure : ExecutionFailure)
  | OutputMappingError (e : error).

Abbreviation observation_result :=
  (outcome (ExecutionObservation * option observationError)) (only parsing).

(** The zero [ExecutionObservation], beside an error. *)
Definition no_observation : ExecutionObservation :=
  {| eo_Correlation := ""; eo_Execution := None; eo_Resource := no_facts;
     eo_ObservedAt := time_zero; eo_Outputs := None |}.

(** ** Properties *)

(** An observation request is either passive, with neither operation nor
    attempt nor capability, or carries all three; only the latter may name the
    source mapping of an output recovery, and then also the selected one. *)
Lemma ObservationRequest_Validate_spec r :
  ObservationRequest_Validate r = Ok tt ↔
  (blank (or_ResourceID r) = false ∧ blank (ref_Name (or_ResourceType r)) = false ∧
   blank (ref_Version (or_ResourceType r)) = false ∧ or_TargetGeneration r ≠ 0%N) ∧
  ((blank (or_OperationID r) = true ∧ or_AttemptNumber r = 0%N ∧
    blank (or_Capability r) = true ∧ blank (or_OutputSourceMappingRef r) = true) ∨
   (blank (or_OperationID r) = false ∧ or_AttemptNumber r ≠ 0%N ∧
    blank (or_Capability r) = false ∧
    (blank (or_OutputSourceMappingRef r) = true ∨ blank (or_OutputMappingRef r) = false))).
Proof.
  unfold ObservationRequest_Validate.
  destruct (blank (or_ResourceID r)), (blank (ref_Name _)), (blank (ref_Version _)),
    (bool_decide_reflect (or_TargetGeneration r = 0%N)); cbn;
    try (split; [discriminate|intuition discriminate]).
  destruct (blank (or_OperationID r)), (bool_decide_reflect (or_AttemptNumber r = 0%N)),
    (blank (or_Capability r)), (blank (or_OutputSourceMappingRef r)),
    (blank (or_OutputMappingRef r)); cbn; intuition discriminate.
Qed.
