(* ===== verification/Records.v ===== *)
(** * Persistent records of the application

    The records and sentinel errors the application layer reads and writes,
    from [src/internal/application/application.go] (resource and execution
    records), [work.go] (submission attempts) and [references.go] (edges,
    dependency waits). *)

From S2P Require Import Prelude Operation Values Resource Status Provisioning.
Open Scope string_scope.
Open Scope go_scope.

Definition ErrResourceNotFound : error := Sentinel "application.ErrResourceNotFound".
Definition ErrOperationNotFound : error := Sentinel "application.ErrOperationNotFound".
Definition ErrResourceTypeNotFound : error := Sentinel "application.ErrResourceTypeNotFound".
Definition ErrProvisionerNotFound : error := Sentinel "application.ErrProvisionerNotFound".
Definition ErrIdempotencyConflict : error := Sentinel "application.ErrIdempotencyConflict".
Definition ErrIdempotencyNotFound : error := Sentinel "application.ErrIdempotencyNotFound".
Definition ErrConcurrencyConflict : error := Sentinel "application.ErrConcurrencyConflict".
Definition ErrOperationNotRetryable : error := Sentinel "application.ErrOperationNotRetryable".
Definition ErrInvalidApplicationCall : error := Sentinel "application.ErrInvalidApplicationCall".

Record ResourceRecord := {
  rr_Resource : Resource;
  rr_Status : ResourceStatus;
  rr_ProvisionerRef : string;
  rr_Version : uint64 }.

#[export] Instance ResourceRecord_fields : Fields ResourceRecord := λ r,
  {| rr_Resource := rr_Resource r; rr_Status := rr_Status r; rr_ProvisionerRef :=
     rr_ProvisionerRef r; rr_Version := rr_Version r |}.

Record OperationRecord := {
  opr_Operation : Operation;
  opr_Sequence : uint64;
  opr_Version : uint64 }.

#[export] Instance OperationRecord_fields : Fields OperationRecord := λ r,
  {| opr_Operation := opr_Operation r; opr_Sequence := opr_Sequence r; opr_Version
     := opr_Version r |}.

Definition AttemptPending : string := "Pending".
Definition AttemptDispatching : string := "Dispatching".
Definition AttemptAccepted : string := "Accepted".
Definition AttemptSucceeded : string := "Succeeded".
Definition AttemptFailed : string := "Failed".
Definition AttemptUnknown : string := "Unknown".

Record ProvisioningExecutionRecord := {
  pe_OperationID : OperationID;
  pe_ProvisionerRef : string;
  pe_ResourceID : ResourceID;
  pe_ResourceType : ResourceTypeRef;
  pe_Capability : Capability;
  pe_TargetGeneration : uint64;
  pe_Spec : ResourceSpec;
  pe_OutputMappingRef : string;
  pe_OutputResolution : string;
  pe_OutputFailureReason : string;
  pe_OutputFailureMessage : string;
  pe_RecoverySourceOperationID : OperationID;
  pe_RecoverySourceAttempt : uint64;
  pe_Handle : option ExecutionHandle;
  pe_State : string;
  pe_Submission : option Submission;
  pe_AcceptanceConfirmed : bool;
  pe_LastObservation : option ExecutionObservation;
  pe_LastObservedAt : Time;
  pe_LastProviderObservedAt : Time;
  pe_LastFailure : option ExecutionFailure;
  pe_Correlation : string;
  pe_CurrentAttempt : uint64;
  pe_NextObservation : uint64;
  pe_Version : uint64 }.

#[export] Instance ProvisioningExecutionRecord_fields : Fields ProvisioningExecutionRecord := λ r,
  {| pe_OperationID := pe_OperationID r; pe_ProvisionerRef := pe_ProvisionerRef r;
     pe_ResourceID := pe_ResourceID r; pe_ResourceType := pe_ResourceType r;
     pe_Capability := pe_Capability r; pe_TargetGeneration := pe_TargetGeneration r;
     pe_Spec := pe_Spec r; pe_OutputMappingRef := pe_OutputMappingRef r;
     pe_OutputResolution := pe_OutputResolution r; pe_OutputFailureReason :=
     pe_OutputFailureReason r; pe_OutputFailureMessage := pe_OutputFailureMessage r;
     pe_RecoverySourceOperationID := pe_RecoverySourceOperationID r;
     pe_RecoverySourceAttempt := pe_RecoverySourceAttempt r; pe_Handle := pe_Handle
     r; pe_State := pe_State r; pe_Submission := pe_Submission r;
     pe_AcceptanceConfirmed := pe_AcceptanceConfirmed r; pe_LastObservation :=
     pe_LastObservation r; pe_LastObservedAt := pe_LastObservedAt r;
     pe_LastProviderObservedAt := pe_LastProviderObservedAt r; pe_LastFailure :=
     pe_LastFailure r; pe_Correlation := pe_Correlation r; pe_CurrentAttempt :=
     pe_CurrentAttempt r; pe_NextObservation := pe_NextObservation r; pe_Version :=
     pe_Version r |}.

Definition IsOutputRecovery (r : ProvisioningExecutionRecord) : bool :=
  (pe_RecoverySourceOperationID r <>? "") && (pe_RecoverySourceAttempt r <>? 0%N).

Definition SubmissionAttemptPending : string := "Pending".
Definition SubmissionAttemptLeased : string := "Leased".
Definition SubmissionAttemptAccepted : string := "Accepted".
Definition SubmissionAttemptRejected : string := "Rejected".
Definition SubmissionAttemptNotFound : string := "NotFound".
Definition SubmissionAttemptUnknown : string := "Unknown".

Record SubmissionAttemptRecord := {
  sa_OperationID : OperationID;
  sa_AttemptNumber : uint64;
  sa_State : string;
  sa_DispatchMessage : string;
  sa_ClaimedAt : Time;
  sa_ResolvedAt : Time;
  sa_Failure : option ExecutionFailure }.

#[export] Instance SubmissionAttemptRecord_fields : Fields SubmissionAttemptRecord := λ r,
  {| sa_OperationID := sa_OperationID r; sa_AttemptNumber := sa_AttemptNumber r;
     sa_State := sa_State r; sa_DispatchMessage := sa_DispatchMessage r;
     sa_ClaimedAt := sa_ClaimedAt r; sa_ResolvedAt := sa_ResolvedAt r; sa_Failure :=
     sa_Failure r |}.

Record ReferenceEdge := {
  edge_Slot : string;
  edge_TargetID : ResourceID;
  edge_Generation : uint64 }.

#[export] Instance ReferenceEdge_eq_dec : EqDecision ReferenceEdge.
Proof. solve_decision. Defined.

Record DependencyWait := {
  dw_OperationID : OperationID;
  dw_TargetID : ResourceID;
  dw_WaitSequence : uint64;
  dw_OperationVersion : uint64;
  dw_RegisteredTargetVersion : uint64 }.

Record IdempotencyRecord := {
  ir_Scope : string;
  ir_Key : string;
  ir_Fingerprint : string;
  ir_CommandKind : string;
  ir_ResourceID : ResourceID;
  ir_OperationID : OperationID }.
