(* ===== verification/References.v ===== *)
(** * Resource references

    Models [src/internal/application/references.go]: the canonical form of
    submitted references, their validation against the reference contract and
    the locked targets, the difference of two desired sets and the bounded
    proof that a new edge keeps the dependency graph acyclic. *)

From S2P Require Import Prelude Operation Values Resource Status Contracts Provisioning Records.
Open Scope string_scope.
Open Scope go_scope.

Definition MaxReferencesPerResource : nat := 32.
Definition MaxDependencyDepth : nat := 32.
Definition MaxCycleTraversalNodes : nat := 4096.

Definition ErrResourceInUse : error := Sentinel "application.ErrResourceInUse".
Definition ErrDependencyCycle : error := Sentinel "application.ErrDependencyCycle".
Definition ErrReferenceGraphLimit : error := Sentinel "application.ErrReferenceGraphLimit".
Definition ErrReferenceInvariant : error := Sentinel "application.ErrReferenceInvariant".

(** [*InvalidReferenceError] *)
Definition InvalidReferenceError (violations : list SpecViolation) : error :=
  Rejection "application.InvalidReferenceError" violations.

(** ** The canonical form *)

(** [input[slot]] of a map given by its entries. *)
Fixpoint targets_of (input : list (string * list string)) (slot : string) : list string :=
  match input with
  | [] => []
  | (key, targets) :: rest => if key =? slot then targets else targets_of rest slot
  end.

(** Whether some target occurs a second time in the loop. *)
Fixpoint has_duplicate (seen targets : list string) : bool :=
  match targets with
  | [] => false
  | target :: rest =>
      if bool_decide (target ∈ seen) then true else has_duplicate (target :: seen) rest
  end.

Definition slotEdges (slot : string) (targets : list string) : outcome (list ReferenceEdge) :=
  fail_if has_duplicate [] targets
    with InvalidReferenceError [{| sv_Path := "/" ++ slot; sv_Keyword := "duplicate-target";
      sv_Message := "reference slot %q contains duplicate target entries";
      sv_Args := [ArgS slot] |}] ;;
  Ok ((λ target, {| edge_Slot := slot; edge_TargetID := target; edge_Generation := 0 |})
        <$> merge_sort String.le targets).

Fixpoint collectEdges (input : list (string * list string)) (slots : list string)
    : outcome (list ReferenceEdge) :=
  match slots with
  | [] => Ok []
  | slot :: rest =>
      match targets_of input slot with
      | [] => collectEdges input rest
      | targets =>
          edges ← slotEdges slot targets;
          more ← collectEdges input rest;
          Ok (edges ++ more)%list
      end
  end.

Definition CanonicalizeReferences (input : list (string * list string))
    : outcome (list ReferenceEdge) :=
  if Nat.eqb (length input) 0 then Ok [] else
  edges ← collectEdges input (merge_sort String.le (input.*1));
  fail_if Nat.ltb MaxReferencesPerResource (length edges)
    with InvalidReferenceError [{| sv_Path := ""; sv_Keyword := "maxItems";
      sv_Message := "a resource may declare at most %d bound references";
      sv_Args := [ArgN (N.of_nat MaxReferencesPerResource)] |}] ;;
  Ok edges.

(** ** Validation against the contract *)

(** The violation of one edge, if it has one. *)
Definition edgeViolation (contract : ReferenceContract) (sourceID : ResourceID)
    (edge : ReferenceEdge) : option SpecViolation :=
  match Slot contract (edge_Slot edge) with
  | None => Some {| sv_Path := "/" ++ edge_Slot edge; sv_Keyword := "unknown-slot";
      sv_Message := "reference slot %q is not declared by the resource type contract";
      sv_Args := [ArgS (edge_Slot edge)] |}
  | Some _ =>
      if edge_TargetID edge =? sourceID then
        Some {| sv_Path := "/" ++ edge_Slot edge; sv_Keyword := "self-reference";
          sv_Message := "a resource cannot reference itself"; sv_Args := [] |}
      else None
  end.

(** [counts[edge.Slot]++] for the edges without a violation. *)
Fixpoint slotCounts (contract : ReferenceContract) (sourceID : ResourceID)
    (edges : list ReferenceEdge) (counts : gmap string Z) : gmap string Z :=
  match edges with
  | [] => counts
  | edge :: rest =>
      match edgeViolation contract sourceID edge with
      | Some _ => slotCounts contract sourceID rest counts
      | None => slotCounts contract sourceID rest
                  (<[edge_Slot edge := (default 0 (counts !! edge_Slot edge) + 1)%Z]> counts)
      end
  end.

(** The zero value [declaration] of an undeclared slot has zero bounds. *)
Definition cardinalityViolation (contract : ReferenceContract) (slot : string) (count : Z)
    : option SpecViolation :=
  let minItems := match Slot contract slot with Some d => slot_MinItems d | None => 0%Z end in
  let maxItems := match Slot contract slot with Some d => slot_MaxItems d | None => 0%Z end in
  if Z.ltb count minItems || Z.ltb maxItems count then
    Some {| sv_Path := "/" ++ slot; sv_Keyword := "cardinality";
      sv_Message := "reference slot %q accepts between %d and %d targets";
      sv_Args := [ArgS slot; ArgZ minItems; ArgZ maxItems] |}
  else None.

Section shape.
(** The order in which Go's [range] visits the counts. *)
Context (range : gmap string Z → list (string * Z)).

Definition ValidateReferenceShape (contract : option ReferenceContract)
    (sourceID : ResourceID) (edges : list ReferenceEdge) : outcome unit :=
  if Nat.eqb (length edges) 0 then Ok tt else
  match contract with
  | None => Err (InvalidReferenceError [{| sv_Path := ""; sv_Keyword := "unknown-slot";
      sv_Message := "the resource type does not declare any reference slots";
      sv_Args := [] |}])
  | Some contract =>
      let violations := omap (edgeViolation contract sourceID) edges in
      fail_if negb (Nat.eqb (length violations) 0) with InvalidReferenceError violations ;;
      let counts := slotCounts contract sourceID edges ∅ in
      let violations :=
        omap (λ '(slot, count), cardinalityViolation contract slot count) (range counts) in
      fail_if negb (Nat.eqb (length violations) 0) with InvalidReferenceError violations ;;
      Ok tt
  end.
End shape.

Definition SlotTargetTypeAllowed (contract : option ReferenceContract) (slot : string)
    (ref : ResourceTypeRef) : bool :=
  match contract with
  | None => false
  | Some contract =>
      match Slot contract slot with
      | None => false
      | Some declaration => AllowsTarget declaration ref
      end
  end.

(** ** Differences of desired sets *)

Definition edgeKey (edge : ReferenceEdge) : string :=
  edge_Slot edge ++ String Ascii.zero "" ++ edge_TargetID edge.

Definition edgeKeySet (edges : list ReferenceEdge) : gset string :=
  list_to_set (edgeKey <$> edges).

Definition ReferenceDifference (oldSet newSet : list ReferenceEdge)
    : list ReferenceEdge * list ReferenceEdge :=
  let oldKeys := edgeKeySet oldSet in
  let newKeys := edgeKeySet newSet in
  (filter (λ edge, edgeKey edge ∉ oldKeys) newSet,
   filter (λ edge, edgeKey edge ∉ newKeys) oldSet).

Definition EdgesEqual (a b : list ReferenceEdge) : bool :=
  if negb (Nat.eqb (length a) (length b)) then false
  else forallb (λ edge, bool_decide (edgeKey edge ∈ edgeKeySet a)) b.

(** ** Cycle detection *)

Section cycles.
(** [tx.References().OutgoingReferenceTargets] of the transaction. *)
Context (OutgoingReferenceTargets : ResourceID → outcome (list ResourceID)).

(** The closure's mutable state: the visited nodes and the budget left. *)
Record walk_state := { visited : gset ResourceID; budget : nat }.

(** [walk(node, depth)]: [remaining] is [MaxDependencyDepth - depth], so the
    test [depth+1 > MaxDependencyDepth] is [remaining = 0]. *)
Fixpoint walk (source : ResourceID) (remaining : nat) (node : ResourceID) (st : walk_state)
    : outcome walk_state :=
  fail_if node =? source with ErrDependencyCycle ;;
  if bool_decide (node ∈ visited st) then Ok st else
  fail_if Nat.eqb (budget st) 0 with ErrReferenceGraphLimit ;;
  let st := {| visited := {[node]} ∪ visited st; budget := Nat.pred (budget st) |} in
  nexts ← OutgoingReferenceTargets node;
  match nexts with
  | [] => Ok st
  | _ =>
      match remaining with
      | 0 => Err ErrReferenceGraphLimit
      | S remaining =>
          (fix visit (nexts : list ResourceID) (st : walk_state) : outcome walk_state :=
             match nexts with
             | [] => Ok st
             | next :: rest => st ← walk source remaining next st; visit rest st
             end) nexts st
      end
  end.

Fixpoint walkAll (source : ResourceID) (remaining : nat) (targets : list ResourceID)
    (st : walk_state) : outcome walk_state :=
  match targets with
  | [] => Ok st
  | target :: rest => st ← walk source remaining target st; walkAll source remaining rest st
  end.

Definition DetectDependencyCycle (source : ResourceID) (candidateTargets : list ResourceID)
    : outcome unit :=
  walkAll source (MaxDependencyDepth - 1) (merge_sort String.le candidateTargets)
    {| visited := ∅; budget := MaxCycleTraversalNodes |} ≫= λ _, Ok tt.
End cycles.

Definition distinctEdgeTargets (edges : list ReferenceEdge) : list ResourceID :=
  merge_sort String.le (remove_dups (edge_TargetID <$> edges)).

(** ** Validation against the locked targets *)

Definition hiddenTargetViolation (slot : string) : error :=
  InvalidReferenceError [{| sv_Path := "/" ++ slot; sv_Keyword := "target";
    sv_Message := "the target referenced by slot %q is not an available dependency";
    sv_Args := [ArgS slot] |}].

(** States in which a target is eligible at admission. *)
Definition eligibleState (state : string) : bool :=
  (state =? ResourceStateUnknown) || (state =? ResourceStatePending) ||
  (state =? ResourceStateReady) || (state =? ResourceStateFailed).

Section targets.
(** [tx.Resources().LockResources] and [s.authorize(..., ActionResourceRead, ...)]. *)
Context (LockResources : list ResourceID → outcome (list ResourceRecord)).
Context (authorizeRead : ResourceRecord → outcome unit).

(** [byID[id]]: the last locked record of the identifier. *)
Definition byID (records : list ResourceRecord) (id : ResourceID) : option ResourceRecord :=
  last (filter (λ r, res_id (rr_Resource r) = id) records).

Fixpoint checkTargetEdges (sourceOwner : OwnerRef) (contract : option ReferenceContract)
    (records : list ResourceRecord) (added : list ReferenceEdge) : outcome unit :=
  match added with
  | [] => Ok tt
  | edge :: rest =>
      match byID records (edge_TargetID edge) with
      | None => Err (hiddenTargetViolation (edge_Slot edge))
      | Some record =>
          fail_if bool_decide (res_owner (rr_Resource record) ≠ sourceOwner)
            with hiddenTargetViolation (edge_Slot edge) ;;
          fail_if negb (SlotTargetTypeAllowed contract (edge_Slot edge)
                          (res_type (rr_Resource record)))
            with hiddenTargetViolation (edge_Slot edge) ;;
          fail_if negb (eligibleState (st_state (rr_Status record)))
            with hiddenTargetViolation (edge_Slot edge) ;;
          match authorizeRead record with
          | Ok _ => checkTargetEdges sourceOwner contract records rest
          | Err _ => Err (hiddenTargetViolation (edge_Slot edge))
          | Panic s => Panic s
          end
      end
  end.

Definition validateReferenceTargets (sourceOwner : OwnerRef)
    (contract : option ReferenceContract) (added : list ReferenceEdge) : outcome unit :=
  match LockResources (distinctEdgeTargets added) with
  | Err e =>
      if errors_is e ErrResourceNotFound then
        match added with
        | edge :: _ => Err (hiddenTargetViolation (edge_Slot edge))
        | [] => Panic "index out of range [0] with length 0"
        end
      else Err e
  | Panic s => Panic s
  | Ok records => checkTargetEdges sourceOwner contract records added
  end.
End targets.

(** ** Lemmas: the canonical form *)

Lemma has_duplicate_false targets : ∀ seen,
  has_duplicate seen targets = false ↔ NoDup targets ∧ ∀ t, t ∈ targets → t ∉ seen.
Proof.
  induction targets as [|t targets IH]; cbn; intros seen.
  { split; [|done]. intros _. split; [constructor|]. by intros t ?%not_elem_of_nil. }
  rewrite NoDup_cons. setoid_rewrite elem_of_cons. case_bool_decide as E.
  - split; [done|]. intros [_ H]. by destruct (H t (or_introl eq_refl)).
  - rewrite IH. setoid_rewrite elem_of_cons. split.
    + intros [Hnd H]. split_and!; [|done|].
      * intros Hin. apply (H t Hin). by left.
      * intros t' [->|Hin]; [done|]. intros ?. apply (H t' Hin). by right.
    + intros [[Ht Hnd] H]. split; [done|]. intros t' Hin [->|Hs]; [done|].
      apply (H t'); [by right|done].
Qed.

(** The edges of one slot, in target order. *)
Definition edges_of_slot (slot : string) (targets : list string) : list ReferenceEdge :=
  (λ target, {| edge_Slot := slot; edge_TargetID := target; edge_Generation := 0 |})
    <$> merge_sort String.le targets.

Definition all_edges (input : list (string * list string)) (slots : list string)
    : list ReferenceEdge :=
  slots ≫= λ slot, edges_of_slot slot (targets_of input slot).

Lemma slotEdges_ok slot targets r :
  slotEdges slot targets = Ok r ↔ NoDup targets ∧ r = edges_of_slot slot targets.
Proof.
  unfold slotEdges. rewrite fail_if_Ok, has_duplicate_false. split.
  - intros [[? _] [= <-]]. done.
  - intros [? ->]. split; [|done]. split; [done|]. by intros t _ ?%not_elem_of_nil.
Qed.

Lemma collectEdges_ok input slots r :
  collectEdges input slots = Ok r ↔
  (∀ slot, slot ∈ slots → NoDup (targets_of input slot)) ∧ r = all_edges input slots.
Proof.
  revert r. induction slots as [|slot slots IH]; cbn; intros r.
  { split; [|by intros [_ ->]]. intros [= <-]. split; [|done]. by intros ? ?%not_elem_of_nil. }
  setoid_rewrite elem_of_cons.
  assert ((∀ s, s = slot ∨ s ∈ slots → NoDup (targets_of input s)) ↔
    NoDup (targets_of input slot) ∧ ∀ s, s ∈ slots → NoDup (targets_of input s)) as ->.
  { split; [intros H; split; [apply H; by left|intros; apply H; by right]|].
    by intros [? H] s [->|?]; [|apply H]. }
  unfold all_edges in *. cbn. destruct (targets_of input slot) as [|t ts] eqn:E.
  - rewrite IH. cbn. split; [intros [? ->]; split_and!; [constructor|done..]|by intros [[_ ?] ->]].
  - rewrite bind_Ok. setoid_rewrite bind_Ok. setoid_rewrite slotEdges_ok. setoid_rewrite IH.
    split.
    + intros (? & [? ->] & ? & [? ->] & [= <-]). done.
    + intros [[? ?] ->]. eauto 10.
Qed.

Lemma targets_of_elem input slot targets :
  NoDup (input.*1) → (slot, targets) ∈ input → targets_of input slot = targets.
Proof.
  induction input as [|[k ts] input IH]; cbn; intros Hnd; [by intros ?%not_elem_of_nil|].
  apply NoDup_cons in Hnd as [Hk Hnd]. intros [[= -> ->]|Hin]%elem_of_cons.
  - by rewrite bool_decide_eq_true_2.
  - rewrite bool_decide_eq_false_2; [by apply IH|]. intros ->. destruct Hk.
    by apply (list_elem_of_fmap_2 fst) in Hin.
Qed.

Lemma all_edges_elem input slots e :
  e ∈ all_edges input slots ↔
  edge_Generation e = 0%N ∧ edge_Slot e ∈ slots ∧
  edge_TargetID e ∈ targets_of input (edge_Slot e).
Proof.
  unfold all_edges, edges_of_slot. rewrite list_elem_of_bind. split.
  - intros (slot & (t & -> & Ht)%list_elem_of_fmap & Hin). cbn.
    by rewrite merge_sort_elem_of in Ht.
  - intros (Hg & Hin & Ht). exists (edge_Slot e). split; [|done].
    apply list_elem_of_fmap. exists (edge_TargetID e). rewrite merge_sort_elem_of.
    split; [|done]. destruct e; cbn in *. by rewrite Hg.
Qed.

(** The order of canonical edges: by slot, then by target. *)
Definition edge_le (e f : ReferenceEdge) : Prop :=
  pair_le String.le String.le (edge_Slot e, edge_TargetID e) (edge_Slot f, edge_TargetID f).

Lemma all_edges_sorted input slots :
  NoDup slots → StronglySorted String.le slots → StronglySorted edge_le (all_edges input slots).
Proof.
  intros Hnd Hs. unfold all_edges. induction Hs as [|slot slots _ IH Hslot]; [constructor|].
  apply NoDup_cons in Hnd as [Hn Hnd]. cbn. apply StronglySorted_app_2; [| |by apply IH].
  - intros e f (t & -> & _)%list_elem_of_fmap (slot' & (t' & -> & _)%list_elem_of_fmap & Hin)%list_elem_of_bind.
    left. cbn. split; [by intros ->|]. by apply (proj1 (Forall_forall _ _) Hslot).
  - unfold edges_of_slot. pose proof (StronglySorted_merge_sort String.le (targets_of input slot)) as Hts.
    induction Hts as [|t ts _ IHt Ht]; cbn; constructor; [done|].
    apply Forall_fmap. eapply Forall_impl; [exact Ht|]. intros t' Hle. right. by split.
Qed.

Lemma all_edges_NoDup input slots :
  NoDup slots → (∀ slot, slot ∈ slots → NoDup (targets_of input slot)) →
  NoDup (all_edges input slots).
Proof.
  intros Hnd Ht. unfold all_edges. induction Hnd as [|slot slots Hn Hnd IH]; [constructor|].
  cbn. apply NoDup_app. split_and!.
  - unfold edges_of_slot. apply NoDup_fmap_2; [by intros ? ? [=]|].
    apply merge_sort_NoDup, Ht. by left.
  - intros e (t & -> & _)%list_elem_of_fmap (slot' & (t' & [= <-] & _)%list_elem_of_fmap & Hin)%list_elem_of_bind.
    done.
  - apply IH. intros; apply Ht. by right.
Qed.

#[export] Instance edge_key_antisymm :
  AntiSymm (=) (pair_le String.le String.le : relation (string * string)).
Proof. apply _. Qed.

Lemma edges_determined (l k : list ReferenceEdge) :
  NoDup l → NoDup k → StronglySorted edge_le l → StronglySorted edge_le k →
  (∀ e, e ∈ l → edge_Generation e = 0%N) → (∀ e, e ∈ l ↔ e ∈ k) → l = k.
Proof.
  intros Hl Hk Hsl Hsk Hg Heq.
  apply (sorted_by_key_unique (λ e, (edge_Slot e, edge_TargetID e)) (pair_le String.le String.le));
    [|done..|by apply NoDup_Permutation].
  apply NoDup_fmap_2_strong; [|done]. intros [? ? ?] [? ? ?] H1 H2 [= -> ->].
  apply Hg in H1, H2. cbn in *. congruence.
Qed.

(** ** Lemmas: the contract *)

Lemma omap_nil {A B} (f : A → option B) l : omap f l = [] ↔ ∀ x, x ∈ l → f x = None.
Proof.
  induction l as [|x l IH]; cbn.
  { split; [by intros _ x ?%not_elem_of_nil|done]. }
  setoid_rewrite elem_of_cons. destruct (f x) eqn:E.
  - split; [done|]. intros H. rewrite (H x) in E; [done|by left].
  - rewrite IH. split; [by intros H y [->|?]; [|apply H]|intros; eauto].
Qed.

Lemma nonempty_length {A} (l : list A) : negb (Nat.eqb (length l) 0) = false ↔ l = [].
Proof. by destruct l. Qed.

Lemma edgeViolation_None c source e :
  edgeViolation c source e = None ↔
  edge_Slot e ∈ (slot_Name <$> rc_slots c) ∧ edge_TargetID e ≠ source.
Proof.
  unfold edgeViolation, Slot. pose proof (findSlot_None (rc_slots c) (edge_Slot e)) as Hn.
  destruct (findSlot (rc_slots c) (edge_Slot e)) eqn:E.
  - assert (edge_Slot e ∈ slot_Name <$> rc_slots c) as Hin.
    { destruct (decide (edge_Slot e ∈ slot_Name <$> rc_slots c)) as [|Hnot]; [done|].
      by apply Hn in Hnot. }
    case_bool_decide; naive_solver.
  - split; [done|]. intros [Hin _]. by apply Hn in Hin.
Qed.

(** How many of the edges are bound to the slot. *)
Definition bound (edges : list ReferenceEdge) (slot : string) : Z :=
  Z.of_nat (length (filter (λ e, edge_Slot e = slot) edges)).

Lemma slotCounts_lookup c source edges slot : ∀ counts,
  (∀ e, e ∈ edges → edgeViolation c source e = None) →
  slotCounts c source edges counts !! slot =
  if bool_decide (slot ∈ edge_Slot <$> edges)
  then Some (default 0 (counts !! slot) + bound edges slot)%Z else counts !! slot.
Proof.
  induction edges as [|e edges IH]; intros counts Hok; [done|]. cbn [slotCounts].
  rewrite Hok by by left. rewrite IH by (intros; apply Hok; by right).
  unfold bound. rewrite filter_cons, fmap_cons.
  rewrite (bool_decide_ext (slot ∈ edge_Slot e :: (edge_Slot <$> edges))
    (slot = edge_Slot e ∨ slot ∈ edge_Slot <$> edges)) by by rewrite elem_of_cons.
  destruct (decide (edge_Slot e = slot)) as [<-|Hne].
  - rewrite lookup_insert_eq. rewrite (bool_decide_eq_true_2 (_ ∨ _)) by by left.
    cbn [length]. case_bool_decide as E; cbn; f_equal; [lia|].
    assert (filter (λ e0, edge_Slot e0 = edge_Slot e) edges = []) as ->; [|cbn; lia].
    apply elem_of_nil_inv. intros f [Hf Hin]%list_elem_of_filter. apply E. rewrite <- Hf.
    by apply list_elem_of_fmap_2.
  - rewrite lookup_insert_ne by done.
    rewrite (bool_decide_ext (slot = edge_Slot e ∨ slot ∈ edge_Slot <$> edges)
      (slot ∈ edge_Slot <$> edges)) by (split; [by intros [->|]|by right]). done.
Qed.

Lemma cardinalityViolation_None c slot d count :
  Slot c slot = Some d →
  cardinalityViolation c slot count = None ↔ (slot_MinItems d ≤ count ≤ slot_MaxItems d)%Z.
Proof.
  intros E. unfold cardinalityViolation. rewrite E.
  destruct (Z.ltb_spec count (slot_MinItems d)), (Z.ltb_spec (slot_MaxItems d) count); cbn;
    split; try done; lia.
Qed.

(** ** Properties *)

(** Submitted references are canonicalised exactly when no slot repeats a
    target and at most thirty-two targets are bound in total; the result then
    holds each submitted (slot, target) pair once, ordered by slot and target,
    so it does not depend on the order in which slots or targets were written. *)
Theorem CanonicalizeReferences_spec input edges :
  NoDup (input.*1) →
  CanonicalizeReferences input = Ok edges ↔
  (∀ slot targets, (slot, targets) ∈ input → NoDup targets) ∧
  (length edges ≤ MaxReferencesPerResource)%nat ∧
  NoDup edges ∧ StronglySorted edge_le edges ∧
  (∀ e, e ∈ edges ↔ edge_Generation e = 0%N ∧
     ∃ targets, (edge_Slot e, targets) ∈ input ∧ edge_TargetID e ∈ targets).
Proof.
  intros Hnd. set (slots := merge_sort String.le input.*1).
  assert (NoDup slots) as Hns by by apply (merge_sort_NoDup String.le).
  assert (StronglySorted String.le slots) as Hss by apply (StronglySorted_merge_sort String.le).
  assert (CanonicalizeReferences input = Ok edges ↔
    (∀ slot, slot ∈ slots → NoDup (targets_of input slot)) ∧
    (length edges ≤ MaxReferencesPerResource)%nat ∧ edges = all_edges input slots) as ->.
  { unfold CanonicalizeReferences. fold slots. destruct (Nat.eqb_spec (length input) 0) as [E|E].
    - apply nil_length_inv in E. subst slots. rewrite E. cbn. split.
      + intros [= <-]. split_and!; [by intros ? ?%not_elem_of_nil|cbn; lia|done].
      + by intros (_ & _ & ->).
    - rewrite bind_Ok. setoid_rewrite collectEdges_ok. setoid_rewrite fail_if_Ok.
      setoid_rewrite Nat.ltb_ge. naive_solver. }
  assert ((∀ slot, slot ∈ slots → NoDup (targets_of input slot)) ↔
    (∀ slot targets, (slot, targets) ∈ input → NoDup targets)) as Hdup.
  { split.
    - intros H slot targets Hin. rewrite <- (targets_of_elem input slot targets) by done.
      apply H. apply merge_sort_elem_of. by apply (list_elem_of_fmap_2 fst) in Hin.
    - intros H slot ([k ts] & -> & Hin)%merge_sort_elem_of%list_elem_of_fmap. cbn.
      rewrite (targets_of_elem input k ts) by done. by eapply H. }
  assert (∀ e, e ∈ all_edges input slots ↔ edge_Generation e = 0%N ∧
     ∃ targets, (edge_Slot e, targets) ∈ input ∧ edge_TargetID e ∈ targets) as Helem.
  { intros e. rewrite all_edges_elem. split.
    - intros (? & ([k ts] & Hk & Hin)%merge_sort_elem_of%list_elem_of_fmap & Ht). cbn in *.
      split; [done|]. exists ts. rewrite Hk in *.
      by rewrite (targets_of_elem input k ts) in Ht.
    - intros (? & ts & Hin & Ht). rewrite (targets_of_elem input _ ts) by done.
      split_and!; [done| |done]. apply merge_sort_elem_of.
      by apply (list_elem_of_fmap_2 fst) in Hin. }
  rewrite Hdup. split.
  - intros (Ht & Hl & ->). split_and!; try done; [|by apply all_edges_sorted].
    apply all_edges_NoDup; [done|]. by apply Hdup.
  - intros (Ht & Hl & Hne & Hse & He). split_and!; try done.
    apply edges_determined; try done.
    + apply all_edges_NoDup; [done|]. by apply Hdup.
    + by apply all_edges_sorted.
    + intros e [? _]%He. done.
    + intros e. by rewrite He, Helem.
Qed.

(** A canonical set passes the shape validation exactly when it is empty,
    or the type declares a contract, every edge names a declared slot and not
    the source itself, and every slot that occurs is bound between its minimum
    and its maximum number of times; the order in which the counts are visited
    does not matter. *)
Theorem ValidateReferenceShape_spec range contract sourceID edges :
  (∀ counts, range counts ≡ₚ map_to_list counts) →
  ValidateReferenceShape range contract sourceID edges = Ok tt ↔
  edges = [] ∨
  ∃ c, contract = Some c ∧
    (∀ e, e ∈ edges → edge_Slot e ∈ (slot_Name <$> rc_slots c) ∧ edge_TargetID e ≠ sourceID) ∧
    (∀ slot d, slot ∈ (edge_Slot <$> edges) → Slot c slot = Some d →
       (slot_MinItems d ≤ bound edges slot ≤ slot_MaxItems d)%Z).
Proof.
  intros Hrange. unfold ValidateReferenceShape.
  destruct (Nat.eqb_spec (length edges) 0) as [E|E].
  { apply nil_length_inv in E as ->. split; [by left|done]. }
  destruct contract as [c|]; [|split; [done|]; by intros [->|(? & ? & _)]].
  rewrite !fail_if_Ok, !nonempty_length, !omap_nil. setoid_rewrite edgeViolation_None.
  split.
  - intros (Hok & Hcard & _). right. exists c. split_and!; [done..|].
    intros slot d Hin Hd. apply (cardinalityViolation_None c slot d); [done|].
    apply (Hcard (slot, bound edges slot)). rewrite Hrange, elem_of_map_to_list.
    rewrite slotCounts_lookup by (intros; by apply edgeViolation_None, Hok).
    by rewrite bool_decide_eq_true_2.
  - intros [->|(? & [= <-] & Hok & Hcard)]; [done|]. split_and!; [done| |done].
    intros [slot count]. rewrite Hrange, elem_of_map_to_list.
    rewrite slotCounts_lookup by (intros; by apply edgeViolation_None, Hok).
    case_bool_decide as Hin; [|done]. intros [= <-]. cbn.
    destruct (Slot c slot) as [d|] eqn:Hd.
    + apply (cardinalityViolation_None c slot d); [done|]. by apply Hcard.
    + exfalso. apply findSlot_None in Hd. apply list_elem_of_fmap in Hin as (e & -> & He).
      by destruct Hd; apply Hok.
Qed.

(** ** Lemmas: edge keys *)

(** The separator of [edgeKey] does not occur. *)
Fixpoint nul_free (s : string) : bool :=
  match s with
  | "" => true
  | String c rest => negb (bool_decide (c = Ascii.zero)) && nul_free rest
  end.

Lemma separated_inj a b x y :
  nul_free a = true → nul_free b = true →
  (a ++ String Ascii.zero "" ++ x)%string = (b ++ String Ascii.zero "" ++ y)%string →
  a = b ∧ x = y.
Proof.
  revert b. induction a as [|c a IH]; intros [|d b] Ha Hb H.
  - injection H as H. split; [done|exact H].
  - injection H as Hd _. subst d. discriminate Hb.
  - injection H as Hc _. subst c. discriminate Ha.
  - cbn in Ha, Hb. apply andb_true_iff in Ha as [_ Ha], Hb as [_ Hb].
    injection H as -> H. by destruct (IH b Ha Hb H) as [-> ->].
Qed.

Definition same_edge (e f : ReferenceEdge) : Prop :=
  edge_Slot e = edge_Slot f ∧ edge_TargetID e = edge_TargetID f.

Lemma edgeKey_inj e f :
  nul_free (edge_Slot e) = true → nul_free (edge_Slot f) = true →
  edgeKey e = edgeKey f ↔ same_edge e f.
Proof.
  intros He Hf. unfold edgeKey, same_edge. split; [by apply separated_inj|by intros [-> ->]].
Qed.

Lemma edgeKeySet_elem e edges :
  nul_free (edge_Slot e) = true → Forall (λ f, nul_free (edge_Slot f) = true) edges →
  edgeKey e ∈ edgeKeySet edges ↔ ∃ f, f ∈ edges ∧ same_edge e f.
Proof.
  intros He Hall. unfold edgeKeySet. rewrite elem_of_list_to_set, list_elem_of_fmap.
  split; intros (f & H1 & H2); exists f.
  - split; [done|]. apply edgeKey_inj; [done| |done]. by apply (proj1 (Forall_forall _ _) Hall).
  - split; [|done]. apply edgeKey_inj; [done| |done]. by apply (proj1 (Forall_forall _ _) Hall).
Qed.

(** The difference of two desired sets is exact: with slot names free of
    the key separator, the added edges are those of the new set that the old
    set does not bind, the removed ones those of the old set that the new set
    does not bind, both in the order of their sets. *)
Theorem ReferenceDifference_spec oldSet newSet :
  Forall (λ f, nul_free (edge_Slot f) = true) (oldSet ++ newSet) →
  let '(added, removed) := ReferenceDifference oldSet newSet in
  (∀ e, e ∈ added ↔ e ∈ newSet ∧ ∀ f, f ∈ oldSet → ¬ same_edge e f) ∧
  (∀ e, e ∈ removed ↔ e ∈ oldSet ∧ ∀ f, f ∈ newSet → ¬ same_edge e f) ∧
  sublist added newSet ∧ sublist removed oldSet.
Proof.
  intros [Hold Hnew]%Forall_app. unfold ReferenceDifference. split_and!.
  - intros e. rewrite list_elem_of_filter. split.
    + intros [Hk Hin]. split; [done|]. intros f Hf Hs. apply Hk, edgeKeySet_elem; [|done|by exists f].
      by apply (proj1 (Forall_forall _ _) Hnew).
    + intros [Hin H]. split; [|done]. intros Hk. apply edgeKeySet_elem in Hk as (f & ? & ?);
        [by apply (H f)|by apply (proj1 (Forall_forall _ _) Hnew)|done].
  - intros e. rewrite list_elem_of_filter. split.
    + intros [Hk Hin]. split; [done|]. intros f Hf Hs. apply Hk, edgeKeySet_elem; [|done|by exists f].
      by apply (proj1 (Forall_forall _ _) Hold).
    + intros [Hin H]. split; [|done]. intros Hk. apply edgeKeySet_elem in Hk as (f & ? & ?);
        [by apply (H f)|by apply (proj1 (Forall_forall _ _) Hold)|done].
  - apply sublist_filter.
  - apply sublist_filter.
Qed.

(** ** Lemmas: the traversal *)

Section traversal.
Context (Outgoing : ResourceID → outcome (list ResourceID)).

(** The loop over the successors is [walkAll] with what is left of the depth. *)
Lemma visit_walkAll source remaining nexts : ∀ st,
  (fix visit (nexts : list ResourceID) (st : walk_state) : outcome walk_state :=
     match nexts with
     | [] => Ok st
     | next :: rest => st ← walk Outgoing source remaining next st; visit rest st
     end) nexts st = walkAll Outgoing source remaining nexts st.
Proof.
  induction nexts as [|n l IH]; intros st; [done|]. cbn.
  destruct (walk Outgoing source remaining n st); cbn; [apply IH|done|done].
Qed.

Lemma walk_unfold source remaining node st :
  walk Outgoing source remaining node st =
  (fail_if node =? source with ErrDependencyCycle ;;
   if bool_decide (node ∈ visited st) then Ok st else
   fail_if Nat.eqb (budget st) 0 with ErrReferenceGraphLimit ;;
   let st := {| visited := {[node]} ∪ visited st; budget := Nat.pred (budget st) |} in
   nexts ← Outgoing node;
   match nexts with
   | [] => Ok st
   | _ => match remaining with
          | 0 => Err ErrReferenceGraphLimit
          | S remaining => walkAll Outgoing source remaining nexts st
          end
   end).
Proof.
  destruct remaining as [|remaining]; [done|]. cbn.
  destruct (node =? source); [done|]. destruct (bool_decide _); [done|].
  destruct (Nat.eqb _ 0); [done|]. destruct (Outgoing node) as [nexts| |]; [|done..].
  cbn [mbind outcome_bind]. destruct nexts as [|next rest]; [done|].
  exact (visit_walkAll source remaining (next :: rest) _).
Qed.

(** An edge of the desired graph. *)
Definition depends (a b : ResourceID) : Prop := ∃ l, Outgoing a = Ok l ∧ b ∈ l.

(** What a finished walk establishes: it only adds nodes, none of them the
    source, and has followed every edge of those it added. *)
Definition explored (source : ResourceID) (st st' : walk_state) : Prop :=
  visited st ⊆ visited st' ∧
  ∀ x, x ∈ visited st' → x ∉ visited st →
    x ≠ source ∧ ∃ l, Outgoing x = Ok l ∧ ∀ y, y ∈ l → y ∈ visited st' ∧ y ≠ source.

Lemma explored_refl source st : explored source st st.
Proof. split; [done|]. intros x ??. done. Qed.

Lemma explored_trans source st1 st2 st3 :
  explored source st1 st2 → explored source st2 st3 → explored source st1 st3.
Proof.
  intros [Hs1 H1] [Hs2 H2]. split; [by etrans|]. intros x Hx Hn.
  destruct (decide (x ∈ visited st2)) as [Hx2|Hx2].
  - destruct (H1 x Hx2 Hn) as (? & l & ? & Hl). split; [done|]. exists l. split; [done|].
    intros y Hy. destruct (Hl y Hy). split; [by apply Hs2|done].
  - by apply H2.
Qed.

(** Visiting a node and then all its successors explores from the node. *)
Lemma explored_node source node nexts st st' :
  node ≠ source → Outgoing node = Ok nexts →
  explored source {| visited := {[node]} ∪ visited st; budget := Nat.pred (budget st) |} st' →
  (∀ n, n ∈ nexts → n ∈ visited st' ∧ n ≠ source) →
  explored source st st' ∧ node ∈ visited st' ∧ node ≠ source.
Proof.
  intros Hns Hout [Hs H] Hn. cbn in *. split_and!; [split| |done].
  - set_solver.
  - intros x Hx Hnx. destruct (decide (x = node)) as [->|Hne].
    + split; [done|]. by exists nexts.
    + apply H; [done|set_solver].
  - set_solver.
Qed.

Lemma walkAll_sound source remaining :
  (∀ node st st', walk Outgoing source remaining node st = Ok st' →
    explored source st st' ∧ node ∈ visited st' ∧ node ≠ source) →
  ∀ nodes st st', walkAll Outgoing source remaining nodes st = Ok st' →
    explored source st st' ∧ ∀ n, n ∈ nodes → n ∈ visited st' ∧ n ≠ source.
Proof.
  intros Hw nodes. induction nodes as [|n nodes IH]; cbn; intros st st' H.
  { injection H as <-. split; [apply explored_refl|]. by intros ? ?%not_elem_of_nil. }
  apply bind_Ok in H as (st1 & H1 & H2). apply Hw in H1 as (He1 & Hn & Hns).
  apply IH in H2 as [He2 Hin]. split; [by eapply explored_trans|].
  intros m [->|Hm]%elem_of_cons; [|by apply Hin]. split; [by apply He2|done].
Qed.

Lemma walk_sound source : ∀ remaining node st st',
  walk Outgoing source remaining node st = Ok st' →
  explored source st st' ∧ node ∈ visited st' ∧ node ≠ source.
Proof.
  induction remaining as [|remaining IH]; intros node st st' H; rewrite walk_unfold in H;
    apply fail_if_Ok in H as [Hns H]; apply bool_decide_eq_false in Hns;
    (destruct (bool_decide_reflect (node ∈ visited st)) as [Hv|Hv];
      [injection H as <-; split; [apply explored_refl|by split]|]);
    apply fail_if_Ok in H as [_ H]; apply bind_Ok in H as (nexts & Hout & H);
    eapply explored_node; try done; destruct nexts as [|n ns];
    try (injection H as <-; first [apply explored_refl|by intros ? ?%not_elem_of_nil]);
    try done; by apply (walkAll_sound source remaining IH) in H as [? ?].
Qed.
(** A cycle is only reported when the node reaches the source. *)
Section cycle_reports.
Hypothesis Hrepo : ∀ x, Outgoing x ≠ Err ErrDependencyCycle.

Lemma walkAll_cycle source remaining :
  (∀ node st, walk Outgoing source remaining node st = Err ErrDependencyCycle →
     rtc depends node source) →
  ∀ nodes st, walkAll Outgoing source remaining nodes st = Err ErrDependencyCycle →
    ∃ n, n ∈ nodes ∧ rtc depends n source.
Proof.
  intros Hw nodes. induction nodes as [|n nodes IH]; cbn; intros st H; [done|].
  apply bind_Err in H as [H|(st1 & _ & H)].
  - exists n. split; [by left|by eapply Hw].
  - apply IH in H as (m & ? & ?). exists m. split; [by right|done].
Qed.

Lemma walk_cycle source : ∀ remaining node st,
  walk Outgoing source remaining node st = Err ErrDependencyCycle → rtc depends node source.
Proof.
  induction remaining as [|remaining IH]; intros node st H; rewrite walk_unfold in H;
    (destruct (bool_decide_reflect (node = source)) as [->|Hns]; [done|]);
    (destruct (bool_decide (node ∈ visited st)); [done|]);
    (destruct (Nat.eqb (budget st) 0); [done|]); cbn zeta in H;
    apply bind_Err in H as [H|(nexts & Hout & H)]; try (by apply Hrepo in H);
    destruct nexts as [|n ns]; try done.
  apply (walkAll_cycle source remaining IH) in H as (m & Hm & Hr).
  eapply rtc_l; [|exact Hr]. by exists (n :: ns).
Qed.
End cycle_reports.

(** Within the bounds the traversal always reaches a verdict. *)
Section within_bounds.
Context (graph : gset ResourceID).
Hypothesis Hclosed : ∀ x, x ∈ graph → ∃ l, Outgoing x = Ok l ∧ ∀ y, y ∈ l → y ∈ graph.

(** The budget left covers the nodes not yet visited. *)
Definition affordable (st : walk_state) : Prop :=
  visited st ⊆ graph ∧ (size graph ≤ budget st + size (visited st))%nat.

Definition verdict (m : outcome walk_state) : Prop :=
  (∃ st, m = Ok st ∧ affordable st) ∨ m = Err ErrDependencyCycle.

Definition depth_below (remaining : nat) (node : ResourceID) : Prop :=
  ∀ n y, nsteps depends n node y → (n ≤ remaining)%nat.

Lemma walkAll_verdict source remaining :
  (∀ node st, node ∈ graph → affordable st → depth_below remaining node →
     verdict (walk Outgoing source remaining node st)) →
  ∀ nodes st, (∀ n, n ∈ nodes → n ∈ graph ∧ depth_below remaining n) → affordable st →
    verdict (walkAll Outgoing source remaining nodes st).
Proof.
  intros Hw nodes. induction nodes as [|n nodes IH]; cbn; intros st Hn Hst; [left; by exists st|].
  destruct (Hn n) as [? ?]; [by left|].
  destruct (Hw n st) as [(st1 & -> & Hst1)| ->]; [done..| |by right].
  apply IH; [|done]. intros m Hm. apply Hn. by right.
Qed.

Lemma affordable_visit node st :
  node ∈ graph → node ∉ visited st → affordable st →
  Nat.eqb (budget st) 0 = false ∧
  affordable {| visited := {[node]} ∪ visited st; budget := Nat.pred (budget st) |}.
Proof.
  intros Hn Hv [Hs Hb]. pose proof (size_union ({[node]} : gset ResourceID) (visited st)) as Hu.
  rewrite size_singleton in Hu. unfold affordable. cbn.
  assert ({[node]} ∪ visited st ⊆ graph) as Hs' by set_solver.
  pose proof (subseteq_size _ _ Hs'). rewrite Nat.eqb_neq.
  rewrite Hu in * by set_solver. split_and!; [lia|done|lia].
Qed.

Lemma depends_deeper remaining node n :
  depth_below remaining node → depends node n → ∃ r, remaining = S r ∧ depth_below r n.
Proof.
  intros Hd Hn. destruct remaining as [|r].
  - assert (1 ≤ 0)%nat; [|lia]. apply (Hd 1%nat n). econstructor; [done|constructor].
  - exists r. split; [done|]. intros k y Hk.
    assert (S k ≤ S r)%nat; [|lia]. apply (Hd (S k) y). by econstructor.
Qed.

Lemma walk_verdict source : ∀ remaining node st,
  node ∈ graph → affordable st → depth_below remaining node →
  verdict (walk Outgoing source remaining node st).
Proof.
  induction remaining as [|remaining IH]; intros node st Hn Hst Hd; rewrite walk_unfold;
    (destruct (node =? source); [by right|]);
    (destruct (bool_decide_reflect (node ∈ visited st)) as [Hv|Hv]; [left; by exists st|]);
    destruct (affordable_visit node st Hn Hv Hst) as [-> Hst'];
    destruct (Hclosed node Hn) as (nexts & Hout & Hin); rewrite Hout; cbn [mbind outcome_bind];
    (destruct nexts as [|n ns]; [left; by eexists|]).
  - exfalso. destruct (depends_deeper 0 node n Hd) as (? & ? & _); [|done].
    exists (n :: ns). split; [done|by left].
  - apply (walkAll_verdict source remaining IH); [|done]. intros m Hm. split; [by apply Hin|].
    destruct (depends_deeper (S remaining) node m Hd) as (? & [= <-] & ?); [|done].
    by exists (n :: ns).
Qed.
End within_bounds.
End traversal.

Lemma explored_closed Outgoing source st x y :
  explored Outgoing source {| visited := ∅; budget := MaxCycleTraversalNodes |} st →
  x ∈ visited st → x ≠ source → rtc (depends Outgoing) x y → y ∈ visited st ∧ y ≠ source.
Proof.
  intros [_ H] Hx Hns Hr. revert Hx Hns. induction Hr as [x|x z y (l & Hl & Hz) _ IH]; [done|].
  intros Hx Hns. destruct (H x Hx) as (_ & l' & Hl' & Hall); [set_solver|].
  rewrite Hl in Hl'. injection Hl' as <-. destruct (Hall z Hz) as [? ?]. by apply IH.
Qed.

(** An accepted cycle proof is sound: whatever the graph, however large,
    no candidate target reaches the source over the desired edges, so adding
    the proposed edges cannot close a cycle. *)
Theorem DetectDependencyCycle_sound Outgoing source candidates :
  DetectDependencyCycle Outgoing source candidates = Ok tt →
  ∀ t, t ∈ candidates → ¬ rtc (depends Outgoing) t source.
Proof.
  intros (st & H & _)%bind_Ok t Ht Hr.
  apply walkAll_sound in H as [Hex Hin]; [|by apply walk_sound].
  destruct (Hin t) as [Hv Hns]; [by apply merge_sort_elem_of|].
  by destruct (explored_closed _ _ _ _ _ Hex Hv Hns Hr).
Qed.

(** C39: Within the documented bounds the proof is exact: when the reachable
    desired graph is readable, has at most [MaxCycleTraversalNodes] nodes and
    no path of [MaxDependencyDepth] edges from a candidate, the traversal ends
    with success when no candidate reaches the source, and with
    [ErrDependencyCycle] otherwise; the limit error never appears. *)
Theorem DetectDependencyCycle_exact Outgoing source candidates (graph : gset ResourceID) :
  (∀ x, Outgoing x ≠ Err ErrDependencyCycle) →
  (∀ x, x ∈ graph → ∃ l, Outgoing x = Ok l ∧ ∀ y, y ∈ l → y ∈ graph) →
  (∀ t, t ∈ candidates → t ∈ graph) →
  (size graph ≤ MaxCycleTraversalNodes)%nat →
  (∀ t n y, t ∈ candidates → nsteps (depends Outgoing) n t y → (n < MaxDependencyDepth)%nat) →
  (DetectDependencyCycle Outgoing source candidates = Ok tt ↔
     ∀ t, t ∈ candidates → ¬ rtc (depends Outgoing) t source) ∧
  (DetectDependencyCycle Outgoing source candidates = Err ErrDependencyCycle ↔
     ∃ t, t ∈ candidates ∧ rtc (depends Outgoing) t source).
Proof.
  intros Hrepo Hclosed Hcand Hsize Hdepth.
  assert (verdict graph (walkAll Outgoing source (MaxDependencyDepth - 1)
    (merge_sort String.le candidates) {| visited := ∅; budget := MaxCycleTraversalNodes |})) as Hv.
  { apply walkAll_verdict; [by apply walk_verdict| |].
    - intros n Hn. apply merge_sort_elem_of in Hn. split; [by apply Hcand|].
      intros k y Hk. apply (Hdepth n k y) in Hk; [unfold MaxDependencyDepth in *; lia|done].
    - unfold affordable. cbn [visited budget]. rewrite size_empty. split; [set_solver|lia]. }
  assert (DetectDependencyCycle Outgoing source candidates = Err ErrDependencyCycle →
    ∃ t, t ∈ candidates ∧ rtc (depends Outgoing) t source) as Hcycle.
  { intros H. apply bind_Err in H as [H|(? & _ & H)]; [|done].
    apply walkAll_cycle in H as (n & Hn & Hr); [|by apply walk_cycle].
    apply merge_sort_elem_of in Hn. by exists n. }
  pose proof (DetectDependencyCycle_sound Outgoing source candidates) as Hsound.
  destruct Hv as [(st & Hok & _)|Herr].
  - assert (DetectDependencyCycle Outgoing source candidates = Ok tt) as Hd
      by (unfold DetectDependencyCycle; by rewrite Hok).
    rewrite Hd. split; [split; [intros _; by apply Hsound|done]|].
    split; [done|]. intros (t & Ht & Hr). by destruct (Hsound Hd t Ht).
  - assert (DetectDependencyCycle Outgoing source candidates = Err ErrDependencyCycle) as Hd
      by (unfold DetectDependencyCycle; by rewrite Herr).
    rewrite Hd. destruct (Hcycle Hd) as (t & Ht & Hr). split; [|split; [by intros _; exists t|done]].
    split; [done|]. intros H. by destruct (H t Ht).
Qed.

(** ** Lemmas: the locked targets *)

(** What admission demands of one added edge. *)
Definition admissible_target (authorizeRead : ResourceRecord → outcome unit)
    (sourceOwner : OwnerRef) (contract : option ReferenceContract)
    (records : list ResourceRecord) (edge : ReferenceEdge) : Prop :=
  ∃ record, byID records (edge_TargetID edge) = Some record ∧
    res_owner (rr_Resource record) = sourceOwner ∧
    SlotTargetTypeAllowed contract (edge_Slot edge) (res_type (rr_Resource record)) = true ∧
    eligibleState (st_state (rr_Status record)) = true ∧ authorizeRead record = Ok tt.

Lemma byID_Some records id record :
  byID records id = Some record → record ∈ records ∧ res_id (rr_Resource record) = id.
Proof. intros H%last_Some_elem_of. by apply list_elem_of_filter in H as [? ?]. Qed.

Lemma checkTargetEdges_ok authorizeRead sourceOwner contract records added :
  checkTargetEdges authorizeRead sourceOwner contract records added = Ok tt ↔
  Forall (admissible_target authorizeRead sourceOwner contract records) added.
Proof.
  induction added as [|edge added IH]; cbn; [by split|]. rewrite Forall_cons.
  unfold admissible_target at 1. destruct (byID records (edge_TargetID edge)) as [record|].
  - rewrite !fail_if_Ok, !negb_false_iff, bool_decide_eq_false. split.
    + intros (Ho & Hs & He & H). apply dec_stable in Ho.
      destruct (authorizeRead record) as [[]| |] eqn:Ha; try done. split; [|by apply IH].
      by exists record.
    + intros [(? & [= <-] & Ho & Hs & He & Ha) Hrest]. rewrite Ha, IH.
      split_and!; try done. by intros [].
  - split; [done|]. by intros [(? & ? & _) _].
Qed.

Lemma checkTargetEdges_err authorizeRead sourceOwner contract records added e :
  checkTargetEdges authorizeRead sourceOwner contract records added = Err e →
  ∃ edge, edge ∈ added ∧ e = hiddenTargetViolation (edge_Slot edge).
Proof.
  induction added as [|edge added IH]; cbn; [done|]. intros H.
  assert (e = hiddenTargetViolation (edge_Slot edge) ∨
    checkTargetEdges authorizeRead sourceOwner contract records added = Err e) as [->|Hr].
  { repeat case_match; simplify_eq; tauto. }
  - exists edge. split; [by left|done].
  - apply IH in Hr as (f & ? & ?). exists f. split; [by right|done].
Qed.

(** New references are admitted exactly when every target could be locked
    and is owned by the same owner, of a type the slot allows, in an eligible
    state and readable by the caller; and every refusal that is not a storage
    failure is the one curated violation of a submitted slot. *)
Theorem validateReferenceTargets_spec Lock authorizeRead sourceOwner contract added :
  let run := validateReferenceTargets Lock authorizeRead sourceOwner contract added in
  (run = Ok tt ↔ ∃ records, Lock (distinctEdgeTargets added) = Ok records ∧
     Forall (admissible_target authorizeRead sourceOwner contract records) added) ∧
  (∀ e, run = Err e →
     (Lock (distinctEdgeTargets added) = Err e ∧ errors_is e ErrResourceNotFound = false) ∨
     ∃ edge, edge ∈ added ∧ e = hiddenTargetViolation (edge_Slot edge)).
Proof.
  cbn. unfold validateReferenceTargets. destruct (Lock (distinctEdgeTargets added)) as [records|e|s].
  - rewrite checkTargetEdges_ok. split.
    + split; [by exists records|by intros (? & [= <-] & ?)].
    + intros e H. right. by apply checkTargetEdges_err in H.
  - split.
    + split; [|by intros (? & ? & _)]. destruct (errors_is e ErrResourceNotFound); [|done].
      by destruct added.
    + intros e' H. destruct (errors_is e ErrResourceNotFound) eqn:E.
      * right. destruct added as [|edge added]; [done|]. injection H as <-.
        exists edge. split; [by left|done].
      * left. by injection H as <-.
  - split; [split; [done|by intros (? & ? & _)]|done].
Qed.

(** ** Counterexamples to the intended behaviour *)

(** A contract that requires one target ([MinItems = 1]) does not reject a
    resource that binds none: only slots that occur among the edges are
    counted. *)
Lemma required_slot_unenforced range source :
  NewReferenceContract [sample_slot] = Ok sample_reference_contract ∧
  slot_MinItems sample_slot = 1%Z ∧
  ValidateReferenceShape range (Some sample_reference_contract) source [] = Ok tt.
Proof. done. Qed.

(** A store that locks the named records, or reports the first missing one. *)
Definition lock_in (store : list ResourceRecord) (ids : list ResourceID)
    : outcome (list ResourceRecord) :=
  if forallb (λ id, existsb (λ r, res_id (rr_Resource r) =? id) store) ids
  then Ok (filter (λ r, res_id (rr_Resource r) ∈ ids) store)
  else Err ErrResourceNotFound.

Definition sample_target (id : ResourceID) (owner : OwnerRef) : ResourceRecord :=
  {| rr_Resource := {| res_id := id; res_type := sample_type; res_owner := owner;
       res_generation := 1; res_spec := sample_spec; res_createdAt := 10;
       res_updatedAt := 10 |};
     rr_Status := {| st_resourceID := id; st_observedGeneration := 1;
       st_state := ResourceStateReady; st_conditions := []; st_updatedAt := 10 |};
     rr_ProvisionerRef := "pulumi"; rr_Version := 1 |}.

Definition foreign_owner : OwnerRef := {| owner_Kind := "team"; owner_ID := "other" |}.

Definition probing_contract : ReferenceContract :=
  {| rc_slots := [ {| slot_Name := "a"; slot_AllowedTargetTypes := [sample_type];
       slot_MinItems := 0; slot_MaxItems := 1 |};
     {| slot_Name := "b"; slot_AllowedTargetTypes := [sample_type];
       slot_MinItems := 0; slot_MaxItems := 1 |} ] |}.

Definition probing_edges : list ReferenceEdge :=
  [ {| edge_Slot := "a"; edge_TargetID := "mine"; edge_Generation := 0 |};
    {| edge_Slot := "b"; edge_TargetID := "probe"; edge_Generation := 0 |} ].

(** The refusal tells a missing target from another owner's: with an own target
    bound first, a missing probe is refused on the first slot, an existing one
    on the slot it was submitted to. *)
Lemma refusal_reveals_existence :
  let run store := validateReferenceTargets (lock_in store) (λ _, Ok tt) sample_owner
    (Some probing_contract) probing_edges in
  run [sample_target "mine" sample_owner] = Err (hiddenTargetViolation "a") ∧
  run [sample_target "mine" sample_owner; sample_target "probe" foreign_owner] =
    Err (hiddenTargetViolation "b").
Proof. split; reflexivity. Qed.

(** ** Witnesses *)

Definition sample_input : list (string * list string) :=
  [("network", ["n2"; "n1"]); ("database", ["d1"])].

Definition sample_edges : list ReferenceEdge :=
  [ {| edge_Slot := "database"; edge_TargetID := "d1"; edge_Generation := 0 |};
    {| edge_Slot := "network"; edge_TargetID := "n1"; edge_Generation := 0 |};
    {| edge_Slot := "network"; edge_TargetID := "n2"; edge_Generation := 0 |} ].

Lemma CanonicalizeReferences_spec_witness :
  CanonicalizeReferences sample_input = Ok sample_edges ∧ NoDup sample_edges.
Proof.
  split; [reflexivity|].
  apply (CanonicalizeReferences_spec sample_input sample_edges); [|reflexivity].
  by apply (bool_decide_unpack _).
Defined.

Lemma ValidateReferenceShape_spec_witness :
  ValidateReferenceShape map_to_list (Some sample_reference_contract) "r-1"
    [{| edge_Slot := "network"; edge_TargetID := "n1"; edge_Generation := 0 |}] = Ok tt.
Proof.
  apply ValidateReferenceShape_spec; [done|]. right. exists sample_reference_contract.
  split; [done|]. split.
  - intros e ->%list_elem_of_singleton. split; [by left|discriminate].
  - intros slot d ->%list_elem_of_singleton [= <-]. by vm_compute.
Defined.

Lemma ReferenceDifference_spec_witness :
  {| edge_Slot := "network"; edge_TargetID := "n2"; edge_Generation := 0 |} ∈
  (ReferenceDifference (take 2 sample_edges) sample_edges).1.
Proof.
  pose proof (ReferenceDifference_spec (take 2 sample_edges) sample_edges) as H.
  destruct (ReferenceDifference (take 2 sample_edges) sample_edges) as [added removed].
  destruct H as (H & _); [by repeat constructor|]. apply H. split; [by right; right; left|].
  intros f Hf [_ Ht]. cbn in Hf. rewrite !elem_of_cons, elem_of_nil in Hf.
  by destruct Hf as [->|[->|[]]].
Defined.

(** A chain [d1 -> n1 -> n2]. *)
Definition sample_outgoing (id : ResourceID) : outcome (list ResourceID) :=
  if id =? "d1" then Ok ["n1"] else if id =? "n1" then Ok ["n2"] else Ok [].

Lemma DetectDependencyCycle_sound_witness :
  ¬ rtc (depends sample_outgoing) "d1" "other".
Proof.
  apply (DetectDependencyCycle_sound sample_outgoing "other" ["d1"]);
    [reflexivity|by apply list_elem_of_singleton].
Defined.

Lemma sample_outgoing_cases x :
  sample_outgoing x = Ok ["n1"] ∨ sample_outgoing x = Ok ["n2"] ∨ sample_outgoing x = Ok [].
Proof. unfold sample_outgoing. repeat case_bool_decide; tauto. Qed.

(** The distance a node still has to the end of the chain. *)
Definition sample_height (id : ResourceID) : nat :=
  if id =? "d1" then 2 else if id =? "n1" then 1 else 0.

Lemma sample_depth n x y : nsteps (depends sample_outgoing) n x y → (n ≤ sample_height x)%nat.
Proof.
  induction 1 as [|n x z y (l & Hl & Hz) _ IH]; [lia|].
  assert (sample_height z < sample_height x)%nat; [|lia]. unfold sample_outgoing in Hl.
  case_bool_decide; [subst x|case_bool_decide; [subst x|]]; injection Hl as <-;
    first [apply list_elem_of_singleton in Hz as ->; by apply Nat.ltb_lt|by apply elem_of_nil in Hz].
Qed.

Lemma DetectDependencyCycle_exact_witness :
  DetectDependencyCycle sample_outgoing "n2" ["d1"] = Err ErrDependencyCycle.
Proof.
  apply (DetectDependencyCycle_exact sample_outgoing "n2" ["d1"] {["d1"; "n1"; "n2"]}).
  - intros x. by destruct (sample_outgoing_cases x) as [->|[->| ->]].
  - intros x _. destruct (sample_outgoing_cases x) as [->|[->| ->]]; eexists;
      (split; [done|]); intros y; rewrite ?list_elem_of_singleton, ?elem_of_nil; set_solver.
  - intros t ->%list_elem_of_singleton. set_solver.
  - apply Nat.leb_le. reflexivity.
  - intros t n y ->%list_elem_of_singleton Hn%sample_depth.
    eapply Nat.le_lt_trans; [exact Hn|]. by apply Nat.ltb_lt.
  - exists "d1". split; [by apply list_elem_of_singleton|].
    eapply rtc_l; [exists ["n1"]; split; [done|by left]|].
    eapply rtc_l; [exists ["n2"]; split; [done|by left]|done].
Defined.
