(* ===== verification/Submission.v ===== *)
(** * Interpreting provider evidence

    Models [src/internal/application/submission.go]: how the outcome of a
    dispatch and of an observation is read against the leased execution and
    attempt, the freshness of provider evidence and the lifecycle result of a
    terminal one; with [hasObservedFacts], [validateObservedFacts] and
    [internalEventID] of [application.go].  How Go prints an error, and the
    SHA-256 digest, are parameters. *)

From S2P Require Import Prelude Operation Values Resource Status Provisioning Records Engine.
Open Scope string_scope.
Open Scope go_scope.

Inductive SubmissionOutcome :=
  | SubmissionOutcomeAmbiguous
  | SubmissionOutcomeRejected
  | SubmissionOutcomeAccepted
  | SubmissionOutcomeSucceeded
  | SubmissionOutcomeFailed.

Inductive ObservationOutcome :=
  | ObservationOutcomeStale
  | ObservationOutcomeRejected
  | ObservationOutcomeRetry
  | ObservationOutcomeObserve
  | ObservationOutcomeSucceeded
  | ObservationOutcomeFailed.

Record Finish := {
  fin_Succeeded : bool;
  fin_Reason : string;
  fin_Message : string;
  fin_Facts : ObservedFacts }.

(** ** Evidence *)

Definition EvidenceFresh (persistedObservedAt evidenceAt : Time) : bool :=
  IsZero persistedObservedAt || After evidenceAt persistedObservedAt.

Definition hasObservedFacts (facts : ObservedFacts) : bool :=
  (Presence facts <>? "") || (Readiness facts <>? "") || (Drift facts <>? "").

Definition validateObservedFacts (facts : ObservedFacts) : option error :=
  if negb (hasObservedFacts facts) then None else
  match ObservedFacts_Validate facts with
  | Err e => Some (Notef ErrInvalidTransition "%w: %v" e)
  | _ => None
  end.

Definition sanitizeObservedFacts (facts : ObservedFacts) : ObservedFacts :=
  match validateObservedFacts facts with
  | Some _ => no_facts
  | None => facts
  end.

Definition ManagedTargetAbsentReason : string := "ManagedTargetAbsent".

Definition ConclusiveManagedAbsence (capability : Capability) (correlation : string)
    (execution : option Execution) (acceptanceConfirmed : bool) : bool :=
  (capability =? CapabilityDelete) &&
  (correlation =? RequestCorrelationNotFound) &&
  negb acceptanceConfirmed &&
  non_nil execution (λ e, (ex_State e =? ExecutionStateFailed) &&
    non_nil (ex_Failure e) (λ f, ef_Kind f =? FailureNotFound)).

Definition providerEvidenceStale (execution : ProvisioningExecutionRecord)
    (providerAt : Time) : bool :=
  if IsZero providerAt then false else
  negb (IsZero (pe_LastProviderObservedAt execution)) &&
  negb (After providerAt (pe_LastProviderObservedAt execution)).

Definition acceptProviderEvidence (execution : ProvisioningExecutionRecord)
    (providerAt : Time) : ProvisioningExecutionRecord :=
  if IsZero providerAt then execution else
  if Before (pe_LastProviderObservedAt execution) providerAt
  then execution <| pe_LastProviderObservedAt := providerAt |>
  else execution.

Definition ValidCorrelation (correlation : string) : bool :=
  (correlation =? RequestCorrelationFound) ||
  (correlation =? RequestCorrelationNotFound) ||
  (correlation =? RequestCorrelationUnknown).

Definition ValidExecutionState (state : string) : bool :=
  (state =? ExecutionStateAccepted) || (state =? ExecutionStateRunning) ||
  (state =? ExecutionStateSucceeded) || (state =? ExecutionStateFailed) ||
  (state =? ExecutionStateUnknown).

(** [State == Succeeded || State == Failed]. *)
Definition terminalState (state : string) : bool :=
  (state =? ExecutionStateSucceeded) || (state =? ExecutionStateFailed).

Section interpretation.
(** [err.Error()]. *)
Context (Error : error → string).

Definition ExecutionFailureFrom (err : option error) (execution : option Execution)
    : ExecutionFailure :=
  match execution with
  | Some {| ex_Failure := Some failure |} =>
      if ef_Reason failure =? "" then failure <| ef_Reason := "ExecutionFailed" |>
      else failure
  | _ =>
      {| ef_Kind := FailureUnknown;
         ef_Reason := "SubmissionUnknown";
         ef_Message :=
           match err with
           | Some e => Error e
           | None => "submission outcome is ambiguous"
           end |}
  end.

(** ** Submissions *)

Definition ambiguous (execution : ProvisioningExecutionRecord)
    (attempt : SubmissionAttemptRecord) (failure : ExecutionFailure)
    : outcome (ProvisioningExecutionRecord * SubmissionAttemptRecord *
               SubmissionOutcome * option Finish) :=
  Ok (execution <| pe_LastFailure := Some failure |>,
      attempt <| sa_State := SubmissionAttemptUnknown |> <| sa_Failure := Some failure |>,
      SubmissionOutcomeAmbiguous, None).

(** The final [switch] of [InterpretSubmission]; [failure.Reason] dereferences
    the failure [ExecutionFailureFrom] always returns. *)
Definition submissionResult (execution : ProvisioningExecutionRecord)
    (attempt : SubmissionAttemptRecord) (submission : Submission) (backend : Execution)
    : outcome (ProvisioningExecutionRecord * SubmissionAttemptRecord *
               SubmissionOutcome * option Finish) :=
  if (ex_State backend =? ExecutionStateAccepted) ||
     (ex_State backend =? ExecutionStateRunning) then
    Ok (execution <| pe_State := AttemptAccepted |>, attempt, SubmissionOutcomeAccepted, None)
  else if ex_State backend =? ExecutionStateSucceeded then
    Ok (execution <| pe_State := AttemptSucceeded |>, attempt, SubmissionOutcomeSucceeded,
        Some {| fin_Succeeded := true; fin_Reason := "SubmissionSucceeded";
                fin_Message := ""; fin_Facts := eo_Resource (sub_Observation submission) |})
  else if ex_State backend =? ExecutionStateFailed then
    let failure := ExecutionFailureFrom None (Some backend) in
    Ok (execution <| pe_State := AttemptFailed |> <| pe_LastFailure := Some failure |>,
        attempt, SubmissionOutcomeFailed,
        Some {| fin_Succeeded := false; fin_Reason := ef_Reason failure;
                fin_Message := ef_Message failure;
                fin_Facts := eo_Resource (sub_Observation submission) |})
  else Err (Errorf "invalid execution state %q" [ArgS (ex_State backend)]).

Definition absent_facts : ObservedFacts :=
  {| Presence := ResourcePresenceNotFound; Readiness := ResourceReadinessUnknown;
     Drift := ResourceDriftUnknown |}.

(** What a submission whose evidence is neither stale nor malformed leaves in
    the execution, whatever it resolves to. *)
Definition recordSubmission (execution : ProvisioningExecutionRecord)
    (submission : Submission) (observedAt : Time) : ProvisioningExecutionRecord :=
  let observation := sub_Observation submission in
  let correlation := eo_Correlation observation in
  let execution := execution <| pe_Submission := Some submission |>
    <| pe_LastObservation := Some observation |>
    <| pe_Correlation := if ValidCorrelation correlation then correlation
                         else RequestCorrelationUnknown |> in
  let execution :=
    match eo_Execution observation with
    | Some {| ex_Handle := Some handle |} => execution <| pe_Handle := Some handle |>
    | _ => execution
    end in
  let execution :=
    if non_nil (eo_Execution observation)
         (λ _, EvidenceFresh (pe_LastObservedAt execution) observedAt)
    then execution <| pe_LastObservedAt := observedAt |> else execution in
  acceptProviderEvidence execution (eo_ObservedAt observation).

(** How it resolves, [execution] being the recorded one. *)
Definition resolveSubmission (execution : ProvisioningExecutionRecord)
    (attempt : SubmissionAttemptRecord) (submission : Submission)
    (submitErr : option error) (observedAt : Time)
    : outcome (ProvisioningExecutionRecord * SubmissionAttemptRecord *
               SubmissionOutcome * option Finish) :=
  let backendExecution := eo_Execution (sub_Observation submission) in
  let correlation := eo_Correlation (sub_Observation submission) in
  let terminalEvidence := non_nil backendExecution (λ e, terminalState (ex_State e)) in
  let undetermined :=
    ambiguous
      ((if correlation =? RequestCorrelationFound
        then execution <| pe_AcceptanceConfirmed := true |> else execution)
         <| pe_State := AttemptUnknown |>)
      attempt (ExecutionFailureFrom submitErr backendExecution) in
  match backendExecution with
  | None => undetermined
  | Some backend =>
      let validState := ValidExecutionState (ex_State backend) in
      let preflightRejected := validState && (ex_State backend =? ExecutionStateFailed) &&
        non_nil (ex_Failure backend) (λ _, true) &&
        (correlation =? RequestCorrelationNotFound) in
      let acceptedRequest := validState && (correlation =? RequestCorrelationFound) in
      if (non_nil submitErr (λ _, true) && negb terminalEvidence) || negb validState ||
         (ex_State backend =? ExecutionStateUnknown) ||
         (negb preflightRejected && negb acceptedRequest)
      then undetermined
      else
      let attempt := attempt <| sa_ResolvedAt := observedAt |> in
      if preflightRejected then
        let failure := ExecutionFailureFrom None backendExecution in
        let absent := ConclusiveManagedAbsence (pe_Capability execution)
          RequestCorrelationNotFound backendExecution (pe_AcceptanceConfirmed execution) in
        let attempt := attempt <| sa_State := SubmissionAttemptRejected |>
          <| sa_Failure := Some failure |> in
        let execution := execution <| pe_Correlation := RequestCorrelationNotFound |>
          <| pe_AcceptanceConfirmed := false |> in
        if absent then
          Ok (execution <| pe_State := AttemptSucceeded |>, attempt,
              SubmissionOutcomeSucceeded,
              Some {| fin_Succeeded := true; fin_Reason := ManagedTargetAbsentReason;
                      fin_Message := ""; fin_Facts := absent_facts |})
        else submissionResult execution attempt submission backend
      else
        submissionResult
          (execution <| pe_Correlation := RequestCorrelationFound |>
             <| pe_AcceptanceConfirmed := true |>)
          (attempt <| sa_State := SubmissionAttemptAccepted |>) submission backend
  end.

Definition interpretFresh (execution : ProvisioningExecutionRecord)
    (attempt : SubmissionAttemptRecord) (submission : Submission)
    (submitErr : option error) (observedAt : Time)
    : outcome (ProvisioningExecutionRecord * SubmissionAttemptRecord *
               SubmissionOutcome * option Finish) :=
  resolveSubmission (recordSubmission execution submission observedAt) attempt submission
    submitErr observedAt.

Definition InterpretSubmission (execution : ProvisioningExecutionRecord)
    (attempt : SubmissionAttemptRecord) (submission : Submission)
    (submitErr : option error) (observedAt : Time)
    : outcome (ProvisioningExecutionRecord * SubmissionAttemptRecord *
               SubmissionOutcome * option Finish) :=
  let observation := sub_Observation submission in
  let backendExecution := eo_Execution observation in
  let unknown := execution <| pe_State := AttemptUnknown |>
    <| pe_Correlation := RequestCorrelationUnknown |> in
  if non_nil backendExecution
       (λ _, providerEvidenceStale execution (eo_ObservedAt observation)) then
    ambiguous unknown attempt
      {| ef_Kind := FailureUnknown; ef_Reason := "StaleSubmissionEvidence";
         ef_Message :=
           "submission evidence does not advance the persisted observation timeline" |}
  else
  let terminalEvidence := non_nil backendExecution (λ e, terminalState (ex_State e)) in
  match validateObservedFacts (eo_Resource observation) with
  | Some factsErr =>
      if terminalEvidence then
        interpretFresh execution attempt
          (submission <| sub_Observation := observation <| eo_Resource := no_facts |> |>)
          submitErr observedAt
      else
        ambiguous unknown attempt
          {| ef_Kind := FailureUnknown; ef_Reason := "MalformedObservedFacts";
             ef_Message := Error factsErr |}
  | None => interpretFresh execution attempt submission submitErr observedAt
  end.

(** ** Observations *)

Definition finishFailed (failure : ExecutionFailure) (facts : ObservedFacts) : Finish :=
  {| fin_Succeeded := false; fin_Reason := ef_Reason failure;
     fin_Message := ef_Message failure; fin_Facts := facts |}.

(** How an observation resolves, [execution] having recorded it. *)
Definition resolveObservation (execution : ProvisioningExecutionRecord)
    (attempt : SubmissionAttemptRecord) (observation : ExecutionObservation)
    (observedAt : Time)
    : outcome (ProvisioningExecutionRecord * SubmissionAttemptRecord *
               ObservationOutcome * option Finish) :=
  let correlation := eo_Correlation observation in
  let facts := eo_Resource observation in
  if (correlation =? RequestCorrelationNotFound) &&
     non_nil (eo_Execution observation) (λ e, ex_State e =? ExecutionStateFailed) then
    let failure := ExecutionFailureFrom None (eo_Execution observation) in
    Ok (execution <| pe_State := AttemptFailed |> <| pe_AcceptanceConfirmed := false |>
          <| pe_LastFailure := Some failure |>,
        attempt <| sa_State := SubmissionAttemptRejected |>
          <| sa_Failure := Some failure |> <| sa_ResolvedAt := observedAt |>,
        ObservationOutcomeRejected, Some (finishFailed failure facts))
  else if (correlation =? RequestCorrelationNotFound) &&
          (pe_State execution =? AttemptUnknown) &&
          negb (pe_AcceptanceConfirmed execution) then
    Ok (execution <| pe_CurrentAttempt := u64_incr (pe_CurrentAttempt execution) |>
          <| pe_State := AttemptPending |>,
        attempt <| sa_State := SubmissionAttemptNotFound |> <| sa_ResolvedAt := observedAt |>,
        ObservationOutcomeRetry, None)
  else
  match eo_Execution observation with
  | None =>
      Ok ((if correlation =? RequestCorrelationFound
           then execution <| pe_AcceptanceConfirmed := true |> else execution)
            <| pe_State := AttemptUnknown |>,
          attempt, ObservationOutcomeObserve, None)
  | Some backend =>
      if correlation <>? RequestCorrelationFound then
        Ok (execution <| pe_State := AttemptUnknown |>
              <| pe_LastFailure := Some {| ef_Kind := FailureUnknown;
                   ef_Reason := "ExecutionCorrelationUnknown";
                   ef_Message := "terminal execution evidence was not positively correlated" |} |>,
            attempt, ObservationOutcomeObserve, None)
      else
      let execution := acceptProviderEvidence
        ((match ex_Handle backend with
          | Some handle => execution <| pe_Handle := Some handle |>
          | None => execution
          end) <| pe_AcceptanceConfirmed := true |>) (eo_ObservedAt observation) in
      if (ex_State backend =? ExecutionStateAccepted) ||
         (ex_State backend =? ExecutionStateRunning) ||
         (ex_State backend =? ExecutionStateUnknown) then
        Ok (execution <| pe_State := if ex_State backend =? ExecutionStateUnknown
                                     then AttemptUnknown else AttemptAccepted |>,
            attempt, ObservationOutcomeObserve, None)
      else if ex_State backend =? ExecutionStateSucceeded then
        Ok (execution <| pe_State := AttemptSucceeded |>, attempt,
            ObservationOutcomeSucceeded,
            Some {| fin_Succeeded := true; fin_Reason := "ObservationSucceeded";
                    fin_Message := ""; fin_Facts := facts |})
      else if ex_State backend =? ExecutionStateFailed then
        let failure := ExecutionFailureFrom None (eo_Execution observation) in
        Ok (execution <| pe_State := AttemptFailed |> <| pe_LastFailure := Some failure |>,
            attempt, ObservationOutcomeFailed, Some (finishFailed failure facts))
      else Err (Errorf "invalid execution state %q" [ArgS (ex_State backend)])
  end.

(** An observation that is neither contradictory nor stale nor malformed. *)
Definition observeFresh (execution : ProvisioningExecutionRecord)
    (attempt : SubmissionAttemptRecord) (observation : ExecutionObservation)
    (observedAt : Time)
    : outcome (ProvisioningExecutionRecord * SubmissionAttemptRecord *
               ObservationOutcome * option Finish) :=
  resolveObservation
    (execution <| pe_LastObservation := Some observation |>
       <| pe_LastObservedAt := observedAt |>
       <| pe_Correlation := eo_Correlation observation |>)
    attempt observation observedAt.

Definition staleObservation (execution : ProvisioningExecutionRecord)
    (observation : ExecutionObservation) (observedAt : Time) : bool :=
  providerEvidenceStale execution (eo_ObservedAt observation) ||
  (IsZero (eo_ObservedAt observation) && negb (IsZero (pe_LastObservedAt execution)) &&
   negb (After observedAt (pe_LastObservedAt execution))).

(** An execution although the backend reports the request as not found. *)
Definition contradictory (observation : ExecutionObservation) : bool :=
  (eo_Correlation observation =? RequestCorrelationNotFound) &&
  non_nil (eo_Execution observation) (λ e, ex_State e <>? ExecutionStateFailed).

Definition InterpretObservation (execution : ProvisioningExecutionRecord)
    (attempt : SubmissionAttemptRecord) (observation : ExecutionObservation)
    (observedAt : Time)
    : outcome (ProvisioningExecutionRecord * SubmissionAttemptRecord *
               ObservationOutcome * option Finish) :=
  fail_if contradictory observation
    with Errorf "contradictory observation reports NotFound with an execution" [] ;;
  let stale := staleObservation execution observation observedAt in
  let execution := acceptProviderEvidence execution (eo_ObservedAt observation) in
  if stale then Ok (execution, attempt, ObservationOutcomeStale, None) else
  match validateObservedFacts (eo_Resource observation) with
  | Some factsErr =>
      if non_nil (eo_Execution observation) (λ e, terminalState (ex_State e)) then
        observeFresh execution attempt (observation <| eo_Resource := no_facts |>) observedAt
      else Err (Errorf "malformed observed facts: %v" [ArgS (Error factsErr)])
  | None => observeFresh execution attempt observation observedAt
  end.
End interpretation.

(** ** Terminal evidence *)

Definition internalEventPrefix : string := "liftr-internal-".

Section finish.
(** [sha256.Sum256] in hexadecimal, as [%x] prints it. *)
Context (sha256_hex : string → string).

Definition internalEventID (operationID : OperationID) (transition : string) : string :=
  (internalEventPrefix ++ sha256_hex (operationID ++ NUL ++ transition))%string.

(** The engine transition of the terminal evidence. *)
Definition finishTransition (operation : Operation) (resource : Resource)
    (status : ResourceStatus) (finish : Finish) (at_ : Time) : outcome Result :=
  if fin_Succeeded finish
  then Engine_Complete resource status operation
         (internalEventID (op_id operation) "succeeded") at_
  else Engine_Fail resource status operation (fin_Reason finish) (fin_Message finish)
         (internalEventID (op_id operation) "failed") at_.

Definition BuildFinishEvidence (operation : Operation) (resource : Resource)
    (status : ResourceStatus) (finish : Finish) (at_ : Time) : outcome Result :=
  result ← finishTransition operation resource status finish at_ ;
  let facts := sanitizeObservedFacts (fin_Facts finish) in
  if hasObservedFacts facts then
    status ← ApplyPostOperationObservation resource (r_Status result) facts at_ ;
    Ok (result <| r_Status := status |>)
  else Ok result.
End finish.

(** ** Laws *)

Lemma state_cases s :
  s = ExecutionStateAccepted ∨ s = ExecutionStateRunning ∨ s = ExecutionStateSucceeded ∨
  s = ExecutionStateFailed ∨ s = ExecutionStateUnknown ∨
  (ValidExecutionState s = false ∧ terminalState s = false ∧
   (s =? ExecutionStateAccepted) = false ∧ (s =? ExecutionStateRunning) = false ∧
   (s =? ExecutionStateSucceeded) = false ∧ (s =? ExecutionStateFailed) = false ∧
   (s =? ExecutionStateUnknown) = false).
Proof.
  unfold ValidExecutionState, terminalState.
  repeat case_bool_decide; subst; cbn; tauto.
Qed.

Lemma correlation_cases s :
  s = RequestCorrelationFound ∨ s = RequestCorrelationNotFound ∨
  ((s =? RequestCorrelationFound) = false ∧ (s =? RequestCorrelationNotFound) = false).
Proof. repeat case_bool_decide; tauto. Qed.

(** Evaluate the tests of a goal without unfolding the records in it. *)
Ltac eval_test b :=
  let v := eval vm_compute in b in
  lazymatch v with
  | true => change b with true
  | false => change b with false
  end.
Ltac eval_tests :=
  repeat match goal with
  | |- context [@bool_decide ?P ?d] => eval_test (@bool_decide P d)
  | |- context [ValidExecutionState ?s] => eval_test (ValidExecutionState s)
  | |- context [terminalState ?s] => eval_test (terminalState s)
  end;
  cbv beta iota zeta delta [andb orb negb non_nil].

(** Case analysis on a state and on a correlation. *)
Ltac use_tests s :=
  repeat match goal with
  | H : (s =? _) = _ |- context [s =? _] => rewrite H
  | H : ValidExecutionState s = _ |- context [ValidExecutionState s] => rewrite H
  | H : terminalState s = _ |- context [terminalState s] => rewrite H
  end; eval_tests.
Ltac by_state s :=
  destruct (state_cases s) as [->|[->|[->|[->|[->|(?Hs & ?Hs & ?Hs & ?Hs & ?Hs & ?Hs & ?Hs)]]]]];
  [eval_tests..|use_tests s].
Ltac by_correlation s :=
  destruct (correlation_cases s) as [->|[->|(?Hc & ?Hc)]]; [eval_tests..|use_tests s].

(** ** What a submission resolves to *)

(** The terminal evidence an outcome comes with. *)
Definition finish_of_submission (out : SubmissionOutcome) (fin : option Finish) : Prop :=
  match out with
  | SubmissionOutcomeSucceeded => ∃ f, fin = Some f ∧ fin_Succeeded f = true
  | SubmissionOutcomeFailed => ∃ f, fin = Some f ∧ fin_Succeeded f = false
  | _ => fin = None
  end.

(** The outcome of a recorded submission as a table. *)
Definition verdict (execution : ProvisioningExecutionRecord)
    (observation : ExecutionObservation) (submitErr : option error) : SubmissionOutcome :=
  match eo_Execution observation with
  | None => SubmissionOutcomeAmbiguous
  | Some b =>
      if eo_Correlation observation =? RequestCorrelationFound then
        if ex_State b =? ExecutionStateSucceeded then SubmissionOutcomeSucceeded
        else if ex_State b =? ExecutionStateFailed then SubmissionOutcomeFailed
        else if non_nil submitErr (λ _, true) then SubmissionOutcomeAmbiguous
        else if (ex_State b =? ExecutionStateAccepted) || (ex_State b =? ExecutionStateRunning)
        then SubmissionOutcomeAccepted else SubmissionOutcomeAmbiguous
      else if ConclusiveManagedAbsence (pe_Capability execution) (eo_Correlation observation)
                (Some b) (pe_AcceptanceConfirmed execution) then SubmissionOutcomeSucceeded
      else if (eo_Correlation observation =? RequestCorrelationNotFound) &&
              (ex_State b =? ExecutionStateFailed) && non_nil (ex_Failure b) (λ _, true)
      then SubmissionOutcomeFailed
      else SubmissionOutcomeAmbiguous
  end.

(** Split on the conditions that are left, innermost first. *)
Ltac split_ifs :=
  repeat match goal with
  | |- context [if ?b then _ else _] =>
      lazymatch b with context [if _ then _ else _] => fail | _ => destruct b end
  end.

Lemma resolveSubmission_verdict Error execution attempt submission submitErr at_ :
  let out := verdict execution (sub_Observation submission) submitErr in
  ∃ e' a' fin,
    resolveSubmission Error execution attempt submission submitErr at_ =
      Ok (e', a', out, fin) ∧ finish_of_submission out fin.
Proof.
  destruct submission as [[corr exec facts oat outs]].
  unfold resolveSubmission, verdict; cbn [sub_Observation eo_Correlation eo_Execution].
  destruct exec as [[state handle failure]|]; [|by repeat eexists].
  unfold ConclusiveManagedAbsence, submissionResult, ambiguous;
    cbn [non_nil ex_State ex_Failure].
  by_correlation corr; by_state state; destruct submitErr, failure; eval_tests;
    first [by repeat eexists | split_ifs; by repeat eexists].
Qed.

(** The evidence of a submission that is taken into account. *)
Record conclusive (execution : ProvisioningExecutionRecord)
    (observation : ExecutionObservation) (backend : Execution) : Prop := {
  co_execution : eo_Execution observation = Some backend;
  co_fresh : providerEvidenceStale execution (eo_ObservedAt observation) = false;
  co_facts : validateObservedFacts (eo_Resource observation) = None ∨
             terminalState (ex_State backend) = true }.

Record submission_verdict (execution : ProvisioningExecutionRecord)
    (observation : ExecutionObservation) (submitErr : option error)
    (out : SubmissionOutcome) : Prop := {
  vd_accepted : out = SubmissionOutcomeAccepted ↔
    ∃ backend, conclusive execution observation backend ∧ submitErr = None ∧
      eo_Correlation observation = RequestCorrelationFound ∧
      (ex_State backend = ExecutionStateAccepted ∨ ex_State backend = ExecutionStateRunning);
  vd_succeeded : out = SubmissionOutcomeSucceeded ↔
    ∃ backend, conclusive execution observation backend ∧
      ((eo_Correlation observation = RequestCorrelationFound ∧
        ex_State backend = ExecutionStateSucceeded) ∨
       ConclusiveManagedAbsence (pe_Capability execution) (eo_Correlation observation)
         (Some backend) (pe_AcceptanceConfirmed execution) = true);
  vd_failed : out = SubmissionOutcomeFailed ↔
    ∃ backend, conclusive execution observation backend ∧
      ex_State backend = ExecutionStateFailed ∧
      (eo_Correlation observation = RequestCorrelationFound ∨
       (eo_Correlation observation = RequestCorrelationNotFound ∧
        ex_Failure backend ≠ None ∧
        ConclusiveManagedAbsence (pe_Capability execution) (eo_Correlation observation)
          (Some backend) (pe_AcceptanceConfirmed execution) = false));
  vd_rejected : out ≠ SubmissionOutcomeRejected }.

Lemma recordSubmission_frame execution submission at_ :
  pe_Capability (recordSubmission execution submission at_) = pe_Capability execution ∧
  pe_AcceptanceConfirmed (recordSubmission execution submission at_) =
    pe_AcceptanceConfirmed execution ∧
  pe_CurrentAttempt (recordSubmission execution submission at_) = pe_CurrentAttempt execution ∧
  pe_State (recordSubmission execution submission at_) = pe_State execution.
Proof.
  unfold recordSubmission, acceptProviderEvidence.
  destruct (eo_Execution _) as [[? [] ?]|]; cbn; repeat case_match; cbn; by split_and!.
Qed.

Lemma absence_inv c corr b accepted :
  ConclusiveManagedAbsence c corr (Some b) accepted = true →
  c = CapabilityDelete ∧ corr = RequestCorrelationNotFound ∧ accepted = false ∧
  ex_State b = ExecutionStateFailed ∧ ∃ f, ex_Failure b = Some f ∧ ef_Kind f = FailureNotFound.
Proof.
  unfold ConclusiveManagedAbsence; cbn [non_nil].
  rewrite !andb_true_iff, non_nil_true, negb_true_iff, !bool_decide_eq_true.
  intros (((? & ?) & ?) & ? & f & ? & ?%bool_decide_eq_true). eauto 10.
Qed.

Lemma verdict_correct execution observation submitErr backend :
  conclusive execution observation backend →
  submission_verdict execution observation submitErr (verdict execution observation submitErr).
Proof.
  intros Hc. pose proof (co_execution _ _ _ Hc) as Hb.
  assert (Habs : ∀ P : Execution → Prop,
    (∃ b, conclusive execution observation b ∧ P b) ↔ P backend).
  { intros P. split; [|by exists backend]. intros (b & Hb' & HP).
    pose proof (co_execution _ _ _ Hb'). congruence. }
  unfold verdict. rewrite Hb. split; rewrite ?Habs; clear Habs Hc Hb;
    destruct observation as [corr exec facts oat outs], backend as [state h failure];
    cbn [eo_Correlation ex_State ex_Failure]; [..|by repeat case_match].
  all: unfold ConclusiveManagedAbsence; cbn [non_nil ex_State ex_Failure].
  all: by_correlation corr; by_state state; rewrite ?bool_decide_eq_false in *;
    destruct submitErr, failure; eval_tests; split_ifs; intuition discriminate.
Qed.

Lemma ambiguous_correct execution observation submitErr :
  (∀ backend, ¬ conclusive execution observation backend) →
  submission_verdict execution observation submitErr SubmissionOutcomeAmbiguous.
Proof. intros Hc. split; try done; (split; [done|]); intros (b & []%Hc & _). Qed.

(** C27: A dispatch always resolves, and its outcome is this table of the
    evidence. It is accepted only on a correlated non-terminal execution with
    no error, succeeds only on a correlated success or on the conclusive
    absence of a deletion's target, fails only on a correlated failure or on
    the detailed failure of a request the backend does not know; stale or
    malformed evidence stays ambiguous, and a terminal outcome carries the
    matching finish. *)
Theorem InterpretSubmission_spec Error execution attempt submission submitErr at_ :
  ∃ execution' attempt' out fin,
    InterpretSubmission Error execution attempt submission submitErr at_ =
      Ok (execution', attempt', out, fin) ∧
    submission_verdict execution (sub_Observation submission) submitErr out ∧
    finish_of_submission out fin.
Proof.
  unfold InterpretSubmission, interpretFresh. set (o := sub_Observation submission).
  pose proof (recordSubmission_frame execution) as Hframe.
  destruct (eo_Execution o) as [backend|] eqn:Hb; cbn [non_nil].
  2: { destruct (validateObservedFacts (eo_Resource o)) eqn:Hf.
       - do 4 eexists. split; [done|]. split; [|done].
         apply ambiguous_correct. by intros b [? _ _]; rewrite Hb in *.
       - edestruct (resolveSubmission_verdict Error (recordSubmission execution submission at_)
           attempt submission submitErr at_) as (e' & a' & fin & -> & Hfin).
         do 4 eexists. split; [done|]. revert Hfin. unfold verdict. fold o. rewrite Hb.
         split; [|done]. apply ambiguous_correct. by intros b [? _ _]; rewrite Hb in *. }
  destruct (providerEvidenceStale execution (eo_ObservedAt o)) eqn:Hs.
  { do 4 eexists. split; [done|]. split; [|done]. apply ambiguous_correct.
    intros b [_ ? _]; congruence. }
  destruct (validateObservedFacts (eo_Resource o)) eqn:Hf;
    [destruct (terminalState (ex_State backend)) eqn:Ht|].
  - set (s' := submission <| sub_Observation := _ |>).
    edestruct (resolveSubmission_verdict Error (recordSubmission execution s' at_)
      attempt s' submitErr at_) as (e' & a' & fin & -> & Hfin).
    do 4 eexists. split; [done|]. split; [|done].
    destruct (Hframe s' at_) as (Hc & Ha & _).
    replace (verdict _ _ _) with (verdict execution o submitErr)
      by (unfold verdict; rewrite Hc, Ha; done).
    apply (verdict_correct _ _ _ backend). split; auto.
  - do 4 eexists. split; [done|]. split; [|done]. apply ambiguous_correct.
    intros b [? _ [?|?]]; congruence.
  - edestruct (resolveSubmission_verdict Error (recordSubmission execution submission at_)
      attempt submission submitErr at_) as (e' & a' & fin & -> & Hfin).
    do 4 eexists. split; [done|]. split; [|done].
    destruct (Hframe submission at_) as (Hc & Ha & _).
    replace (verdict (recordSubmission _ _ _) _ _) with (verdict execution o submitErr)
      by (unfold verdict; rewrite Hc, Ha; done).
    apply (verdict_correct _ _ _ backend). split; auto.
Qed.

(** ** What an observation resolves to *)

Definition finish_of_observation (out : ObservationOutcome) (fin : option Finish) : Prop :=
  match out with
  | ObservationOutcomeSucceeded => ∃ f, fin = Some f ∧ fin_Succeeded f = true
  | ObservationOutcomeFailed | ObservationOutcomeRejected =>
      ∃ f, fin = Some f ∧ fin_Succeeded f = false
  | _ => fin = None
  end.

(** The request is known to the backend, in state [state]. *)
Definition found_in (observation : ExecutionObservation) (state : string) : Prop :=
  eo_Correlation observation = RequestCorrelationFound ∧
  ∃ backend, eo_Execution observation = Some backend ∧ ex_State backend = state.

Record observation_verdict (execution : ProvisioningExecutionRecord)
    (observation : ExecutionObservation) (stale : bool) (out : ObservationOutcome) : Prop := {
  ov_stale : out = ObservationOutcomeStale ↔ stale = true;
  ov_retry : out = ObservationOutcomeRetry ↔
    stale = false ∧ eo_Correlation observation = RequestCorrelationNotFound ∧
    eo_Execution observation = None ∧ pe_State execution = AttemptUnknown ∧
    pe_AcceptanceConfirmed execution = false;
  ov_rejected : out = ObservationOutcomeRejected ↔
    stale = false ∧ eo_Correlation observation = RequestCorrelationNotFound ∧
    eo_Execution observation ≠ None;
  ov_succeeded : out = ObservationOutcomeSucceeded ↔
    stale = false ∧ found_in observation ExecutionStateSucceeded;
  ov_failed : out = ObservationOutcomeFailed ↔
    stale = false ∧ found_in observation ExecutionStateFailed }.

(** What an observation may do to the records. *)
Definition observation_effect (execution execution' : ProvisioningExecutionRecord)
    (attempt attempt' : SubmissionAttemptRecord) (out : ObservationOutcome) : Prop :=
  match out with
  | ObservationOutcomeStale => execution' = execution ∧ attempt' = attempt
  | ObservationOutcomeRetry =>
      pe_CurrentAttempt execution' = u64_incr (pe_CurrentAttempt execution) ∧
      pe_State execution' = AttemptPending ∧ sa_State attempt' = SubmissionAttemptNotFound
  | _ => pe_CurrentAttempt execution' = pe_CurrentAttempt execution
  end.

Lemma accept_frame execution at_ :
  pe_State (acceptProviderEvidence execution at_) = pe_State execution ∧
  pe_AcceptanceConfirmed (acceptProviderEvidence execution at_) =
    pe_AcceptanceConfirmed execution ∧
  pe_CurrentAttempt (acceptProviderEvidence execution at_) = pe_CurrentAttempt execution.
Proof. unfold acceptProviderEvidence. by repeat case_match. Qed.

Lemma contradictory_false observation :
  contradictory observation = false →
  eo_Correlation observation = RequestCorrelationNotFound →
  ∀ backend, eo_Execution observation = Some backend → ex_State backend = ExecutionStateFailed.
Proof.
  unfold contradictory. intros H Hc b Hb. rewrite Hc, Hb in H. cbn in H.
  by apply negb_false_iff, bool_decide_eq_true in H.
Qed.

Lemma accepted_frame execution at_ state failure :
  pe_CurrentAttempt ((acceptProviderEvidence execution at_) <| pe_State := state |>) =
    pe_CurrentAttempt execution ∧
  pe_CurrentAttempt ((acceptProviderEvidence execution at_) <| pe_State := state |>
    <| pe_LastFailure := failure |>) = pe_CurrentAttempt execution.
Proof. cbn. split; apply accept_frame. Qed.

(** Prove the verdict, the finish and the effect of a determined outcome. *)
Ltac observation_cases :=
  split;
  [ split; unfold found_in; cbn [eo_Correlation eo_Execution ex_State]; split; intros;
      destruct_and?; repeat match goal with H : ∃ _, _ |- _ => destruct H end; destruct_and?;
      try discriminate; simplify_eq; try done; try congruence; eauto
  | split; [by (done || eexists) | cbn [observation_effect]] ].

Lemma resolveObservation_verdict Error recorded attempt observation at_ :
  contradictory observation = false →
  match resolveObservation Error recorded attempt observation at_ with
  | Ok (execution', attempt', out, fin) =>
      observation_verdict recorded observation false out ∧ finish_of_observation out fin ∧
      observation_effect recorded execution' attempt attempt' out
  | _ => True
  end.
Proof.
  destruct observation as [corr exec facts oat outs].
  unfold resolveObservation, contradictory;
    cbn [eo_Correlation eo_Execution eo_Resource eo_ObservedAt].
  destruct exec as [[state handle failure]|]; cbn [non_nil ex_State ex_Failure ex_Handle].
  - by_correlation corr; by_state state; rewrite ?bool_decide_eq_false in *; intros Hcon;
      try discriminate Hcon; try exact I; observation_cases;
      rewrite ?(proj1 (accepted_frame _ _ _ None)), ?(λ e p s f, proj2 (accepted_frame e p s f));
      by try destruct handle.
  - by_correlation corr; rewrite ?bool_decide_eq_false in *; intros _.
    1, 3: by observation_cases.
    destruct (bool_decide_reflect (pe_State recorded = AttemptUnknown)),
      (pe_AcceptanceConfirmed recorded) eqn:?; eval_tests; by observation_cases.
Qed.

(** An observation is refused when it contradicts itself, or when what it
    reports is malformed and it does not end the execution. *)
Definition refused (execution : ProvisioningExecutionRecord)
    (observation : ExecutionObservation) (at_ : Time) : bool :=
  contradictory observation ||
  negb (staleObservation execution observation at_) &&
  ((bool_decide (validateObservedFacts (eo_Resource observation) ≠ None) &&
    negb (non_nil (eo_Execution observation) (λ e, terminalState (ex_State e)))) ||
   ((eo_Correlation observation =? RequestCorrelationFound) &&
    non_nil (eo_Execution observation) (λ e, negb (ValidExecutionState (ex_State e))))).

Lemma resolveObservation_ok Error recorded attempt observation at_ :
  contradictory observation = false →
  is_ok (resolveObservation Error recorded attempt observation at_) =
  negb ((eo_Correlation observation =? RequestCorrelationFound) &&
    non_nil (eo_Execution observation) (λ e, negb (ValidExecutionState (ex_State e)))).
Proof.
  destruct observation as [corr exec facts oat outs].
  unfold resolveObservation, contradictory;
    cbn [eo_Correlation eo_Execution eo_Resource eo_ObservedAt].
  destruct exec as [[state handle failure]|]; cbn [non_nil ex_State ex_Failure ex_Handle].
  - by_correlation corr; by_state state; intros Hcon; try discriminate Hcon; done.
  - by_correlation corr; intros _; by repeat case_match.
Qed.

Lemma resolveObservation_total Error recorded attempt observation at_ s :
  resolveObservation Error recorded attempt observation at_ ≠ Panic s.
Proof. unfold resolveObservation. by repeat case_match. Qed.

Lemma observation_verdict_ext execution execution' observation observation' out :
  pe_State execution' = pe_State execution →
  pe_AcceptanceConfirmed execution' = pe_AcceptanceConfirmed execution →
  eo_Correlation observation' = eo_Correlation observation →
  eo_Execution observation' = eo_Execution observation →
  observation_verdict execution' observation' false out →
  observation_verdict execution observation false out.
Proof.
  intros Hs Ha Hc He [H1 H2 H3 H4 H5]. unfold found_in in *.
  rewrite Hs, Ha, Hc, He in *. by split.
Qed.

Lemma staleObservation_frame execution observation at_ :
  staleObservation execution observation at_ = true →
  acceptProviderEvidence execution (eo_ObservedAt observation) = execution.
Proof.
  unfold staleObservation, providerEvidenceStale, acceptProviderEvidence.
  destruct (IsZero (eo_ObservedAt observation)); [done|]. cbn.
  rewrite orb_false_r, andb_true_iff. intros [_ H]. bool_facts.
  by rewrite (proj2 (Z.ltb_ge _ _) H).
Qed.

(** An observation that is taken into account. *)
Lemma observeFresh_spec Error execution recorded attempt observation observation' at_ :
  contradictory observation = false →
  pe_State recorded = pe_State execution →
  pe_AcceptanceConfirmed recorded = pe_AcceptanceConfirmed execution →
  pe_CurrentAttempt recorded = pe_CurrentAttempt execution →
  eo_Correlation observation' = eo_Correlation observation →
  eo_Execution observation' = eo_Execution observation →
  let invalid := (eo_Correlation observation =? RequestCorrelationFound) &&
    non_nil (eo_Execution observation) (λ e, negb (ValidExecutionState (ex_State e))) in
  match observeFresh Error recorded attempt observation' at_ with
  | Ok (execution', attempt', out, fin) =>
      invalid = false ∧ observation_verdict execution observation false out ∧
      finish_of_observation out fin ∧
      observation_effect execution execution' attempt attempt' out
  | Err _ => invalid = true
  | Panic _ => False
  end.
Proof.
  intros Hcon Hs Ha Hn Hc He invalid. unfold observeFresh. set (r := recorded <| _ := _ |>
    <| _ := _ |> <| _ := _ |>).
  assert (Hcon' : contradictory observation' = false).
  { unfold contradictory. by rewrite Hc, He. }
  pose proof (resolveObservation_verdict Error r attempt observation' at_ Hcon') as Hv.
  pose proof (resolveObservation_ok Error r attempt observation' at_ Hcon') as Hok.
  rewrite Hc, He in Hok. fold invalid in Hok.
  destruct (resolveObservation _ _ _ _ _) as [[[[e' a'] out] fin]| |s] eqn:Hr; cbn [is_ok] in Hok.
  - destruct Hv as (Hv & Hf & Heff). split_and!; [by destruct invalid| |done|].
    + by eapply (observation_verdict_ext execution r).
    + destruct out; cbn [observation_effect] in *; try (rewrite <- Hn; exact Heff).
      by pose proof (proj1 (ov_stale _ _ _ _ Hv) eq_refl).
  - by destruct invalid.
  - by apply resolveObservation_total in Hr.
Qed.

(** C28: An observation is refused exactly when it contradicts itself, or when
    its facts are malformed or its state unknown and it does not end the
    execution; it never panics. Otherwise its outcome is this table: stale
    evidence changes nothing, a fresh attempt is dispatched only for a request
    that is unknown to the backend, unresolved here and never accepted, and
    only a correlated success or failure, or a failure of a request the
    backend does not know, ends the execution, with the matching finish. Only
    a retry starts another attempt. *)
Theorem InterpretObservation_spec Error execution attempt observation at_ :
  match InterpretObservation Error execution attempt observation at_ with
  | Ok (execution', attempt', out, fin) =>
      refused execution observation at_ = false ∧
      observation_verdict execution observation (staleObservation execution observation at_) out ∧
      finish_of_observation out fin ∧
      observation_effect execution execution' attempt attempt' out
  | Err _ => refused execution observation at_ = true
  | Panic _ => False
  end.
Proof.
  unfold InterpretObservation, refused.
  destruct (contradictory observation) eqn:Hcon; [done|]. cbn [orb].
  destruct (staleObservation execution observation at_) eqn:Hstale; cbn [negb andb].
  { split_and!; [done| |done|].
    - split; [done|..]; (split; [done|]); by intros [? _].
    - by rewrite (staleObservation_frame _ _ _ Hstale). }
  destruct (accept_frame execution (eo_ObservedAt observation)) as (Hs & Ha & Hn).
  pose proof (observeFresh_spec Error execution
    (acceptProviderEvidence execution (eo_ObservedAt observation)) attempt observation) as Hfresh.
  destruct (validateObservedFacts (eo_Resource observation)) eqn:Hf.
  - rewrite bool_decide_true by done. cbn [andb].
    destruct (non_nil (eo_Execution observation) (λ e, terminalState (ex_State e))); [|done].
    cbn [negb orb]. by apply Hfresh.
  - rewrite bool_decide_false by (intros []; done). cbn [andb orb]. by apply Hfresh.
Qed.


(** ** Sequences of evidence *)

(** The fields dispatch froze when the execution was created. *)
Definition frozen (e : ProvisioningExecutionRecord) :=
  (pe_OperationID e, pe_ProvisionerRef e, pe_ResourceID e, pe_ResourceType e,
   pe_Capability e, pe_TargetGeneration e, pe_Spec e, pe_OutputMappingRef e,
   pe_RecoverySourceOperationID e, pe_RecoverySourceAttempt e).

(** What non-terminal evidence carries over: an accepted request stays
    accepted and keeps its attempt. *)
Record carried (e e' : ProvisioningExecutionRecord) : Prop := {
  ca_frozen : frozen e' = frozen e;
  ca_timeline : (pe_LastProviderObservedAt e ≤ pe_LastProviderObservedAt e')%Z;
  ca_accepted : pe_AcceptanceConfirmed e = true →
    pe_AcceptanceConfirmed e' = true ∧ pe_CurrentAttempt e' = pe_CurrentAttempt e }.

#[export] Instance carried_preorder : PreOrder carried.
Proof.
  split; [by intros e; split|].
  intros e1 e2 e3 [Hf Ht Ha] [Hf' Ht' Ha']. split; [congruence|lia|].
  intros H. destruct (Ha H) as [H' ?], (Ha' H') as [??]. split; [done|congruence].
Qed.

(** Updates of the other fields, and confirming the acceptance. *)
Ltac carry := split; [done|cbn; lia|let Ha := fresh in by intros Ha; split; [try exact Ha|]].

Lemma accept_carried e at_ : carried e (acceptProviderEvidence e at_).
Proof.
  unfold acceptProviderEvidence, Before. destruct (IsZero at_); [done|].
  destruct (Z.ltb_spec (pe_LastProviderObservedAt e) at_); [|done]. carry.
Qed.

Lemma recordSubmission_carried e submission at_ :
  carried e (recordSubmission e submission at_).
Proof.
  unfold recordSubmission. etrans; [|apply accept_carried].
  destruct (eo_Execution _) as [[? [] ?]|]; cbn [non_nil]; try case_match; carry.
Qed.

(** A run that leaves the execution unfinished carries it over. *)
Definition carries {A B} (e : ProvisioningExecutionRecord)
    (m : outcome (ProvisioningExecutionRecord * A * B * option Finish)) : Prop :=
  match m with
  | Ok (e', _, _, None) => carried e e'
  | _ => True
  end.

Lemma carries_trans {A B} e e1
    (m : outcome (ProvisioningExecutionRecord * A * B * option Finish)) :
  carried e e1 → carries e1 m → carries e m.
Proof.
  intros He. destruct m as [[[[e' a] b] [f|]]| |]; try done. cbn. by etrans.
Qed.

Lemma resolveSubmission_carries Error e attempt submission submitErr at_ :
  carries e (resolveSubmission Error e attempt submission submitErr at_).
Proof.
  unfold resolveSubmission, submissionResult, ambiguous.
  destruct (eo_Execution _) as [b|]; cbn [non_nil]; repeat case_match; try done; try carry.
  exfalso. bool_facts. destruct_and!. destruct_or!;
    match goal with Hf : ex_State _ = _, Ha : ex_State _ = _ |- _ =>
      rewrite Hf in Ha; discriminate Ha end.
Qed.

Lemma resolveObservation_carries Error e attempt observation at_ :
  carries e (resolveObservation Error e attempt observation at_).
Proof.
  unfold resolveObservation.
  case_match; [done|]. destruct (_ && _ && negb _) eqn:Hretry.
  { split; [done|cbn; lia|]. intros Ha. rewrite Ha, andb_false_r in Hretry. done. }
  destruct (eo_Execution _) as [b|]; [|case_match; carry].
  case_match; [carry|].
  set (e1 := (match ex_Handle b with _ => _ end) <| pe_AcceptanceConfirmed := true |>).
  assert (H1 : carried e e1) by (unfold e1; case_match; carry).
  apply (carries_trans e (acceptProviderEvidence e1 (eo_ObservedAt observation)));
    [etrans; [done|apply accept_carried]|].
  repeat case_match; try done; carry.
Qed.

Inductive evidence_step (Error : error → string) : relation ProvisioningExecutionRecord :=
  | es_submission e attempt submission submitErr at_ e' attempt' out :
      InterpretSubmission Error e attempt submission submitErr at_ =
        Ok (e', attempt', out, None) → evidence_step Error e e'
  | es_observation e attempt observation at_ e' attempt' out :
      InterpretObservation Error e attempt observation at_ =
        Ok (e', attempt', out, None) → evidence_step Error e e'
  | es_persist e state next version :
      evidence_step Error e (e <| pe_State := state |> <| pe_NextObservation := next |>
        <| pe_Version := version |>).

Lemma evidence_step_carried Error e e' : evidence_step Error e e' → carried e e'.
Proof.
  intros [e0 a sub err at_ e0' a' out H|e0 a obs at_ e0' a' out H|e0 s n v].
  - assert (Hc : carries e0 (InterpretSubmission Error e0 a sub err at_));
      [|by rewrite H in Hc].
    unfold InterpretSubmission, interpretFresh, ambiguous. clear H.
    repeat case_match; try carry;
      (eapply carries_trans; [apply recordSubmission_carried|apply resolveSubmission_carries]).
  - assert (Hc : carries e0 (InterpretObservation Error e0 a obs at_));
      [|by rewrite H in Hc].
    unfold InterpretObservation, observeFresh. clear H.
    repeat case_match; try done; try apply accept_carried;
      (eapply carries_trans; [|apply resolveObservation_carries]);
      (etrans; [apply accept_carried|]); carry.
  - carry.
Qed.

(** C26: Along any sequence of dispatch outcomes and observations that does not
    end the execution, a request the backend once accepted stays accepted and
    is never dispatched as another attempt; the frozen fields of the execution
    never change, and the backend's own evidence timeline never goes back. *)
Theorem accepted_never_redispatched Error e e' :
  rtc (evidence_step Error) e e' →
  frozen e' = frozen e ∧
  (pe_LastProviderObservedAt e ≤ pe_LastProviderObservedAt e')%Z ∧
  (pe_AcceptanceConfirmed e = true →
   pe_AcceptanceConfirmed e' = true ∧ pe_CurrentAttempt e' = pe_CurrentAttempt e).
Proof.
  intros H. assert (Hc : carried e e').
  { induction H as [|? ? ? H _ IH]; [done|]. etrans; [|exact IH].
    by eapply evidence_step_carried. }
  split_and!; apply Hc.
Qed.


(** ** Finishing an operation *)

Lemma finishTransition_inv sha operation resource status finish at_ result :
  finishTransition sha operation resource status finish at_ = Ok result →
  ∃ state,
    (state = ResourceStateReady ∨ state = ResourceStateDeleted ∨ state = ResourceStateFailed) ∧
    moved resource (r_Status result) (st_observedGeneration status) state at_ false.
Proof.
  unfold finishTransition. destruct (fin_Succeeded finish).
  - intros (_ & _ & Hm)%Complete_inv. eexists. split; [|exact Hm].
    unfold completedState. case_match; tauto.
  - intros (_ & _ & Hm)%Fail_inv. eexists. split; [|exact Hm].
    unfold failedState. repeat case_match; tauto.
Qed.

Lemma sanitizeObservedFacts_valid facts :
  hasObservedFacts (sanitizeObservedFacts facts) = true →
  ObservedFacts_Validate (sanitizeObservedFacts facts) = Ok tt ∧
  sanitizeObservedFacts facts = facts.
Proof.
  unfold sanitizeObservedFacts, validateObservedFacts.
  destruct (hasObservedFacts facts) eqn:Hh; cbn [negb]; [|by rewrite Hh].
  destruct (ObservedFacts_Validate facts) as [[]| |s] eqn:Hv; try done.
  exfalso. revert Hv. unfold ObservedFacts_Validate. by repeat case_match.
Qed.

(** C29: Terminal evidence always settles. Whenever the engine accepts the
    transition, at a time no earlier than the resource's last change, the
    finish is built whatever facts the provider reported: it keeps the
    transition's operation, event, state and generation, leaves no operation
    active, and differs from the transition only when well-formed facts were
    reported. *)
Theorem BuildFinishEvidence_spec sha operation resource status finish at_ result :
  finishTransition sha operation resource status finish at_ = Ok result →
  (res_updatedAt resource ≤ at_)%Z →
  ∃ status',
    BuildFinishEvidence sha operation resource status finish at_ =
      Ok (result <| r_Status := status' |>) ∧
    status_wf status' ∧ fst (activeStatusOperation status') = false ∧
    st_state status' = st_state (r_Status result) ∧
    st_observedGeneration status' = st_observedGeneration (r_Status result) ∧
    (hasObservedFacts (sanitizeObservedFacts (fin_Facts finish)) = false →
     status' = r_Status result).
Proof.
  intros Hr Ht. destruct (finishTransition_inv _ _ _ _ _ _ _ Hr) as (state & Hstate & Hm).
  assert (Hinactive : ∀ st, st_state st = state →
    isTrue (findCondition (st_conditions st) ConditionReconciling) = false →
    fst (activeStatusOperation st) = false).
  { intros st Hs Hc. unfold activeStatusOperation. rewrite Hs, Hc, andb_false_r.
    by destruct Hstate as [->|[->| ->]]. }
  unfold BuildFinishEvidence. rewrite Hr. cbn [mbind outcome_bind].
  destruct Hm as [Hwf Hid Hgen Hst Htime Hrec].
  destruct (hasObservedFacts (sanitizeObservedFacts (fin_Facts finish))) eqn:Hf.
  2: { exists (r_Status result). split_and!; try done; [by destruct result|by apply Hinactive]. }
  apply sanitizeObservedFacts_valid in Hf as [Hf _].
  destruct (Observe_accepts resource (r_Status result)
    (sanitizeObservedFacts (fin_Facts finish)) at_ true) as [status' Hobs].
  { split; try done; [|by apply Hinactive]. destruct Hwf. split_and!; [congruence|lia|done]. }
  { done. }
  unfold ApplyPostOperationObservation. rewrite Hobs. exists status'.
  apply Observe_inv in Hobs as [_ [Hwf' _ Hgen' Hst' _ Hrec']].
  unfold settledState in Hst'. cbn [orb] in Hst'.
  split_and!; try done. apply Hinactive; congruence.
Qed.


(** ** Concrete runs *)

Definition sample_execution : ProvisioningExecutionRecord :=
  {| pe_OperationID := "op-1"; pe_ProvisionerRef := "provisioner"; pe_ResourceID := "r-1";
     pe_ResourceType := sample_type; pe_Capability := CapabilityCreate;
     pe_TargetGeneration := 1; pe_Spec := sample_spec; pe_OutputMappingRef := "mapping-1";
     pe_OutputResolution := "Pending"; pe_OutputFailureReason := "";
     pe_OutputFailureMessage := ""; pe_RecoverySourceOperationID := "";
     pe_RecoverySourceAttempt := 0; pe_Handle := None; pe_State := AttemptDispatching;
     pe_Submission := None; pe_AcceptanceConfirmed := false; pe_LastObservation := None;
     pe_LastObservedAt := time_zero; pe_LastProviderObservedAt := time_zero;
     pe_LastFailure := None; pe_Correlation := RequestCorrelationUnknown;
     pe_CurrentAttempt := 1; pe_NextObservation := 1; pe_Version := 1 |}.

Definition sample_attempt : SubmissionAttemptRecord :=
  {| sa_OperationID := "op-1"; sa_AttemptNumber := 1; sa_State := SubmissionAttemptLeased;
     sa_DispatchMessage := "dispatch:op-1:1"; sa_ClaimedAt := 11; sa_ResolvedAt := time_zero;
     sa_Failure := None |}.

Definition sample_observation (correlation : string) (execution : option Execution)
    (at_ : Time) : ExecutionObservation :=
  {| eo_Correlation := correlation; eo_Execution := execution; eo_Resource := no_facts;
     eo_ObservedAt := at_; eo_Outputs := None |}.

Definition running : Execution :=
  {| ex_State := ExecutionStateRunning; ex_Handle := Some {| handle_token := "h-1" |};
     ex_Failure := None |}.
Definition failed_with (reason : string) : Execution :=
  {| ex_State := ExecutionStateFailed; ex_Handle := None;
     ex_Failure := Some {| ef_Kind := FailureExecution; ef_Reason := reason;
                           ef_Message := "" |} |}.

(** The backend accepts the request at 12. *)
Definition sample_accepted : ProvisioningExecutionRecord :=
  ltac:(let r := eval vm_compute in
    (InterpretSubmission (λ _, "") sample_execution sample_attempt
       {| sub_Observation := sample_observation RequestCorrelationFound (Some running) 12 |}
       None 13) in
  lazymatch r with Ok (?e, _, _, None) => exact e end).

(** At 14 it does not report the request any more. *)
Definition sample_lost : ProvisioningExecutionRecord :=
  ltac:(let r := eval vm_compute in
    (InterpretObservation (λ _, "") sample_accepted sample_attempt
       (sample_observation RequestCorrelationNotFound None 14) 15) in
  lazymatch r with Ok (?e, _, _, None) => exact e end).

Lemma accepted_never_redispatched_witness :
  pe_AcceptanceConfirmed sample_lost = true ∧
  pe_CurrentAttempt sample_lost = pe_CurrentAttempt sample_accepted ∧
  (pe_LastProviderObservedAt sample_accepted < pe_LastProviderObservedAt sample_lost)%Z.
Proof.
  destruct (accepted_never_redispatched (λ _, "") sample_accepted sample_lost)
    as (_ & _ & H).
  - apply rtc_once. by eapply (es_observation _ _ sample_attempt
      (sample_observation RequestCorrelationNotFound None 14) 15).
  - destruct (H eq_refl). by split_and!.
Defined.

Definition sample_finish : Finish :=
  {| fin_Succeeded := false; fin_Reason := "QuotaExceeded"; fin_Message := "";
     fin_Facts := sample_facts |}.
Definition sample_finished : Result :=
  ltac:(run (finishTransition (λ s, s) (r_Operation sample_requested) sample_resource
    (r_Status sample_requested) sample_finish 12)).

Lemma BuildFinishEvidence_spec_witness :
  ∃ status', BuildFinishEvidence (λ s, s) (r_Operation sample_requested) sample_resource
      (r_Status sample_requested) sample_finish 12 =
    Ok (sample_finished <| r_Status := status' |>) ∧
  st_state status' = ResourceStateFailed.
Proof.
  destruct (BuildFinishEvidence_spec (λ s, s) (r_Operation sample_requested) sample_resource
    (r_Status sample_requested) sample_finish 12 sample_finished)
    as (status' & H & _ & _ & Hs & _); [by vm_compute|done|].
  exists status'. by split.
Defined.

(** A failure whose reason consists of spaces passes [ExecutionFailureFrom],
    which defaults only the empty reason, and ends the execution, but no
    operation can be failed with it. *)
Lemma blank_reason_never_settles operation resource status at_ :
  ∃ execution attempt finish,
    InterpretSubmission (λ _, "") sample_execution sample_attempt
      {| sub_Observation :=
           sample_observation RequestCorrelationFound (Some (failed_with " ")) 12 |}
      None 13 = Ok (execution, attempt, SubmissionOutcomeFailed, Some finish) ∧
    is_ok (BuildFinishEvidence (λ s, s) operation resource status finish at_) = false.
Proof.
  do 3 eexists. split; [by vm_compute|].
  unfold BuildFinishEvidence, finishTransition; cbn [fin_Succeeded fin_Reason fin_Message].
  match goal with |- is_ok (?m ≫= _) = false => destruct m as [res| |] eqn:H end; [|done..].
  apply Fail_inv in H as (_ & H & _). by unfold Fail in H; ok_inv.
Qed.
