(* ===== verification/Outputs.v ===== *)
(** * Output materialisation

    Models [src/internal/application/outputs.go]: the output resolutions, the
    record of a published snapshot, and the plan that decides how a terminal
    success interacts with the outputs a resource type declares.  How Go prints
    an error is a parameter. *)

From S2P Require Import Prelude Operation Values Resource Status Contracts Provisioning Records.
Open Scope string_scope.
Open Scope go_scope.

Definition OutputResolutionNone : string := "None".
Definition OutputResolutionPending : string := "Pending".
Definition OutputResolutionPublished : string := "Published".
Definition OutputResolutionRejected : string := "Rejected".

Definition ValidOutputResolution (v : string) : bool :=
  (v =? OutputResolutionNone) || (v =? OutputResolutionPending) ||
  (v =? OutputResolutionPublished) || (v =? OutputResolutionRejected).

Definition ReasonOutputPostconditionRejected : string := "OutputPostconditionRejected".

Definition ValidateOutputEvidenceMapping (mappingRef : string)
    (evidence : option OutputEvidence) : outcome unit :=
  fail_if non_nil evidence (λ e, (oe_OutputMappingRef e <>? "") &&
                                 (oe_OutputMappingRef e <>? mappingRef))
    with Wrapf ErrInvalidApplicationCall
      "%w: output evidence mapping contradicts execution provenance" [] ;;
  Ok tt.

Record ResourceOutputRecord := {
  ror_ResourceID : ResourceID;
  ror_ObservedGeneration : uint64;
  ror_OperationID : OperationID;
  ror_Capability : Capability;
  ror_OutputMappingRef : string;
  ror_OutputContractDigest : string;
  ror_Values : ResourceOutputs;
  ror_ValuesDigest : string }.

Definition OutputSnapshot (r : ResourceOutputRecord) : ResourceOutputs := ror_Values r.

(** ** The plan *)

(** [OutputPlan] with its action, and the field that action carries. *)
Inductive OutputPlan :=
  | OutputPlanNone
  | OutputPlanPublish (snapshot : ResourceOutputs)
  | OutputPlanDefer
  | OutputPlanReject (failure : ExecutionFailure).

Definition rejectWith (message : string) : OutputPlan :=
  OutputPlanReject {| ef_Kind := FailureUnknown;
                      ef_Reason := ReasonOutputPostconditionRejected;
                      ef_Message := message |}.

Section plan.
(** [err.Error()]. *)
Context (Error : error → string).

(** [contract] is [nil], or the result of its [OutputContract()]. *)
Definition PlanTerminalOutputs (contract : option (option OutputContract))
    (capability : Capability) (evidence : option OutputEvidence)
    (targetGeneration : uint64) (publishedAt : Time) : outcome OutputPlan :=
  if capability =? CapabilityDelete then Ok OutputPlanNone else
  match contract with
  | None | Some None =>
      if non_nil evidence (λ e, (oe_State e =? OutputsAvailable) ||
                                (oe_State e =? OutputsInvalid))
      then Ok (rejectWith
        "provider reported outputs for a resource type without an output contract")
      else Ok OutputPlanNone
  | Some (Some declared) =>
      let requires := RequiresOutputs declared in
      match evidence with
      | None => Ok (if requires then OutputPlanDefer else OutputPlanNone)
      | Some evidence =>
          if oe_State evidence =? OutputsUnavailable then
            Ok (if requires then OutputPlanDefer else OutputPlanNone)
          else if oe_State evidence =? OutputsInvalid then
            Ok (rejectWith
              (if oe_Reason evidence =? ""
               then "declared outputs deterministically violated the resource type contract"
               else oe_Reason evidence))
          else if oe_State evidence =? OutputsAvailable then
            match OutputContract_Validate declared (oe_Values evidence) with
            | Err e => Ok (rejectWith (Error e))
            | Panic s => Panic s
            | Ok _ =>
                match NewResourceOutputs targetGeneration (oe_Values evidence) publishedAt with
                | Err e => Ok (rejectWith (Error e))
                | Panic s => Panic s
                | Ok snapshot => Ok (OutputPlanPublish snapshot)
                end
            end
          else Err (Errorf "invalid output evidence state %q" [ArgS (oe_State evidence)])
      end
  end.
End plan.

(** ** Laws *)

Lemma validateDeclared_total fields values s : validateDeclared fields values ≠ Panic s.
Proof.
  induction fields as [|f fields IH]; cbn; [done|]. case_match; [|done].
  rewrite bind_Panic. unfold validateFieldType. intros [Hp|(? & _ & Hp)]; [|done].
  by repeat case_match.
Qed.

Lemma validateUndeclared_total declared values s : validateUndeclared declared values ≠ Panic s.
Proof. induction values as [|[k v] values IH]; cbn; [done|]. by case_match. Qed.

Lemma validateRequired_total fields values s : validateRequired fields values ≠ Panic s.
Proof. induction fields as [|f fields IH]; cbn; [done|]. by repeat case_match. Qed.

Lemma OutputContract_Validate_total c values s : OutputContract_Validate c values ≠ Panic s.
Proof.
  unfold OutputContract_Validate. rewrite bind_Panic. intros [Hp|(? & _ & Hp)].
  - by apply validateDeclared_total in Hp.
  - apply bind_Panic in Hp as [Hp|(? & _ & Hp)].
    + by apply validateUndeclared_total in Hp.
    + by apply validateRequired_total in Hp.
Qed.

Lemma canonicalOutputs_total m s : canonicalOutputs m ≠ Panic s.
Proof.
  revert s. induction m as [|[k v] m IH]; cbn; intros s; [done|].
  case_match; [done|]. destruct (canonicalOutputValue v) eqn:Hv; [|done|].
  - rewrite bind_Panic. intros [Hp|(? & _ & Hp)]; [by apply IH in Hp|done].
  - destruct v as [| | |[]| | | | |]; cbn in Hv; repeat case_match; try done; by destruct k0.
Qed.

Lemma NewResourceOutputs_total gen m at_ s : NewResourceOutputs gen m at_ ≠ Panic s.
Proof.
  unfold NewResourceOutputs. rewrite !fail_if_Panic, bind_Panic.
  intros (_ & _ & [Hp|(? & _ & Hp)]); [by apply canonicalOutputs_total in Hp|done].
Qed.

Definition declares (contract : option (option OutputContract)) (declared : OutputContract)
    : Prop := contract = Some (Some declared).
Definition undeclared (contract : option (option OutputContract)) : Prop :=
  contract = None ∨ contract = Some None.

(** The provider has not reported outputs (yet). *)
Definition unreported (evidence : option OutputEvidence) : Prop :=
  evidence = None ∨ ∃ e, evidence = Some e ∧ oe_State e = OutputsUnavailable.

(** The reported outputs realise the contract. *)
Definition realized (declared : OutputContract) (evidence : OutputEvidence) (gen : uint64)
    (at_ : Time) (snapshot : ResourceOutputs) : Prop :=
  OutputContract_Validate declared (oe_Values evidence) = Ok tt ∧
  NewResourceOutputs gen (oe_Values evidence) at_ = Ok snapshot.

(** The reported outputs deterministically violate what the type declares. *)
Definition rejects (contract : option (option OutputContract)) (e : OutputEvidence)
    (gen : uint64) (at_ : Time) : Prop :=
  (undeclared contract ∧ (oe_State e = OutputsAvailable ∨ oe_State e = OutputsInvalid)) ∨
  (∃ declared, declares contract declared ∧
    (oe_State e = OutputsInvalid ∨
     (oe_State e = OutputsAvailable ∧ ∀ snapshot, ¬ realized declared e gen at_ snapshot))).

(** The plan for a terminal success, by case. A snapshot is published
    exactly when available evidence of a declared contract passes the contract
    and is canonical; it is awaited exactly when the contract requires outputs
    that are not reported yet; the operation is failed, with the one curated
    reason, exactly when outputs are invalid, do not realise the contract, or
    are reported for a type that declares none; nothing is published for a
    deletion. In particular a type that requires outputs never finishes
    without a published snapshot. *)
Theorem PlanTerminalOutputs_spec Error contract capability evidence gen at_ :
  match PlanTerminalOutputs Error contract capability evidence gen at_ with
  | Ok (OutputPlanPublish snapshot) =>
      capability ≠ CapabilityDelete ∧ ∃ declared e, declares contract declared ∧
      evidence = Some e ∧ oe_State e = OutputsAvailable ∧ realized declared e gen at_ snapshot
  | Ok OutputPlanDefer =>
      capability ≠ CapabilityDelete ∧ ∃ declared, declares contract declared ∧
      RequiresOutputs declared = true ∧ unreported evidence
  | Ok (OutputPlanReject failure) =>
      capability ≠ CapabilityDelete ∧ ef_Reason failure = ReasonOutputPostconditionRejected ∧
      ∃ e, evidence = Some e ∧
      rejects contract e gen at_
  | Ok OutputPlanNone =>
      capability = CapabilityDelete ∨
      (undeclared contract ∧ ∀ e, evidence = Some e →
         oe_State e ≠ OutputsAvailable ∧ oe_State e ≠ OutputsInvalid) ∨
      (∃ declared, declares contract declared ∧ RequiresOutputs declared = false ∧ unreported evidence)
  | Err _ =>
      capability ≠ CapabilityDelete ∧ ∃ declared e, declares contract declared ∧ evidence = Some e ∧
      oe_State e ∉ [OutputsUnavailable; OutputsAvailable; OutputsInvalid]
  | Panic _ => False
  end.
Proof.
  unfold PlanTerminalOutputs.
  destruct (bool_decide_reflect (capability = CapabilityDelete)) as [Hd|Hd]; [by left|].
  destruct contract as [[declared|]|].
  2, 3: destruct (non_nil evidence _) eqn:Hn;
    [ apply non_nil_true in Hn as (e & -> & Hn); bool_facts; split_and!; [done..|];
      exists e; split; [done|]; left; split; [unfold undeclared; auto|by destruct_or!; auto]
    | right; left; split; [unfold undeclared; auto|]; intros e ->; cbn in Hn; by bool_facts ].
  assert (Hun : unreported evidence → match Ok (if RequiresOutputs declared
      then OutputPlanDefer else OutputPlanNone) : outcome OutputPlan with
    | Ok OutputPlanDefer => capability ≠ CapabilityDelete ∧ ∃ d,
        declares (Some (Some declared)) d ∧ RequiresOutputs d = true ∧ unreported evidence
    | Ok OutputPlanNone => ∃ d,
        declares (Some (Some declared)) d ∧ RequiresOutputs d = false ∧ unreported evidence
    | _ => True end).
  { intros Hu. destruct (RequiresOutputs declared) eqn:Hr; [split; [done|]|]; by exists declared. }
  destruct evidence as [e|]; [|specialize (Hun (or_introl eq_refl)); destruct (RequiresOutputs declared); [split; [done|apply Hun]|auto]].
  destruct (bool_decide_reflect (oe_State e = OutputsUnavailable)) as [Hu|Hu].
  { specialize (Hun (or_intror (ex_intro _ e (conj eq_refl Hu)))). destruct (RequiresOutputs declared); [split; [done|apply Hun]|auto]. }
  assert (Hrej : rejects (Some (Some declared)) e gen at_ → ∃ e0, Some e = Some e0 ∧
    rejects (Some (Some declared)) e0 gen at_) by (intros ?; by exists e).
  destruct (bool_decide_reflect (oe_State e = OutputsInvalid)) as [Hi|Hi].
  { split_and!; [done..|]. apply Hrej. right. exists declared. split; [done|by left]. }
  destruct (bool_decide_reflect (oe_State e = OutputsAvailable)) as [Ha|Ha].
  2: { split; [done|]. exists declared, e. split_and!; [done..|].
       rewrite !not_elem_of_cons. by auto using not_elem_of_nil. }
  destruct (OutputContract_Validate declared (oe_Values e)) as [[]| |s] eqn:Hv.
  - destruct (NewResourceOutputs gen (oe_Values e) at_) as [snapshot| |s] eqn:Ho.
    + split; [done|]. exists declared, e. unfold realized. by auto.
    + split_and!; [done..|]. apply Hrej. right. exists declared. split; [done|]. right.
      split; [done|]. intros ? [_ ?]. congruence.
    + by apply NewResourceOutputs_total in Ho.
  - split_and!; [done..|]. apply Hrej. right. exists declared. split; [done|]. right.
    split; [done|]. intros ? [? _]. congruence.
  - by apply OutputContract_Validate_total in Hv.
Qed.
