(* ===== verification/Text.v ===== *)
(** * Keys built by formatting

    The code builds map keys and message identities with [fmt.Sprintf]: decimal
    numbers ([%d], here [pretty] on [N]), separators and length prefixes.  This
    file holds the lemmas that read such keys back. *)

From stdpp Require Export pretty.
From S2P Require Import Prelude.
Open Scope string_scope.

(** [fmt.Sprintf("%d", n)]. *)
Definition decimal (n : N) : string := pretty n.

#[export] Instance decimal_inj : Inj (=) (=) decimal.
Proof. apply pretty_N_inj. Qed.

(** Lower case of an ASCII letter. *)
Definition ascii_lower (c : ascii) : ascii :=
  let n := N_of_ascii c in
  if ((65 <=? n) && (n <=? 90))%N then ascii_of_N (n + 32) else c.

(** The character [c] does not occur in the string. *)
Fixpoint lacks (c : ascii) (s : string) : Prop :=
  match s with
  | EmptyString => True
  | String d s' => d ≠ c ∧ lacks c s'
  end.

Lemma app_cons c s t : String c s +:+ t = String c (s +:+ t).
Proof. reflexivity. Qed.
Lemma app_empty t : "" +:+ t = t.
Proof. reflexivity. Qed.
Lemma string_app_assoc s t u : (s +:+ t) +:+ u = s +:+ (t +:+ u).
Proof. induction s as [|c s IH]; [done|]. by rewrite !app_cons, IH. Qed.

Lemma lacks_app c s t : lacks c (s +:+ t) ↔ lacks c s ∧ lacks c t.
Proof.
  induction s as [|d s IH]; [rewrite app_empty; cbn; tauto|].
  rewrite app_cons. cbn. rewrite IH. tauto.
Qed.

(** A separator that does not occur before it splits a key from the left. *)
Lemma split_first c p q x y :
  lacks c p → lacks c q → p +:+ String c x = q +:+ String c y → p = q ∧ x = y.
Proof.
  revert q. induction p as [|d p IH]; intros [|e q]; rewrite ?app_cons, ?app_empty; cbn.
  - by intros _ _ [= ->].
  - by intros _ [? _] [= ? _].
  - by intros [? _] _ [= ? _].
  - intros [_ Hp] [_ Hq] [= -> H]. by apply IH in H as [-> ->].
Qed.

(** One that does not occur after it splits a key from the right. *)
Lemma split_last c a b p q :
  lacks c p → lacks c q → a +:+ String c p = b +:+ String c q → a = b ∧ p = q.
Proof.
  revert b. induction a as [|d a IH]; intros [|e b] Hp Hq; rewrite ?app_cons, ?app_empty.
  - by intros [= ->].
  - intros [= _ ->]. apply lacks_app in Hp as [_ [[] _]]. done.
  - intros [= _ <-]. apply lacks_app in Hq as [_ [[] _]]. done.
  - intros [= -> H]. by apply IH in H as [-> ->].
Qed.

Lemma pretty_N_char_digit c n : (N_of_ascii c < 48 ∨ 57 < N_of_ascii c)%N → pretty_N_char n ≠ c.
Proof. intros Hc <-. unfold pretty_N_char in Hc. repeat case_match; cbn in Hc; lia. Qed.

(** Decimal numbers consist of digits. *)
Lemma decimal_lacks c n : (N_of_ascii c < 48 ∨ 57 < N_of_ascii c)%N → lacks c (decimal n).
Proof.
  intros Hc. unfold decimal, pretty, pretty_N. case_decide.
  { split; [|done]. intros <-. cbn in Hc. lia. }
  assert (Hgo : ∀ s, lacks c s → lacks c (pretty_N_go n s)); [|by apply Hgo].
  clear H. induction (N.lt_wf_0 n) as [n _ IH]. intros s Hs.
  destruct (decide (n = 0)%N) as [->|Hn]; [by rewrite pretty_N_go_0|].
  rewrite pretty_N_go_step by lia. apply IH; [apply N.div_lt; lia|].
  split; [by apply pretty_N_char_digit|done].
Qed.

(** Two strings with the same length prefix. *)
Lemma app_length_inj p q x y :
  String.length p = String.length q → p +:+ x = q +:+ y → p = q ∧ x = y.
Proof.
  revert q. induction p as [|d p IH]; intros [|e q]; rewrite ?app_cons, ?app_empty; cbn;
    try done. intros [= Hl] [= -> H]. by apply IH in H as [-> ->].
Qed.
