(* ===== verification/Encoding.v ===== *)
(** * Byte encodings

    The encodings the code feeds to SHA-256 or puts into opaque tokens: the
    length-framed parts of [writeFramed], [writeFrame], [writeFramedPart] and
    [fingerprintHash], hexadecimal, big-endian integers and unpadded base64url.
    A Go byte slice is a string.  SHA-256 itself is an interface, [Digest]. *)

From S2P Require Import Prelude Text.
Open Scope string_scope.
Open Scope go_scope.

#[local] Ltac Zify.zify_post_hook ::= Z.to_euclidean_division_equations.

(** [sha256.Sum256]: a function into 32 bytes. *)
Class Digest := {
  sha256 : string → string;
  sha256_length s : String.length (sha256 s) = 32%nat }.

Definition byte_of (c : ascii) : N := N_of_ascii c.
Definition bytes_of (s : string) : list N := map byte_of (list_ascii_of_string s).
Definition of_bytes (l : list N) : string := string_of_list_ascii (map ascii_of_N l).

Lemma of_bytes_of s : of_bytes (bytes_of s) = s.
Proof.
  unfold of_bytes, bytes_of. rewrite map_map, (map_ext _ id), map_id.
  - apply string_of_list_ascii_of_string.
  - apply ascii_N_embedding.
Qed.

Lemma bytes_of_inj s t : bytes_of s = bytes_of t → s = t.
Proof. intros H. by rewrite <- (of_bytes_of s), <- (of_bytes_of t), H. Qed.

Lemma bytes_of_of_bytes l : Forall (λ n, n < 256)%N l → bytes_of (of_bytes l) = l.
Proof.
  unfold bytes_of, of_bytes. rewrite list_ascii_of_string_of_list_ascii, map_map.
  induction 1 as [|n l Hn _ IH]; [done|]. cbn [map]. rewrite IH. unfold byte_of.
  by rewrite N_ascii_embedding.
Qed.

Lemma bytes_of_bounded s : Forall (λ n, n < 256)%N (bytes_of s).
Proof. apply Forall_map, Forall_true. intros c. apply N_ascii_bounded. Qed.

Lemma string_length_app s t : String.length (s +:+ t) = (String.length s + String.length t)%nat.
Proof. induction s as [|c s IH]; [done|]. by rewrite app_cons; cbn; rewrite IH. Qed.

(** ** Hexadecimal *)

Definition hex_char (n : N) : ascii := ascii_of_N (if N.ltb n 10 then 48 + n else 87 + n).

Lemma hex_char_inj n m : (n < 16)%N → (m < 16)%N → hex_char n = hex_char m → n = m.
Proof.
  unfold hex_char. intros Hn Hm H%(f_equal N_of_ascii).
  destruct (N.ltb_spec n 10), (N.ltb_spec m 10); rewrite !N_ascii_embedding in H; lia.
Qed.

(** The [k] last hexadecimal digits. *)
Fixpoint hex_digits (k : nat) (n : N) : string :=
  match k with
  | O => ""
  | S k' => hex_digits k' (n / 16) +:+ String (hex_char (n mod 16)) ""
  end.

(** [fmt.Sprintf("%08x", n)]: at least eight digits. *)
Definition format_08x (n : N) : string :=
  hex_digits (Nat.max 8 (N.to_nat (N.log2 n / 4 + 1))) n.

Lemma hex_digits_length k n : String.length (hex_digits k n) = k.
Proof. revert n. induction k as [|k IH]; intros n; [done|]. cbn. rewrite string_length_app, IH. cbn. lia. Qed.

Lemma hex_digits_inj k n m :
  (n < 16 ^ N.of_nat k)%N → (m < 16 ^ N.of_nat k)%N → hex_digits k n = hex_digits k m → n = m.
Proof.
  revert n m. induction k as [|k IH]; intros n m.
  - change (16 ^ N.of_nat 0)%N with 1%N. lia.
  - rewrite Nat2N.inj_succ, N.pow_succ_r'. intros Hn Hm H. cbn in H.
    apply app_length_inj in H as [H [= Hc]]; [|by rewrite !hex_digits_length].
    apply IH in H; [|apply N.Div0.div_lt_upper_bound; lia..].
    apply hex_char_inj in Hc; [|apply N.mod_lt; lia..].
    rewrite (N.Div0.div_mod n 16), (N.Div0.div_mod m 16). by rewrite H, Hc.
Qed.

Lemma format_08x_small n : (n < 2 ^ 32)%N → format_08x n = hex_digits 8 n.
Proof.
  intros Hn. unfold format_08x. rewrite Nat.max_l; [done|].
  assert (N.log2 n < 32)%N; [|lia].
  destruct (decide (n = 0)%N) as [->|Hne]; [done|]. apply N.log2_lt_pow2; [lia|done].
Qed.

(** [hex.EncodeToString]. *)
Fixpoint hex (s : string) : string :=
  match s with
  | EmptyString => ""
  | String c s' => hex_digits 2 (byte_of c) +:+ hex s'
  end.

Lemma hex_length s : String.length (hex s) = (2 * String.length s)%nat.
Proof. induction s as [|c s IH]; [done|]. cbn [hex]. rewrite string_length_app, hex_digits_length, IH. cbn. lia. Qed.

#[export] Instance hex_inj : Inj (=) (=) hex.
Proof.
  intros s. induction s as [|c s IH]; intros [|d t]; cbn [hex]; try done.
  intros [H Ht]%app_length_inj; [|by rewrite !hex_digits_length].
  apply hex_digits_inj in H; [|apply N_ascii_bounded..].
  unfold byte_of in H. apply (f_equal ascii_of_N) in H. rewrite !ascii_N_embedding in H.
  by rewrite H, (IH t Ht).
Qed.

(** ** Length-framed parts *)

Definition frame (part : string) : string :=
  format_08x (N.of_nat (String.length part)) +:+ part.

(** What a hash is fed, part by part. *)
Fixpoint frames (parts : list string) : string :=
  match parts with
  | [] => ""
  | part :: rest => frame part +:+ frames rest
  end.

(** A part shorter than 4 GiB has a prefix of exactly eight digits. *)
Definition framable (part : string) : Prop := (N.of_nat (String.length part) < 2 ^ 32)%N.

Lemma frames_inj ps qs :
  Forall framable ps → Forall framable qs → frames ps = frames qs → ps = qs.
Proof.
  assert (∀ p x, framable p →
    frame p +:+ x = hex_digits 8 (N.of_nat (String.length p)) +:+ (p +:+ x)) as Hframe.
  { intros p x Hp. unfold frame. by rewrite format_08x_small, string_app_assoc. }
  intros Hps. revert qs. induction Hps as [|p ps Hp Hps IH]; intros qs Hqs H;
    destruct Hqs as [|q qs Hq Hqs]; [done|..]; cbn [frames] in H; rewrite ?Hframe in H by done.
  - apply (f_equal String.length) in H. by rewrite string_length_app, hex_digits_length in H.
  - apply (f_equal String.length) in H. by rewrite string_length_app, hex_digits_length in H.
  - apply app_length_inj in H as [Hl H]; [|by rewrite !hex_digits_length].
    apply hex_digits_inj, Nat2N.inj in Hl; [|done..].
    apply app_length_inj in H as [-> H]; [|done]. f_equal. by apply IH.
Qed.

(** ** Big-endian integers *)

(** The [k] last bytes. *)
Fixpoint big_endian (k : nat) (n : N) : list N :=
  match k with
  | O => []
  | S k' => big_endian k' (n / 256) ++ [(n mod 256)%N]
  end.

Definition from_big_endian (l : list N) : N := foldl (λ acc b, acc * 256 + b)%N 0%N l.

Lemma big_endian_length k n : length (big_endian k n) = k.
Proof. revert n. induction k as [|k IH]; intros n; [done|]. cbn. rewrite length_app, IH. cbn. lia. Qed.

Lemma big_endian_bounded k n : Forall (λ b, b < 256)%N (big_endian k n).
Proof.
  revert n. induction k as [|k IH]; intros n; [constructor|]. cbn. apply Forall_app. split; [done|].
  constructor; [apply N.mod_lt; lia|constructor].
Qed.

Lemma big_endian_roundtrip k n :
  (n < 256 ^ N.of_nat k)%N → from_big_endian (big_endian k n) = n.
Proof.
  unfold from_big_endian. revert n. induction k as [|k IH]; intros n.
  - change (256 ^ N.of_nat 0)%N with 1%N. cbn. lia.
  - rewrite Nat2N.inj_succ, N.pow_succ_r'. intros Hn. cbn. rewrite foldl_app. cbn.
    rewrite IH by (apply N.Div0.div_lt_upper_bound; lia).
    rewrite (N.Div0.div_mod n 256) at 3. lia.
Qed.

(** ** Unpadded base64url *)

Definition b64_alphabet : string :=
  "ABCDEFGHIJKLMNOPQRSTUVWXYZabcdefghijklmnopqrstuvwxyz0123456789-_".

Definition b64_char (sextet : N) : ascii :=
  default "A"%char (String.get (N.to_nat sextet) b64_alphabet).

Definition b64_value (c : ascii) : option N :=
  let n := N_of_ascii c in
  (if (65 <=? n) && (n <=? 90) then Some (n - 65)
   else if (97 <=? n) && (n <=? 122) then Some (n - 71)
   else if (48 <=? n) && (n <=? 57) then Some (n + 4)
   else if N.eqb n 45 then Some 62
   else if N.eqb n 95 then Some 63
   else None)%N.


Fixpoint b64_encode (bytes : list N) : list N :=
  (match bytes with
   | a :: b :: c :: rest =>
       a / 4 :: (a mod 4) * 16 + b / 16 :: (b mod 16) * 4 + c / 64 :: c mod 64 :: b64_encode rest
   | [a; b] => [a / 4; (a mod 4) * 16 + b / 16; (b mod 16) * 4]
   | [a] => [a / 4; (a mod 4) * 16]
   | [] => []
   end)%N.

(** In strict mode the bits that fill up the last sextet must be zero. *)
Fixpoint b64_decode (sextets : list N) : option (list N) :=
  (match sextets with
   | w :: x :: y :: z :: rest =>
       decoded ← b64_decode rest;
       Some (w * 4 + x / 16 :: (x mod 16) * 16 + y / 4 :: (y mod 4) * 64 + z :: decoded)
   | [w; x; y] =>
       if N.eqb (y mod 4) 0 then Some [w * 4 + x / 16; (x mod 16) * 16 + y / 4] else None
   | [w; x] => if N.eqb (x mod 16) 0 then Some [w * 4 + x / 16] else None
   | [_] => None
   | [] => Some []
   end)%N.

(** [base64.RawURLEncoding.EncodeToString]. *)
Definition RawURL_EncodeToString (bytes : list N) : string :=
  string_of_list_ascii (map b64_char (b64_encode bytes)).

(** [base64.RawURLEncoding.Strict().DecodeString], which skips line ends. *)
Definition RawURL_DecodeString (text : string) : option (list N) :=
  sextets ← mapM b64_value
    (filter (λ c, negb ((N_of_ascii c =? 10)%N || (N_of_ascii c =? 13)%N) = true)
       (list_ascii_of_string text));
  b64_decode sextets.

#[global] Arguments b64_char : simpl never.
#[global] Arguments b64_value : simpl never.

Lemma sextets (P : N → bool) :
  forallb P (map N.of_nat (seq 0 64)) = true → ∀ n, (n < 64)%N → P n = true.
Proof.
  intros H n Hn. rewrite forallb_forall in H. apply H, in_map_iff.
  exists (N.to_nat n). split; [lia|]. apply in_seq. lia.
Qed.

Lemma b64_value_char n : (n < 64)%N → b64_value (b64_char n) = Some n.
Proof.
  intros Hn. enough ((default 64 (b64_value (b64_char n)) =? n)%N = true) as H.
  { apply N.eqb_eq in H. destruct (b64_value _); cbn in H; [congruence|lia]. }
  revert Hn. apply (sextets (λ n, (default 64 (b64_value (b64_char n)) =? n)%N)).
  vm_compute. reflexivity.
Qed.

Lemma b64_char_kept n :
  (n < 64)%N → negb ((N_of_ascii (b64_char n) =? 10)%N || (N_of_ascii (b64_char n) =? 13)%N) = true.
Proof.
  apply (sextets (λ n, negb ((N_of_ascii (b64_char n) =? 10)%N ||
    (N_of_ascii (b64_char n) =? 13)%N))). vm_compute. reflexivity.
Qed.

Lemma b64_encode_bounded bytes :
  Forall (λ b, b < 256)%N bytes → Forall (λ x, x < 64)%N (b64_encode bytes).
Proof.
  revert bytes. fix IH 1. intros [|a [|b [|c rest]]] H; cbn [b64_encode].
  - constructor.
  - apply Forall_cons in H as [Ha _]. repeat constructor; lia.
  - apply Forall_cons in H as [Ha [Hb _]%Forall_cons]. repeat constructor; lia.
  - apply Forall_cons in H as [Ha [Hb [Hc Hr]%Forall_cons]%Forall_cons].
    repeat (constructor; [lia|]). by apply IH.
Qed.

Lemma b64_decode_encode bytes :
  Forall (λ b, b < 256)%N bytes → b64_decode (b64_encode bytes) = Some bytes.
Proof.
  revert bytes. fix IH 1. intros [|a [|b [|c rest]]] H; cbn [b64_encode b64_decode].
  - done.
  - apply Forall_cons in H as [Ha _]. rewrite (proj2 (N.eqb_eq _ _)) by lia. do 2 f_equal. lia.
  - apply Forall_cons in H as [Ha [Hb _]%Forall_cons].
    rewrite (proj2 (N.eqb_eq _ _)) by lia. f_equal. f_equal; [lia|]. f_equal. lia.
  - apply Forall_cons in H as [Ha [Hb [Hc Hr]%Forall_cons]%Forall_cons].
    rewrite IH by done. cbn. f_equal. f_equal; [lia|]. f_equal; [lia|]. f_equal. lia.
Qed.

Lemma RawURL_roundtrip bytes :
  Forall (λ b, b < 256)%N bytes →
  RawURL_DecodeString (RawURL_EncodeToString bytes) = Some bytes.
Proof.
  intros Hb. unfold RawURL_DecodeString, RawURL_EncodeToString.
  rewrite list_ascii_of_string_of_list_ascii.
  pose proof (b64_encode_bounded _ Hb) as Hs.
  assert (∀ l, Forall (λ x, x < 64)%N l →
    filter (λ c, negb ((N_of_ascii c =? 10)%N || (N_of_ascii c =? 13)%N) = true) (map b64_char l) =
      map b64_char l ∧ mapM b64_value (map b64_char l) = Some l) as Hl.
  { induction 1 as [|x l Hx _ [IH1 IH2]]; [done|]. cbn [map].
    rewrite filter_cons_True by by apply b64_char_kept. cbn. rewrite IH1, b64_value_char by done.
    cbn. by rewrite IH2. }
  destruct (Hl _ Hs) as [-> ->]. by apply b64_decode_encode.
Qed.

(** ** A digest to evaluate examples with *)

Lemma string_of_list_length l : String.length (string_of_list_ascii l) = length l.
Proof. induction l as [|c l IH]; [done|]. cbn. by rewrite IH. Qed.

Definition sample_sha256 (s : string) : string :=
  string_of_list_ascii (take 32 (list_ascii_of_string s ++ replicate 32 "0"%char)%list).

Lemma sample_sha256_length s : String.length (sample_sha256 s) = 32%nat.
Proof.
  unfold sample_sha256. rewrite string_of_list_length, length_take, length_app, length_replicate. lia.
Qed.

Definition sample_digest : Digest := {| sha256 := sample_sha256; sha256_length := sample_sha256_length |}.
