(* ===== verification/Json.v ===== *)
(** * JSON documents of the value codecs

    The part of Go's [encoding/json] that the request fingerprints and the spec
    codec use: the quoting of strings ([json.Marshal] escapes for HTML and
    replaces what is not UTF-8), objects with sorted keys, [omitempty].  The
    documents are lists of bytes; a document determines the tree it was made
    from when its strings are UTF-8. *)

From S2P Require Import Prelude Text Encoding.
Open Scope string_scope.
Open Scope go_scope.

(** ** UTF-8 *)

(** What [utf8.DecodeRune] takes from a string: the bytes of a well-formed rune,
    or one byte that starts none. *)
Inductive rune := Rune (bytes : list N) | RuneError (byte : N).

Definition within (low high b : N) : bool := (N.leb low b && N.leb b high)%N.
Definition continuation : N → bool := within 128 191.

Definition two_bytes (b0 b1 : N) : bool := within 194 223 b0 && continuation b1.
Definition three_bytes (b0 b1 b2 : N) : bool :=
  continuation b2 &&
  ((N.eqb b0 224 && within 160 191 b1) || (within 225 236 b0 && continuation b1) ||
   (N.eqb b0 237 && within 128 159 b1) || (within 238 239 b0 && continuation b1)).
Definition four_bytes (b0 b1 b2 b3 : N) : bool :=
  continuation b2 && continuation b3 &&
  ((N.eqb b0 240 && within 144 191 b1) || (within 241 243 b0 && continuation b1) ||
   (N.eqb b0 244 && within 128 143 b1)).

Fixpoint runes (l : list N) : list rune :=
  match l with
  | [] => []
  | b0 :: l0 =>
      if N.ltb b0 128 then Rune [b0] :: runes l0
      else match l0 with
      | [] => [RuneError b0]
      | b1 :: l1 =>
          if two_bytes b0 b1 then Rune [b0; b1] :: runes l1
          else match l1 with
          | [] => RuneError b0 :: runes l0
          | b2 :: l2 =>
              if three_bytes b0 b1 b2 then Rune [b0; b1; b2] :: runes l2
              else match l2 with
              | [] => RuneError b0 :: runes l0
              | b3 :: l3 =>
                  if four_bytes b0 b1 b2 b3 then Rune [b0; b1; b2; b3] :: runes l3
                  else RuneError b0 :: runes l0
              end
          end
      end
  end.

Definition well_formed (r : rune) : bool := match r with Rune _ => true | RuneError _ => false end.

(** [utf8.ValidString]. *)
Definition utf8 (s : string) : bool := forallb well_formed (runes (bytes_of s)).

Definition rune_bytes (r : rune) : list N := match r with Rune l => l | RuneError b => [b] end.

(** ** Strings *)

Definition hex_byte (n : N) : N := byte_of (hex_char n).

(** The characters that are not copied; the last case is for control characters
    and [<], [>] and [&]. *)
Definition ascii_chunk (b : N) : list N :=
  if N.eqb b 34 || N.eqb b 92 then [92; b]%N
  else if N.eqb b 8 then [92; 98]%N
  else if N.eqb b 12 then [92; 102]%N
  else if N.eqb b 10 then [92; 110]%N
  else if N.eqb b 13 then [92; 114]%N
  else if N.eqb b 9 then [92; 116]%N
  else if N.ltb b 32 || N.eqb b 60 || N.eqb b 62 || N.eqb b 38
  then ([92; 117; 48; 48; hex_byte (b / 16); hex_byte (b mod 16)])%N
  else [b].

Definition chunk (r : rune) : list N :=
  match r with
  | Rune [b] => ascii_chunk b
  | Rune [b0; b1; b2] =>
      if N.eqb b0 226 && N.eqb b1 128 && (N.eqb b2 168 || N.eqb b2 169)
      then [92; 117; 50; 48; 50; hex_byte (b2 - 160)]%N
      else [b0; b1; b2]
  | Rune l => l
  | RuneError _ => [92; 117; 102; 102; 102; 100]%N
  end.

Definition quote (s : string) : list N :=
  (34%N :: concat (map chunk (runes (bytes_of s))) ++ [34%N])%list.

(** ** Trees *)

(** The [specNode] of the codec and the [fingerprintNode] of the fingerprints. A
    nil pointer, map or slice is [None]. *)
Inductive node := Node {
  n_Kind : string;
  n_Scalar : option string;
  n_Object : option (list (string * node));
  n_List : option (list node) }.

Definition optionally {A} (P : A → Prop) (o : option A) : Prop :=
  match o with Some x => P x | None => True end.

Section node_induction.
Context (P : node → Prop).
Hypothesis HNode : ∀ kind scalar object items,
  optionally (Forall (λ kv, P kv.2)) object → optionally (Forall P) items →
  P (Node kind scalar object items).

Fixpoint node_nested_ind (n : node) : P n :=
  match n with
  | Node kind scalar object items =>
      HNode kind scalar object items
        match object as o return optionally (Forall (λ kv, P kv.2)) o with
        | None => I
        | Some entries => (fix go es : Forall (λ kv, P kv.2) es :=
            match es with
            | [] => Forall_nil_2 _
            | kv :: es' => Forall_cons_2 _ kv es' (node_nested_ind kv.2) (go es')
            end) entries
        end
        match items as o return optionally (Forall P) o with
        | None => I
        | Some nodes => (fix go ns : Forall P ns :=
            match ns with
            | [] => Forall_nil_2 _
            | m :: ns' => Forall_cons_2 _ m ns' (node_nested_ind m) (go ns')
            end) nodes
        end
  end.
End node_induction.

(** The keys of an object are written in ascending order. *)
Fixpoint sorted_node (n : node) : node :=
  Node (n_Kind n) (n_Scalar n)
    ((λ entries, sort_by fst string_le (map (λ '(k, m), (k, sorted_node m)) entries)) <$> n_Object n)
    ((λ nodes, map sorted_node nodes) <$> n_List n).

Lemma sort_by_map {A B} (f : A → B) (key : B → string) l :
  NoDup (key ∘ f <$> l) →
  sort_by key string_le (map f l) = map f (sort_by (key ∘ f) string_le l).
Proof.
  intros Hnd. apply (sorted_by_key_unique key string_le).
  - rewrite sort_by_Permutation, <- list_fmap_compose. exact Hnd.
  - apply (sort_by_sorted key string_le).
  - pose proof (sort_by_sorted (key ∘ f) string_le l) as H. revert H.
    generalize (sort_by (key ∘ f) string_le l) as k.
    induction 1 as [|x k _ IH Hx]; cbn; constructor; [done|]. by apply Forall_map.
  - rewrite !sort_by_Permutation. done.
Qed.

(** [omitempty] leaves out empty maps and slices. *)
Definition nonempty {A} (l : option (list A)) : option (list A) :=
  match l with Some [] => None | _ => l end.

Fixpoint omit_empty (n : node) : node :=
  Node (n_Kind n) (n_Scalar n)
    (nonempty ((λ entries, map (λ '(k, m), (k, omit_empty m)) entries) <$> n_Object n))
    (nonempty ((λ nodes, map omit_empty nodes) <$> n_List n)).

(** Elements separated by commas. *)
Definition joined (parts : list (list N)) : list N :=
  match parts with
  | [] => []
  | part :: rest => part ++ concat (map (λ p, 44%N :: p) rest)
  end%list.

(** [,]"name"[:]. *)
Definition field_name (name : string) : list N :=
  (44%N :: 34%N :: bytes_of name ++ [34; 58]%N)%list.

(** A field without a value is absent, or [null]. *)
Definition no_field (omit : bool) (name : string) : list N :=
  if omit then [] else (field_name name ++ bytes_of "null")%list.

Fixpoint render (omit : bool) (n : node) : list N :=
  (123%N :: 34%N :: bytes_of "kind" ++ [34; 58]%N ++ quote (n_Kind n) ++
   match n_Scalar n with
   | Some scalar => field_name "scalar" ++ quote scalar
   | None => []
   end ++
   match n_Object n with
   | Some entries => field_name "object" ++ 123%N ::
       joined (map (λ '(k, m), quote k ++ 58%N :: render omit m) entries) ++ [125%N]
   | None => no_field omit "object"
   end ++
   match n_List n with
   | Some nodes => field_name "list" ++ 91%N :: joined (map (render omit) nodes) ++ [93%N]
   | None => no_field omit "list"
   end ++ [125%N])%list.

(** [json.Marshal] of a [fingerprintNode], and of a [specNode]. *)
Definition marshalOmitting (n : node) : list N := render true (omit_empty (sorted_node n)).
Definition marshal (n : node) : list N := render false (sorted_node n).

(** ** A quoted string is read back *)

(** The bytes that [\u] and four digits stand for, of those that are written. *)
Definition unit_bytes (h1 h2 h3 h4 : N) : list N :=
  let digit h := if N.leb 97 h then (h - 87)%N else (h - 48)%N in
  if N.eqb h1 50 then [226; 128; 160 + digit h4]%N else [16 * digit h3 + digit h4]%N.

Definition plain_escape (b : N) : N :=
  if N.eqb b 98 then 8%N else if N.eqb b 102 then 12%N else if N.eqb b 110 then 10%N
  else if N.eqb b 114 then 13%N else if N.eqb b 116 then 9%N else b.

Definition prepend (bytes : list N) (o : option (list N * list N)) : option (list N * list N) :=
  prod_map (app bytes) id <$> o.

Lemma prepend_app a b o : prepend (a ++ b)%list o = prepend a (prepend b o).
Proof. destruct o as [[]|]; cbn; [|done]. by rewrite app_assoc. Qed.

(** Up to the closing quote. *)
Fixpoint unescape (l : list N) : option (list N * list N) :=
  match l with
  | [] => None
  | b :: rest =>
      if N.eqb b 34 then Some ([], rest)
      else if N.eqb b 92 then
        match rest with
        | [] => None
        | e :: rest' =>
            if N.eqb e 117 then
              match rest' with
              | h1 :: h2 :: h3 :: h4 :: rest'' => prepend (unit_bytes h1 h2 h3 h4) (unescape rest'')
              | _ => None
              end
            else prepend [plain_escape e] (unescape rest')
        end
      else prepend [b] (unescape rest)
  end.

Lemma below_128 (P : N → Prop) : Forall P (map N.of_nat (seq 0 128)) → ∀ b, (b < 128)%N → P b.
Proof.
  intros H b Hb. rewrite Forall_forall in H. apply H. rewrite <- (N2Nat.id b).
  apply (list_elem_of_fmap_2 N.of_nat), elem_of_seq. lia.
Qed.

Lemma unescape_ascii b : (b < 128)%N →
  ∀ x, unescape (ascii_chunk b ++ x) = prepend [b] (unescape x).
Proof.
  revert b. refine (below_128 (λ b, ∀ x, unescape (ascii_chunk b ++ x) = prepend [b] (unescape x)) _).
  repeat (constructor; [intros x; reflexivity|]). constructor.
Qed.

Lemma unescape_raw b x : (128 ≤ b)%N → unescape (b :: x) = prepend [b] (unescape x).
Proof. intros Hb. cbn. destruct (N.eqb_spec b 34); [lia|]. by destruct (N.eqb_spec b 92); [lia|]. Qed.

Inductive sound_rune : rune → Prop :=
  | sr_one b : (b < 128)%N → sound_rune (Rune [b])
  | sr_two b0 b1 : (128 ≤ b0)%N → (128 ≤ b1)%N → sound_rune (Rune [b0; b1])
  | sr_three b0 b1 b2 : (128 ≤ b0)%N → (128 ≤ b1)%N → (128 ≤ b2)%N → sound_rune (Rune [b0; b1; b2])
  | sr_four b0 b1 b2 b3 : (128 ≤ b0)%N → (128 ≤ b1)%N → (128 ≤ b2)%N → (128 ≤ b3)%N →
      sound_rune (Rune [b0; b1; b2; b3])
  | sr_error b : sound_rune (RuneError b).

Lemma within_spec low high b : within low high b = true ↔ (low ≤ b ≤ high)%N.
Proof. unfold within. rewrite andb_true_iff, !N.leb_le. done. Qed.

Ltac byte_ranges := unfold continuation in *;
  repeat first [rewrite andb_true_iff in * | rewrite orb_true_iff in * |
                rewrite within_spec in * | rewrite N.eqb_eq in *]; lia.

Lemma runes_sound l : Forall sound_rune (runes l).
Proof.
  remember (length l) as n eqn:Hn. assert (length l ≤ n)%nat as Hle by lia. clear Hn.
  revert l Hle. induction n as [|n IH]; intros [|b0 l0] Hle; try (by constructor); cbn in Hle; [lia|].
  cbn [runes]. destruct (N.ltb_spec b0 128) as [Hb|Hb].
  { constructor; [by constructor|apply IH; lia]. }
  destruct l0 as [|b1 l1]; [by repeat constructor|]. cbn in Hle.
  destruct (two_bytes b0 b1) eqn:H2.
  { unfold two_bytes in H2. constructor; [constructor; byte_ranges|apply IH; lia]. }
  destruct l1 as [|b2 l2]; [constructor; [constructor|apply (IH [b1]); cbn; lia]|]. cbn in Hle.
  destruct (three_bytes b0 b1 b2) eqn:H3.
  { unfold three_bytes in H3. constructor; [constructor; byte_ranges|apply IH; lia]. }
  destruct l2 as [|b3 l3]; [constructor; [constructor|apply (IH [b1; b2]); cbn; lia]|]. cbn in Hle.
  destruct (four_bytes b0 b1 b2 b3) eqn:H4.
  { unfold four_bytes in H4. constructor; [constructor; byte_ranges|apply IH; lia]. }
  constructor; [constructor|apply (IH (b1 :: b2 :: b3 :: l3)); cbn; lia].
Qed.

Lemma runes_bytes l : concat (map rune_bytes (runes l)) = l.
Proof.
  remember (length l) as n eqn:Hn. assert (length l ≤ n)%nat as Hle by lia. clear Hn.
  revert l Hle. induction n as [|n IH]; intros [|b0 l0] Hle; try done; cbn in Hle; [lia|].
  cbn [runes]. destruct (N.ltb b0 128); [cbn; f_equal; apply IH; lia|].
  destruct l0 as [|b1 l1]; [done|]. cbn in Hle.
  destruct (two_bytes b0 b1); [cbn; do 2 f_equal; apply IH; lia|].
  destruct l1 as [|b2 l2]; [cbn [map concat rune_bytes app]; f_equal; apply IH; cbn; lia|]. cbn in Hle.
  destruct (three_bytes b0 b1 b2); [cbn; do 3 f_equal; apply IH; lia|].
  destruct l2 as [|b3 l3]; [cbn [map concat rune_bytes app]; f_equal; apply IH; cbn; lia|]. cbn in Hle.
  destruct (four_bytes b0 b1 b2 b3); [cbn; do 4 f_equal; apply IH; lia|].
  cbn [map concat rune_bytes app]. f_equal. apply IH. cbn. lia.
Qed.

Lemma unescape_chunk r x :
  sound_rune r → well_formed r = true → unescape (chunk r ++ x) = prepend (rune_bytes r) (unescape x).
Proof.
  intros [b Hb|b0 b1 H0 H1|b0 b1 b2 H0 H1 H2|b0 b1 b2 b3 H0 H1 H2 H3|b] Hw;
    cbn [chunk rune_bytes]; [by apply unescape_ascii|..|done].
  - cbn [app]. rewrite !unescape_raw by done. by rewrite <- !prepend_app.
  - destruct (_ && _) eqn:Hsep.
    + apply andb_true_iff in Hsep as [[->%N.eqb_eq ->%N.eqb_eq]%andb_true_iff Hb].
      by apply orb_true_iff in Hb as [->%N.eqb_eq| ->%N.eqb_eq].
    + cbn [app]. rewrite !unescape_raw by done. by rewrite <- !prepend_app.
  - cbn [app]. rewrite !unescape_raw by done. by rewrite <- !prepend_app.
Qed.

Lemma unescape_quote s x :
  utf8 s = true → ∃ rest, quote s = 34%N :: rest ∧ unescape (rest ++ x) = Some (bytes_of s, x).
Proof.
  unfold utf8, quote. intros Hw. eexists. split; [done|]. rewrite <- app_assoc.
  rewrite <- (runes_bytes (bytes_of s)) at 2. pose proof (runes_sound (bytes_of s)) as Hs.
  revert Hs Hw. generalize (runes (bytes_of s)) as l. induction 1 as [|r l Hr Hl IH]; [done|].
  cbn [forallb map concat]. intros [Hw Hwl]%andb_true_iff. rewrite <- app_assoc.
  rewrite unescape_chunk by done. by rewrite IH.
Qed.

Lemma forallb_Forall {A} (f : A → bool) l : forallb f l = true → Forall (λ x, f x = true) l.
Proof. induction l as [|x l IH]; [constructor|]. cbn. intros [? ?]%andb_true_iff. auto. Qed.

(** Texts of a family of which none is a proper prefix of another. *)
Definition apart {A} (p q : list A) : Prop := ∀ x y, (p ++ x = q ++ y)%list → p = q ∧ x = y.

Lemma quote_inj s t x y :
  utf8 s = true → utf8 t = true → (quote s ++ x = quote t ++ y)%list → s = t ∧ x = y.
Proof.
  intros Hs Ht H. destruct (unescape_quote s x Hs) as (ps & Eps & Hps).
  destruct (unescape_quote t y Ht) as (pt & Ept & Hpt). rewrite Eps, Ept in H. injection H as H.
  rewrite H, Hpt in Hps. injection Hps as Hb Hx. split; [|done]. by apply bytes_of_inj.
Qed.

Lemma quote_head s : ∃ t, quote s = 34%N :: t.
Proof. by eexists. Qed.

#[local] Opaque quote.

(** *** A document determines its tree *)

Fixpoint utf8_node (n : node) : bool :=
  utf8 (n_Kind n) && match n_Scalar n with Some scalar => utf8 scalar | None => true end &&
  match n_Object n with
  | Some entries => forallb (λ '(k, m), utf8 k && utf8_node m) entries
  | None => true
  end &&
  match n_List n with Some nodes => forallb utf8_node nodes | None => true end.

Section render_injective.
Context (omit : bool).

Definition told_apart (n : node) : Prop := ∀ m x y,
  utf8_node n = true → utf8_node m = true →
  (render omit n ++ x = render omit m ++ y)%list → n = m ∧ x = y.

Definition entry_text (kv : string * node) : list N := quote kv.1 ++ 58%N :: render omit kv.2.

Lemma entry_texts entries :
  map (λ '(k, m), (quote k ++ 58%N :: render omit m)%list) entries = map entry_text entries.
Proof. apply map_ext. by intros []. Qed.

(** Texts that neither start with the closing character nor run into what
    follows. *)
Lemma joined_inj {A} (text : A → list N) (good : A → Prop) (close : N) xs ys u v :
  close ≠ 44%N → (∀ a, ∃ b t, text a = b :: t ∧ b ≠ close) →
  Forall (λ a, ∀ b p q, good a → good b → (text a ++ p = text b ++ q)%list → a = b ∧ p = q) xs →
  Forall good xs → Forall good ys →
  (joined (map text xs) ++ close :: u = joined (map text ys) ++ close :: v)%list → xs = ys ∧ u = v.
Proof.
  intros Hc Hhead Hinj Hxs Hys.
  assert (∀ xs ys, Forall (λ a, ∀ b p q, good a → good b → (text a ++ p = text b ++ q)%list →
      a = b ∧ p = q) xs → Forall good xs → Forall good ys →
    (concat (map (λ p, 44%N :: p) (map text xs)) ++ close :: u =
     concat (map (λ p, 44%N :: p) (map text ys)) ++ close :: v)%list → xs = ys ∧ u = v) as Hrest.
  { clear xs ys Hinj Hxs Hys. intros xs. induction xs as [|a xs IH]; intros [|b ys] Hinj Hxs Hys H;
      cbn in H.
    - by injection H.
    - by injection H.
    - by injection H.
    - injection H as H. rewrite <- !app_assoc in H.
      apply Forall_cons_1 in Hinj as [Ha Hinj]. apply Forall_cons_1 in Hxs as [? Hxs].
      apply Forall_cons_1 in Hys as [? Hys].
      apply Ha in H as [-> H]; [|done..]. apply IH in H as [-> ->]; done. }
  destruct xs as [|a xs], ys as [|b ys]; intros H; cbn in H.
  - by injection H.
  - destruct (Hhead b) as (c & t & Ht & Hne). rewrite Ht in H. by injection H.
  - destruct (Hhead a) as (c & t & Ht & Hne). rewrite Ht in H. by injection H.
  - rewrite <- !app_assoc in H. apply Forall_cons_1 in Hinj as [Ha Hinj].
    apply Forall_cons_1 in Hxs as [? Hxs]. apply Forall_cons_1 in Hys as [? Hys].
    apply Ha in H as [-> H]; [|done..]. by apply Hrest in H as [-> ->].
Qed.

Lemma render_head n : ∃ t, render omit n = 123%N :: t.
Proof. destruct n. by eexists. Qed.

Definition list_tail (items : option (list node)) : list N :=
  (match items with
   | Some nodes => field_name "list" ++ 91%N :: joined (map (render omit) nodes) ++ [93%N]
   | None => no_field omit "list"
   end ++ [125%N])%list.

Definition object_tail (object : option (list (string * node))) items : list N :=
  (match object with
   | Some entries => field_name "object" ++ 123%N ::
       joined (map (λ '(k, m), quote k ++ 58%N :: render omit m) entries) ++ [125%N]
   | None => no_field omit "object"
   end ++ list_tail items)%list.

Definition scalar_tail (scalar : option string) object items : list N :=
  (match scalar with
   | Some scalar => field_name "scalar" ++ quote scalar
   | None => []
   end ++ object_tail object items)%list.

Lemma render_tail kind scalar object items :
  render omit (Node kind scalar object items) =
    ([123; 34; 107; 105; 110; 100; 34; 58]%N ++ quote kind ++ scalar_tail scalar object items)%list.
Proof. done. Qed.

Lemma field_list : field_name "list" = [44; 34; 108; 105; 115; 116; 34; 58]%N.
Proof. done. Qed.
Lemma field_object : field_name "object" = [44; 34; 111; 98; 106; 101; 99; 116; 34; 58]%N.
Proof. done. Qed.
Lemma field_scalar : field_name "scalar" = [44; 34; 115; 99; 97; 108; 97; 114; 34; 58]%N.
Proof. done. Qed.
Lemma text_null : bytes_of "null" = [110; 117; 108; 108]%N.
Proof. done. Qed.

(** Different fields, or a field and none, differ in their first characters. *)
Ltac fields_differ H :=
  exfalso; unfold object_tail, list_tail, no_field in H;
  repeat match type of H with context [match ?o with Some _ => _ | None => _ end] => destruct o end;
  destruct omit; unfold no_field in H;
  rewrite ?field_list, ?field_object, ?field_scalar, ?text_null in H; cbn [app] in H; congruence.

Lemma list_tail_inj items items' x y :
  optionally (Forall told_apart) items →
  optionally (λ nodes, forallb utf8_node nodes = true) items →
  optionally (λ nodes, forallb utf8_node nodes = true) items' →
  (list_tail items ++ x = list_tail items' ++ y)%list → items = items' ∧ x = y.
Proof.
  destruct items as [nodes|], items' as [nodes'|]; cbn [optionally]; intros IH Hw Hw' H.
  - unfold list_tail in H. rewrite <- !app_assoc in H. apply app_inv_head in H.
    cbn [app] in H. injection H as H. rewrite <- !app_assoc in H. cbn [app] in H.
    apply (joined_inj (render omit) (λ n, utf8_node n = true) 93) in H as [-> H].
    + by injection H as ->.
    + done.
    + intros n. destruct (render_head n) as [t Ht]. by exists 123%N, t.
    + eapply Forall_impl; [exact IH|]. cbn. intros n Hn m p q Hn' Hm'. by apply Hn.
    + by apply forallb_Forall.
    + by apply forallb_Forall.
  - fields_differ H.
  - fields_differ H.
  - by apply app_inv_head in H.
Qed.

Definition utf8_entry (kv : string * node) : bool := utf8 kv.1 && utf8_node kv.2.

Lemma object_tail_inj object object' items items' x y :
  optionally (Forall (λ kv, told_apart kv.2)) object → optionally (Forall told_apart) items →
  optionally (λ entries, forallb utf8_entry entries = true) object →
  optionally (λ entries, forallb utf8_entry entries = true) object' →
  optionally (λ nodes, forallb utf8_node nodes = true) items →
  optionally (λ nodes, forallb utf8_node nodes = true) items' →
  (object_tail object items ++ x = object_tail object' items' ++ y)%list →
  object = object' ∧ items = items' ∧ x = y.
Proof.
  intros IHo IHl Ho Ho' Hl Hl' H.
  assert (∀ u v, (list_tail items ++ u = list_tail items' ++ v)%list → items = items' ∧ u = v)
    as Htail by by intros u v; apply list_tail_inj.
  destruct object as [es|], object' as [es'|]; cbn [optionally] in *.
  - unfold object_tail in H. rewrite <- !app_assoc in H. apply app_inv_head in H.
    cbn [app] in H. injection H as H. rewrite <- !app_assoc in H. cbn [app] in H.
    rewrite !entry_texts in H.
    apply (joined_inj entry_text (λ kv, utf8_entry kv = true) 125) in H as [-> H].
    + by apply Htail in H as [-> ->].
    + done.
    + intros [k m]. unfold entry_text. cbn [fst snd]. destruct (quote_head k) as [t ->].
      by eexists 34%N, _.
    + eapply Forall_impl; [exact IHo|]. cbn. intros [k n] Hn [k' m] p q Hn' Hm' Heq.
      unfold entry_text in Heq. cbn [fst snd] in *. rewrite <- !app_assoc in Heq.
      apply andb_true_iff in Hn' as [? ?], Hm' as [? ?].
      apply quote_inj in Heq as [-> Heq]; [|done..]. injection Heq as Heq.
      by apply Hn in Heq as [-> ->].
    + by apply forallb_Forall.
    + by apply forallb_Forall.
  - fields_differ H.
  - fields_differ H.
  - unfold object_tail in H. rewrite <- !app_assoc in H. apply app_inv_head in H.
    by apply Htail in H as [-> ->].
Qed.

Theorem render_inj n : told_apart n.
Proof.
  induction n as [kind scalar object items IHo IHl] using node_nested_ind.
  intros [kind' scalar' object' items'] x y Hn Hm H. rewrite !render_tail, <- !app_assoc in H.
  apply app_inv_head in H.
  assert (∀ k s o l, utf8_node (Node k s o l) = true → utf8 k = true ∧
    optionally (λ t, utf8 t = true) s ∧ optionally (λ es, forallb utf8_entry es = true) o ∧
    optionally (λ ns, forallb utf8_node ns = true) l) as Hparts.
  { intros k s o l. cbn [utf8_node n_Kind n_Scalar n_Object n_List].
    intros [[[Hk Hs]%andb_true_iff Ho]%andb_true_iff Hl]%andb_true_iff. split_and!; [done|..].
    - by destruct s.
    - destruct o as [es|]; [|done]. unfold optionally. rewrite <- Ho. clear.
      induction es as [|[k m] es IH]; [done|]. cbn [forallb]. by rewrite IH.
    - by destruct l. }
  destruct (Hparts _ _ _ _ Hn) as (Hk & Hs & Ho & Hl).
  destruct (Hparts _ _ _ _ Hm) as (Hk' & Hs' & Ho' & Hl').
  apply quote_inj in H as [-> H]; [|done..].
  destruct scalar as [s|], scalar' as [s'|]; unfold scalar_tail in H; cbn [optionally] in *.
  - rewrite <- !app_assoc in H. apply app_inv_head in H.
    apply quote_inj in H as [-> H]; [|done..]. by apply object_tail_inj in H as (-> & -> & ->).
  - fields_differ H.
  - fields_differ H.
  - by apply object_tail_inj in H as (-> & -> & ->).
Qed.
End render_injective.
