(* ===== verification/Strconv.v ===== *)
(** * Numbers as text and as bits

    The parts of Go's [strconv], [math] and [encoding/hex] that the value codecs
    use: decimal integers, booleans, the bits of floating-point numbers and
    hexadecimal, each with its inverse. *)

From S2P Require Import Prelude Values Text Encoding.
From Stdlib Require Import SpecFloat.
Open Scope string_scope.
Open Scope go_scope.

#[local] Ltac Zify.zify_post_hook ::= Z.to_euclidean_division_equations.

(** ** Booleans *)

Definition FormatBool (b : bool) : string := if b then "true" else "false".

Definition ErrSyntax : error := Sentinel "strconv.ErrSyntax".
Definition ErrRange : error := Sentinel "strconv.ErrRange".

(** [strconv.NumError]. *)
Definition NumError (function text : string) (cause : error) : error :=
  Wrapf cause "strconv.%s: parsing %q: %v" [ArgS function; ArgS text].

Definition ParseBool (s : string) : outcome bool :=
  if bool_decide (s ∈ ["1"; "t"; "T"; "true"; "TRUE"; "True"]) then Ok true
  else if bool_decide (s ∈ ["0"; "f"; "F"; "false"; "FALSE"; "False"]) then Ok false
  else Err (NumError "ParseBool" s ErrSyntax).

(** ** Decimal integers *)

(** [FormatUint(n, 10)] and [FormatInt(z, 10)]. *)
Definition FormatUint (n : N) : string := decimal n.
Definition FormatInt (z : Z) : string :=
  if Z.ltb z 0 then "-" +:+ decimal (Z.to_N (- z)) else decimal (Z.to_N z).

(** The loop of [ParseUint] in base ten: a character that is no digit and a
    number past the maximum end it, whichever comes first. *)
Fixpoint parseDigits (maximum n : N) (s : string) : N + error :=
  match s with
  | EmptyString => inl n
  | String c rest =>
      let code := N_of_ascii c in
      if N.ltb code 48 || N.ltb 57 code then inr ErrSyntax
      else let next := (n * 10 + (code - 48))%N in
           if N.ltb maximum next then inr ErrRange else parseDigits maximum next rest
  end.

Definition parseMagnitude (bits : N) (s : string) : N + error :=
  if s =? "" then inr ErrSyntax else parseDigits (2 ^ bits - 1) 0 s.

(** [ParseUint(s, 10, bits)]. *)
Definition ParseUint (s : string) (bits : N) : outcome N :=
  match parseMagnitude bits s with
  | inl n => Ok n
  | inr e => Err (NumError "ParseUint" s e)
  end.

Definition sign_of (s : string) : bool * string :=
  match s with
  | String c rest =>
      if N.eqb (N_of_ascii c) 45 then (true, rest)
      else if N.eqb (N_of_ascii c) 43 then (false, rest) else (false, s)
  | EmptyString => (false, s)
  end.

(** [ParseInt(s, 10, bits)]. *)
Definition ParseInt (s : string) (bits : N) : outcome Z :=
  let (negative, magnitude) := sign_of s in
  let cutoff := (2 ^ (bits - 1))%N in
  match parseMagnitude bits magnitude with
  | inr e => Err (NumError "ParseInt" s e)
  | inl n =>
      fail_if (negb negative && N.leb cutoff n) || (negative && N.ltb cutoff n)
        with NumError "ParseInt" s ErrRange ;;
      Ok (if negative then (- Z.of_N n)%Z else Z.of_N n)
  end.

(** *** Formatted numbers are read back *)

Lemma pretty_digit n : (n < 10)%N → N_of_ascii (pretty_N_char n) = (48 + n)%N.
Proof.
  intros Hn. unfold pretty_N_char. destruct n as [|p]; [done|].
  do 4 (destruct p as [p|p|]; try (cbn in *; lia); try done).
Qed.

Lemma parseDigits_go maximum n s :
  (n ≤ maximum)%N → parseDigits maximum 0 (pretty_N_go n s) = parseDigits maximum n s.
Proof.
  revert s. induction (N.lt_wf_0 n) as [n _ IH]. intros s Hn.
  destruct (decide (n = 0)%N) as [->|Hne]; [by rewrite pretty_N_go_0|].
  rewrite pretty_N_go_step by lia.
  rewrite IH by (try apply N.div_lt; lia || (apply N.Div0.div_le_upper_bound; lia)).
  cbn [parseDigits]. rewrite pretty_digit by (apply N.mod_lt; lia).
  destruct (N.ltb_spec (48 + n mod 10) 48); [lia|].
  destruct (N.ltb_spec 57 (48 + n mod 10)); [pose proof (N.mod_lt n 10); lia|]. cbn [orb].
  replace (n / 10 * 10 + (48 + n mod 10 - 48))%N with n by lia.
  by destruct (N.ltb_spec maximum n); [lia|].
Qed.

Lemma parseMagnitude_decimal bits n :
  (n < 2 ^ bits)%N → parseMagnitude bits (decimal n) = inl n.
Proof.
  intros Hn. unfold parseMagnitude. rewrite bool_decide_false.
  - unfold decimal, pretty, pretty_N. case_decide as Hz.
    + subst. cbn [parseDigits]. destruct (N.ltb_spec (2 ^ bits - 1) (0 * 10 + (N_of_ascii "0" - 48)));
        [cbn in *; lia|done].
    + by rewrite parseDigits_go by lia.
  - unfold decimal, pretty, pretty_N. case_decide; [done|].
    rewrite pretty_N_go_step by lia. generalize (n / 10)%N as m. intros m.
    assert (∀ k s, s ≠ "" → pretty_N_go k s ≠ "") as Hgo; [|by apply Hgo].
    intros k. induction (N.lt_wf_0 k) as [k _ IH]. intros s Hs.
    destruct (decide (k = 0)%N) as [->|]; [by rewrite pretty_N_go_0|].
    rewrite pretty_N_go_step by lia. apply IH; [apply N.div_lt; lia|done].
Qed.

Lemma ParseUint_FormatUint bits n : (n < 2 ^ bits)%N → ParseUint (FormatUint n) bits = Ok n.
Proof. intros Hn. unfold ParseUint, FormatUint. by rewrite parseMagnitude_decimal. Qed.

Lemma sign_of_decimal n : sign_of (decimal n) = (false, decimal n).
Proof.
  pose proof (decimal_lacks "-" n ltac:(left; done)) as Hm.
  pose proof (decimal_lacks "+" n ltac:(left; done)) as Hp.
  unfold sign_of. destruct (decimal n) as [|c s]; [done|]. destruct Hm as [Hm _], Hp as [Hp _].
  destruct (N.eqb_spec (N_of_ascii c) 45) as [E|_].
  { destruct Hm. by rewrite <- (ascii_N_embedding c), E. }
  destruct (N.eqb_spec (N_of_ascii c) 43) as [E|_]; [|done].
  destruct Hp. by rewrite <- (ascii_N_embedding c), E.
Qed.

Lemma ParseInt_FormatInt bits z :
  (0 < bits)%N → (- 2 ^ (Z.of_N bits - 1) ≤ z < 2 ^ (Z.of_N bits - 1))%Z →
  ParseInt (FormatInt z) bits = Ok z.
Proof.
  intros Hb Hz.
  assert (2 ^ bits = 2 * 2 ^ (bits - 1))%N as Hpow.
  { rewrite <- N.pow_succ_r'. f_equal. lia. }
  assert (Z.of_N (2 ^ (bits - 1)) = 2 ^ (Z.of_N bits - 1))%Z as Hcut.
  { rewrite N2Z.inj_pow. f_equal. lia. }
  unfold ParseInt, FormatInt. destruct (Z.ltb_spec z 0).
  - cbn [sign_of]. change (sign_of ("-" +:+ ?s)) with (true, s). cbn.
    rewrite parseMagnitude_decimal by lia. cbn [negb andb orb].
    destruct (N.ltb_spec (2 ^ (bits - 1)) (Z.to_N (- z))); [lia|]. f_equal. lia.
  - rewrite sign_of_decimal. rewrite parseMagnitude_decimal by lia. cbn [negb andb orb].
    destruct (N.leb_spec (2 ^ (bits - 1)) (Z.to_N z)); [lia|]. cbn. f_equal. lia.
Qed.

(** ** Floating-point numbers *)

(** A format of [mw] fraction bits and [ew] exponent bits: [float64] has 52 and
    11, [float32] has 23 and 8. *)
Section floats.
Context (mw ew : Z).

Definition bias : Z := (2 ^ (ew - 1) - 1)%Z.
Definition least_exponent : Z := (1 - bias - mw)%Z.

Definition fields_bits (s : bool) (biased fraction : Z) : Z :=
  ((if s then 2 ^ ew else 0) + biased) * 2 ^ mw + fraction.

(** [Float64bits] and [Float32bits].  All NaNs are one [spec_float]. *)
Definition float_bits (f : spec_float) : N :=
  Z.to_N (match f with
  | S754_zero s => fields_bits s 0 0
  | S754_infinity s => fields_bits s (2 ^ ew - 1) 0
  | S754_nan => fields_bits false (2 ^ ew - 1) (2 ^ (mw - 1))
  | S754_finite s m e =>
      if Z.ltb (Z.pos m) (2 ^ mw) then fields_bits s 0 (Z.pos m)
      else fields_bits s (e + bias + mw) (Z.pos m - 2 ^ mw)
  end)%Z.

(** [Float64frombits] and [Float32frombits]. *)
Definition float_of_bits (b : N) : spec_float :=
  (let bits := Z.of_N b in
   let s := Z.leb (2 ^ ew) (bits / 2 ^ mw) in
   let biased := (bits / 2 ^ mw) mod 2 ^ ew in
   let fraction := bits mod 2 ^ mw in
   if Z.eqb biased (2 ^ ew - 1)
   then if Z.eqb fraction 0 then S754_infinity s else S754_nan
   else if Z.eqb biased 0
   then if Z.eqb fraction 0 then S754_zero s
        else S754_finite s (Z.to_pos fraction) least_exponent
   else S754_finite s (Z.to_pos (2 ^ mw + fraction)) (biased - bias - mw))%Z.

(** The numbers that the format holds. *)
Definition in_format (f : spec_float) : Prop :=
  match f with
  | S754_zero _ | S754_infinity _ => True
  | S754_nan => False
  | S754_finite _ m e =>
      (Z.pos m < 2 ^ mw ∧ e = least_exponent ∨
       2 ^ mw ≤ Z.pos m < 2 * 2 ^ mw ∧ least_exponent ≤ e < least_exponent + 2 ^ ew - 2)%Z
  end.

Lemma float_of_fields s biased fraction :
  (0 < mw)%Z → (1 < ew)%Z → (0 ≤ biased < 2 ^ ew)%Z → (0 ≤ fraction < 2 ^ mw)%Z →
  float_of_bits (Z.to_N (fields_bits s biased fraction)) =
   (if Z.eqb biased (2 ^ ew - 1)
   then if Z.eqb fraction 0 then S754_infinity s else S754_nan
   else if Z.eqb biased 0
   then if Z.eqb fraction 0 then S754_zero s
        else S754_finite s (Z.to_pos fraction) least_exponent
   else S754_finite s (Z.to_pos (2 ^ mw + fraction)) (biased - bias - mw))%Z.
Proof.
  intros Hm He Hb Hf. assert (0 < 2 ^ mw)%Z as HA by (apply Z.pow_pos_nonneg; lia).
  assert (0 < 2 ^ ew)%Z as HB by (apply Z.pow_pos_nonneg; lia).
  unfold float_of_bits, fields_bits. revert HA HB Hb Hf.
  generalize (2 ^ mw)%Z as A, (2 ^ ew)%Z as B. intros A B HA HB Hb Hf.
  rewrite Z2N.id by (destruct s; nia).
  assert ((((if s then B else 0) + biased) * A + fraction) / A = (if s then B else 0) + biased)%Z as ->.
  { rewrite Z.div_add_l, Z.div_small by lia. lia. }
  assert ((((if s then B else 0) + biased) * A + fraction) mod A = fraction)%Z as ->.
  { rewrite Z.add_comm, Z.mod_add, Z.mod_small by lia. done. }
  assert (((if s then B else 0) + biased) mod B = biased)%Z as ->.
  { destruct s; [|by apply Z.mod_small]. rewrite Z.add_comm.
    rewrite <- (Z.mul_1_l B) at 1. rewrite Z.mod_add, Z.mod_small by lia. done. }
  assert (Z.leb B ((if s then B else 0) + biased) = s) as ->.
  { destruct s; [apply Z.leb_le; lia|apply Z.leb_gt; lia]. }
  done.
Qed.

Lemma float_roundtrip f :
  (0 < mw)%Z → (1 < ew)%Z → in_format f → float_of_bits (float_bits f) = f.
Proof.
  intros Hm He Hf. assert (0 < 2 ^ mw)%Z as HA by (apply Z.pow_pos_nonneg; lia).
  assert (2 ^ 2 ≤ 2 ^ ew)%Z as HB by (apply Z.pow_le_mono_r; lia).
  unfold float_bits. destruct f as [s|s| |s m e]; cbn [in_format] in Hf.
  - rewrite float_of_fields by lia. destruct (Z.eqb_spec 0 (2 ^ ew - 1)); [lia|done].
  - rewrite float_of_fields by lia. by rewrite Z.eqb_refl.
  - done.
  - unfold least_exponent in Hf. destruct (Z.ltb_spec (Z.pos m) (2 ^ mw)).
    + rewrite float_of_fields by lia. destruct (Z.eqb_spec 0 (2 ^ ew - 1)); [lia|].
      cbn [Z.eqb]. f_equal. unfold least_exponent. lia.
    + rewrite float_of_fields by lia.
      destruct (Z.eqb_spec (e + bias + mw) (2 ^ ew - 1)); [lia|].
      destruct (Z.eqb_spec (e + bias + mw) 0); [lia|]. f_equal; [lia|lia].
Qed.

Lemma float_bits_bounded f :
  (0 < mw)%Z → (1 < ew)%Z → in_format f → (Z.of_N (float_bits f) < 2 * 2 ^ ew * 2 ^ mw)%Z.
Proof.
  intros Hm He Hf. assert (0 < 2 ^ mw)%Z as HA by (apply Z.pow_pos_nonneg; lia).
  assert (2 ^ 2 ≤ 2 ^ ew)%Z as HB by (apply Z.pow_le_mono_r; lia).
  assert (∀ s biased fraction, 0 ≤ biased < 2 ^ ew → 0 ≤ fraction < 2 ^ mw →
    Z.of_N (Z.to_N (fields_bits s biased fraction)) < 2 * 2 ^ ew * 2 ^ mw)%Z as H.
  { intros s biased fraction Hb Hr. unfold fields_bits. revert HA HB Hb Hr. clear.
    generalize (2 ^ mw)%Z as A, (2 ^ ew)%Z as B. intros A B HA HB Hb Hr.
    rewrite Z2N.id by (destruct s; nia). destruct s; nia. }
  unfold float_bits. destruct f as [s|s| |s m e]; cbn [in_format] in Hf; [apply H; lia..|done|].
  unfold least_exponent in Hf. destruct (Z.ltb_spec (Z.pos m) (2 ^ mw)); apply H; lia.
Qed.
End floats.

Definition Float64bits : spec_float → N := float_bits 52 11.
Definition Float64frombits : N → spec_float := float_of_bits 52 11.
Definition Float32bits : spec_float → N := float_bits 23 8.
Definition Float32frombits : N → spec_float := float_of_bits 23 8.

(** ** Hexadecimal *)

Definition hex_value (c : ascii) : option N :=
  (let n := N_of_ascii c in
   if (48 <=? n) && (n <=? 57) then Some (n - 48)
   else if (97 <=? n) && (n <=? 102) then Some (n - 87)
   else if (65 <=? n) && (n <=? 70) then Some (n - 55)
   else None)%N.

(** [hex.DecodeString]. *)
Fixpoint DecodeString (s : string) : option (list N) :=
  match s with
  | EmptyString => Some []
  | String _ EmptyString => None
  | String c (String d rest) =>
      high ← hex_value c; low ← hex_value d; decoded ← DecodeString rest;
      Some (16 * high + low :: decoded)%N
  end.

Lemma hex_value_char n : (n < 16)%N → hex_value (hex_char n) = Some n.
Proof.
  intros Hn. assert (Forall (λ n, hex_value (hex_char n) = Some n) (map N.of_nat (seq 0 16))) as H
    by (repeat constructor).
  rewrite Forall_forall in H. apply H. rewrite <- (N2Nat.id n).
  apply (list_elem_of_fmap_2 N.of_nat), elem_of_seq. lia.
Qed.

Lemma DecodeString_hex s : DecodeString (hex s) = Some (bytes_of s).
Proof.
  induction s as [|c s IH]; [done|]. cbn [hex].
  pose proof (N_ascii_bounded c) as Hc. change (N_of_ascii c) with (byte_of c) in Hc.
  set (n := byte_of c) in *.
  assert (hex_digits 2 n = String (hex_char (n / 16)) (String (hex_char (n mod 16)) "")) as ->.
  { cbn. do 2 f_equal. rewrite N.mod_small; [done|]. apply N.Div0.div_lt_upper_bound. lia. }
  rewrite !app_cons, app_empty. cbn [DecodeString].
  rewrite !hex_value_char by (try apply N.mod_lt; try apply N.Div0.div_lt_upper_bound; lia). cbn.
  rewrite IH. cbn. do 2 f_equal. subst n. lia.
Qed.
