(* ===== verification/JsonTokens.v ===== *)
(** * Reading JSON token by token

    The [Decoder.Token] of Go's [encoding/json], with [UseNumber], which the
    strict decoders of provider documents are written on: its tokens, the
    states by which it enforces commas and colons, and the literals, strings
    with their escapes included.  A decoder that has read is a decoder with
    what is left of its input. *)

From S2P Require Import Prelude Encoding Json.
Open Scope string_scope.
Open Scope go_scope.
Open Scope list_scope.

(** ** Literals *)

Definition json_space (b : N) : bool := bool_decide (b ∈ [32; 9; 13; 10]%N).
Definition json_digit : N → bool := within 48 57.

(** The value of a hexadecimal digit. *)
Definition hex_value (b : N) : option N :=
  if json_digit b then Some (b - 48)%N
  else if within 97 102 b then Some (b - 87)%N
  else if within 65 70 b then Some (b - 55)%N else None.

(** The bytes up to the first that fails the test, and the rest. *)
Fixpoint span (test : N → bool) (l : list N) : list N * list N :=
  match l with
  | [] => ([], [])
  | b :: rest => if test b then prod_map (cons b) id (span test rest) else ([], l)
  end.

(** At least one digit. *)
Definition some_digits (l : list N) : option (list N * list N) :=
  match span json_digit l with
  | ([], _) => None
  | (digits, rest) => Some (digits, rest)
  end.

Definition integer_part (l : list N) : option (list N * list N) :=
  match l with
  | 48%N :: rest => Some ([48%N], rest)
  | _ => some_digits l
  end.

Definition fraction_part (l : list N) : option (list N * list N) :=
  match l with
  | 46%N :: rest => prod_map (cons 46%N) id <$> some_digits rest
  | _ => Some ([], l)
  end.

Definition exponent_part (l : list N) : option (list N * list N) :=
  match l with
  | e :: rest =>
      if N.eqb e 101 || N.eqb e 69 then
        match rest with
        | sign :: digits =>
            if N.eqb sign 43 || N.eqb sign 45
            then prod_map (λ d, e :: sign :: d) id <$> some_digits digits
            else prod_map (cons e) id <$> some_digits rest
        | [] => None
        end
      else Some ([], l)
  | [] => Some ([], [])
  end.

Definition unsigned_number (l : list N) : option (list N * list N) :=
  '(i, l1) ← integer_part l;
  '(f, l2) ← fraction_part l1;
  '(e, l3) ← exponent_part l2;
  Some (i ++ f ++ e, l3).

Definition scan_number (l : list N) : option (list N * list N) :=
  match l with
  | 45%N :: rest => prod_map (cons 45%N) id <$> unsigned_number rest
  | _ => unsigned_number l
  end.

(** ** Strings *)

(** The bytes between the quotes; escapes are checked, not replaced. *)
Fixpoint scan_string (l : list N) : option (list N * list N) :=
  match l with
  | [] => None
  | b :: rest =>
      if N.eqb b 34 then Some ([], rest)
      else if N.ltb b 32 then None
      else if N.eqb b 92 then
        match rest with
        | [] => None
        | e :: rest' =>
            if N.eqb e 117 then
              match rest' with
              | h1 :: h2 :: h3 :: h4 :: rest'' =>
                  if forallb (λ h, non_nil (hex_value h) (λ _, true)) [h1; h2; h3; h4]
                  then prod_map (app [b; e; h1; h2; h3; h4]) id <$> scan_string rest''
                  else None
              | _ => None
              end
            else if bool_decide (e ∈ [98; 102; 110; 114; 116; 92; 47; 34]%N)
            then prod_map (app [b; e]) id <$> scan_string rest'
            else None
        end
      else prod_map (cons b) id <$> scan_string rest
  end.

(** [utf8.EncodeRune]. *)
Definition encodeRune (r : N) : list N :=
  (if r <? 128 then [r]
   else if r <? 2048 then [192 + r / 64; 128 + r mod 64]
   else if r <? 65536 then [224 + r / 4096; 128 + (r / 64) mod 64; 128 + r mod 64]
   else [240 + r / 262144; 128 + (r / 4096) mod 64; 128 + (r / 64) mod 64; 128 + r mod 64])%N.

Definition replacementChar : list N := [239; 191; 189]%N.

Definition code_unit (h1 h2 h3 h4 : N) : N :=
  let digit h := default 0%N (hex_value h) in
  (((digit h1 * 16 + digit h2) * 16 + digit h3) * 16 + digit h4)%N.

Definition surrogate : N → bool := within 55296 57343.

(** [utf16.DecodeRune], of a pair. *)
Definition surrogate_pair (high low : N) : option N :=
  if within 55296 56319 high && within 56320 57343 low
  then Some ((high - 55296) * 1024 + (low - 56320) + 65536)%N else None.

(** [unquote]: escapes are replaced, and so is what is not UTF-8. *)
Fixpoint unquoted (l : list rune) : list N :=
  match l with
  | [] => []
  | Rune [92%N] :: Rune [117%N] :: Rune [h1] :: Rune [h2] :: Rune [h3] :: Rune [h4] :: rest =>
      let unit1 := code_unit h1 h2 h3 h4 in
      if surrogate unit1 then
        match rest with
        | Rune [92%N] :: Rune [117%N] :: Rune [g1] :: Rune [g2] :: Rune [g3] :: Rune [g4] :: rest' =>
            match surrogate_pair unit1 (code_unit g1 g2 g3 g4) with
            | Some r => encodeRune r ++ unquoted rest'
            | None => replacementChar ++ unquoted rest
            end
        | _ => replacementChar ++ unquoted rest
        end
      else encodeRune unit1 ++ unquoted rest
  | Rune [92%N] :: Rune [e] :: rest => plain_escape e :: unquoted rest
  | Rune bytes :: rest => bytes ++ unquoted rest
  | RuneError _ :: rest => replacementChar ++ unquoted rest
  end.

Definition json_string (l : list N) : option (string * list N) :=
  prod_map (λ raw, of_bytes (unquoted (runes raw))) id <$> scan_string l.

(** ** Tokens *)

Inductive token :=
  | TDelim (delimiter : N)
  | TString (s : string)
  | TNumber (text : string)
  | TBool (b : bool)
  | TNull.

Inductive tokenState :=
  | tokenTopValue | tokenArrayStart | tokenArrayValue | tokenArrayComma
  | tokenObjectStart | tokenObjectKey | tokenObjectColon | tokenObjectValue | tokenObjectComma.

#[export] Instance tokenState_eq_dec : EqDecision tokenState.
Proof. solve_decision. Defined.

Record Decoder := {
  dec_state : tokenState;
  dec_stack : list tokenState;
  dec_input : list N }.

Definition NewDecoder (text : string) : Decoder :=
  {| dec_state := tokenTopValue; dec_stack := []; dec_input := bytes_of text |}.

Inductive token_reply :=
  | Read (t : token) (rest : Decoder)
  | EndOfInput
  | Malformed.

Definition tokenValueAllowed (state : tokenState) : bool :=
  bool_decide (state ∈ [tokenTopValue; tokenArrayStart; tokenArrayValue; tokenObjectValue]).

Definition tokenValueEnd (state : tokenState) : tokenState :=
  match state with
  | tokenArrayStart | tokenArrayValue => tokenArrayComma
  | tokenObjectValue => tokenObjectComma
  | state => state
  end.

(** [null], [true] and [false]. *)
Definition word (l : list N) : option (token * list N) :=
  match l with
  | 110%N :: 117%N :: 108%N :: 108%N :: rest => Some (TNull, rest)
  | 116%N :: 114%N :: 117%N :: 101%N :: rest => Some (TBool true, rest)
  | 102%N :: 97%N :: 108%N :: 115%N :: 101%N :: rest => Some (TBool false, rest)
  | _ => None
  end.

(** [Decode] of a value that is no object and no array. *)
Definition scalar_token (l : list N) : option (token * list N) :=
  match l with
  | 34%N :: rest => prod_map TString id <$> json_string rest
  | _ => match word l with
         | Some read => Some read
         | None => prod_map (λ digits, TNumber (of_bytes digits)) id <$> scan_number l
         end
  end.

Definition open_composite (delimiter : N) (start state : tokenState) (stack : list tokenState)
    (rest : list N) : token_reply :=
  if tokenValueAllowed state
  then Read (TDelim delimiter) {| dec_state := start; dec_stack := state :: stack;
                                  dec_input := rest |}
  else Malformed.

Definition close_composite (delimiter : N) (allowed : list tokenState) (state : tokenState)
    (stack : list tokenState) (rest : list N) : token_reply :=
  match stack with
  | outer :: stack' =>
      if bool_decide (state ∈ allowed)
      then Read (TDelim delimiter) {| dec_state := tokenValueEnd outer; dec_stack := stack';
                                      dec_input := rest |}
      else Malformed
  | [] => Malformed
  end.

(** [Token], from a state and what is left. *)
Fixpoint read_token (state : tokenState) (stack : list tokenState) (l : list N) : token_reply :=
  match l with
  | [] => EndOfInput
  | b :: rest =>
      if json_space b then read_token state stack rest
      else if N.eqb b 91 then open_composite b tokenArrayStart state stack rest
      else if N.eqb b 93 then
        close_composite b [tokenArrayStart; tokenArrayComma] state stack rest
      else if N.eqb b 123 then open_composite b tokenObjectStart state stack rest
      else if N.eqb b 125 then
        close_composite b [tokenObjectStart; tokenObjectComma] state stack rest
      else if N.eqb b 58 then
        match state with
        | tokenObjectColon => read_token tokenObjectValue stack rest
        | _ => Malformed
        end
      else if N.eqb b 44 then
        match state with
        | tokenArrayComma => read_token tokenArrayValue stack rest
        | tokenObjectComma => read_token tokenObjectKey stack rest
        | _ => Malformed
        end
      else if N.eqb b 34 && bool_decide (state ∈ [tokenObjectStart; tokenObjectKey]) then
        match json_string rest with
        | Some (key, rest') =>
            Read (TString key) {| dec_state := tokenObjectColon; dec_stack := stack;
                                  dec_input := rest' |}
        | None => Malformed
        end
      else if tokenValueAllowed state then
        match scalar_token l with
        | Some (t, rest') =>
            Read t {| dec_state := tokenValueEnd state; dec_stack := stack; dec_input := rest' |}
        | None => Malformed
        end
      else Malformed
  end.

Definition Token (d : Decoder) : token_reply :=
  read_token (dec_state d) (dec_stack d) (dec_input d).

(** ** Examples *)

Fixpoint tokens (n : nat) (d : Decoder) : list token :=
  match n with
  | 0 => []
  | S n => match Token d with Read t d' => t :: tokens n d' | _ => [] end
  end.

(** Texts of the examples write quotes as apostrophes. *)
Definition json_text (s : string) : string :=
  of_bytes (map (λ b, if N.eqb b 39 then 34%N else b) (bytes_of s)).

Example object_tokens :
  tokens 20 (NewDecoder (json_text " {'a': [1, -2.5e3, true] , 'b\u00e9\ud83d\ude00': null}")) =
    [TDelim 123; TString "a"; TDelim 91; TNumber "1"; TNumber "-2.5e3"; TBool true; TDelim 93;
     TString "bé😀"; TNull; TDelim 125].
Proof. vm_compute. reflexivity. Qed.

Example comma_required :
  tokens 20 (NewDecoder (json_text "[1 2]")) = [TDelim 91; TNumber "1"].
Proof. vm_compute. reflexivity. Qed.

Example no_value_after_comma :
  tokens 20 (NewDecoder (json_text "{'a':1,}")) = [TDelim 123; TString "a"; TNumber "1"].
Proof. vm_compute. reflexivity. Qed.
