(* ===== verification/Codec.v ===== *)
(** * The codec of developer specs

    Models [src/internal/persistence/postgres/spec_codec.go]: a spec is persisted
    as a JSON tree whose nodes keep the Go type of every value.  What is decoded
    is what was encoded, at every type the domain accepts. *)

From S2P Require Import Prelude Values Text Encoding Json Strconv.
From Stdlib Require Import SpecFloat.
Open Scope string_scope.
Open Scope go_scope.

Definition resourceSpecCodecVersion : Z := 1.

(** ** Encoding *)

Definition int_name (k : int_kind) : string :=
  match k with
  | Int => "int" | Int8 => "int8" | Int16 => "int16" | Int32 => "int32" | Int64 => "int64"
  | Uint => "uint" | Uint8 => "uint8" | Uint16 => "uint16" | Uint32 => "uint32"
  | Uint64 => "uint64"
  end.

Definition int_signed (k : int_kind) : bool :=
  match k with Int | Int8 | Int16 | Int32 | Int64 => true | _ => false end.

(** [strconv.IntSize] is 64. *)
Definition int_bits (k : int_kind) : N :=
  match k with
  | Int8 | Uint8 => 8 | Int16 | Uint16 => 16 | Int32 | Uint32 => 32 | _ => 64
  end.

Definition scalar_node (kind value : string) : node := Node kind (Some value) None None.

(** [putUint32] and [putUint64] fill a slice from its end. *)
Definition putUint (size : nat) (n : N) : string := of_bytes (big_endian size n).

Definition encodeObjectWith (encode : value → outcome node)
    : list (string * value) → outcome (list (string * node)) :=
  fix go m :=
    match m with
    | [] => Ok []
    | (key, item) :: m' =>
        match encode item with
        | Ok encoded => object ← go m'; Ok ((key, encoded) :: object)
        | Err e => Err (Wrapf e "encode property %q: %w" [ArgS key])
        | Panic s => Panic s
        end
    end.

Definition encodeListWith (encode : value → outcome node) : N → list value → outcome (list node) :=
  fix go i l :=
    match l with
    | [] => Ok []
    | item :: l' =>
        match encode item with
        | Ok encoded => nodes ← go (i + 1)%N l'; Ok (encoded :: nodes)
        | Err e => Err (Wrapf e "encode list item %d: %w" [ArgN i])
        | Panic s => Panic s
        end
    end.

Fixpoint encodeSpecValue (v : value) : outcome node :=
  match v with
  | VNil => Ok (Node "null" None None None)
  | VBool b => Ok (scalar_node "bool" (FormatBool b))
  | VString s => Ok (scalar_node "string" s)
  | VInt k z => Ok (scalar_node (int_name k)
      (if int_signed k then FormatInt z else FormatUint (Z.to_N z)))
  | VFloat32 f => Ok (scalar_node "float32" (hex (putUint 4 (Float32bits f))))
  | VFloat64 f => Ok (scalar_node "float64" (hex (putUint 8 (Float64bits f))))
  | VMap m =>
      object ← encodeObjectWith encodeSpecValue m; Ok (Node "object" None (Some object) None)
  | VList l =>
      nodes ← encodeListWith encodeSpecValue 0 l; Ok (Node "list" None None (Some nodes))
  | VOther t => Err (Errorf "unsupported resource spec value %T" [ArgS t])
  end.

Definition encodeResourceSpec (spec : ResourceSpec) : outcome (Z * list N) :=
  values ← Values spec;
  node ← encodeSpecValue (VMap values);
  Ok (resourceSpecCodecVersion, marshal node).

(** ** Decoding *)

Definition malformed (n : node) : error :=
  Errorf "malformed %s resource spec value" [ArgS (n_Kind n)].

Definition requireScalar (n : node) : outcome string :=
  match n_Scalar n, n_Object n, n_List n with
  | Some s, None, None => Ok s
  | _, _, _ => Err (malformed n)
  end.

Definition requireContainer (n : node) (object : bool) : outcome unit :=
  let nil {A} (o : option A) := match o with Some _ => false | None => true end in
  fail_if negb (nil (n_Scalar n)) || (object && nil (n_Object n)) || (negb object && nil (n_List n)) ||
          (object && negb (nil (n_List n))) || (negb object && negb (nil (n_Object n)))
    with malformed n ;;
  Ok tt.

Definition decoding_failed {A} (n : node) (m : outcome A) : outcome A :=
  match m with
  | Err e => Err (Wrapf e "decode %s resource spec value: %w" [ArgS (n_Kind n)])
  | _ => m
  end.

Definition parseSigned (n : node) (bits : N) : outcome Z :=
  scalar ← requireScalar n; decoding_failed n (ParseInt scalar bits).
Definition parseUnsigned (n : node) (bits : N) : outcome N :=
  scalar ← requireScalar n; decoding_failed n (ParseUint scalar bits).

Definition decodeBits (value : string) (size : nat) : outcome (list N) :=
  match DecodeString value with
  | Some bits =>
      fail_if bool_decide (length bits ≠ size)
        with Errorf "malformed floating-point resource spec value" [] ;; Ok bits
  | None => Err (Errorf "malformed floating-point resource spec value" [])
  end.

Definition decodeObjectWith (decode : node → outcome value)
    : list (string * node) → outcome (list (string * value)) :=
  fix go m :=
    match m with
    | [] => Ok []
    | (key, item) :: m' =>
        fail_if key =? "" with Errorf "resource spec property name cannot be empty" [] ;;
        match decode item with
        | Ok v => object ← go m'; Ok ((key, v) :: object)
        | Err e => Err (Wrapf e "decode property %q: %w" [ArgS key])
        | Panic s => Panic s
        end
    end.

Definition decodeListWith (decode : node → outcome value) : N → list node → outcome (list value) :=
  fix go i l :=
    match l with
    | [] => Ok []
    | item :: l' =>
        match decode item with
        | Ok v => items ← go (i + 1)%N l'; Ok (v :: items)
        | Err e => Err (Wrapf e "decode list item %d: %w" [ArgN i])
        | Panic s => Panic s
        end
    end.

Definition decodeInteger (n : node) (k : int_kind) : outcome value :=
  z ← (if int_signed k then parseSigned n (int_bits k)
       else u ← parseUnsigned n (int_bits k); Ok (Z.of_N u));
  Ok (VInt k z).

Fixpoint decodeSpecValue (n : node) : outcome value :=
  let kind := n_Kind n in
  if kind =? "null" then
    match n_Scalar n, n_Object n, n_List n with
    | None, None, None => Ok VNil
    | _, _, _ => Err (Errorf "malformed null resource spec value" [])
    end
  else if kind =? "bool" then
    scalar ← requireScalar n; b ← ParseBool scalar; Ok (VBool b)
  else if kind =? "string" then scalar ← requireScalar n; Ok (VString scalar)
  else if kind =? "int" then decodeInteger n Int
  else if kind =? "int8" then decodeInteger n Int8
  else if kind =? "int16" then decodeInteger n Int16
  else if kind =? "int32" then decodeInteger n Int32
  else if kind =? "int64" then decodeInteger n Int64
  else if kind =? "uint" then decodeInteger n Uint
  else if kind =? "uint8" then decodeInteger n Uint8
  else if kind =? "uint16" then decodeInteger n Uint16
  else if kind =? "uint32" then decodeInteger n Uint32
  else if kind =? "uint64" then decodeInteger n Uint64
  else if kind =? "float32" then
    scalar ← requireScalar n; bits ← decodeBits scalar 4;
    Ok (VFloat32 (Float32frombits (from_big_endian bits)))
  else if kind =? "float64" then
    scalar ← requireScalar n; bits ← decodeBits scalar 8;
    Ok (VFloat64 (Float64frombits (from_big_endian bits)))
  else if kind =? "object" then
    requireContainer n true ≫= λ _,
    match n_Object n with
    | Some entries => object ← decodeObjectWith decodeSpecValue entries; Ok (VMap object)
    | None => Ok (VMap [])
    end
  else if kind =? "list" then
    requireContainer n false ≫= λ _,
    match n_List n with
    | Some nodes => items ← decodeListWith decodeSpecValue 0 nodes; Ok (VList items)
    | None => Ok (VList [])
    end
  else Err (Errorf "unknown resource spec value kind %q" [ArgS kind]).

(** What the JSON decoder finds: a tree and whether data trails it. *)
Section decoding.
Context (Decode : list N → outcome (node * bool)).

Definition decodeResourceSpec (version : Z) (encoded : list N) : outcome ResourceSpec :=
  fail_if negb (Z.eqb version resourceSpecCodecVersion)
    with Errorf "unsupported resource spec codec version %d" [ArgZ version] ;;
  match Decode encoded with
  | Panic s => Panic s
  | Err e => Err (Wrapf e "decode resource spec: %w" [])
  | Ok (node, trailing) =>
      fail_if (trailing : bool) with Errorf "decode resource spec: trailing data" [] ;;
      v ← decodeSpecValue node;
      match v with
      | VMap values => NewResourceSpec (Some values)
      | _ => Err (Errorf "resource spec root must be an object" [])
      end
  end.
End decoding.

Lemma Ok_inj {A} (x y : A) : Ok x = Ok y → x = y.
Proof. by intros [= ->]. Qed.

(** ** The round trip *)

(** A value that Go can hold and the domain accepts: integers in the range of
    their type, numbers of their format, maps with distinct keys. *)
Inductive go_value : value → Prop :=
  | gv_nil : go_value VNil
  | gv_bool b : go_value (VBool b)
  | gv_string s : go_value (VString s)
  | gv_int k z : in_kind k z → go_value (VInt k z)
  | gv_float32 f : non_finite f = false → in_format 23 8 f → go_value (VFloat32 f)
  | gv_float64 f : non_finite f = false → in_format 52 11 f → go_value (VFloat64 f)
  | gv_map m : NoDup m.*1 → Forall (λ kv, kv.1 ≠ "" ∧ go_value kv.2) m → go_value (VMap m)
  | gv_list l : Forall go_value l → go_value (VList l).

Lemma putUint_decoded size n : (n < 256 ^ N.of_nat size)%N →
  decodeBits (hex (putUint size n)) size = Ok (big_endian size n).
Proof.
  intros Hn. unfold decodeBits, putUint. rewrite DecodeString_hex.
  rewrite bytes_of_of_bytes by apply big_endian_bounded.
  by rewrite bool_decide_false by (rewrite big_endian_length; auto).
Qed.

Lemma float_decoded mw ew size f :
  (0 < mw)%Z → (1 < ew)%Z → in_format mw ew f →
  (2 * 2 ^ ew * 2 ^ mw = Z.of_N (256 ^ N.of_nat size))%Z →
  decodeBits (hex (putUint size (float_bits mw ew f))) size =
    Ok (big_endian size (float_bits mw ew f)) ∧
  float_of_bits mw ew (from_big_endian (big_endian size (float_bits mw ew f))) = f.
Proof.
  intros Hm He Hf Hsize. pose proof (float_bits_bounded mw ew f Hm He Hf) as Hb.
  assert (float_bits mw ew f < 256 ^ N.of_nat size)%N as Hn by lia. split.
  - by apply putUint_decoded.
  - rewrite big_endian_roundtrip by done. by apply float_roundtrip.
Qed.

Lemma integer_decoded k z : in_kind k z →
  decodeInteger (scalar_node (int_name k)
    (if int_signed k then FormatInt z else FormatUint (Z.to_N z))) k = Ok (VInt k z).
Proof.
  intros Hz. unfold decodeInteger, parseSigned, parseUnsigned, requireScalar, scalar_node.
  cbn [n_Scalar n_Object n_List]. unfold mbind, outcome_bind.
  unfold in_kind in Hz. destruct k; cbn [int_signed int_bits int_range fst snd] in *;
    first [rewrite ParseInt_FormatInt by (cbn; lia)
          |rewrite ParseUint_FormatUint by (cbn; lia)]; cbn [decoding_failed]; try done;
    rewrite Z2N.id by lia; done.
Qed.

Lemma decode_float32 s : decodeSpecValue (scalar_node "float32" s) =
  (bits ← decodeBits s 4; Ok (VFloat32 (Float32frombits (from_big_endian bits)))).
Proof. reflexivity. Qed.
Lemma decode_float64 s : decodeSpecValue (scalar_node "float64" s) =
  (bits ← decodeBits s 8; Ok (VFloat64 (Float64frombits (from_big_endian bits)))).
Proof. reflexivity. Qed.
Lemma decode_integer k s :
  decodeSpecValue (scalar_node (int_name k) s) = decodeInteger (scalar_node (int_name k) s) k.
Proof. by destruct k. Qed.
Lemma decode_object entries : decodeSpecValue (Node "object" None (Some entries) None) =
  (object ← decodeObjectWith decodeSpecValue entries; Ok (VMap object)).
Proof. reflexivity. Qed.
Lemma decode_list nodes : decodeSpecValue (Node "list" None None (Some nodes)) =
  (items ← decodeListWith decodeSpecValue 0 nodes; Ok (VList items)).
Proof. reflexivity. Qed.

Definition codes (v : value) (n : node) : Prop := encodeSpecValue v = Ok n ∧ decodeSpecValue n = Ok v.

Lemma object_roundtrip m :
  Forall (λ kv, kv.1 ≠ "" ∧ ∃ n, codes kv.2 n) m →
  ∃ object, encodeObjectWith encodeSpecValue m = Ok object ∧
            decodeObjectWith decodeSpecValue object = Ok m.
Proof.
  induction 1 as [|[k v] m [Hk (n & He & Hd)] _ (object & Heo & Hdo)]; [by exists []|].
  exists ((k, n) :: object). cbn [encodeObjectWith decodeObjectWith] in *. cbn [fst snd] in *.
  rewrite He, Hd, Heo, Hdo. cbn. by rewrite bool_decide_false.
Qed.

Lemma list_roundtrip l i :
  Forall (λ v, ∃ n, codes v n) l →
  ∃ nodes, encodeListWith encodeSpecValue i l = Ok nodes ∧
           decodeListWith decodeSpecValue i nodes = Ok l.
Proof.
  intros Hl. revert i. induction Hl as [|v l (n & He & Hd) _ IH]; intros i; [by exists []|].
  destruct (IH (i + 1)%N) as (nodes & Hen & Hdn). exists (n :: nodes).
  cbn [encodeListWith decodeListWith] in *. by rewrite He, Hd, Hen, Hdn.
Qed.

Lemma value_roundtrip v : go_value v → ∃ n, codes v n.
Proof.
  unfold codes. induction v as [|b|s|k z|f|f|m IH|l IH|t] using value_nested_ind; intros Hv;
    inversion Hv as [| | |k' z' Hz|f' Hn Hf|f' Hn Hf|m' Hd Hm|l' Hl]; subst.
  - by eexists.
  - eexists. split; [reflexivity|]. by destruct b.
  - by eexists.
  - eexists. split; [reflexivity|]. rewrite decode_integer. by apply integer_decoded.
  - eexists. split; [reflexivity|]. rewrite decode_float32.
    destruct (float_decoded 23 8 4 f) as [Hb Hr]; [done..|].
    unfold Float32bits, Float32frombits. rewrite Hb. cbn [mbind outcome_bind]. by rewrite Hr.
  - eexists. split; [reflexivity|]. rewrite decode_float64.
    destruct (float_decoded 52 11 8 f) as [Hb Hr]; [done..|].
    unfold Float64bits, Float64frombits. rewrite Hb. cbn [mbind outcome_bind]. by rewrite Hr.
  - destruct (object_roundtrip m) as (object & He & Hd').
    { rewrite Forall_forall in *. intros kv Hin. split; [by apply Hm|]. apply IH; [done|by apply Hm]. }
    exists (Node "object" None (Some object) None). split; [cbn; by rewrite He|].
    by rewrite decode_object, Hd'.
  - destruct (list_roundtrip l 0) as (nodes & He & Hd').
    { rewrite Forall_forall in *. intros v Hin. apply IH; [done|by apply Hl]. }
    exists (Node "list" None None (Some nodes)). split; [cbn; by rewrite He|].
    by rewrite decode_list, Hd'.
Qed.

(** ** The order of keys *)

(** Maps have no order; this one is that of the documents. *)
Fixpoint sorted_value (v : value) : value :=
  match v with
  | VMap m => VMap (sort_by fst string_le (map (λ '(k, x), (k, sorted_value x)) m))
  | VList l => VList (map sorted_value l)
  | _ => v
  end.

Lemma encodeObject_spec m object :
  encodeObjectWith encodeSpecValue m = Ok object ↔
  Forall2 (λ kv kn, kv.1 = kn.1 ∧ encodeSpecValue kv.2 = Ok kn.2) m object.
Proof.
  revert object. induction m as [|[k v] m IH]; intros object; cbn [encodeObjectWith].
  - split; [intros [= <-]; constructor|]. intros H. by inversion H.
  - split.
    + destruct (encodeSpecValue v) as [n| |] eqn:Hv; intros H; try done.
      apply bind_Ok in H as (o & Ho & [= <-]). constructor; [done|]. by apply IH.
    + intros H. inversion H as [|? [k' n] ? o [Hk Hn] Ho]; subst. cbn in *. subst k'.
      rewrite Hn. apply IH in Ho. by rewrite Ho.
Qed.

Lemma encodeList_spec l i nodes :
  encodeListWith encodeSpecValue i l = Ok nodes ↔
  Forall2 (λ v n, encodeSpecValue v = Ok n) l nodes.
Proof.
  revert i nodes. induction l as [|v l IH]; intros i nodes; cbn [encodeListWith].
  - split; [intros [= <-]; constructor|]. intros H. by inversion H.
  - split.
    + destruct (encodeSpecValue v) as [n| |] eqn:Hv; intros H; try done.
      apply bind_Ok in H as (o & Ho & [= <-]). constructor; [done|]. by apply IH in Ho.
    + intros H. inversion H as [|? n ? o Hn Ho]; subst. rewrite Hn.
      apply (IH (i + 1)%N) in Ho. by rewrite Ho.
Qed.

Lemma sort_Forall2 {A B} (P : A → B → Prop) (l : list (string * A)) (k : list (string * B)) :
  NoDup l.*1 → Forall2 (λ x y, x.1 = y.1 ∧ P x.2 y.2) l k →
  Forall2 (λ x y, x.1 = y.1 ∧ P x.2 y.2) (sort_by fst string_le l) (sort_by fst string_le k).
Proof.
  intros Hnd H.
  assert (∃ z : list ((string * A) * (string * B)), l = map fst z ∧ k = map snd z ∧
    Forall (λ p, p.1.1 = p.2.1 ∧ P p.1.2 p.2.2) z) as (z & -> & -> & Hz).
  { clear Hnd. induction H as [|x y l k Hxy _ (z & -> & -> & Hz)]; [by exists []|].
    exists ((x, y) :: z). split_and!; [done..|]. by constructor. }
  assert (map (fst ∘ fst) z = map (fst ∘ snd) z) as Hkeys.
  { apply map_ext_Forall. eapply Forall_impl; [exact Hz|]. by intros p [? _]. }
  assert (NoDup (map (fst ∘ fst) z)) as Hnd' by (pose proof Hnd as H1; rewrite <- list_fmap_compose in H1; exact H1).
  rewrite (sort_by_map fst fst z), (sort_by_map snd fst z).
  - assert (sort_by (fst ∘ fst) string_le z = sort_by (fst ∘ snd) string_le z) as ->.
    { apply (sorted_by_key_unique (fst ∘ fst) string_le).
      - rewrite sort_by_Permutation. exact Hnd'.
      - apply (sort_by_sorted (fst ∘ fst) string_le).
      - pose proof (sort_by_sorted (fst ∘ snd) string_le z) as Hs.
        assert (Forall (λ p, p.1.1 = p.2.1) (sort_by (fst ∘ snd) string_le z)) as Heq.
        { rewrite sort_by_Permutation. eapply Forall_impl; [exact Hz|]. by intros p [? _]. }
        revert Hs Heq. generalize (sort_by (fst ∘ snd) string_le z) as w. clear.
        induction 1 as [|x w _ IH Hx]; [by constructor|]. intros [Hxk Hw]%Forall_cons.
          constructor; [by apply IH|].
        rewrite Forall_forall in Hx, Hw |- *. intros y Hy. specialize (Hx y Hy). specialize (Hw y Hy).
        unfold by_key in Hx. cbn in *. by rewrite Hxk, Hw.
      - by rewrite !sort_by_Permutation. }
    assert (Forall (λ p, p.1.1 = p.2.1 ∧ P p.1.2 p.2.2) (sort_by (fst ∘ snd) string_le z)) as Hw
      by by rewrite sort_by_Permutation.
    revert Hw. generalize (sort_by (fst ∘ snd) string_le z) as w. clear.
    induction 1; cbn; by constructor.
  - change (NoDup (map (fst ∘ snd) z)). by rewrite <- Hkeys.
  - exact Hnd'.
Qed.

Lemma sorted_keys {A B} (f : A → B) (m : list (string * A)) :
  (map (λ '(k, x), (k, f x)) m).*1 = m.*1.
Proof. induction m as [|[k x] m IH]; [done|]. cbn. by rewrite <- IH. Qed.

Lemma sorted_go v : go_value v → go_value (sorted_value v).
Proof.
  induction v as [|b|s|k z|f|f|m IH|l IH|t] using value_nested_ind; intros Hv; try done;
    inversion Hv as [| | | | | |m' Hd Hm|l' Hl]; subst; cbn [sorted_value]; constructor.
  - rewrite sort_by_Permutation, sorted_keys. done.
  - rewrite sort_by_Permutation. apply Forall_map. rewrite Forall_forall in *. intros [k x] Hin.
    specialize (Hm _ Hin) as [Hk Hx]. split; [done|]. by apply (IH (k, x)).
  - apply Forall_map. rewrite Forall_forall in *. intros x Hin. by apply IH, Hl.
Qed.

Lemma encode_sorted v n :
  go_value v → encodeSpecValue v = Ok n → encodeSpecValue (sorted_value v) = Ok (sorted_node n).
Proof.
  revert n. induction v as [|b|s|k z|f|f|m IH|l IH|t] using value_nested_ind; intros n Hv Hn;
    try (apply Ok_inj in Hn as <-; reflexivity); [| |done];
    inversion Hv as [| | | | | |m' Hd Hm|l' Hl]; subst; cbn [sorted_value].
  - cbn [encodeSpecValue] in Hn. apply bind_Ok in Hn as (object & Ho & [= <-]).
    apply encodeObject_spec in Ho. cbn [encodeSpecValue sorted_node n_Kind n_Scalar n_Object n_List].
    assert (encodeObjectWith encodeSpecValue
        (sort_by fst string_le (map (λ '(k, x), (k, sorted_value x)) m)) =
      Ok (sort_by fst string_le (map (λ '(k, x), (k, sorted_node x)) object))) as ->; [|done].
    apply encodeObject_spec. apply (sort_Forall2 (λ v n, encodeSpecValue v = Ok n)).
    { by rewrite sorted_keys. }
    clear Hv Hd. apply Forall2_fmap. revert IH Hm. induction Ho as [|[k x] [k' y] m o [Hk Hy] _ IHo];
      [constructor|]. intros [Hx HIH]%Forall_cons [[_ Hg] Hm]%Forall_cons.
    constructor; [|by apply IHo]. cbn in *. split; [done|by apply Hx].
  - cbn [encodeSpecValue] in Hn. apply bind_Ok in Hn as (nodes & Ho & [= <-]).
    apply encodeList_spec in Ho. cbn [encodeSpecValue sorted_node n_Kind n_Scalar n_Object n_List].
    assert (encodeListWith encodeSpecValue 0 (map sorted_value l) = Ok (map sorted_node nodes)) as E;
      [|by rewrite E].
    apply encodeList_spec. apply Forall2_fmap. clear Hv. revert IH Hl. induction Ho; [constructor|].
    intros [Hx HIH]%Forall_cons [Hg Hl]%Forall_cons. constructor; [by apply Hx|by apply IHHo].
Qed.

(** ** Text that is UTF-8 *)

Lemma runes_ascii l : Forall (λ b, b < 128)%N l → forallb well_formed (runes l) = true.
Proof.
  induction 1 as [|b l Hb _ IH]; [done|]. cbn [runes].
  destruct (N.ltb_spec b 128); [|lia]. done.
Qed.

(** The string has no byte of 128 or more. *)
Definition seven_bit (s : string) : Prop := ∀ c, (128 ≤ N_of_ascii c)%N → lacks c s.

Lemma seven_bit_utf8 s : seven_bit s → utf8 s = true.
Proof.
  intros H. apply runes_ascii. unfold bytes_of. apply Forall_map, Forall_forall. intros c Hc.
  apply N.lt_nge. intros Hge. specialize (H c Hge). clear Hge.
  induction s as [|d s IH]; cbn in *; [by apply elem_of_nil in Hc|].
  destruct H as [Hd Hs]. apply elem_of_cons in Hc as [->|Hc]; [done|by apply IH].
Qed.

Lemma decimal_seven_bit n : seven_bit (decimal n).
Proof. intros c Hc. apply decimal_lacks. right. lia. Qed.

Lemma FormatInt_seven_bit z : seven_bit (FormatInt z).
Proof.
  unfold FormatInt. destruct (Z.ltb z 0); [|apply decimal_seven_bit].
  intros c Hc. split; [|by apply decimal_seven_bit]. intros <-. cbn in Hc. lia.
Qed.

Lemma hex_seven_bit s : seven_bit (hex s).
Proof.
  assert (∀ n, (n < 16)%N → N_of_ascii (hex_char n) < 128)%N as Hchar.
  { intros n Hn. unfold hex_char. destruct (N.ltb_spec n 10); rewrite N_ascii_embedding; lia. }
  assert (∀ k n, seven_bit (hex_digits k n)) as Hdigits.
  { intros k. induction k as [|k IH]; intros n c Hc; cbn [hex_digits]; [done|].
    apply lacks_app. split; [by apply IH|]. split; [|done]. intros <-.
    assert (n mod 16 < 16)%N as Hn by (by apply N.mod_lt). specialize (Hchar _ Hn). lia. }
  intros c Hc. induction s as [|d s IH]; [done|]. cbn [hex]. apply lacks_app.
  split; [by apply Hdigits|done].
Qed.

(** The strings and property names of a value are UTF-8. *)
Fixpoint utf8_value (v : value) : bool :=
  match v with
  | VString s => utf8 s
  | VMap m => forallb (λ '(k, x), utf8 k && utf8_value x) m
  | VList l => forallb utf8_value l
  | _ => true
  end.

Lemma utf8_scalar kind s : utf8 kind = true → utf8 s = true → utf8_node (scalar_node kind s) = true.
Proof.
  intros Hk Hs. unfold scalar_node. cbn [utf8_node n_Kind n_Scalar n_Object n_List].
  by rewrite Hk, Hs.
Qed.

Lemma utf8_encoded v n : utf8_value v = true → encodeSpecValue v = Ok n → utf8_node n = true.
Proof.
  revert n. induction v as [|b|s|k z|f|f|m IH|l IH|t] using value_nested_ind; intros n Hv Hn; [..|done].
  - by apply Ok_inj in Hn as <-.
  - apply Ok_inj in Hn as <-. by destruct b.
  - apply Ok_inj in Hn as <-. by apply utf8_scalar.
  - apply Ok_inj in Hn as <-. apply utf8_scalar; [by destruct k|]. apply seven_bit_utf8.
    destruct (int_signed k); [apply FormatInt_seven_bit|apply decimal_seven_bit].
  - apply Ok_inj in Hn as <-. apply utf8_scalar; [done|]. apply seven_bit_utf8, hex_seven_bit.
  - apply Ok_inj in Hn as <-. apply utf8_scalar; [done|]. apply seven_bit_utf8, hex_seven_bit.
  - apply bind_Ok in Hn as (object & Ho & [= <-]). apply encodeObject_spec in Ho.
    cbn [utf8_value] in Hv. change (forallb (λ '(k, m), utf8 k && utf8_node m) object && true = true). rewrite andb_true_r.
    revert IH Hv. induction Ho as [|[k x] [k' y] m o [Hk Hy] _ IHo]; [done|].
    intros [Hx HIH]%Forall_cons. cbn [forallb]. cbn [fst snd] in *. subst k'.
    intros [[Hk Hu]%andb_true_iff Hm]%andb_true_iff. cbn [fst snd] in *.
    by rewrite Hk, (Hx _ Hu Hy), (IHo HIH Hm).
  - apply bind_Ok in Hn as (nodes & Ho & [= <-]). apply encodeList_spec in Ho.
    cbn [utf8_value] in Hv. change (forallb utf8_node nodes = true). revert IH Hv. induction Ho as [|x y l o Hy _ IHo]; [done|].
    intros [Hx HIH]%Forall_cons. cbn [forallb]. intros [Hu Hl]%andb_true_iff.
    by rewrite (Hx _ Hu Hy), (IHo HIH Hl).
Qed.

(** ** Specs *)

Lemma go_valid v : go_value v → spec_valid v.
Proof.
  induction v as [|b|s|k z|f|f|m IH|l IH|t] using value_nested_ind; intros Hv;
    inversion Hv as [| | | |f' Hn Hf|f' Hn Hf|m' Hd Hm|l' Hl]; subst; try (by constructor).
  - constructor. rewrite Forall_forall in *. intros kv Hin. specialize (Hm _ Hin) as [? ?].
    split; [done|by apply IH].
  - constructor. rewrite Forall_forall in *. intros x Hin. by apply IH, Hl.
Qed.

Lemma go_cloned m : go_value (VMap m) → cloneObject m = Ok m.
Proof.
  intros H%go_valid. apply cloneObject_ok. split; [|done]. by inversion H.
Qed.

Definition sorted_spec (s : ResourceSpec) : ResourceSpec :=
  match sorted_value (VMap (spec_values s)) with
  | VMap m => {| spec_values := m |}
  | _ => s
  end.

(** Its tree, and the bytes of the tree. *)
Lemma encodeResourceSpec_run s :
  go_value (VMap (spec_values s)) → ∃ n, codes (VMap (spec_values s)) n ∧
    encodeResourceSpec s = Ok (resourceSpecCodecVersion, marshal n).
Proof.
  intros Hs. destruct (value_roundtrip _ Hs) as (n & He & Hd). exists n. split; [by split|].
  unfold encodeResourceSpec, Values. rewrite go_cloned by done. cbn [mbind outcome_bind].
  by rewrite He.
Qed.

(** Trees with the same document have the same values, up to the order of keys. *)
Lemma sorted_tree_inj v v' n n' :
  go_value v → go_value v' → codes v n → codes v' n' →
  sorted_node n = sorted_node n' → sorted_value v = sorted_value v'.
Proof.
  intros Hv Hv' [He _] [He' _] H.
  pose proof (encode_sorted v n Hv He) as Hs. pose proof (encode_sorted v' n' Hv' He') as Hs'.
  destruct (value_roundtrip _ (sorted_go v Hv)) as (m & Hm & Hd).
  destruct (value_roundtrip _ (sorted_go v' Hv')) as (m' & Hm' & Hd').
  apply Ok_inj. rewrite <- Hd, <- Hd'. f_equal. congruence.
Qed.

(** A nested predicate holds of a sorted tree too. *)
Lemma utf8_sorted n : utf8_node n = true → utf8_node (sorted_node n) = true.
Proof.
  induction n as [kind scalar object items IHo IHl] using node_nested_ind.
  cbn [utf8_node sorted_node n_Kind n_Scalar n_Object n_List].
  intros [[Hk Ho]%andb_true_iff Hl]%andb_true_iff. apply andb_true_iff. split; [apply andb_true_iff; split|].
  - done.
  - destruct object as [es|]; [|done]. cbn [fmap option_fmap option_map optionally] in *.
    apply forallb_forall. intros [k m] Hin%list_elem_of_In.
    rewrite sort_by_elem_of in Hin. apply list_elem_of_fmap in Hin as ([k' m'] & [= -> ->] & Hin).
    rewrite forallb_forall in Ho. specialize (Ho (k', m') ltac:(by apply list_elem_of_In)).
    apply andb_true_iff in Ho as [Hk' Hm]. rewrite Hk'. cbn [andb].
    rewrite Forall_forall in IHo. by apply (IHo (k', m')).
  - destruct items as [ns|]; [|done]. cbn [fmap option_fmap option_map optionally] in *.
    apply forallb_forall. intros m Hin%list_elem_of_In.
    apply list_elem_of_fmap in Hin as (m' & -> & Hin). rewrite forallb_forall in Hl.
    rewrite Forall_forall in IHl. apply IHl; [done|]. apply Hl. by apply list_elem_of_In.
Qed.

(** C34: Developer specs survive persistence.  Every spec that Go can hold is
    encoded, and decoding a document whose tree is that of the encoded spec
    gives its values back, at their Go types and to the last bit; two specs
    with UTF-8 strings are never persisted as the same document, unless their
    values are the same. *)
Theorem spec_persistence s s' :
  go_value (VMap (spec_values s)) → go_value (VMap (spec_values s')) →
  (∃ n, encodeSpecValue (VMap (spec_values s)) = Ok n ∧
    encodeResourceSpec s = Ok (resourceSpecCodecVersion, marshal n) ∧
    ∀ Decode, Decode (marshal n) = Ok (sorted_node n, false) →
      decodeResourceSpec Decode resourceSpecCodecVersion (marshal n) = Ok (sorted_spec s)) ∧
  (utf8_value (VMap (spec_values s)) = true → utf8_value (VMap (spec_values s')) = true →
   encodeResourceSpec s = encodeResourceSpec s' → sorted_spec s = sorted_spec s').
Proof.
  intros Hs Hs'. destruct (encodeResourceSpec_run s Hs) as (n & Hn & Hrun).
  destruct (encodeResourceSpec_run s' Hs') as (n' & Hn' & Hrun').
  assert (∀ t, go_value (VMap (spec_values t)) →
    VMap (spec_values (sorted_spec t)) = sorted_value (VMap (spec_values t))) as Hsorted by done.
  split.
  - exists n. split; [apply Hn|]. split; [done|]. intros Decode Hdec. unfold decodeResourceSpec.
    rewrite Hdec. cbn [Z.eqb negb].
    pose proof (encode_sorted _ _ Hs (proj1 Hn)) as He.
    destruct (value_roundtrip _ (sorted_go _ Hs)) as (m & Hm & Hd).
    rewrite He in Hm. apply Ok_inj in Hm as <-. rewrite Hd. cbn [mbind outcome_bind].
    rewrite <- Hsorted by done. unfold NewResourceSpec. cbn [default from_option].
    rewrite go_cloned by exact (sorted_go _ Hs). by destruct (sorted_spec s).
  - intros Hu Hu' Heq. rewrite Hrun, Hrun' in Heq. injection Heq as Hm.
    assert (sorted_node n = sorted_node n') as Htree.
    { destruct Hn as [He _], Hn' as [He' _].
      apply (render_inj false (sorted_node n) (sorted_node n') [] []).
      - exact (utf8_sorted _ (utf8_encoded _ _ Hu He)).
      - exact (utf8_sorted _ (utf8_encoded _ _ Hu' He')).
      - by rewrite !app_nil_r. }
    pose proof (sorted_tree_inj _ _ _ _ Hs Hs' Hn Hn' Htree) as H.
    rewrite <- !Hsorted in H by done. destruct (sorted_spec s), (sorted_spec s'). cbn in H. by simplify_eq.
Qed.

(** ** A concrete spec *)

(** One property of each kind; 1.5 is [6755399441055744 * 2 ^ -52]. *)
Definition sample_codec_spec : ResourceSpec :=
  {| spec_values := [("size", VInt Int8 (-3)); ("ratio", VFloat64 (S754_finite false 6755399441055744 (-52)));
       ("labels", VMap [("zone", VString "a<b"); ("empty", VList [])]); ("ready", VBool true);
       ("none", VNil)] |}.

Lemma sample_codec_valid : go_value (VMap (spec_values sample_codec_spec)).
Proof.
  constructor.
  - apply (bool_decide_unpack _). vm_compute. exact I.
  - repeat (constructor; [split; [discriminate|]|]); [..|constructor].
    + constructor. split; vm_compute; discriminate.
    + constructor; [done|]. right. vm_compute. split_and!; done.
    + constructor; [apply (bool_decide_unpack _); vm_compute; exact I|].
      repeat (constructor; [split; [discriminate|repeat constructor]|]). constructor.
    + constructor.
    + constructor.
Qed.

Example sample_document :
  snd <$> match encodeResourceSpec {| spec_values := [("a", VInt Uint8 7)] |} with
          | Ok r => Some r | _ => None end =
  Some ([123; 34] ++ bytes_of "kind" ++ [34; 58; 34] ++ bytes_of "object" ++ [34; 44; 34] ++
    bytes_of "object" ++ [34; 58; 123; 34; 97; 34; 58; 123; 34] ++ bytes_of "kind" ++ [34; 58; 34] ++
    bytes_of "uint8" ++ [34; 44; 34] ++ bytes_of "scalar" ++ [34; 58; 34; 55; 34; 44; 34] ++
    bytes_of "object" ++ [34; 58] ++ bytes_of "null" ++ [44; 34] ++ bytes_of "list" ++ [34; 58] ++
    bytes_of "null" ++ [125; 125; 44; 34] ++ bytes_of "list" ++ [34; 58] ++ bytes_of "null" ++ [125])%N%list.
Proof. vm_compute. reflexivity. Qed.

Lemma spec_persistence_witness :
  ∃ n, encodeSpecValue (VMap (spec_values sample_codec_spec)) = Ok n ∧
    encodeResourceSpec sample_codec_spec = Ok (resourceSpecCodecVersion, marshal n) ∧
    ∀ Decode, Decode (marshal n) = Ok (sorted_node n, false) →
      decodeResourceSpec Decode resourceSpecCodecVersion (marshal n) =
        Ok (sorted_spec sample_codec_spec).
Proof.
  exact (proj1 (spec_persistence sample_codec_spec sample_codec_spec sample_codec_valid
    sample_codec_valid)).
Defined.
