(* ===== verification/Identity.v ===== *)
(** * Principals, visibility and the owner-membership policy

    Models [src/internal/identity] (principals and their identifiers, actions,
    visibility) and, of [src/internal/auth], the mapping of group claims to
    memberships ([mapping.go]) and the two authorizers ([authorizer.go],
    [operator_authorizer.go]).  A Go map whose iteration order could show is the
    list of its entries in that order. *)

From S2P Require Import Prelude Operation Resource Status Text Encoding.
Open Scope string_scope.
Open Scope go_scope.

(** ** Actions *)

Definition ActionResourceCreate : string := "resource:create".
Definition ActionResourceRead : string := "resource:read".
Definition ActionResourceUpdate : string := "resource:update".
Definition ActionResourceDelete : string := "resource:delete".
Definition ActionResourceRetry : string := "resource:retry".
Definition ActionResourceList : string := "resource:list".
Definition ActionResourceTypeRead : string := "resourceType:read".

Definition ActionOperatorDiagnosticsRead : string := "operator:diagnostics:read".
Definition ActionOperatorObserveTrigger : string := "operator:observation:trigger".
Definition ActionOperatorWorkRecover : string := "operator:work:recover".

Definition ValidOperatorAction (action : string) : bool :=
  (action =? ActionOperatorDiagnosticsRead) || (action =? ActionOperatorObserveTrigger) ||
  (action =? ActionOperatorWorkRecover).

Definition OperatorTargetResource : string := "resource".
Definition OperatorTargetOperation : string := "operation".
Definition OperatorTargetWork : string := "work".

Definition ValidOperatorTargetKind (kind : string) : bool :=
  (kind =? OperatorTargetResource) || (kind =? OperatorTargetOperation) ||
  (kind =? OperatorTargetWork).

Record OperatorTarget := { ot_Kind : string; ot_ID : string }.

Record ResourceTarget := {
  rt_Type : ResourceTypeRef;
  rt_Owner : OwnerRef;
  rt_ResourceID : ResourceID }.

#[export] Instance ResourceTarget_eq_dec : EqDecision ResourceTarget.
Proof. solve_decision. Defined.

(** ** Owner references in canonical form *)

Definition owner_key (o : OwnerRef) : string * string := (owner_Kind o, owner_ID o).

Definition sortOwners : list OwnerRef → list OwnerRef :=
  sort_by owner_key (pair_le string_le string_le).

(** Keep the first occurrence of every acceptable owner. *)
Fixpoint distinctOwners (accept : OwnerRef → bool) (seen owners : list OwnerRef)
    : list OwnerRef :=
  match owners with
  | [] => []
  | owner :: rest =>
      if negb (accept owner) || bool_decide (owner ∈ seen) then distinctOwners accept seen rest
      else owner :: distinctOwners accept (owner :: seen) rest
  end.

Definition normalOwners (accept : OwnerRef → bool) (owners : list OwnerRef) : list OwnerRef :=
  sortOwners (distinctOwners accept [] owners).

(** [validateMembership] accepts canonical kinds and identifiers. *)
Definition validMembership (owner : OwnerRef) : bool :=
  negb (blank (owner_Kind owner) || blank (owner_ID owner)) &&
  negb ((owner_Kind owner <>? TrimSpace (owner_Kind owner)) ||
        (owner_ID owner <>? TrimSpace (owner_ID owner))).

Definition namedOwner (owner : OwnerRef) : bool :=
  negb ((owner_Kind owner =? "") || (owner_ID owner =? "")).

Definition normalizeMemberships : list OwnerRef → list OwnerRef := normalOwners validMembership.

(** ** Principals *)

Definition ErrInvalidPrincipal : error := Sentinel "identity.ErrInvalidPrincipal".

Definition KindUser : string := "user".
Definition KindServiceAccount : string := "serviceAccount".
Definition KindSystem : string := "system".

Definition PrincipalKind_valid (kind : string) : bool :=
  (kind =? KindUser) || (kind =? KindServiceAccount) || (kind =? KindSystem).

Record Principal := {
  pr_ID : string;
  pr_Kind : string;
  pr_Issuer : string;
  pr_Subject : string;
  pr_Memberships : list OwnerRef;
  pr_Method : string }.

Definition maxMethodLength : nat := 64.
Definition principalIDPrefixV1 : string := "prn_v1_".

(** [strings.ContainsAny(method, "\x00\n\r")]. *)
Definition control_byte (c : ascii) : bool :=
  let n := N_of_ascii c in N.eqb n 0 || N.eqb n 10 || N.eqb n 13.

Definition IsMember (p : Principal) (owner : OwnerRef) : bool :=
  bool_decide (owner ∈ pr_Memberships p).

Section principals.
Context {digest : Digest}.

Definition NewPrincipalID (issuer subject : string) : string :=
  principalIDPrefixV1 +:+ hex (sha256 (frames [issuer; subject])).

Definition NewPrincipal (kind issuer subject method : string) (memberships : list OwnerRef)
    : outcome Principal :=
  fail_if negb (PrincipalKind_valid kind) with ErrInvalidPrincipal ;;
  fail_if blank issuer with ErrInvalidPrincipal ;;
  fail_if blank subject with ErrInvalidPrincipal ;;
  fail_if bool_decide (maxMethodLength < String.length method)%nat ||
          existsb control_byte (list_ascii_of_string method) with ErrInvalidPrincipal ;;
  Ok {| pr_ID := NewPrincipalID issuer subject; pr_Kind := kind; pr_Issuer := issuer;
        pr_Subject := subject; pr_Memberships := normalizeMemberships memberships;
        pr_Method := method |}.
End principals.

Definition ValidatePrincipalID (id : string) : outcome unit :=
  fail_if negb (String.prefix principalIDPrefixV1 id)
    with Wrapf ErrInvalidPrincipal "%w: missing %q prefix" [ArgS principalIDPrefixV1] ;;
  let digest := TrimPrefix id principalIDPrefixV1 in
  fail_if bool_decide (String.length digest ≠ 64%nat)
    with Wrapf ErrInvalidPrincipal "%w: digest length" [] ;;
  fail_if negb (hex_decodes digest)
    with Wrapf ErrInvalidPrincipal "%w: digest is not hexadecimal" [] ;;
  Ok tt.

(** ** Visibility *)

Record ResourceVisibility := {
  rv_Owners : list OwnerRef;
  rv_AllOwners : bool }.

Definition Canonical (v : ResourceVisibility) : ResourceVisibility :=
  {| rv_Owners := normalOwners namedOwner (rv_Owners v); rv_AllOwners := rv_AllOwners v |}.

Definition IsEmpty (v : ResourceVisibility) : bool :=
  negb (rv_AllOwners v) && bool_decide (rv_Owners v = []).

(** ** The authorizers *)

Definition ErrDenied : error := Sentinel "auth.ErrDenied".

(** [OwnerAuthorizer.Authorize]. *)
Definition OwnerAuthorizer_Authorize (principal : Principal) (action : string)
    (target : ResourceTarget) : outcome unit :=
  fail_if pr_ID principal =? "" with Wrapf ErrDenied "%w: no principal" [] ;;
  if action =? ActionResourceTypeRead then Ok tt
  else if (action =? ActionResourceCreate) || (action =? ActionResourceRead) ||
          (action =? ActionResourceUpdate) || (action =? ActionResourceDelete) ||
          (action =? ActionResourceRetry) then
    fail_if negb (IsMember principal (rt_Owner target))
      with Wrapf ErrDenied "%w: no membership under %s/%s"
        [ArgS (owner_Kind (rt_Owner target)); ArgS (owner_ID (rt_Owner target))] ;;
    Ok tt
  else Err (Wrapf ErrDenied "%w: action %q is not granted" [ArgS action]).

(** [OwnerAuthorizer.AuthorizeResourceList]. *)
Definition OwnerAuthorizer_AuthorizeResourceList (principal : Principal)
    : outcome ResourceVisibility :=
  fail_if pr_ID principal =? "" with Wrapf ErrDenied "%w: no principal" [] ;;
  Ok {| rv_Owners := pr_Memberships principal; rv_AllOwners := false |}.

(** [StaticOperatorAuthorizer.AuthorizeOperator], over the granted actions per
    subject. *)
Definition StaticOperatorAuthorizer_AuthorizeOperator (grants : gmap string (list string))
    (principal : Principal) (action : string) (target : OperatorTarget) : outcome unit :=
  fail_if (pr_ID principal =? "") || negb (ValidOperatorAction action)
    with Wrapf ErrDenied "%w: invalid operator decision" [] ;;
  if existsb (λ granted, granted =? action) (default [] (grants !! pr_Subject principal))
  then Ok tt
  else Err (Wrapf ErrDenied "%w: operator action %q is not granted" [ArgS action]).

(** *** The checks of the grants files, after their decoding *)

Fixpoint validateGrantedOwners' (owners : list OwnerRef) : outcome unit :=
  match owners with
  | [] => Ok tt
  | owner :: rest =>
      fail_if negb (validMembership owner)
        with Errorf "owner kind/id must be canonical non-empty strings" [] ;;
      validateGrantedOwners' rest
  end.

Definition validateGrantedOwners (owners : list OwnerRef) : outcome unit :=
  fail_if bool_decide (owners = []) with Errorf "grant declares no owner" [] ;;
  validateGrantedOwners' owners.

(** The loops over subjects and groups, with the two formats of each. *)
Fixpoint checkGrants (path emptyFormat format : string)
    (grants : list (string * list OwnerRef)) : outcome unit :=
  match grants with
  | [] => Ok tt
  | (key, owners) :: rest =>
      fail_if blank key with Errorf emptyFormat [ArgS path] ;;
      match validateGrantedOwners owners with
      | Ok _ => checkGrants path emptyFormat format rest
      | Err e => Err (Wrapf e format [ArgS path; ArgS key])
      | Panic p => Panic p
      end
  end.

(** The decoded [StaticGrants]. *)
Record StaticGrants := {
  sg_Subjects : list (string * list OwnerRef);
  sg_Groups : list (string * list OwnerRef) }.

(** [LoadStaticGrants], from the decoded document on. *)
Definition checkStaticGrants (path : string) (grants : StaticGrants) : outcome StaticGrants :=
  fail_if bool_decide (sg_Subjects grants = []) && bool_decide (sg_Groups grants = [])
    with Errorf "auth grants file %s declares no grants" [ArgS path] ;;
  checkGrants path "auth grants file %s has an empty subject key"
    "auth grants file %s subject %q: %w" (sg_Subjects grants) ≫= λ _,
  checkGrants path "auth grants file %s has an empty group key"
    "auth grants file %s group %q: %w" (sg_Groups grants) ≫= λ _,
  Ok grants.

Fixpoint checkActions (path subject : string) (seen actions : list string) : outcome unit :=
  match actions with
  | [] => Ok tt
  | action :: rest =>
      fail_if negb (ValidOperatorAction action)
        with Errorf "operator grants file %s subject %q declares unknown action %q"
          [ArgS path; ArgS subject; ArgS action] ;;
      fail_if bool_decide (action ∈ seen)
        with Errorf "operator grants file %s subject %q repeats action %q"
          [ArgS path; ArgS subject; ArgS action] ;;
      checkActions path subject (action :: seen) rest
  end.

Fixpoint checkSubjects (path : string) (subjects : list (string * list string)) : outcome unit :=
  match subjects with
  | [] => Ok tt
  | (subject, actions) :: rest =>
      fail_if blank subject || (subject <>? TrimSpace subject)
        with Errorf "operator grants file %s has a non-canonical subject" [ArgS path] ;;
      fail_if bool_decide (actions = [])
        with Errorf "operator grants file %s subject %q declares no actions"
          [ArgS path; ArgS subject] ;;
      checkActions path subject [] actions ≫= λ _, checkSubjects path rest
  end.

(** [LoadOperatorGrants], from the decoded document on. *)
Definition checkOperatorGrants (path : string) (subjects : list (string * list string))
    : outcome (list (string * list string)) :=
  fail_if bool_decide (subjects = [])
    with Errorf "operator grants file %s declares no subject grants" [ArgS path] ;;
  checkSubjects path subjects ≫= λ _, Ok subjects.

(** ** Group claims *)

Record ClaimMapper := {
  cm_Prefix : string;
  cm_Grants : StaticGrants;
  cm_MaxEntries : Z;
  cm_MaxEntryLength : Z;
  cm_MaxTotalBytes : Z }.

Definition DefaultMaxGroupClaimEntries : Z := 256.
Definition DefaultMaxGroupEntryLength : Z := 512.
Definition DefaultMaxGroupClaimBytes : Z := 65536.

Definition withDefaults (m : ClaimMapper) : ClaimMapper :=
  let or_default (n d : Z) := if Z.eqb n 0 then d else n in
  {| cm_Prefix := cm_Prefix m; cm_Grants := cm_Grants m;
     cm_MaxEntries := or_default (cm_MaxEntries m) DefaultMaxGroupClaimEntries;
     cm_MaxEntryLength := or_default (cm_MaxEntryLength m) DefaultMaxGroupEntryLength;
     cm_MaxTotalBytes := or_default (cm_MaxTotalBytes m) DefaultMaxGroupClaimBytes |}.

(** [strings.Cut(entry, ":")]. *)
Fixpoint Cut (c : ascii) (s : string) : option (string * string) :=
  match s with
  | EmptyString => None
  | String d s' =>
      if bool_decide (d = c) then Some ("", s')
      else match Cut c s' with
           | Some (before, after) => Some (String d before, after)
           | None => None
           end
  end.

Definition interpret (m : ClaimMapper) (entry : string) : option OwnerRef :=
  if (cm_Prefix m <>? "") && negb (String.prefix (cm_Prefix m) entry) then None else
  let entry := if cm_Prefix m =? "" then entry else TrimPrefix entry (cm_Prefix m) in
  match Cut ":"%char entry with
  | None => None
  | Some (kind, id) =>
      if (kind =? "") || (id =? "") then None
      else if blank kind || blank id || (kind <>? TrimSpace kind) || (id <>? TrimSpace id)
      then None
      else Some {| owner_Kind := kind; owner_ID := id |}
  end.

(** The loop of [groupMemberships], over the sorted entries. *)
Fixpoint interpretEntries (m : ClaimMapper) (processed totalBytes : Z) (entries : list string)
    : list OwnerRef :=
  match entries with
  | [] => []
  | entry :: rest =>
      if Z.leb (cm_MaxEntries m) processed then [] else
      let size := Z.of_nat (String.length entry) in
      let totalBytes := (totalBytes + size)%Z in
      if Z.ltb (cm_MaxTotalBytes m) totalBytes || Z.ltb (cm_MaxEntryLength m) size then []
      else match interpret m entry with
           | None => interpretEntries m (processed + 1) totalBytes rest
           | Some owner => owner :: interpretEntries m (processed + 1) totalBytes rest
           end
  end.

Definition sortStrings : list string → list string := sort_by id string_le.

Definition groupMemberships (m : ClaimMapper) (entries : list string) : list OwnerRef :=
  interpretEntries m 0 0 (sortStrings entries).

(** [normalize] of [mapping.go]. *)
Definition normalize : list OwnerRef → list OwnerRef := normalOwners namedOwner.

Fixpoint lookupGrants (grants : list (string * list OwnerRef)) (key : string) : list OwnerRef :=
  match grants with
  | [] => []
  | (k, owners) :: rest => if k =? key then owners else lookupGrants rest key
  end.

(** [claim] is the group claim, when it is there and decodes as a list of
    strings. *)
Definition MembershipsOf (m : ClaimMapper) (claim : option (list string)) (subject : string)
    : list OwnerRef :=
  let mapper := withDefaults m in
  let memberships := lookupGrants (sg_Subjects (cm_Grants mapper)) subject in
  match claim with
  | None => normalize memberships
  | Some entries =>
      normalize ((memberships ++ groupMemberships mapper entries ++
        concat (map (λ grant, if bool_decide (grant.1 ∈ entries) then grant.2 else [])
                 (sg_Groups (cm_Grants mapper))))%list)
  end.

(** ** Normal owners *)

#[export] Instance owner_key_inj : Inj (=) (=) owner_key.
Proof. by intros [] [] [= -> ->]. Qed.

Lemma distinctOwners_in accept seen owners o :
  o ∈ distinctOwners accept seen owners ↔ o ∈ owners ∧ accept o = true ∧ o ∉ seen.
Proof.
  revert seen. induction owners as [|x l IH]; intros seen; cbn.
  - split; [by intros ?%not_elem_of_nil|by intros [?%not_elem_of_nil _]].
  - destruct (accept x) eqn:Ha; cbn; [destruct (bool_decide_reflect (x ∈ seen)) as [Hs|Hs]|].
    + rewrite IH, elem_of_cons. split; [tauto|]. by intros ([->|?] & ? & ?).
    + rewrite !elem_of_cons, IH, elem_of_cons. split; [|by destruct (decide (o = x)); tauto].
      intros [->|(? & ? & ?)]; [by split_and!; [left|..]|tauto].
    + rewrite IH, elem_of_cons. split; [tauto|]. intros ([->|?] & ? & ?); [congruence|tauto].
Qed.

Lemma distinctOwners_NoDup accept seen owners : NoDup (distinctOwners accept seen owners).
Proof.
  revert seen. induction owners as [|x l IH]; intros seen; cbn; [constructor|].
  destruct (_ || _); [done|]. constructor; [|done]. rewrite distinctOwners_in. intros (_ & _ & []).
  by left.
Qed.

(** A normal list has exactly the acceptable owners, each once, and depends on
    nothing else. *)
Lemma normalOwners_in accept owners o :
  o ∈ normalOwners accept owners ↔ o ∈ owners ∧ accept o = true.
Proof.
  unfold normalOwners, sortOwners. rewrite sort_by_elem_of, distinctOwners_in.
  split; [tauto|]. intros [? ?]. split_and!; [done..|apply not_elem_of_nil].
Qed.

Lemma normalOwners_NoDup accept owners : NoDup (normalOwners accept owners).
Proof.
  unfold normalOwners, sortOwners. rewrite sort_by_Permutation. apply distinctOwners_NoDup.
Qed.

Lemma normalOwners_sorted accept owners :
  StronglySorted (by_key owner_key (pair_le string_le string_le)) (normalOwners accept owners).
Proof. apply sort_by_sorted; apply _. Qed.

Lemma normalOwners_ext accept owners owners' :
  (∀ o, accept o = true → o ∈ owners ↔ o ∈ owners') →
  normalOwners accept owners = normalOwners accept owners'.
Proof.
  intros H. apply (sorted_by_key_unique owner_key (pair_le string_le string_le)).
  - apply NoDup_fmap_2; [apply _|apply normalOwners_NoDup].
  - apply normalOwners_sorted.
  - apply normalOwners_sorted.
  - apply NoDup_Permutation; [apply normalOwners_NoDup..|]. intros o.
    rewrite !normalOwners_in. specialize (H o). naive_solver.
Qed.

Lemma normalOwners_idemp accept owners :
  normalOwners accept (normalOwners accept owners) = normalOwners accept owners.
Proof. apply normalOwners_ext. intros o Ho. rewrite normalOwners_in. naive_solver. Qed.

Lemma validMembership_named o : validMembership o = true → namedOwner o = true.
Proof.
  unfold validMembership, namedOwner. intros H. bool_facts. destruct_and?. bool_facts.
  repeat match goal with H : blank _ = false |- _ => apply nonblank_nonempty in H end.
  done.
Qed.

(** ** Principals *)

Section principal_theorems.
Context {digest : Digest}.

(** Callers are told apart.  Two principals with another issuer or another
    subject have different identifiers, unless SHA-256 collides on their two
    encodings: no concatenation of issuer and subject is ambiguous. *)
Theorem principal_ids_distinct issuer subject issuer' subject' :
  Forall framable [issuer; subject; issuer'; subject'] →
  (issuer, subject) ≠ (issuer', subject') →
  (frames [issuer; subject] ≠ frames [issuer'; subject'] →
   sha256 (frames [issuer; subject]) ≠ sha256 (frames [issuer'; subject'])) →
  NewPrincipalID issuer subject ≠ NewPrincipalID issuer' subject'.
Proof.
  intros Hf Hne Hcollide H. apply app_length_inj in H as [_ H%hex_inj]; [|done].
  apply Hcollide; [|done]. intros E. apply frames_inj in E; [by simplify_eq| |];
    repeat match goal with H : Forall _ (_ :: _) |- _ => apply Forall_cons in H as [? H] end; auto.
Qed.

Lemma list_ascii_app s u :
  list_ascii_of_string (s +:+ u) = (list_ascii_of_string s ++ list_ascii_of_string u)%list.
Proof. induction s as [|c s IH]; [done|]. rewrite app_cons. cbn. by rewrite IH. Qed.

Lemma hex_digits_are_hex k n : forallb hex_digit (list_ascii_of_string (hex_digits k n)) = true.
Proof.
  revert n. induction k as [|k IH]; intros n; [done|]. cbn [hex_digits].
  rewrite list_ascii_app, forallb_app, IH. cbn. rewrite andb_true_r. unfold hex_digit, hex_char.
  pose proof (N.mod_lt n 16 ltac:(done)) as Hr. revert Hr. generalize (n mod 16)%N as r.
  intros r Hr. destruct (N.ltb_spec r 10);
    rewrite N_ascii_embedding by lia; rewrite !orb_true_iff, !andb_true_iff, !N.leb_le; lia.
Qed.

Lemma hex_is_hex s : forallb hex_digit (list_ascii_of_string (hex s)) = true.
Proof.
  induction s as [|c s IH]; [done|]. cbn [hex]. by rewrite list_ascii_app, forallb_app, IH,
    hex_digits_are_hex.
Qed.

(** What [NewPrincipal] makes can be scoped, stored and authorized with. *)
Lemma NewPrincipal_ok kind issuer subject method memberships p :
  NewPrincipal kind issuer subject method memberships = Ok p →
  ValidatePrincipalID (pr_ID p) = Ok tt ∧ pr_ID p ≠ "" ∧ pr_Kind p ≠ "" ∧
  pr_Memberships p = normalizeMemberships (pr_Memberships p) ∧
  Forall (λ o, validMembership o = true) (pr_Memberships p).
Proof.
  unfold NewPrincipal. intros H. ok_inv. cbn [pr_ID pr_Kind pr_Memberships]. split_and!.
  - assert (ValidatePrincipalID (NewPrincipalID issuer subject) =
      let digest := hex (sha256 (frames [issuer; subject])) in
      if bool_decide (String.length digest ≠ 64%nat) then
        Err (Wrapf ErrInvalidPrincipal "%w: digest length" [])
      else if negb (hex_decodes digest) then
        Err (Wrapf ErrInvalidPrincipal "%w: digest is not hexadecimal" []) else Ok tt) as ->.
    { unfold ValidatePrincipalID, NewPrincipalID, principalIDPrefixV1. cbn -[hex hex_decodes].
      by destruct (hex _). }
    cbv zeta. rewrite hex_length, sha256_length. unfold hex_decodes.
    by rewrite hex_is_hex, hex_length, sha256_length.
  - done.
  - intros ->. done.
  - unfold normalizeMemberships. by rewrite normalOwners_idemp.
  - apply Forall_forall. intros o Ho. by apply normalOwners_in in Ho as [_ ?].
Qed.
End principal_theorems.

(** ** The owner-membership policy *)

(** A listing shows exactly what can be read.  For an authenticated
    principal whose memberships are normal - as [NewPrincipal] makes them - the
    canonical visibility of the collection lists an owner exactly when the
    policy lets the principal read the resources of that owner, and it is never
    unrestricted. *)
Theorem list_visibility_equals_read principal v :
  pr_Memberships principal = normalizeMemberships (pr_Memberships principal) →
  OwnerAuthorizer_AuthorizeResourceList principal = Ok v →
  rv_AllOwners (Canonical v) = false ∧
  ∀ target, rt_Owner target ∈ rv_Owners (Canonical v) ↔
    OwnerAuthorizer_Authorize principal ActionResourceRead target = Ok tt.
Proof.
  intros Hnormal H. unfold OwnerAuthorizer_AuthorizeResourceList in H. ok_inv.
  split; [done|]. intros target. unfold Canonical. cbn [rv_Owners]. rewrite normalOwners_in.
  unfold OwnerAuthorizer_Authorize, IsMember. rewrite H. cbn.
  destruct (bool_decide_reflect (rt_Owner target ∈ pr_Memberships principal)) as [Hin|Hin]; cbn.
  - split; [done|]. intros _. split; [done|]. apply validMembership_named.
    rewrite Hnormal in Hin. unfold normalizeMemberships in Hin.
    by apply normalOwners_in in Hin as [_ ?].
  - split; [by intros [? _]|done].
Qed.

(** ** Group claims *)

Lemma Cut_spec c s before after :
  Cut c s = Some (before, after) → s = before +:+ String c after ∧ lacks c before.
Proof.
  revert before. induction s as [|d s IH]; intros before; cbn; [done|].
  destruct (bool_decide_reflect (d = c)) as [->|Hne]; [by intros [= <- <-]|].
  destruct (Cut c s) as [[b a]|]; [|done]. intros [= <- <-].
  destruct (IH b eq_refl) as [-> Hb]. by split.
Qed.

Lemma interpretEntries_spec m processed total entries o :
  o ∈ interpretEntries m processed total entries →
  ∃ entry, entry ∈ entries ∧ interpret m entry = Some o ∧
    (Z.of_nat (String.length entry) ≤ cm_MaxEntryLength m)%Z.
Proof.
  revert processed total. induction entries as [|e l IH]; intros processed total; cbn;
    [by intros ?%not_elem_of_nil|].
  destruct (Z.leb _ _); [by intros ?%not_elem_of_nil|].
  destruct (_ || _) eqn:Hbound; [by intros ?%not_elem_of_nil|].
  apply orb_false_iff in Hbound as [_ Hlen%Z.ltb_ge].
  destruct (interpret m e) as [owner|] eqn:Hi.
  - intros [->|Ho]%elem_of_cons; [exists e; split_and!; [by left|done|done]|].
    destruct (IH _ _ Ho) as (x & ? & ?). exists x. split; [by right|done].
  - intros Ho. destruct (IH _ _ Ho) as (x & ? & ?). exists x. split; [by right|done].
Qed.

Lemma interpretEntries_count m processed total entries :
  (0 ≤ processed)%Z → (0 ≤ cm_MaxEntries m)%Z →
  (Z.of_nat (length (interpretEntries m processed total entries)) ≤
   Z.max 0 (cm_MaxEntries m - processed))%Z.
Proof.
  revert processed total. induction entries as [|e l IH]; intros processed total Hp Hm; cbn; [lia|].
  destruct (Z.leb_spec (cm_MaxEntries m) processed); [cbn; lia|].
  destruct (_ || _); [cbn; lia|].
  specialize (IH (processed + 1)%Z (total + Z.of_nat (String.length e))%Z).
  destruct (interpret m e); cbn; lia.
Qed.

Lemma none_of_four a b c d : a || b || c || d = false → negb (a || b) && negb (c || d) = true.
Proof. by destruct a, b, c, d. Qed.

Lemma interpret_canonical m entry o : interpret m entry = Some o → validMembership o = true.
Proof.
  unfold interpret. intros H. repeat case_match; simplify_eq; by apply none_of_four.
Qed.

Lemma sortStrings_ext l k : l ≡ₚ k → sortStrings l = sortStrings k.
Proof.
  intros H. unfold sortStrings. apply (StronglySorted_unique string_le).
  - apply (sort_by_sorted id string_le).
  - apply (sort_by_sorted id string_le).
  - by rewrite !sort_by_Permutation.
Qed.

Lemma lookupGrants_in grants key o :
  o ∈ lookupGrants grants key → ∃ owners, (key, owners) ∈ grants ∧ o ∈ owners.
Proof.
  induction grants as [|[k owners] l IH]; cbn; [by intros ?%not_elem_of_nil|].
  destruct (bool_decide_reflect (k = key)) as [->|_]; intros Ho.
  - exists owners. split; [by left|done].
  - destruct (IH Ho) as (x & ? & ?). exists x. split; [by right|done].
Qed.

(** A claim grants nothing of its own.  Every membership comes from a static
    grant to the subject, from a static grant to a group the token names, or
    from one entry of the claim within the length bound that reads, after the
    configured prefix, [kind:id]; and the memberships do not depend on the order
    in which the token lists its groups. *)
Theorem claims_grant_only m claim subject :
  (∀ o, o ∈ MembershipsOf m claim subject →
    (∃ owners, (subject, owners) ∈ sg_Subjects (cm_Grants m) ∧ o ∈ owners) ∨
    ∃ entries, claim = Some entries ∧
      ((∃ group owners, group ∈ entries ∧ (group, owners) ∈ sg_Groups (cm_Grants m) ∧ o ∈ owners) ∨
       ∃ entry, entry ∈ entries ∧ interpret (withDefaults m) entry = Some o ∧
         validMembership o = true ∧
         (Z.of_nat (String.length entry) ≤ cm_MaxEntryLength (withDefaults m))%Z)) ∧
  ∀ entries entries', claim = Some entries → entries ≡ₚ entries' →
    MembershipsOf m (Some entries') subject = MembershipsOf m claim subject.
Proof.
  split.
  - intros o. unfold MembershipsOf, normalize. destruct claim as [entries|];
      rewrite normalOwners_in; intros [Ho _]; [|left; by apply lookupGrants_in].
    rewrite !elem_of_app in Ho. destruct Ho as [Ho|[Ho|Ho]]; [left; by apply lookupGrants_in|right..];
      exists entries; (split; [done|]).
    + right. apply interpretEntries_spec in Ho as (e & He & Hi & Hl).
      unfold sortStrings in He. rewrite sort_by_elem_of in He.
      exists e. split_and!; try done. by eapply interpret_canonical.
    + left. apply list_elem_of_In, in_concat in Ho as (owners & Hin & Ho).
      apply in_map_iff in Hin as ([group granted] & <- & Hg). cbn in Ho.
      destruct (bool_decide_reflect (group ∈ entries)); [|done].
      exists group, granted. rewrite !list_elem_of_In in *. done.
  - intros entries entries' -> Hperm. unfold MembershipsOf, groupMemberships.
    rewrite (sortStrings_ext _ _ Hperm). unfold normalize. do 4 f_equal.
    apply map_ext. intros [group granted]. cbn.
    by rewrite (bool_decide_ext (group ∈ entries) (group ∈ entries')) by by rewrite Hperm.
Qed.

(** ** Concrete principals *)

#[local] Existing Instance sample_digest.

Lemma principal_ids_distinct_witness : NewPrincipalID "ab" "c" ≠ NewPrincipalID "a" "bc".
Proof.
  refine (principal_ids_distinct "ab" "c" "a" "bc" _ _ _).
  - repeat constructor; reflexivity.
  - discriminate.
  - intros _. vm_compute. discriminate.
Defined.

Definition sample_alice : Principal :=
  {| pr_ID := NewPrincipalID "iss" "alice"; pr_Kind := KindUser; pr_Issuer := "iss";
     pr_Subject := "alice"; pr_Memberships := [sample_owner]; pr_Method := "oidc" |}.

Lemma list_visibility_equals_read_witness :
  rv_AllOwners (Canonical {| rv_Owners := [sample_owner]; rv_AllOwners := false |}) = false ∧
  ∀ target, rt_Owner target ∈
      rv_Owners (Canonical {| rv_Owners := [sample_owner]; rv_AllOwners := false |}) ↔
    OwnerAuthorizer_Authorize sample_alice ActionResourceRead target = Ok tt.
Proof.
  refine (list_visibility_equals_read sample_alice _ _ _).
  - vm_compute. reflexivity.
  - vm_compute. reflexivity.
Defined.

(** A token that lists a plain group, a canonical one and one with blanks. *)
Definition sample_mapper : ClaimMapper :=
  {| cm_Prefix := "liftr:"; cm_Grants := {| sg_Subjects := []; sg_Groups :=
       [("admins", [{| owner_Kind := "team"; owner_ID := "core" |}])] |};
     cm_MaxEntries := 0; cm_MaxEntryLength := 0; cm_MaxTotalBytes := 0 |}.

Example sample_memberships :
  MembershipsOf sample_mapper (Some ["admins"; "liftr:team: x"; "liftr:team:payments"]) "alice" =
    [{| owner_Kind := "team"; owner_ID := "core" |}; sample_owner].
Proof. vm_compute. reflexivity. Qed.
