(* ===== verification/Fingerprint.v ===== *)
(** * Request fingerprints

    Models [src/internal/application/fingerprint.go] and the commands of
    [application.go] that it digests.  A fingerprint says which request an
    idempotency key was used for: two requests have the same one exactly when
    they ask for the same, up to the order of maps and of references. *)

From S2P Require Import Prelude Operation Values Resource Provisioning Records References.
From S2P Require Import Text Encoding Json Strconv Codec Identity.
From Stdlib Require Import SpecFloat.
Open Scope string_scope.
Open Scope go_scope.

(** ** Commands *)

Record CreateResourceCommand := {
  cc_Actor : Principal;
  cc_ID : ResourceID;
  cc_Type : ResourceTypeRef;
  cc_Owner : OwnerRef;
  cc_Spec : ResourceSpec;
  cc_References : list (string * list string);
  cc_OperationID : OperationID;
  cc_EventID : string;
  cc_RequestedAt : Time;
  cc_IdempotencyKey : string }.

Record UpdateResourceCommand := {
  uc_Actor : Principal;
  uc_ID : ResourceID;
  uc_ExpectedGeneration : uint64;
  uc_Spec : ResourceSpec;
  uc_ReferencesPresent : bool;
  uc_References : list (string * list string);
  uc_OperationID : OperationID;
  uc_EventID : string;
  uc_RequestedAt : Time;
  uc_IdempotencyKey : string }.

Record DeleteResourceCommand := {
  dc_Actor : Principal;
  dc_ID : ResourceID;
  dc_ExpectedGeneration : uint64;
  dc_OperationID : OperationID;
  dc_EventID : string;
  dc_RequestedAt : Time;
  dc_IdempotencyKey : string }.

(** [existingRequest], which carries an update or a deletion. *)
Record existingRequest := {
  er_id : ResourceID;
  er_expectedGeneration : uint64;
  er_spec : option ResourceSpec;
  er_referencesPresent : bool;
  er_references : list (string * list string);
  er_capability : Capability;
  er_operationID : OperationID;
  er_eventID : string;
  er_requestedAt : Time;
  er_idempotencyKey : string;
  er_actor : Principal }.

Record RetryOperationCommand := {
  rc_Actor : Principal;
  rc_OperationID : OperationID;
  rc_ExpectedGeneration : uint64;
  rc_NewOperationID : OperationID;
  rc_EventID : string;
  rc_RequestedAt : Time;
  rc_IdempotencyKey : string }.

(** ** Canonical texts *)

(** [encodeFingerprintValue] is, line for line, the encoder of the spec codec,
    for nodes whose empty maps and lists are left out. *)
Definition encodeFingerprintValue (v : value) : outcome node := encodeSpecValue v.

Definition canonicalSpec (spec : ResourceSpec) : outcome string :=
  values ← Values spec;
  match encodeFingerprintValue (VMap values) with
  | Err e => Err (Wrapf e "fingerprint resource spec: %w" [])
  | Panic s => Panic s
  | Ok node => Ok (of_bytes (marshalOmitting node))
  end.

Definition edgeParts (edge : ReferenceEdge) : list string := [edge_Slot edge; edge_TargetID edge].

(** What [canonicalReferenceEdges] hashes. *)
Definition edgesEncoding (edges : list ReferenceEdge) : list string :=
  "refs-v1" :: decimal (N.of_nat (length edges)) :: concat (map edgeParts edges).

Section fingerprints.
Context {digest : Digest}.

Definition fingerprintHash (parts : list string) : string := hex (sha256 (frames parts)).

Definition canonicalReferenceEdges (edges : list ReferenceEdge) : string :=
  hex (sha256 (frames (edgesEncoding edges))).

Definition createCommandFingerprint (cmd : CreateResourceCommand) : outcome string :=
  spec ← canonicalSpec (cc_Spec cmd);
  edges ← CanonicalizeReferences (cc_References cmd);
  Ok (fingerprintHash ["create"; cc_ID cmd; ref_Name (cc_Type cmd); ref_Version (cc_Type cmd);
    owner_Kind (cc_Owner cmd); owner_ID (cc_Owner cmd); spec; canonicalReferenceEdges edges]).

(** The references as they were submitted: an absent field is not an empty one. *)
Definition referencePart (present : bool) (references : list (string * list string))
    : outcome string :=
  if present then edges ← CanonicalizeReferences references; Ok (canonicalReferenceEdges edges)
  else Ok "absent".

Definition updateCommandFingerprint (cmd : UpdateResourceCommand) : outcome string :=
  spec ← canonicalSpec (uc_Spec cmd);
  references ← referencePart (uc_ReferencesPresent cmd) (uc_References cmd);
  Ok (fingerprintHash ["update"; uc_ID cmd; FormatUint (uc_ExpectedGeneration cmd); spec;
    references]).

Definition deleteCommandFingerprint (cmd : DeleteResourceCommand) : string :=
  fingerprintHash ["delete"; dc_ID cmd; FormatUint (dc_ExpectedGeneration cmd)].

Definition retryCommandFingerprint (cmd : RetryOperationCommand) : string :=
  fingerprintHash ["retry-operation-v1"; rc_OperationID cmd;
    FormatUint (rc_ExpectedGeneration cmd)].

(** The commands that [fingerprintForExistingRequest] makes of a request. *)
Definition asUpdate (request : existingRequest) (spec : ResourceSpec) : UpdateResourceCommand :=
  {| uc_Actor := {| pr_ID := ""; pr_Kind := ""; pr_Issuer := ""; pr_Subject := "";
       pr_Memberships := []; pr_Method := "" |};
     uc_ID := er_id request; uc_ExpectedGeneration := er_expectedGeneration request;
     uc_Spec := spec; uc_ReferencesPresent := er_referencesPresent request;
     uc_References := er_references request; uc_OperationID := ""; uc_EventID := "";
     uc_RequestedAt := time_zero; uc_IdempotencyKey := "" |}.

Definition asDelete (request : existingRequest) : DeleteResourceCommand :=
  {| dc_Actor := {| pr_ID := ""; pr_Kind := ""; pr_Issuer := ""; pr_Subject := "";
       pr_Memberships := []; pr_Method := "" |};
     dc_ID := er_id request; dc_ExpectedGeneration := er_expectedGeneration request;
     dc_OperationID := ""; dc_EventID := ""; dc_RequestedAt := time_zero;
     dc_IdempotencyKey := "" |}.

Definition fingerprintForExistingRequest (request : existingRequest) : outcome string :=
  let unsupported := Err (Wrapf ErrInvalidApplicationCall
    "%w: unsupported existing request capability %s" [ArgS (er_capability request)]) in
  match er_spec request with
  | Some spec =>
      if er_capability request =? CapabilityUpdate then updateCommandFingerprint (asUpdate request spec)
      else if er_capability request =? CapabilityDelete
      then Ok (deleteCommandFingerprint (asDelete request)) else unsupported
  | None =>
      if er_capability request =? CapabilityDelete
      then Ok (deleteCommandFingerprint (asDelete request)) else unsupported
  end.
End fingerprints.

(** ** Canonical texts are exact *)

Lemma chunk_bounded r :
  Forall (λ b, b < 256)%N (rune_bytes r) → Forall (λ b, b < 256)%N (chunk r).
Proof.
  assert (∀ n, hex_byte n < 256)%N as Hhex by (intros n; apply N_ascii_bounded).
  destruct r as [l|b]; [|intros _; cbn; repeat (constructor; [done|]); constructor].
  destruct l as [|b0 [|b1 [|b2 [|b3 l]]]]; cbn [rune_bytes chunk]; intros H; try done.
  - apply Forall_cons_1 in H as [Hb _]. unfold ascii_chunk.
    repeat case_match; repeat (constructor; [by try apply Hhex|]); constructor.
  - destruct (_ && _); [|done]. repeat (constructor; [by try apply Hhex|]). constructor.
Qed.

Lemma quote_bounded s : Forall (λ b, b < 256)%N (quote s).
Proof.
  constructor; [done|]. apply Forall_app. split; [|by constructor].
  pose proof (bytes_of_bounded s) as H. rewrite <- (runes_bytes (bytes_of s)) in H. revert H.
  generalize (runes (bytes_of s)) as l. induction l as [|r l IH]; [done|]. cbn [map concat].
  rewrite !Forall_app. intros [Hr Hl]. split; [by apply chunk_bounded|by apply IH].
Qed.

Lemma joined_bounded parts :
  Forall (Forall (λ b, b < 256)%N) parts → Forall (λ b, b < 256)%N (joined parts).
Proof.
  intros H. destruct H as [|part parts Hp H]; [constructor|]. apply Forall_app. split; [done|].
  induction H as [|q parts Hq H IH]; cbn; [constructor|]. constructor; [done|].
  apply Forall_app. by split.
Qed.

Lemma field_bounded name : Forall (λ b, b < 256)%N (field_name name).
Proof.
  unfold field_name. do 2 (constructor; [done|]). apply Forall_app.
  split; [apply bytes_of_bounded|by repeat constructor].
Qed.

Lemma render_bounded omit n : Forall (λ b, b < 256)%N (render omit n).
Proof.
  induction n as [kind scalar object items IHo IHl] using node_nested_ind.
  assert (∀ name, Forall (λ b, b < 256)%N (no_field omit name)) as Hno.
  { intros name. unfold no_field. destruct omit; [constructor|]. apply Forall_app.
    split; [apply field_bounded|apply bytes_of_bounded]. }
  rewrite render_tail. unfold scalar_tail, object_tail, list_tail. rewrite !Forall_app.
  split_and!; [by repeat constructor|apply quote_bounded|..|by constructor].
  - destruct scalar; [|constructor]. apply Forall_app. split; [apply field_bounded|apply quote_bounded].
  - destruct object as [es|]; [|apply Hno]. apply Forall_app. split; [apply field_bounded|].
    constructor; [done|]. apply Forall_app. split; [|by constructor]. apply joined_bounded, Forall_map.
    cbn in IHo. eapply Forall_impl; [exact IHo|]. intros [k m] Hm. apply Forall_app.
    split; [apply quote_bounded|by constructor].
  - destruct items as [ns|]; [|apply Hno]. apply Forall_app. split; [apply field_bounded|].
    constructor; [done|]. apply Forall_app. split; [|by constructor]. by apply joined_bounded, Forall_map.
Qed.

(** What [omitempty] leaves out is known from the kind. *)
Fixpoint restore (n : node) : node :=
  Node (n_Kind n) (n_Scalar n)
    match n_Object n with
    | Some entries => Some (map (λ '(k, m), (k, restore m)) entries)
    | None => if n_Kind n =? "object" then Some [] else None
    end
    match n_List n with
    | Some nodes => Some (map restore nodes)
    | None => if n_Kind n =? "list" then Some [] else None
    end.

Lemma restore_omitted v n : encodeSpecValue v = Ok n → restore (omit_empty n) = n.
Proof.
  revert n. induction v as [|b|s|k z|f|f|m IH|l IH|t] using value_nested_ind; intros n Hn; [..|done];
    try (apply Ok_inj in Hn as <-; done).
  - apply Ok_inj in Hn as <-. by destruct k.
  - apply bind_Ok in Hn as (object & Ho & [= <-]). apply encodeObject_spec in Ho.
    cbn [omit_empty n_Kind n_Scalar n_Object n_List fmap option_fmap option_map].
    assert (map (λ '(k, m), (k, restore m)) (map (λ '(k, m), (k, omit_empty m)) object) = object)
      as Hobject.
    { revert IH. induction Ho as [|[k x] [k' y] m o [_ Hy] _ IHo]; [done|].
      intros [Hx HIH]%Forall_cons. cbn [map]. cbn [fst snd] in *. by rewrite (Hx _ Hy), IHo. }
    destruct (map (λ '(k, m), (k, omit_empty m)) object) as [|e es] eqn:E.
    + cbn in Hobject. by subst object.
    + cbn [nonempty]. cbn [restore n_Kind n_Scalar n_Object n_List]. by rewrite Hobject.
  - apply bind_Ok in Hn as (nodes & Ho & [= <-]). apply encodeList_spec in Ho.
    cbn [omit_empty n_Kind n_Scalar n_Object n_List fmap option_fmap option_map].
    assert (map restore (map omit_empty nodes) = nodes) as Hnodes.
    { revert IH. induction Ho as [|x y l o Hy _ IHo]; [done|].
      intros [Hx HIH]%Forall_cons. cbn [map]. by rewrite (Hx _ Hy), IHo. }
    destruct (map omit_empty nodes) as [|e es] eqn:E.
    + cbn in Hnodes. by subst nodes.
    + cbn [nonempty]. cbn [restore n_Kind n_Scalar n_Object n_List]. by rewrite Hnodes.
Qed.

Lemma utf8_omitted n : utf8_node n = true → utf8_node (omit_empty n) = true.
Proof.
  induction n as [kind scalar object items IHo IHl] using node_nested_ind.
  cbn [utf8_node omit_empty n_Kind n_Scalar n_Object n_List].
  intros [[Hk Ho]%andb_true_iff Hl]%andb_true_iff. apply andb_true_iff.
  split; [apply andb_true_iff; split; [done|]|].
  - destruct object as [es|]; [|done]. cbn [fmap option_fmap option_map optionally] in *.
    assert (forallb (λ '(k, m), utf8 k && utf8_node m)
      (map (λ '(k, m), (k, omit_empty m)) es) = true) as He.
    { revert IHo Ho. induction es as [|[k m] es IH]; [done|]. intros [Hm HI]%Forall_cons.
      cbn [forallb map]. intros [[Hu Hv]%andb_true_iff Hr]%andb_true_iff. cbn [snd] in Hm.
      by rewrite Hu, (Hm Hv), (IH HI Hr). }
    by destruct (map (λ '(k, m), (k, omit_empty m)) es).
  - destruct items as [ns|]; [|done]. cbn [fmap option_fmap option_map optionally] in *.
    assert (forallb utf8_node (map omit_empty ns) = true) as He.
    { revert IHl Hl. induction ns as [|m ns IH]; [done|]. intros [Hm HI]%Forall_cons.
      cbn [forallb map]. intros [Hv Hr]%andb_true_iff. by rewrite (Hm Hv), (IH HI Hr). }
    by destruct (map omit_empty ns).
Qed.

Lemma canonicalSpec_run s :
  go_value (VMap (spec_values s)) → ∃ n, codes (VMap (spec_values s)) n ∧
    canonicalSpec s = Ok (of_bytes (marshalOmitting n)).
Proof.
  intros Hs. destruct (value_roundtrip _ Hs) as (n & He & Hd). exists n. split; [by split|].
  unfold canonicalSpec, encodeFingerprintValue, Values. rewrite go_cloned by done.
  cbn [mbind outcome_bind]. by rewrite He.
Qed.

(** A spec that the service can be asked for. *)
Definition submittable (s : ResourceSpec) : Prop :=
  go_value (VMap (spec_values s)) ∧ utf8_value (VMap (spec_values s)) = true ∧
  ∀ text, canonicalSpec s = Ok text → framable text.

Lemma canonicalSpec_exact s s' t t' :
  submittable s → submittable s' → canonicalSpec s = Ok t → canonicalSpec s' = Ok t' →
  t = t' ↔ sorted_spec s = sorted_spec s'.
Proof.
  intros (Hs & Hu & _) (Hs' & Hu' & _) Ht Ht'.
  destruct (canonicalSpec_run s Hs) as (n & Hn & Hrun).
  destruct (canonicalSpec_run s' Hs') as (n' & Hn' & Hrun').
  assert (∀ t, VMap (spec_values (sorted_spec t)) = sorted_value (VMap (spec_values t))) as Hsorted by done.
  rewrite Ht in Hrun. rewrite Ht' in Hrun'. apply Ok_inj in Hrun as ->, Hrun' as ->.
  pose proof (encode_sorted _ _ Hs (proj1 Hn)) as He. pose proof (encode_sorted _ _ Hs' (proj1 Hn')) as He'.
  split.
  - intros H. apply (f_equal bytes_of) in H. unfold marshalOmitting in H.
    rewrite !bytes_of_of_bytes in H by apply render_bounded.
    assert (omit_empty (sorted_node n) = omit_empty (sorted_node n')) as Htree.
    { apply (render_inj true _ _ [] []).
      - exact (utf8_omitted _ (utf8_sorted _ (utf8_encoded _ _ Hu (proj1 Hn)))).
      - exact (utf8_omitted _ (utf8_sorted _ (utf8_encoded _ _ Hu' (proj1 Hn')))).
      - by rewrite !app_nil_r. }
    apply (f_equal restore) in Htree.
    rewrite (restore_omitted _ _ He), (restore_omitted _ _ He') in Htree.
    pose proof (sorted_tree_inj _ _ _ _ Hs Hs' Hn Hn' Htree) as Hv. rewrite <- !Hsorted in Hv.
    destruct (sorted_spec s), (sorted_spec s'). cbn in Hv. by simplify_eq.
  - intros H. rewrite <- Hsorted in He, He'. rewrite H, He' in He. apply Ok_inj in He.
    unfold marshalOmitting. by rewrite He.
Qed.

(** ** Fingerprints are exact *)

Lemma pretty_go_length n s :
  (0 < n)%N → (String.length (pretty_N_go n s) ≤ String.length s + N.to_nat (N.log2 n) + 1)%nat.
Proof.
  revert s. induction (N.lt_wf_0 n) as [n _ IH]. intros s Hn. rewrite pretty_N_go_step by lia.
  destruct (decide (n / 10 = 0)%N) as [->|Hne].
  - rewrite pretty_N_go_0. cbn. lia.
  - assert (N.log2 (n / 10) + 1 ≤ N.log2 n)%N as Hlog.
    { rewrite N.add_1_r, <- N.log2_double by (by apply N.neq_0_lt_0). apply N.log2_le_mono.
      pose proof (N.Div0.mul_div_le n 10). lia. }
    etrans; [apply IH; [apply N.div_lt; lia|by apply N.neq_0_lt_0]|]. cbn. lia.
Qed.

Lemma decimal_framable n : (n < 2 ^ 64)%N → framable (decimal n).
Proof.
  intros Hn. unfold framable, decimal, pretty, pretty_N. case_decide as Hz; [done|].
  pose proof (pretty_go_length n "" ltac:(lia)) as Hl. cbn [String.length] in Hl.
  assert (N.log2 n < 64)%N as Hlog by (apply N.log2_lt_pow2; lia).
  assert (2 ^ 32 = 4294967296)%N as -> by done. lia.
Qed.

Section exact.
Context {digest : Digest}.

(** SHA-256 does not collide on these two texts. *)
Definition distinguished (x y : string) : Prop := sha256 x = sha256 y → x = y.

Lemma fingerprintHash_exact ps qs :
  Forall framable ps → Forall framable qs → distinguished (frames ps) (frames qs) →
  fingerprintHash ps = fingerprintHash qs ↔ ps = qs.
Proof.
  intros Hp Hq Hd. split; [|by intros ->]. intros H%(inj hex)%Hd. by apply frames_inj.
Qed.

(** The edges of a canonical reference set, without their generations. *)
Definition bindings (edges : list ReferenceEdge) : list (string * ResourceID) :=
  map (λ e, (edge_Slot e, edge_TargetID e)) edges.

Lemma edgesEncoding_exact edges edges' :
  edgesEncoding edges = edgesEncoding edges' ↔ bindings edges = bindings edges'.
Proof.
  unfold edgesEncoding, bindings. split.
  - intros [= _ H]. revert edges' H. induction edges as [|e edges IH]; intros [|e' edges'] H;
      cbn in H; [done..|]. injection H as Hs Ht H. cbn. by rewrite Hs, Ht, (IH edges' H).
  - intros H. do 2 f_equal.
    + do 2 f_equal. apply (f_equal length) in H. by rewrite !length_map in H.
    + revert edges' H. induction edges as [|e edges IH]; intros [|e' edges'] H; cbn in H; [done..|].
      injection H as Hs Ht H. cbn. by rewrite Hs, Ht, (IH edges' H).
Qed.

(** What a create command asks for. *)
Definition create_content (cmd : CreateResourceCommand) :=
  edges ← CanonicalizeReferences (cc_References cmd);
  Ok (cc_ID cmd, cc_Type cmd, cc_Owner cmd, sorted_spec (cc_Spec cmd), bindings edges).

Definition framable_create (cmd : CreateResourceCommand) : Prop :=
  Forall framable [cc_ID cmd; ref_Name (cc_Type cmd); ref_Version (cc_Type cmd);
    owner_Kind (cc_Owner cmd); owner_ID (cc_Owner cmd)].

Definition framable_edges (edges : list ReferenceEdge) : Prop :=
  (N.of_nat (length edges) < 2 ^ 64)%N ∧
  Forall (λ e, framable (edge_Slot e) ∧ framable (edge_TargetID e)) edges.

Lemma edgesEncoding_framable edges :
  framable_edges edges → Forall framable (edgesEncoding edges).
Proof.
  intros [Hn He]. do 2 (constructor; [first [done|by apply decimal_framable]|]).
  induction He as [|e edges [Hs Ht] _ IH]; [constructor|]. cbn. constructor; [done|].
  constructor; [done|]. apply IH. cbn in Hn. lia.
Qed.

Lemma canonicalReferenceEdges_exact edges edges' :
  framable_edges edges → framable_edges edges' →
  distinguished (frames (edgesEncoding edges)) (frames (edgesEncoding edges')) →
  canonicalReferenceEdges edges = canonicalReferenceEdges edges' ↔ bindings edges = bindings edges'.
Proof.
  intros He He' Hd. rewrite <- edgesEncoding_exact. apply (fingerprintHash_exact _ _); [..|done];
    by apply edgesEncoding_framable.
Qed.

Lemma hash_framable ps : framable (fingerprintHash ps).
Proof. unfold framable, fingerprintHash. rewrite hex_length, sha256_length. done. Qed.

Definition create_parts (cmd : CreateResourceCommand) (spec : string) edges : list string :=
  ["create"; cc_ID cmd; ref_Name (cc_Type cmd); ref_Version (cc_Type cmd);
   owner_Kind (cc_Owner cmd); owner_ID (cc_Owner cmd); spec; canonicalReferenceEdges edges].

(** Its parts are shorter than 4 GiB and its spec is one that Go can hold. *)
Definition well_submitted (cmd : CreateResourceCommand) : Prop :=
  submittable (cc_Spec cmd) ∧ framable_create cmd ∧
  ∀ edges, CanonicalizeReferences (cc_References cmd) = Ok edges → framable_edges edges.

(** SHA-256 does not collide on the texts that are compared. *)
Definition create_distinguished (cmd cmd' : CreateResourceCommand) : Prop :=
  ∀ spec spec' edges edges',
    canonicalSpec (cc_Spec cmd) = Ok spec → canonicalSpec (cc_Spec cmd') = Ok spec' →
    CanonicalizeReferences (cc_References cmd) = Ok edges →
    CanonicalizeReferences (cc_References cmd') = Ok edges' →
    distinguished (frames (edgesEncoding edges)) (frames (edgesEncoding edges')) ∧
    distinguished (frames (create_parts cmd spec edges)) (frames (create_parts cmd' spec' edges')).

Lemma create_parts_framable cmd spec edges :
  framable_create cmd → framable spec → Forall framable (create_parts cmd spec edges).
Proof.
  unfold create_parts, framable_create. intros Hc Hs.
  repeat match goal with H : Forall _ (_ :: _) |- _ => apply Forall_cons_1 in H as [? H] end.
  repeat (constructor; [first [done|apply hash_framable]|]). constructor.
Qed.

Lemma create_hash_exact cmd cmd' spec spec' edges edges' :
  well_submitted cmd → well_submitted cmd' → create_distinguished cmd cmd' →
  canonicalSpec (cc_Spec cmd) = Ok spec → canonicalSpec (cc_Spec cmd') = Ok spec' →
  CanonicalizeReferences (cc_References cmd) = Ok edges →
  CanonicalizeReferences (cc_References cmd') = Ok edges' →
  fingerprintHash (create_parts cmd spec edges) = fingerprintHash (create_parts cmd' spec' edges') ↔
    create_content cmd = create_content cmd'.
Proof.
  intros (Hs & Hf & He) (Hs' & Hf' & He') Hdist Ht Ht' Hc Hc'.
  specialize (He _ Hc). specialize (He' _ Hc'). destruct (Hdist _ _ _ _ Ht Ht' Hc Hc') as [Hd Hd'].
  rewrite (fingerprintHash_exact (create_parts cmd spec edges) (create_parts cmd' spec' edges')
    (create_parts_framable _ _ _ Hf (proj2 (proj2 Hs) _ Ht))
    (create_parts_framable _ _ _ Hf' (proj2 (proj2 Hs') _ Ht')) Hd').
  unfold create_content. rewrite Hc, Hc'. cbn [mbind outcome_bind].
  assert (∀ A (x y : A), Ok x = Ok y ↔ x = y) as Hok by (intros A x y; split; [apply Ok_inj|by intros ->]).
  rewrite Hok. unfold create_parts.
  pose proof (canonicalSpec_exact _ _ _ _ Hs Hs' Ht Ht') as Hspec.
  pose proof (canonicalReferenceEdges_exact _ _ He He' Hd) as Hedges.
  assert (∀ t t' : ResourceTypeRef, t = t' ↔ ref_Name t = ref_Name t' ∧ ref_Version t = ref_Version t')
    as Htype by (intros [] []; cbn; naive_solver).
  assert (∀ o o' : OwnerRef, o = o' ↔ owner_Kind o = owner_Kind o' ∧ owner_ID o = owner_ID o')
    as Howner by (intros [] []; cbn; naive_solver).
  rewrite !pair_equal_spec, <- Hspec, <- Hedges, Htype, Howner.
  clear -digest. split; [intros [=]; tauto|]. intros ((((-> & -> & ->) & -> & ->) & ->) & ->). done.
Qed.

Lemma createCommandFingerprint_run cmd f :
  createCommandFingerprint cmd = Ok f ↔ ∃ spec edges,
    canonicalSpec (cc_Spec cmd) = Ok spec ∧ CanonicalizeReferences (cc_References cmd) = Ok edges ∧
    f = fingerprintHash (create_parts cmd spec edges).
Proof.
  unfold createCommandFingerprint. rewrite bind_Ok. setoid_rewrite bind_Ok. split.
  - intros (spec & Ht & edges & Hc & <-%Ok_inj). by exists spec, edges.
  - intros (spec & edges & Ht & Hc & ->). exists spec. split; [done|]. by exists edges.
Qed.


(** ** Updates, deletions and retries *)

(** What an update asks for; absent references are left as they are. *)
Definition update_references (cmd : UpdateResourceCommand) :=
  if uc_ReferencesPresent cmd
  then edges ← CanonicalizeReferences (uc_References cmd); Ok (Some (bindings edges))
  else Ok None.

Definition update_text (cmd : UpdateResourceCommand) (spec references : string) : string :=
  frames ["update"; uc_ID cmd; FormatUint (uc_ExpectedGeneration cmd); spec; references].

Definition edges_distinguished references references' : Prop :=
  ∀ edges edges', CanonicalizeReferences references = Ok edges →
    CanonicalizeReferences references' = Ok edges' →
    framable_edges edges ∧ framable_edges edges' ∧
    distinguished (frames (edgesEncoding edges)) (frames (edgesEncoding edges')).

Lemma referencePart_framable present references part :
  referencePart present references = Ok part → framable part.
Proof.
  unfold referencePart. destruct present; [|by intros <-%Ok_inj].
  intros (edges & _ & <-%Ok_inj)%bind_Ok. apply hash_framable.
Qed.

Lemma referencePart_exact cmd cmd' part part' :
  edges_distinguished (uc_References cmd) (uc_References cmd') →
  referencePart (uc_ReferencesPresent cmd) (uc_References cmd) = Ok part →
  referencePart (uc_ReferencesPresent cmd') (uc_References cmd') = Ok part' →
  part = part' ↔ update_references cmd = update_references cmd'.
Proof.
  assert (∀ ps, "absent" ≠ fingerprintHash ps) as Habsent.
  { intros ps H. apply (f_equal String.length) in H. unfold fingerprintHash in H.
    by rewrite hex_length, sha256_length in H. }
  unfold referencePart, update_references. intros Hd H H'.
  destruct (uc_ReferencesPresent cmd), (uc_ReferencesPresent cmd').
  - apply bind_Ok in H as (edges & Hc & <-%Ok_inj). apply bind_Ok in H' as (edges' & Hc' & <-%Ok_inj).
    destruct (Hd _ _ Hc Hc') as (He & He' & Hde). rewrite Hc, Hc'. cbn [mbind outcome_bind].
    rewrite (canonicalReferenceEdges_exact _ _ He He' Hde). split; [by intros ->|by intros [= ->]].
  - apply bind_Ok in H as (edges & Hc & <-%Ok_inj). apply Ok_inj in H' as <-. rewrite Hc.
    split; [|done]. intros E. by destruct (Habsent (edgesEncoding edges)).
  - apply bind_Ok in H' as (edges & Hc & <-%Ok_inj). apply Ok_inj in H as <-. rewrite Hc.
    split; [|done]. intros E. by destruct (Habsent (edgesEncoding edges)).
  - apply Ok_inj in H as <-, H' as <-. done.
Qed.

Lemma update_fingerprint_exact cmd cmd' spec spec' part part' :
  submittable (uc_Spec cmd) → submittable (uc_Spec cmd') →
  framable (uc_ID cmd) → framable (uc_ID cmd') →
  (uc_ExpectedGeneration cmd < 2 ^ 64)%N → (uc_ExpectedGeneration cmd' < 2 ^ 64)%N →
  canonicalSpec (uc_Spec cmd) = Ok spec → canonicalSpec (uc_Spec cmd') = Ok spec' →
  referencePart (uc_ReferencesPresent cmd) (uc_References cmd) = Ok part →
  referencePart (uc_ReferencesPresent cmd') (uc_References cmd') = Ok part' →
  edges_distinguished (uc_References cmd) (uc_References cmd') →
  distinguished (update_text cmd spec part) (update_text cmd' spec' part') →
  updateCommandFingerprint cmd = updateCommandFingerprint cmd' ↔
    uc_ID cmd = uc_ID cmd' ∧ uc_ExpectedGeneration cmd = uc_ExpectedGeneration cmd' ∧
    sorted_spec (uc_Spec cmd) = sorted_spec (uc_Spec cmd') ∧
    update_references cmd = update_references cmd'.
Proof.
  intros Hs Hs' Hi Hi' Hg Hg' Ht Ht' Hp Hp' He Hd. unfold updateCommandFingerprint.
  rewrite Ht, Ht'. cbn [mbind outcome_bind]. rewrite Hp, Hp'. cbn [mbind outcome_bind].
  rewrite <- (canonicalSpec_exact _ _ _ _ Hs Hs' Ht Ht'), <- (referencePart_exact _ _ _ _ He Hp Hp').
  pose proof (proj2 (proj2 Hs) _ Ht). pose proof (proj2 (proj2 Hs') _ Ht').
  pose proof (referencePart_framable _ _ _ Hp). pose proof (referencePart_framable _ _ _ Hp').
  assert (∀ x y : string, Ok x = Ok y ↔ x = y) as Hok by (intros x y; split; [apply Ok_inj|by intros ->]).
  rewrite Hok, fingerprintHash_exact; [..|exact Hd].
  - split; [intros [= -> Hn -> ->]; apply (inj decimal) in Hn; done|by intros (-> & -> & -> & ->)].
  - repeat (constructor; [first [done|by apply decimal_framable]|]). constructor.
  - repeat (constructor; [first [done|by apply decimal_framable]|]). constructor.
Qed.

Lemma retry_fingerprint_exact cmd cmd' :
  framable (rc_OperationID cmd) → framable (rc_OperationID cmd') →
  (rc_ExpectedGeneration cmd < 2 ^ 64)%N → (rc_ExpectedGeneration cmd' < 2 ^ 64)%N →
  (let text c := frames ["retry-operation-v1"; rc_OperationID c;
     FormatUint (rc_ExpectedGeneration c)] in distinguished (text cmd) (text cmd')) →
  retryCommandFingerprint cmd = retryCommandFingerprint cmd' ↔
    rc_OperationID cmd = rc_OperationID cmd' ∧
    rc_ExpectedGeneration cmd = rc_ExpectedGeneration cmd'.
Proof.
  intros Ho Ho' Hg Hg' Hd. unfold retryCommandFingerprint. rewrite fingerprintHash_exact; [..|exact Hd].
  - split; [intros [= -> He]|by intros [-> ->]]. split; [done|]. by apply (inj decimal) in He.
  - repeat (constructor; [first [done|by apply decimal_framable]|]). constructor.
  - repeat (constructor; [first [done|by apply decimal_framable]|]). constructor.
Qed.

Lemma delete_fingerprint_exact cmd cmd' :
  framable (dc_ID cmd) → framable (dc_ID cmd') →
  (dc_ExpectedGeneration cmd < 2 ^ 64)%N → (dc_ExpectedGeneration cmd' < 2 ^ 64)%N →
  (let text c := frames ["delete"; dc_ID c; FormatUint (dc_ExpectedGeneration c)] in
   distinguished (text cmd) (text cmd')) →
  deleteCommandFingerprint cmd = deleteCommandFingerprint cmd' ↔
    dc_ID cmd = dc_ID cmd' ∧ dc_ExpectedGeneration cmd = dc_ExpectedGeneration cmd'.
Proof.
  intros Ho Ho' Hg Hg' Hd. unfold deleteCommandFingerprint. rewrite fingerprintHash_exact; [..|exact Hd].
  - split; [intros [= -> He]|by intros [-> ->]]. split; [done|]. by apply (inj decimal) in He.
  - repeat (constructor; [first [done|by apply decimal_framable]|]). constructor.
  - repeat (constructor; [first [done|by apply decimal_framable]|]). constructor.
Qed.
End exact.

(** ** Concrete commands *)

#[local] Existing Instance sample_digest.

Definition sample_submission (references : list (string * list string)) : CreateResourceCommand :=
  {| cc_Actor := sample_alice; cc_ID := "r-1"; cc_Type := {| ref_Name := "db"; ref_Version := "v1" |};
     cc_Owner := sample_owner; cc_Spec := {| spec_values := [("size", VInt Int 3)] |};
     cc_References := references; cc_OperationID := "op-1"; cc_EventID := "ev-1";
     cc_RequestedAt := 10%Z; cc_IdempotencyKey := "k" |}.

Lemma sample_well_submitted references edges :
  CanonicalizeReferences references = Ok edges → framable_edges edges →
  well_submitted (sample_submission references).
Proof.
  intros Hc He. split_and!.
  - split_and!; [|done|].
    + constructor; [by apply NoDup_singleton|]. repeat constructor; try done; vm_compute; discriminate.
    + intros text Ht. vm_compute in Ht. apply Ok_inj in Ht as <-. vm_compute. done.
  - repeat constructor; done.
  - intros edges' Hc'. cbn [cc_References sample_submission] in Hc'. rewrite Hc in Hc'.
    by apply Ok_inj in Hc' as <-.
Qed.

