(* ===== verification/Kube.v ===== *)
(** * The Kubernetes boundary of the Crossplane adapter

    Models [src/internal/provisioning/crossplane/kube/client.go] and the
    decisions of [restclient.go]: unstructured objects and their accessors, the
    classification of API errors, how a reply of the server is read, and the
    client interface, as computations that call the server.  [Cluster] says
    what the server documents of those calls. *)

From S2P Require Import Prelude Operation Values Resource Provisioning Text.
From Stdlib Require Import SpecFloat.
Open Scope string_scope.
Open Scope go_scope.
Open Scope list_scope.

(** ** Documents

    A decoded [map[string]any]; the first entry of a key counts. *)

Abbreviation document := (list (string * value)) (only parsing).

Fixpoint field (key : string) (m : document) : option value :=
  match m with
  | [] => None
  | (k, v) :: rest => if k =? key then Some v else field key rest
  end.

(** [m[key] = v]. *)
Fixpoint put_field (key : string) (v : value) (m : document) : document :=
  match m with
  | [] => [(key, v)]
  | (k, w) :: rest => if k =? key then (k, v) :: rest else (k, w) :: put_field key v rest
  end.

(** [delete(m, key)]. *)
Definition drop_field (key : string) (m : document) : document :=
  filter (λ kv, kv.1 ≠ key) m.

(** [value, ok := v.(string)] and [v.(map[string]any)]. *)
Definition as_string (v : option value) : option string :=
  match v with Some (VString s) => Some s | _ => None end.
Definition as_map (v : option value) : option document :=
  match v with Some (VMap m) => Some m | _ => None end.

Definition childMap (parent : document) (key : string) : document :=
  default [] (as_map (field key parent)).

(** ** Numbers *)

(** The integral part of a finite float. *)
Definition truncated (f : spec_float) : option Z :=
  match f with
  | S754_zero _ => Some 0%Z
  | S754_finite s m e =>
      let n := if Z.leb 0 e then (Zpos m * 2 ^ e)%Z else (Zpos m / 2 ^ (- e))%Z in
      Some (if s then - n else n)%Z
  | _ => None
  end.

Definition float_negative (f : spec_float) : bool := SFltb f (S754_zero false).

(** [float64] of an integer. *)
Definition to_float64 (z : Z) : spec_float := binary_normalize 53 1024 z 0 false.

Section numbers.
(** Go leaves the conversion of a float outside the range of [uint64] to the
    platform. *)
Context (platform_uint64 : spec_float → uint64).

(** [uint64(f)]. *)
Definition uint64_of_float (f : spec_float) : uint64 :=
  match truncated f with
  | Some z => if Z.leb 0 z && Z.ltb z (2 ^ 64) then Z.to_N z else platform_uint64 f
  | None => platform_uint64 f
  end.

Definition uint64Value (v : option value) : uint64 :=
  match v with
  | Some (VFloat64 f) => if float_negative f then 0%N else uint64_of_float f
  | Some (VInt Int64 z) | Some (VInt Int z) => if Z.ltb z 0 then 0%N else Z.to_N z
  | Some (VInt Uint64 z) => Z.to_N z
  | _ => 0%N
  end.
End numbers.

(** ** Objects *)

Record Object := { raw : document }.

Definition metadata (o : Object) : document := childMap (raw o) "metadata".
Definition textOf (key : string) (m : document) : string := default "" (as_string (field key m)).
Definition Name (o : Object) : string := textOf "name" (metadata o).
Definition Namespace (o : Object) : string := textOf "namespace" (metadata o).
Definition UID (o : Object) : string := textOf "uid" (metadata o).
Definition ResourceVersion (o : Object) : string := textOf "resourceVersion" (metadata o).
Definition Generation (platform_uint64 : spec_float → uint64) (o : Object) : uint64 :=
  uint64Value platform_uint64 (field "generation" (metadata o)).
Definition Terminating (o : Object) : bool :=
  non_nil (field "deletionTimestamp" (metadata o)) (λ _, true).
Definition Labels (o : Object) : document := childMap (metadata o) "labels".
Definition Annotations (o : Object) : document := childMap (metadata o) "annotations".
Definition LabelString (o : Object) (key : string) : option string :=
  as_string (field key (Labels o)).
Definition AnnotationString (o : Object) (key : string) : option string :=
  as_string (field key (Annotations o)).
Definition StatusOf (o : Object) : document := childMap (raw o) "status".

(** [status.conditions], the entries that are objects. *)
Definition Conditions (o : Object) : list document :=
  match field "conditions" (StatusOf o) with
  | Some (VList entries) =>
      omap (λ entry, match entry with VMap m => Some m | _ => None end) entries
  | _ => []
  end.

(** ** Errors *)

Record APIError := { api_Code : Z; api_Reason : string; api_Message : string }.

(** What [errors.As] finds in an error of a client: a structured failure of the
    server, or none. *)
Inductive clientError :=
  | Structured (api : APIError)
  | Unstructured (e : error).

(** [strings.EqualFold] with a constant of ASCII letters: beside the two cases
    of a letter, only the long s and the Kelvin sign fold to ASCII. *)
Fixpoint folded (s : string) : string :=
  match s with
  | "" => ""
  | String c1 rest =>
      match rest with
      | String c2 rest2 =>
          if N.eqb (N_of_ascii c1) 197 && N.eqb (N_of_ascii c2) 191
          then String "s" (folded rest2)
          else match rest2 with
               | String c3 rest3 =>
                   if N.eqb (N_of_ascii c1) 226 && N.eqb (N_of_ascii c2) 132 &&
                      N.eqb (N_of_ascii c3) 170
                   then String "k" (folded rest3) else String (ascii_lower c1) (folded rest)
               | "" => String (ascii_lower c1) (folded rest)
               end
      | "" => String (ascii_lower c1) ""
      end
  end.

Definition EqualFold (s ascii_text : string) : bool := folded s =? folded ascii_text.

Definition apiErrorOf (err : clientError) : option APIError :=
  match err with Structured api => Some api | Unstructured _ => None end.
Definition IsAPIError (err : clientError) : bool := non_nil (apiErrorOf err) (λ _, true).

(** A structured failure with this status code or, case folded, this reason. *)
Definition is_api (code : Z) (reason : string) (err : clientError) : bool :=
  non_nil (apiErrorOf err) (λ api, (api_Code api =? code) || EqualFold (api_Reason api) reason).

Definition IsNotFound : clientError → bool := is_api 404 "NotFound".
Definition IsConflict : clientError → bool := is_api 409 "Conflict".
Definition IsForbidden : clientError → bool := is_api 403 "Forbidden".
Definition IsInvalid : clientError → bool := is_api 422 "Invalid".
Definition IsAlreadyExists (err : clientError) : bool :=
  non_nil (apiErrorOf err) (λ api, EqualFold (api_Reason api) "AlreadyExists").
Definition IsUnavailable (err : clientError) : bool :=
  match apiErrorOf err with
  | Some api => (api_Code api =? 429%Z) || Z.leb 500 (api_Code api) ||
                EqualFold (api_Reason api) "Timeout" || EqualFold (api_Reason api) "ServerTimeout"
  | None => true
  end.

(** ** The client

    What the HTTP library hands back for a request, and how [do] reads it.  The
    bytes of a body are used only through their length, through [TrimSpace] and
    through the decoders of [encoding/json]; [StatusText] is that of
    [net/http]. *)

Record StatusBody := { sb_Message : string; sb_Reason : string; sb_Code : Z }.

Definition maxResponseBytes : N := (4 * 2 ^ 20)%N.

Class Transport := {
  payload : Type;
  payload_length : payload → N;
  payload_TrimSpace : payload → string;
  unmarshalDocument : payload → document + error;
  unmarshalStatus : payload → option StatusBody;
  StatusText : Z → string }.

Section transport.
Context {transport : Transport}.

Inductive httpReply :=
  | NotSent (e : error)
  | Unreadable (code : Z) (e : error)
  | Replied (code : Z) (body : payload).

Definition decodeStatusFailure (code : Z) (body : payload) : APIError :=
  let plain := {| api_Code := code; api_Reason := StatusText code;
                  api_Message := payload_TrimSpace body |} in
  if payload_length body =? 0%N then plain else
  match unmarshalStatus body with
  | Some status =>
      if sb_Reason status =? "" then plain
      else {| api_Code := if sb_Code status =? 0%Z then code else sb_Code status;
              api_Reason := sb_Reason status; api_Message := sb_Message status |}
  | None => plain
  end.

(** [do]: the object, if the reply has a body, and the status code. *)
Definition do (reply : httpReply) : (option Object + clientError) * Z :=
  match reply with
  | NotSent e => (inr (Unstructured (Wrapf e "kubernetes request failed: %w" [])), 0%Z)
  | Unreadable code e => (inr (Unstructured (Wrapf e "read kubernetes response: %w" [])), code)
  | Replied code body =>
      if N.ltb maxResponseBytes (payload_length body) then
        (inr (Structured {| api_Code := code; api_Reason := "ResponseTooLarge";
                            api_Message := "response exceeded the adapter size bound" |}), code)
      else if Z.ltb code 200 || Z.leb 300 code then
        (inr (Structured (decodeStatusFailure code body)), code)
      else if payload_TrimSpace body =? "" then (inl None, code)
      else match unmarshalDocument body with
           | inl document => (inl (Some {| raw := document |}), code)
           | inr e => (inr (Unstructured (Wrapf e "decode kubernetes response: %w" [])), code)
           end
  end.

(** [restClient.Delete], with the reply of the server. *)
Definition deleteReply (reply : httpReply) : option clientError :=
  match do reply with
  | (inr err, _) => Some err
  | (inl _, code) =>
      if code =? 404%Z then
        Some (Structured {| api_Code := 404; api_Reason := "NotFound";
                            api_Message := "the server reported the target as absent" |})
      else None
  end.

Inductive ServedVerdict := ServedConfirmed | ServedRefuted | ServedUnknown.

(** Some entry of the resource list has the name. *)
Definition names_resource (resource : string) (entries : list value) : bool :=
  existsb (λ entry, match entry with
                    | VMap typed => textOf "name" typed =? resource
                    | _ => false
                    end) entries.

(** [ServedResource], with the reply to the discovery request. *)
Definition servedReply (resource : string) (reply : httpReply) : ServedVerdict :=
  match (do reply).1 with
  | inr err => if IsAPIError err && IsNotFound err then ServedRefuted else ServedUnknown
  | inl None => ServedUnknown
  | inl (Some object) =>
      match field "resources" (raw object) with
      | Some (VList entries) =>
          if names_resource resource entries then ServedConfirmed else ServedRefuted
      | _ => ServedUnknown
      end
  end.
End transport.

(** The body of a [PUT]: the desired object with the precondition. *)
Definition deepCopyForUpdate (m : document) (requiredResourceVersion : string) : document :=
  let meta := drop_field "uid" (childMap m "metadata") in
  let meta := if requiredResourceVersion <>? ""
              then put_field "resourceVersion" (VString requiredResourceVersion) meta
              else drop_field "resourceVersion" meta in
  put_field "metadata" (VMap meta) m.

Record GVR := { gvr_Group : string; gvr_Version : string; gvr_Resource : string }.

Definition Path (g : GVR) (namespace : string) : string :=
  let prefix := if gvr_Group g =? "" then "/api/" +:+ gvr_Version g
                else "/apis/" +:+ gvr_Group g +:+ "/" +:+ gvr_Version g in
  if namespace =? "" then prefix +:+ "/" +:+ gvr_Resource g
  else prefix +:+ "/namespaces/" +:+ namespace +:+ "/" +:+ gvr_Resource g.

(** The requests of [restClient], whose documents [encoding/json] can always
    write: the collection or discovery path, the object in it, the body. *)
Record request := {
  rq_Method : string;
  rq_Path : string;
  rq_Name : string;
  rq_Body : option document }.

Definition GetRequest (gvr : GVR) (namespace name : string) : request :=
  {| rq_Method := "GET"; rq_Path := Path gvr namespace; rq_Name := name; rq_Body := None |}.

Definition CreateRequest (gvr : GVR) (namespace : string) (object : Object) : request :=
  {| rq_Method := "POST"; rq_Path := Path gvr namespace; rq_Name := "";
     rq_Body := Some (raw object) |}.

Definition UpdateRequest (gvr : GVR) (namespace name : string) (object : Object)
    (requiredResourceVersion : string) : request :=
  {| rq_Method := "PUT"; rq_Path := Path gvr namespace; rq_Name := name;
     rq_Body := Some (deepCopyForUpdate (raw object) requiredResourceVersion) |}.

Definition deleteOptions (uidPrecondition : string) : document :=
  [("apiVersion", VString "v1"); ("kind", VString "DeleteOptions")] ++
  (if uidPrecondition <>? ""
   then [("preconditions", VMap [("uid", VString uidPrecondition)])] else []).

Definition DeleteRequest (gvr : GVR) (namespace name uidPrecondition : string) : request :=
  {| rq_Method := "DELETE"; rq_Path := Path gvr namespace; rq_Name := name;
     rq_Body := Some (deleteOptions uidPrecondition) |}.

Definition ServedRequest (gvr : GVR) : request :=
  {| rq_Method := "GET";
     rq_Path := if gvr_Group gvr =? "" then "/api/" +:+ gvr_Version gvr
                else "/apis/" +:+ gvr_Group gvr +:+ "/" +:+ gvr_Version gvr;
     rq_Name := ""; rq_Body := None |}.

(** ** Computations that call the server

    The calls of [Client]; a successful reply may come without an object. *)

Inductive kube (V : Type) :=
  | Done (v : V)
  | Get (gvr : GVR) (namespace name : string) (next : option Object + clientError → kube V)
  | Create (gvr : GVR) (namespace : string) (object : Object)
      (next : option Object + clientError → kube V)
  | Update (gvr : GVR) (namespace name : string) (object : Object)
      (requiredResourceVersion : string) (next : option Object + clientError → kube V)
  | Delete (gvr : GVR) (namespace name uidPrecondition : string)
      (next : option clientError → kube V)
  | ServedResource (gvr : GVR) (next : ServedVerdict → kube V).
Arguments Done {V}.
Arguments Get {V}.
Arguments Create {V}.
Arguments Update {V}.
Arguments Delete {V}.
Arguments ServedResource {V}.

(** ** Lemmas *)

Section document_lemmas.
Implicit Types (m : document) (k : string) (v : value).

Lemma field_put k v m : field k (put_field k v m) = Some v.
Proof.
  induction m as [|[k' w] m IH]; cbn; [by rewrite bool_decide_true|].
  destruct (bool_decide_reflect (k' = k)) as [->|]; cbn; [by rewrite bool_decide_true|].
  by rewrite bool_decide_false.
Qed.

Lemma field_put_ne k k' v m : k ≠ k' → field k (put_field k' v m) = field k m.
Proof.
  intros Hk. induction m as [|[k2 w] m IH]; cbn; [by rewrite bool_decide_false|].
  destruct (bool_decide_reflect (k2 = k')) as [->|Hne]; cbn; [by rewrite bool_decide_false|].
  by rewrite IH.
Qed.

Lemma field_drop_ne k k' m : k ≠ k' → field k (drop_field k' m) = field k m.
Proof.
  intros Hk. unfold drop_field. induction m as [|[k2 w] m IH]; [done|].
  rewrite filter_cons. cbn [fst]. destruct (decide (k2 ≠ k')) as [Hne|Heq%dec_stable]; cbn.
  - by rewrite IH.
  - rewrite bool_decide_false by congruence. apply IH.
Qed.

Lemma field_drop k m : field k (drop_field k m) = None.
Proof.
  unfold drop_field. induction m as [|[k' w] m IH]; [done|]. rewrite filter_cons. cbn [fst].
  destruct (decide (k' ≠ k)) as [Hne|]; [|done]. cbn. by rewrite bool_decide_false.
Qed.

Lemma childMap_put k m m' : childMap (put_field k (VMap m') m) k = m'.
Proof. unfold childMap. by rewrite field_put. Qed.

Lemma childMap_ne k m m' : field k m = field k m' → childMap m k = childMap m' k.
Proof. unfold childMap. by intros ->. Qed.

Lemma textOf_ne k m m' : field k m = field k m' → textOf k m = textOf k m'.
Proof. unfold textOf. by intros ->. Qed.

Lemma childMap_put_ne k k' v m : k ≠ k' → childMap (put_field k' v m) k = childMap m k.
Proof. intros Hk. by apply childMap_ne, field_put_ne. Qed.

Lemma textOf_put_ne k k' v m : k ≠ k' → textOf k (put_field k' v m) = textOf k m.
Proof. intros Hk. by apply textOf_ne, field_put_ne. Qed.

Lemma textOf_put k s m : textOf k (put_field k (VString s) m) = s.
Proof. unfold textOf. by rewrite field_put. Qed.
End document_lemmas.

(** Read the fields of documents that fields were put into. *)
Ltac document_fields :=
  repeat (rewrite field_put || rewrite field_put_ne by discriminate); cbn [as_string as_map].

(** Replacing the metadata of a document. *)
Lemma metadata_put m meta : metadata {| raw := put_field "metadata" (VMap meta) m |} = meta.
Proof. apply childMap_put. Qed.

(** Two objects with the same labels, annotations and name. *)
Definition alike (o o' : Object) : Prop :=
  Labels o = Labels o' ∧ Annotations o = Annotations o' ∧ Name o = Name o'.

Lemma alike_metadata o o' :
  (∀ key, key ∈ ["labels"; "annotations"; "name"] →
     field key (metadata o) = field key (metadata o')) → alike o o'.
Proof.
  intros H. split_and!; [apply childMap_ne|apply childMap_ne|apply textOf_ne]; apply H;
    set_solver.
Qed.

(** The body of an update is the desired object but for its precondition. *)
Lemma deepCopyForUpdate_alike m rv : alike {| raw := deepCopyForUpdate m rv |} {| raw := m |}.
Proof.
  apply alike_metadata. intros key Hkey. unfold deepCopyForUpdate. rewrite metadata_put.
  assert (key ≠ "uid" ∧ key ≠ "resourceVersion") as [Hu Hv] by set_solver.
  case_match; [rewrite field_put_ne by done|rewrite field_drop_ne by done];
    by rewrite field_drop_ne.
Qed.

Lemma deepCopyForUpdate_version m rv :
  rv ≠ "" → ResourceVersion {| raw := deepCopyForUpdate m rv |} = rv.
Proof.
  intros Hrv. unfold ResourceVersion, deepCopyForUpdate. rewrite metadata_put.
  rewrite bool_decide_false by done. apply textOf_put.
Qed.
