(* ===== verification/Crossplane.v ===== *)
(** * The Crossplane adapter

    Models [src/internal/provisioning/crossplane]: the provisioner whose
    infrastructure is composite resources of a Crossplane control plane.  Its
    configuration and names, the metadata by which it recognises its objects,
    the documents it writes, the evidence it reads off an object, and
    [Submit] and [Observe] as computations that call the server ([Kube]). *)

From S2P Require Import Prelude Operation Values Resource Status Provisioning.
From S2P Require Import Text Encoding Json Strconv Kube.
From Stdlib Require Import SpecFloat.
Open Scope string_scope.
Open Scope go_scope.

(** ** Configuration *)

Record GVK := { gvk_Group : string; gvk_Version : string; gvk_Kind : string }.
Record ConditionRule := { rule_Type : string; rule_Required : bool }.

Definition DefaultConditionRules : list ConditionRule :=
  [{| rule_Type := "Ready"; rule_Required := true |};
   {| rule_Type := "Synced"; rule_Required := true |}].

Record OutputMapping := {
  map_Ref : string;
  map_StatusPath : list string;
  map_CompatibleSourceMappingRef : string }.

Record Input := {
  in_OperationID : OperationID;
  in_AttemptNumber : uint64;
  in_ResourceID : ResourceID;
  in_ResourceType : ResourceTypeRef;
  in_Capability : Capability;
  in_Spec : ResourceSpec;
  in_TargetGeneration : uint64 }.

Record Binding := {
  b_ResourceType : ResourceTypeRef;
  b_Capabilities : list Capability;
  b_Target : GVK;
  b_Plural : string;
  b_Namespace : string;
  b_NamingVersion : string;
  b_EncodeInput : option (Input → outcome string);
  b_Readiness : option (list ConditionRule);
  b_TerminalSyncedReasons : list string;
  b_OutputMappings : list OutputMapping;
  b_CurrentOutputMappingRef : string }.

Record resolvedBinding := {
  rb_binding : Binding;
  rb_gvr : GVR;
  rb_kind : string;
  rb_namespace : string;
  rb_readiness : list ConditionRule;
  rb_terminalReasons : list string;
  rb_outputs : gmap string OutputMapping }.

Definition NamingVersionV1 : string := "v1".
Definition maxNamespaceLength : nat := 63.

Definition in_range (low high : N) (c : ascii) : bool :=
  N.leb low (N_of_ascii c) && N.leb (N_of_ascii c) high.
Definition is_lower : ascii → bool := in_range 97 122.
Definition is_digit : ascii → bool := in_range 48 57.

Definition letters (s : string) : list ascii := list_ascii_of_string s.

(** [^[a-z][a-z0-9]*$] *)
Definition pluralPattern (s : string) : bool :=
  match letters s with
  | c :: rest => is_lower c && forallb (λ c, is_lower c || is_digit c) rest
  | [] => false
  end.

(** [^[a-z0-9]([-a-z0-9]*[a-z0-9])?$] *)
Definition namespacePattern (s : string) : bool :=
  match letters s with
  | c :: rest =>
      (is_lower c || is_digit c) &&
      forallb (λ c, is_lower c || is_digit c || (c =? "-"%char)) rest &&
      match last rest with Some d => is_lower d || is_digit d | None => true end
  | [] => false
  end.

Definition supportsCapability (b : resolvedBinding) (capability : Capability) : bool :=
  bool_decide (capability ∈ b_Capabilities (rb_binding b)).

Definition ref_text (ref : ResourceTypeRef) : list arg :=
  [ArgS (ref_Name ref); ArgS (ref_Version ref)].

(** The loop over the capabilities, with those already seen. *)
Fixpoint checkBindingCapabilities (seen capabilities : list Capability) : outcome unit :=
  match capabilities with
  | [] => Ok tt
  | capability :: rest =>
      fail_if (capability <>? CapabilityCreate) && (capability <>? CapabilityUpdate) &&
              (capability <>? CapabilityDelete)
        with Errorf "unsupported XR binding capability" [] ;;
      fail_if bool_decide (capability ∈ seen)
        with Errorf "XR binding capability is duplicated" [] ;;
      checkBindingCapabilities (capability :: seen) rest
  end.

(** The loop over the readiness rules, with the types already seen. *)
Fixpoint checkRules (ref : ResourceTypeRef) (seen : list string) (rules : list ConditionRule)
    : outcome unit :=
  match rules with
  | [] => Ok tt
  | rule :: rest =>
      fail_if blank (rule_Type rule)
        with Errorf "XR binding %s/%s readiness condition type is required" (ref_text ref) ;;
      fail_if bool_decide (rule_Type rule ∈ seen)
        with Errorf "XR binding %s/%s readiness condition type is duplicated" (ref_text ref) ;;
      checkRules ref (rule_Type rule :: seen) rest
  end.

(** The loop over the output mappings: those registered so far. *)
Fixpoint registerMappings (registered : gmap string OutputMapping)
    (mappings : list OutputMapping) : outcome (gmap string OutputMapping) :=
  match mappings with
  | [] => Ok registered
  | mapping :: rest =>
      fail_if blank (map_Ref mapping) || bool_decide (map_StatusPath mapping = [])
        with Errorf "XR output mapping identity and status path are required" [] ;;
      fail_if bool_decide (is_Some (registered !! map_Ref mapping))
        with Errorf "XR output mapping identity is duplicated" [] ;;
      fail_if (map_CompatibleSourceMappingRef mapping <>? "") &&
              (map_CompatibleSourceMappingRef mapping =? map_Ref mapping)
        with Errorf "compatible XR output source mapping identity is invalid" [] ;;
      registerMappings (<[map_Ref mapping := mapping]> registered) rest
  end.

Definition validateOutputMappings (binding : Binding) : outcome (gmap string OutputMapping) :=
  let current := TrimSpace (b_CurrentOutputMappingRef binding) in
  if bool_decide (b_OutputMappings binding = []) then
    fail_if current <>? "" with Errorf "current XR output mapping is not registered" [] ;;
    Ok ∅
  else
    fail_if current =? "" with Errorf "current XR output mapping identity is required" [] ;;
    registered ← registerMappings ∅ (b_OutputMappings binding);
    fail_if negb (bool_decide (is_Some (registered !! current)))
      with Errorf "current XR output mapping is not registered" [] ;;
    Ok registered.

Definition resolveBinding (binding : Binding) : outcome resolvedBinding :=
  let ref := b_ResourceType binding in
  let target := b_Target binding in
  fail_if blank (ref_Name ref) || blank (ref_Version ref)
    with Errorf "XR binding resource type reference is required" [] ;;
  fail_if bool_decide (b_Capabilities binding = [])
    with Errorf "XR binding %s/%s capabilities are required" (ref_text ref) ;;
  checkBindingCapabilities [] (b_Capabilities binding) ≫= λ _,
  fail_if blank (gvk_Group target) || blank (gvk_Version target) || blank (gvk_Kind target)
    with Errorf "XR binding %s/%s must declare a complete group/version/kind" (ref_text ref) ;;
  fail_if negb (pluralPattern (b_Plural binding))
    with Errorf "XR binding %s/%s plural is invalid" (ref_text ref) ;;
  fail_if negb (namespacePattern (b_Namespace binding)) ||
          Nat.ltb maxNamespaceLength (String.length (b_Namespace binding))
    with Errorf "XR binding %s/%s namespace is not a valid DNS label" (ref_text ref) ;;
  fail_if b_NamingVersion binding <>? NamingVersionV1
    with Errorf "XR binding %s/%s naming version %q is unsupported"
           (ref_text ref ++ [ArgS (b_NamingVersion binding)])%list ;;
  fail_if match b_EncodeInput binding with None => true | Some _ => false end
    with Errorf "XR binding %s/%s input encoder is required" (ref_text ref) ;;
  let rules := default DefaultConditionRules (b_Readiness binding) in
  fail_if bool_decide (length rules = 0%nat)
    with Errorf "XR binding %s/%s must require at least one readiness condition" (ref_text ref) ;;
  checkRules ref [] rules ≫= λ _,
  fail_if negb (existsb rule_Required rules)
    with Errorf "XR binding %s/%s readiness rule set requires at least one required condition"
           (ref_text ref) ;;
  fail_if existsb blank (b_TerminalSyncedReasons binding)
    with Errorf "XR binding terminal reconciliation reasons must not be empty" [] ;;
  outputs ← validateOutputMappings binding;
  Ok {| rb_binding := binding;
        rb_gvr := {| gvr_Group := gvk_Group target; gvr_Version := gvk_Version target;
                     gvr_Resource := b_Plural binding |};
        rb_kind := gvk_Kind target; rb_namespace := b_Namespace binding;
        rb_readiness := rules; rb_terminalReasons := b_TerminalSyncedReasons binding;
        rb_outputs := outputs |}.

(** The bindings of a configuration by resource type. *)
Fixpoint lookupBinding (bindings : list (ResourceTypeRef * resolvedBinding))
    (ref : ResourceTypeRef) : option resolvedBinding :=
  match bindings with
  | [] => None
  | (r, b) :: rest => if r =? ref then Some b else lookupBinding rest ref
  end.

Fixpoint resolveBindings (resolved : list (ResourceTypeRef * resolvedBinding))
    (bindings : list Binding) : outcome (list (ResourceTypeRef * resolvedBinding)) :=
  match bindings with
  | [] => Ok resolved
  | binding :: rest =>
      b ← resolveBinding binding;
      fail_if non_nil (lookupBinding resolved (b_ResourceType binding)) (λ _, true)
        with Errorf "duplicate XR binding for resource type %s/%s"
               (ref_text (b_ResourceType binding)) ;;
      resolveBindings (resolved ++ [(b_ResourceType binding, b)])%list rest
  end.

(** The code counts the required rules one by one; they are all there. *)
Definition Config_resolve (identity : string) (bindings : list Binding)
    : outcome (list (ResourceTypeRef * resolvedBinding)) :=
  fail_if blank identity with Errorf "configuration identity is required" [] ;;
  fail_if bool_decide (bindings = []) with Errorf "at least one XR binding is required" [] ;;
  resolveBindings [] bindings.

(** The provisioner, with what [newProvisioner] establishes. *)
Record XProvisioner := {
  xp_identity : string;
  xp_bindings : list (ResourceTypeRef * resolvedBinding) }.

Definition newProvisioner (identity : string) (bindings : list Binding) : outcome XProvisioner :=
  resolved ← Config_resolve identity bindings;
  fail_if bool_decide (resolved = [])
    with Errorf "crossplane configuration is incomplete" [] ;;
  Ok {| xp_identity := identity; xp_bindings := resolved |}.

(** [Capabilities]: every supported pair, sorted. *)
Definition capabilityKey (c : ResourceTypeRef * Capability) : string :=
  ref_Name c.1 +:+ NUL +:+ ref_Version c.1 +:+ NUL +:+ c.2.

Definition Capabilities (p : XProvisioner) : list (ResourceTypeRef * Capability) :=
  sort_by capabilityKey string_le
    (concat (map (λ rb, map (pair rb.1) (b_Capabilities (rb_binding rb.2))) (xp_bindings p))).

Definition OutputMappingRef (p : XProvisioner) (resourceType : ResourceTypeRef)
    (capability : Capability) : string :=
  match lookupBinding (xp_bindings p) resourceType with
  | Some binding =>
      if (capability =? CapabilityDelete) || negb (supportsCapability binding capability) then ""
      else b_CurrentOutputMappingRef (rb_binding binding)
  | None => ""
  end.

Definition SelectOutputRecoveryMapping (p : XProvisioner) (resourceType : ResourceTypeRef)
    (capability : Capability) (sourceMappingRef : string) : option string :=
  match lookupBinding (xp_bindings p) resourceType with
  | Some binding =>
      if (sourceMappingRef =? "") || (capability =? CapabilityDelete) ||
         negb (supportsCapability binding capability) then None
      else map_Ref <$> head (filter
             (λ m, (map_Ref m <>? sourceMappingRef) &&
                   (map_CompatibleSourceMappingRef m =? sourceMappingRef) = true)
             (b_OutputMappings (rb_binding binding)))
  | None => None
  end.

(** ** Names and metadata *)

Definition labelManagedBy : string := "app.kubernetes.io/managed-by".
Definition labelPlatform : string := "liftr.io/platform".
Definition annotationResourceID : string := "liftr.io/resource-id".
Definition annotationResourceType : string := "liftr.io/resource-type".
Definition annotationTargetGenerationKey : string := "liftr.io/target-generation".
Definition annotationOperationID : string := "liftr.io/operation-id".
Definition managedByValue : string := "liftr".

Record identityMetadata := {
  im_platformDigest : string;
  im_resourceID : ResourceID;
  im_resourceType : ResourceTypeRef }.

Definition resourceTypeAnnotation (ref : ResourceTypeRef) : string :=
  ref_Name ref +:+ "/" +:+ ref_Version ref.

(** [stamp]: labels and annotations of the metadata that is there; the code
    attaches a missing one to nothing. *)
Definition stamp (i : identityMetadata) (object : document) : document :=
  match as_map (field "metadata" object) with
  | None => object
  | Some metadata =>
      let labels := put_field labelPlatform (VString (im_platformDigest i))
        (put_field labelManagedBy (VString managedByValue) (childMap metadata "labels")) in
      let metadata := put_field "labels" (VMap labels) metadata in
      let annotations := put_field annotationResourceType
          (VString (resourceTypeAnnotation (im_resourceType i)))
        (put_field annotationResourceID (VString (im_resourceID i))
          (childMap metadata "annotations")) in
      put_field "metadata" (VMap (put_field "annotations" (VMap annotations) metadata)) object
  end.

Definition is_text (v : option string) (expected : string) : bool :=
  non_nil v (λ s, s =? expected).

Definition verify (i : identityMetadata) (object : Object) : bool :=
  is_text (LabelString object labelManagedBy) managedByValue &&
  is_text (LabelString object labelPlatform) (im_platformDigest i) &&
  is_text (AnnotationString object annotationResourceID) (im_resourceID i) &&
  is_text (AnnotationString object annotationResourceType)
    (resourceTypeAnnotation (im_resourceType i)).

Definition stampOperationCorrelation (operationID : OperationID) (targetGeneration : uint64)
    (object : document) : document :=
  let metadata := childMap object "metadata" in
  let annotations := put_field annotationTargetGenerationKey
      (VString (FormatUint targetGeneration))
    (put_field annotationOperationID (VString operationID) (childMap metadata "annotations")) in
  put_field "metadata" (VMap (put_field "annotations" (VMap annotations) metadata)) object.

Definition annotationTargetGeneration (object : Object) : option uint64 :=
  match AnnotationString object annotationTargetGenerationKey with
  | Some text => match ParseUint text 64 with Ok n => Some n | _ => None end
  | None => None
  end.

Definition operationCorrelated (object : Object) (operationID : OperationID)
    (targetGeneration : uint64) : bool :=
  is_text (AnnotationString object annotationOperationID) operationID &&
  non_nil (annotationTargetGeneration object) (λ parsed, parsed =? targetGeneration).

Section names.
Context {digest : Digest}.

Definition PlatformDigest (identity : string) : string :=
  String.substring 0 16 (hex (sha256 ("liftr-crossplane" +:+ NUL +:+ identity))).

Definition ObjectName (identity xrNamespace : string) (ref : ResourceTypeRef) (id : ResourceID)
    : string :=
  "liftr-" +:+ String.substring 0 20 (hex (sha256
    (String.concat NUL [identity; xrNamespace; ref_Name ref; ref_Version ref; id]))).

Definition identityFor (p : XProvisioner) (ref : ResourceTypeRef) (id : ResourceID)
    : identityMetadata :=
  {| im_platformDigest := PlatformDigest (xp_identity p); im_resourceID := id;
     im_resourceType := ref |}.

Definition targetName (p : XProvisioner) (binding : resolvedBinding) (id : ResourceID) : string :=
  ObjectName (xp_identity p) (rb_namespace binding) (b_ResourceType (rb_binding binding)) id.
End names.

(** ** Handles *)

Record handlePayload := {
  hp_Group : string;
  hp_Version : string;
  hp_Kind : string;
  hp_Namespace : string;
  hp_Name : string;
  hp_UID : string }.

Definition handlePrefix : string := "xc1.".

(** A field of an object that [json.Marshal] writes, unless it is omitted. *)
Definition jsonField (name value : string) : list N := (quote name ++ 58%N :: quote value)%list.
Definition jsonOptional (name value : string) : list (list N) :=
  if value =? "" then [] else [jsonField name value].

Definition marshalHandle (p : handlePayload) : list N :=
  (123%N :: joined (jsonOptional "g" (hp_Group p) ++
     [jsonField "v" (hp_Version p); jsonField "k" (hp_Kind p);
      jsonField "ns" (hp_Namespace p); jsonField "n" (hp_Name p)] ++
     jsonOptional "uid" (hp_UID p)) ++ [125%N])%list.

Definition payloadOf (binding : resolvedBinding) (name uid : string) : handlePayload :=
  {| hp_Group := gvr_Group (rb_gvr binding); hp_Version := gvr_Version (rb_gvr binding);
     hp_Kind := rb_kind binding; hp_Namespace := rb_namespace binding;
     hp_Name := name; hp_UID := uid |}.

(** [encoding/json] never fails on these strings. *)
Definition encodeHandle (binding : resolvedBinding) (name uid : string) : ExecutionHandle :=
  {| handle_token :=
       handlePrefix +:+ RawURL_EncodeToString (marshalHandle (payloadOf binding name uid)) |}.

(** ** Documents to write *)

(** A document decoded with [UseNumber]: numbers keep their text. *)
Inductive decoded :=
  | JNull
  | JBool (b : bool)
  | JString (s : string)
  | JNumber (text : string)
  | JObject (entries : list (string * decoded))
  | JArray (items : list decoded).

(** What the adapter uses of the standard library: [json.Number.Float64], the
    first document a decoder reads with whether more follows, [json.Unmarshal]
    of a handle, [time.Parse] with [time.RFC3339], and the platform's
    conversion of floats outside [uint64]. *)
Class Runtime := {
  Number_Float64 : string → option spec_float;
  Decoder_Decode : string → option (decoded * bool);
  unmarshalHandle : list N → option handlePayload;
  Parse_RFC3339 : string → option Time;
  platform_uint64 : spec_float → uint64 }.

Definition maxSpecBytes : N := (64 * 2 ^ 10)%N.
Definition forbiddenSpecKeys : list string := ["apiVersion"; "kind"; "metadata"; "status"].

Section runtime.
Context {runtime : Runtime}.

Fixpoint normalizeJSON (v : decoded) : value :=
  match v with
  | JNull => VNil
  | JBool b => VBool b
  | JString s => VString s
  | JNumber text => match Number_Float64 text with
                    | Some f => VFloat64 f
                    | None => VString text
                    end
  | JObject entries => VMap (map (λ '(k, e), (k, normalizeJSON e)) entries)
  | JArray items => VList (map normalizeJSON items)
  end.

Definition decodeEncodedSpec (encoded : string) : outcome document :=
  fail_if encoded =? "" with Errorf "encoded spec is empty" [] ;;
  fail_if N.ltb maxSpecBytes (N.of_nat (String.length encoded))
    with Errorf "encoded spec exceeds the size bound" [] ;;
  match Decoder_Decode encoded with
  | None => Err (Errorf "encoded spec is not valid JSON" [])
  | Some (document, more) =>
      fail_if (more : bool) with Errorf "encoded spec carries trailing content" [] ;;
      match document with
      | JObject entries =>
          match find (λ key, existsb (λ e, e.1 =? key) entries) forbiddenSpecKeys with
          | Some key => Err (Errorf "encoded spec must not declare reserved field %q" [ArgS key])
          | None => Ok (map (λ '(k, e), (k, normalizeJSON e)) entries)
          end
      | _ => Err (Errorf "encoded spec must be a JSON object" [])
      end
  end.

(** The document before it is stamped. *)
Definition bareManifest (binding : resolvedBinding) (name : string) (spec : document) : document :=
  let g := rb_gvr binding in
  let apiVersion := if gvr_Group g <>? "" then gvr_Group g +:+ "/" +:+ gvr_Version g
                    else gvr_Version g in
  [("apiVersion", VString apiVersion); ("kind", VString (rb_kind binding));
   ("metadata", VMap [("name", VString name); ("namespace", VString (rb_namespace binding))]);
   ("spec", VMap spec)].

Definition buildManifest (binding : resolvedBinding) (identity : identityMetadata)
    (name : string) (input : Input) : outcome Object :=
  match b_EncodeInput (rb_binding binding) with
  | None => Panic "invalid memory address or nil pointer dereference"
  | Some encode =>
      match encode input with
      | Err e => Err (Wrapf e "encode XR spec: %w" [])
      | Panic p => Panic p
      | Ok encoded =>
          spec ← decodeEncodedSpec encoded;
          Ok {| raw := stampOperationCorrelation (in_OperationID input)
                         (in_TargetGeneration input)
                         (stamp identity (bareManifest binding name spec)) |}
      end
  end.

Definition conditionalUpdate (manifest : Object) (resourceVersion : string) : Object :=
  let meta := drop_field "uid" (metadata manifest) in
  let meta := if resourceVersion <>? ""
              then put_field "resourceVersion" (VString resourceVersion) meta else meta in
  {| raw := put_field "metadata" (VMap meta) (raw manifest) |}.

(** ** Handles, read *)

Definition decodeHandle (handle : option ExecutionHandle) : option handlePayload :=
  match handle with
  | None => None
  | Some handle =>
      let token := handle_token handle in
      let size := String.length handlePrefix in
      if Nat.leb (String.length token) size || negb (String.prefix handlePrefix token) then None
      else match RawURL_DecodeString (String.substring size (String.length token - size) token) with
           | None => None
           | Some bytes =>
               match unmarshalHandle bytes with
               | Some payload =>
                   if (hp_Name payload =? "") || (hp_Kind payload =? "") ||
                      (hp_Version payload =? "") then None else Some payload
               | None => None
               end
           end
  end.

Definition uidFromHandle (request : ObservationRequest) : string :=
  from_option hp_UID "" (decodeHandle (or_Handle request)).
End runtime.

(** ** Properties *)

Lemma is_text_spec v expected : is_text v expected = true ↔ v = Some expected.
Proof. unfold is_text. rewrite non_nil_true. setoid_rewrite bool_decide_eq_true. naive_solver. Qed.

Lemma verify_alike i o o' : alike o o' → verify i o = verify i o'.
Proof.
  intros (HL & HA & _). unfold verify, LabelString, AnnotationString. by rewrite HL, HA.
Qed.

Lemma operationCorrelated_alike o o' op g :
  alike o o' → operationCorrelated o op g = operationCorrelated o' op g.
Proof.
  intros (_ & HA & _). unfold operationCorrelated, annotationTargetGeneration, AnnotationString.
  by rewrite HA.
Qed.

Lemma conditionalUpdate_alike manifest rv : alike (conditionalUpdate manifest rv) manifest.
Proof.
  apply alike_metadata. intros key Hkey. unfold conditionalUpdate. rewrite metadata_put.
  assert (key ≠ "uid" ∧ key ≠ "resourceVersion") as [Hu Hv] by set_solver.
  case_match; [rewrite field_put_ne by done|]; by rewrite field_drop_ne.
Qed.

(** Whose object it is: exactly the stamped identity is recognised. *)
Lemma stamped_metadata i object meta :
  as_map (field "metadata" object) = Some meta →
  childMap (childMap (stamp i object) "metadata") "labels" =
    put_field labelPlatform (VString (im_platformDigest i))
      (put_field labelManagedBy (VString managedByValue) (childMap meta "labels")) ∧
  childMap (childMap (stamp i object) "metadata") "annotations" =
    put_field annotationResourceType (VString (resourceTypeAnnotation (im_resourceType i)))
      (put_field annotationResourceID (VString (im_resourceID i)) (childMap meta "annotations")) ∧
  textOf "name" (childMap (stamp i object) "metadata") = textOf "name" meta.
Proof.
  intros Hm. unfold stamp. rewrite Hm, childMap_put. split_and!.
  - rewrite childMap_put_ne by discriminate. apply childMap_put.
  - rewrite childMap_put. by rewrite childMap_put_ne by discriminate.
  - by rewrite !textOf_put_ne by discriminate.
Qed.

Lemma correlated_metadata operationID g object :
  childMap (childMap (stampOperationCorrelation operationID g object) "metadata") "labels" =
    childMap (childMap object "metadata") "labels" ∧
  childMap (childMap (stampOperationCorrelation operationID g object) "metadata") "annotations" =
    put_field annotationTargetGenerationKey (VString (FormatUint g))
      (put_field annotationOperationID (VString operationID)
        (childMap (childMap object "metadata") "annotations")) ∧
  textOf "name" (childMap (stampOperationCorrelation operationID g object) "metadata") =
    textOf "name" (childMap object "metadata").
Proof.
  unfold stampOperationCorrelation. rewrite !childMap_put. split_and!; [|done|].
  - by rewrite childMap_put_ne by discriminate.
  - by rewrite textOf_put_ne by discriminate.
Qed.

(** A provisioner finds the binding of the type it was asked for. *)
Lemma resolveBinding_binding binding b : resolveBinding binding = Ok b → rb_binding b = binding.
Proof.
  unfold resolveBinding. intros H.
  repeat first
    [ match type of H with (if ?c then _ else _) = _ => destruct c; [done|] end
    | apply bind_Ok in H as (? & _ & H) ].
  by injection H as <-.
Qed.

Lemma lookupBinding_snoc l r b ref :
  lookupBinding (l ++ [(r, b)]) ref =
  match lookupBinding l ref with
  | Some found => Some found
  | None => if bool_decide (r = ref) then Some b else None
  end.
Proof.
  induction l as [|[r' b'] l IH]; cbn; [done|]. by destruct (bool_decide (r' = ref)).
Qed.

Lemma resolveBindings_binding bindings resolved resolved' :
  (∀ ref b, lookupBinding resolved ref = Some b → b_ResourceType (rb_binding b) = ref) →
  resolveBindings resolved bindings = Ok resolved' →
  ∀ ref b, lookupBinding resolved' ref = Some b → b_ResourceType (rb_binding b) = ref.
Proof.
  revert resolved. induction bindings as [|binding rest IH]; cbn; intros resolved Hr H.
  { by injection H as <-. }
  apply bind_Ok in H as (b & Hb%resolveBinding_binding & H).
  destruct (non_nil _ _); [done|]. revert H. apply IH. intros ref b'.
  rewrite lookupBinding_snoc. destruct (lookupBinding resolved ref) eqn:Hl.
  - intros [= <-]. by apply Hr.
  - destruct (bool_decide_reflect (b_ResourceType binding = ref)) as [<-|]; [|done].
    intros [= <-]. by rewrite Hb.
Qed.

Lemma newProvisioner_binding identity bindings p ref b :
  newProvisioner identity bindings = Ok p → lookupBinding (xp_bindings p) ref = Some b →
  b_ResourceType (rb_binding b) = ref.
Proof.
  unfold newProvisioner, Config_resolve. intros H. apply bind_Ok in H as (resolved & Hr & H).
  destruct (bool_decide (resolved = [])); [done|]. injection H as <-. cbn.
  destruct (blank identity); [done|]. destruct (bool_decide (bindings = [])); [done|].
  by apply (resolveBindings_binding bindings [] resolved).
Qed.

Section manifest.
Context {runtime : Runtime}.

(** A manifest names itself.  The document that [buildManifest] produces
    passes [verify] for the identity it was built for, whatever resource version
    it is sent under, is correlated with its operation and generation, and has
    the resource id and the target's name. *)
Theorem buildManifest_stamped binding i name input manifest rv :
  (in_TargetGeneration input < 2 ^ 64)%N →
  buildManifest binding i name input = Ok manifest →
  verify i (conditionalUpdate manifest rv) = true ∧ verify i manifest = true ∧
  operationCorrelated manifest (in_OperationID input) (in_TargetGeneration input) = true ∧
  AnnotationString manifest annotationResourceID = Some (im_resourceID i) ∧
  Name manifest = name.
Proof.
  intros Hg H. rewrite (verify_alike _ _ _ (conditionalUpdate_alike _ _)).
  unfold buildManifest in H.
  destruct (b_EncodeInput _) as [encode|]; [|done].
  destruct (encode input) as [encoded| |]; try done.
  apply bind_Ok in H as (spec & _ & [= <-]).
  destruct (correlated_metadata (in_OperationID input) (in_TargetGeneration input)
              (stamp i (bareManifest binding name spec))) as (HL & HA & HN).
  destruct (stamped_metadata i (bareManifest binding name spec)
    [("name", VString name); ("namespace", VString (rb_namespace binding))])
    as (HL' & HA' & HN'); [done|].
  unfold verify, operationCorrelated, annotationTargetGeneration, AnnotationString, LabelString,
    Labels, Annotations, Name, metadata. cbn [raw].
  rewrite HL, HA, HN, HL', HA', HN'.
  document_fields.
  rewrite ParseUint_FormatUint by done. unfold is_text. cbn [non_nil].
  by rewrite !bool_decide_true.
Qed.
End manifest.
