(* ===== verification/CrossplaneFacts.v ===== *)
(** * What the Crossplane adapter reads off an object

    Models [observe.go] and [outputs.go] of
    [src/internal/provisioning/crossplane]: the readiness of a composite
    resource, judged by its conditions, and the declared outputs in its
    status.  [evaluateObject_ready] says what a ready object has shown. *)

From S2P Require Import Prelude Operation Values Resource Status Provisioning.
From S2P Require Import Text Kube Crossplane.
From Stdlib Require Import SpecFloat.
Open Scope string_scope.
Open Scope go_scope.
Open Scope list_scope.

(** ** Facts *)

Definition reasonTargetIdentityConflict : string := "TargetIdentityConflict".
Definition reasonTargetIdentityChanged : string := "TargetIdentityChanged".
Definition reasonManagedTargetAbsent : string := "ManagedTargetAbsent".
Definition reasonReconciliationFailed : string := "TerminalReconciliationFailure".
Definition reasonControlPlaneUnavailable : string := "ControlPlaneUnavailable".
Definition reasonAccessDenied : string := "AccessDenied".
Definition reasonAdmissionRejected : string := "AdmissionRejected".
Definition reasonTargetKindUnregistered : string := "TargetKindUnregistered".

Definition presentFacts (readiness : string) : ObservedFacts :=
  {| Presence := ResourcePresencePresent; Readiness := readiness;
     Drift := ResourceDriftUnknown |}.
Definition absentFacts : ObservedFacts :=
  {| Presence := ResourcePresenceNotFound; Readiness := ResourceReadinessUnknown;
     Drift := ResourceDriftUnknown |}.
Definition unknownFacts : ObservedFacts :=
  {| Presence := ResourcePresenceUnknown; Readiness := ResourceReadinessUnknown;
     Drift := ResourceDriftUnknown |}.

(** ** Conditions *)

Definition conditionByType (conditions : list document) (conditionType : string)
    : option document :=
  find (λ condition, textOf "type" condition =? conditionType) conditions.
Definition conditionStatus : document → string := textOf "status".
Definition conditionReason : document → string := textOf "reason".

Definition isTerminalReason (b : resolvedBinding) (reason : string) : bool :=
  bool_decide (reason ∈ rb_terminalReasons b).

Record objectEvaluation := {
  ev_readiness : string;
  ev_terminalFailure : option ExecutionFailure;
  ev_observedAt : Time }.

#[export] Instance objectEvaluation_fields : Fields objectEvaluation := λ r,
  {| ev_readiness := ev_readiness r; ev_terminalFailure := ev_terminalFailure r;
     ev_observedAt := ev_observedAt r |}.

Section runtime.
Context {runtime : Runtime}.

(** [uint64(typed)] of a float, if it is not negative and loses nothing. *)
Definition integral (f : spec_float) : option uint64 :=
  if float_negative f then None else
  let n := uint64_of_float platform_uint64 f in
  if SFeqb f (to_float64 (Z.of_N n)) then Some n else None.

Definition conditionObservedGeneration (condition : document) : option uint64 :=
  match field "observedGeneration" condition with
  | Some (VFloat64 f) => integral f
  | Some (VInt Int64 z) | Some (VInt Int z) => if Z.ltb z 0 then None else Some (Z.to_N z)
  | _ => None
  end.

Definition conditionLastTransition (condition : document) : Time :=
  default time_zero (Parse_RFC3339 (textOf "lastTransitionTime" condition)).

(** [if transition.After(newest) { newest = transition }] *)
Definition newer (newest transition : Time) : Time :=
  if After transition newest then transition else newest.

Definition terminalFailure : ExecutionFailure :=
  {| ef_Kind := FailureExecution; ef_Reason := reasonReconciliationFailed;
     ef_Message := "crossplane reported a terminal reconciliation failure reason" |}.

(** The loop of [evaluateObject] over the rules that are left. *)
Fixpoint evaluateRules (b : resolvedBinding) (conditions : list document) (generation : uint64)
    (rules : list ConditionRule) (evaluation : objectEvaluation) (newest : Time)
    : objectEvaluation :=
  match rules with
  | [] => evaluation <| ev_readiness := ResourceReadinessReady |> <| ev_observedAt := newest |>
  | rule :: rest =>
      if negb (rule_Required rule)
      then evaluateRules b conditions generation rest evaluation newest else
      match conditionByType conditions (rule_Type rule) with
      | None => evaluation
      | Some condition =>
          let newest' := newer newest (conditionLastTransition condition) in
          if conditionStatus condition =? "True" then
            match conditionObservedGeneration condition with
            | Some observed =>
                if observed =? generation
                then evaluateRules b conditions generation rest evaluation newest'
                else evaluation
            | None => evaluation
            end
          else if conditionStatus condition =? "False" then
            if isTerminalReason b (conditionReason condition)
            then evaluation <| ev_terminalFailure := Some terminalFailure |>
                            <| ev_observedAt := conditionLastTransition condition |>
            else evaluateRules b conditions generation rest
                   (evaluation <| ev_readiness := ResourceReadinessNotReady |>) newest'
          else evaluation
      end
  end.

Definition evaluateObject (object : Object) (b : resolvedBinding) (requestGeneration : uint64)
    : objectEvaluation :=
  let evaluation := {| ev_readiness := ResourceReadinessUnknown; ev_terminalFailure := None;
                       ev_observedAt := time_zero |} in
  if Terminating object
  then evaluation <| ev_readiness := ResourceReadinessNotReady |>
  else if non_nil (annotationTargetGeneration object) (λ g, g =? requestGeneration)
  then evaluateRules b (Conditions object) (Generation platform_uint64 object)
         (rb_readiness b) evaluation time_zero
  else evaluation.

(** ** Outputs *)

Definition outputEnvelopeVersion : uint64 := 1%N.
Definition maxEnvelopeKeys : nat := 64.
Definition maxEnvelopeStringLen : N := 4096%N.

Definition errOutputEnvelopeInvalid : error := Sentinel "crossplane.errOutputEnvelopeInvalid".
Definition errOutputUnavailable : error := Sentinel "crossplane.errOutputUnavailable".

Definition envelope_invalid (format : string) : error := Wrapf errOutputEnvelopeInvalid format [].

(** An integer of the envelope, if the field is there. *)
Definition envelopeInteger (envelope : document) (name : string) : outcome (option uint64) :=
  match field name envelope with
  | None => Ok None
  | Some (VFloat64 f) =>
      match integral f with
      | Some n => Ok (Some n)
      | None => Err (Wrapf errOutputEnvelopeInvalid "%w: field %q is not an integral number"
                       [ArgS name])
      end
  | Some (VInt Int64 z) | Some (VInt Int z) => Ok (Some (Z.to_N (z mod 2 ^ 64)))
  | Some _ => Err (Wrapf errOutputEnvelopeInvalid "%w: field %q is not numeric" [ArgS name])
  end.

(** A finite float. *)
Definition finite (f : spec_float) : bool :=
  match f with S754_zero _ | S754_finite _ _ _ => true | _ => false end.

(** Documents of the client hold no [json.Number]. *)
Definition flatScalar (v : value) : option value :=
  match v with
  | VString _ | VBool _ => Some v
  | VFloat64 f => if finite f then Some v else None
  | VInt Int z | VInt Int64 z => Some (VFloat64 (to_float64 z))
  | _ => None
  end.

(** The loop over the values; a map holds a key once. *)
Fixpoint flatValues (raw_values : document) : outcome (list (string * value)) :=
  match raw_values with
  | [] => Ok []
  | (name, v) :: rest =>
      match flatScalar v with
      | None => Err (Wrapf errOutputEnvelopeInvalid "%w: output %q is not a flat scalar"
                       [ArgS name])
      | Some scalar =>
          fail_if non_nil (as_string (Some scalar))
                    (λ text, N.ltb maxEnvelopeStringLen (N.of_nat (String.length text)))
            with Wrapf errOutputEnvelopeInvalid "%w: output %q exceeds the length bound"
                   [ArgS name] ;;
          values ← flatValues rest;
          Ok ((name, scalar) :: values)
      end
  end.

Definition envelopeFields : list string :=
  ["version"; "mapping"; "resourceId"; "targetGeneration"; "values"].

Definition holds (expected : uint64) (read : outcome (option uint64)) : bool :=
  match read with Ok (Some n) => n =? expected | _ => false end.

Definition decodeStatusEnvelope (envelope : document) (mappingRef : string)
    (resourceID : ResourceID) (targetGeneration : uint64) : outcome (list (string * value)) :=
  fail_if bool_decide (envelope = []) with envelope_invalid "%w: envelope is empty" ;;
  fail_if Nat.ltb maxEnvelopeKeys (length envelope)
    with envelope_invalid "%w: envelope exceeds the key bound" ;;
  fail_if existsb (λ entry, negb (bool_decide (entry.1 ∈ envelopeFields))) envelope
    with envelope_invalid "%w: unknown private-envelope field" ;;
  fail_if negb (holds outputEnvelopeVersion (envelopeInteger envelope "version"))
    with envelope_invalid "%w: unsupported output envelope version" ;;
  fail_if negb (is_text (as_string (field "mapping" envelope)) mappingRef)
    with envelope_invalid
           "%w: output mapping identity does not match the persisted execution mapping" ;;
  fail_if negb (is_text (as_string (field "resourceId" envelope)) resourceID)
    with envelope_invalid "%w: output envelope does not belong to this resource" ;;
  fail_if negb (holds targetGeneration (envelopeInteger envelope "targetGeneration"))
    with envelope_invalid
           "%w: output envelope does not carry this execution's target generation" ;;
  match as_map (field "values" envelope) with
  | None => Err (envelope_invalid "%w: envelope values are missing")
  | Some raw_values =>
      fail_if Nat.ltb maxEnvelopeKeys (length raw_values)
        with envelope_invalid "%w: envelope values exceed the key bound" ;;
      values ← flatValues raw_values;
      fail_if bool_decide (values = [])
        with envelope_invalid "%w: envelope carries no values" ;;
      Ok values
  end.

Inductive evidence :=
  | evidenceUnavailable
  | evidenceAvailable (values : list (string * value))
  | evidenceInvalid.

(** The value at a path of keys. *)
Fixpoint valueAt (v : value) (path : list string) : option value :=
  match path with
  | [] => Some v
  | segment :: rest =>
      match v with
      | VMap m => match field segment m with Some v' => valueAt v' rest | None => None end
      | _ => None
      end
  end.

Definition extractOutputEvidence (object : Object) (mapping : OutputMapping)
    (envelopeRef : string) (resourceID : ResourceID) (targetGeneration : uint64) : evidence :=
  match valueAt (VMap (StatusOf object)) (map_StatusPath mapping) with
  | None => evidenceUnavailable
  | Some (VMap envelope) =>
      match decodeStatusEnvelope envelope envelopeRef resourceID targetGeneration with
      | Ok values => evidenceAvailable values
      | Err e => if errors_is e errOutputUnavailable then evidenceUnavailable else evidenceInvalid
      | Panic _ => evidenceInvalid
      end
  | Some _ => evidenceInvalid
  end.

(** ** Properties *)

(** What the loop asks of a rule before it goes on: a required condition is
    there and either true of this generation, or false for a reason that is not
    terminal. *)
Definition passed (b : resolvedBinding) (conditions : list document) (generation : uint64)
    (rule : ConditionRule) : bool :=
  negb (rule_Required rule) ||
  non_nil (conditionByType conditions (rule_Type rule)) (λ condition,
    if conditionStatus condition =? "True"
    then non_nil (conditionObservedGeneration condition) (λ observed, observed =? generation)
    else (conditionStatus condition =? "False") &&
         negb (isTerminalReason b (conditionReason condition))).

Lemma evaluateRules_ready b conditions generation rules evaluation newest :
  ev_readiness evaluation ≠ ResourceReadinessReady → ev_terminalFailure evaluation = None →
  let result := evaluateRules b conditions generation rules evaluation newest in
  (ev_readiness result = ResourceReadinessReady ↔
     forallb (passed b conditions generation) rules = true) ∧
  (ev_readiness result = ResourceReadinessReady → ev_terminalFailure result = None).
Proof.
  revert evaluation newest. induction rules as [|rule rest IH]; intros evaluation newest Hr Ht.
  { by split. }
  cbn [evaluateRules forallb]. unfold passed at 1.
  destruct (rule_Required rule); cbn [negb orb andb]; [|by apply IH].
  destruct (conditionByType _ _) as [condition|]; cbn [non_nil andb]; [|by split].
  destruct (conditionStatus condition =? "True").
  - destruct (conditionObservedGeneration condition) as [observed|]; cbn; [|by split].
    destruct (observed =? generation); cbn; [by apply IH|by split].
  - destruct (conditionStatus condition =? "False"); cbn; [|by split].
    destruct (isTerminalReason _ _); cbn; [by split|]. by apply IH.
Qed.

(** Readiness is judged by the conditions of the current generation.  An
    object is reported ready exactly if it is not being deleted, carries the
    generation that was asked for, and has each required condition, either true
    and observed at the object's own generation, or false for a reason that the
    binding does not call terminal; and then no failure is reported. *)
Theorem evaluateObject_ready object b g :
  (ev_readiness (evaluateObject object b g) = ResourceReadinessReady ↔
     Terminating object = false ∧ annotationTargetGeneration object = Some g ∧
     forallb (passed b (Conditions object) (Generation platform_uint64 object))
       (rb_readiness b) = true) ∧
  (ev_readiness (evaluateObject object b g) = ResourceReadinessReady →
     ev_terminalFailure (evaluateObject object b g) = None).
Proof.
  unfold evaluateObject. destruct (Terminating object); [split; [|done]; naive_solver|].
  destruct (annotationTargetGeneration object) as [stamped|]; cbn [non_nil];
    [|split; [|done]; naive_solver].
  destruct (bool_decide_reflect (stamped = g)) as [->|]; [|split; [|done]; naive_solver].
  edestruct evaluateRules_ready as [-> Hf]; [..|split; [naive_solver|exact Hf]]; done.
Qed.

(** Outputs are taken from an envelope only if it names the mapping that was
    asked for, this resource and this generation, and holds finite scalars. *)
Lemma flatValues_spec raw_values values :
  flatValues raw_values = Ok values →
  values.*1 = raw_values.*1 ∧
  Forall (λ kv, ∃ v, flatScalar v = Some kv.2 ∧
    ∀ text, kv.2 = VString text → (N.of_nat (String.length text) ≤ maxEnvelopeStringLen)%N) values.
Proof.
  revert values. induction raw_values as [|[name v] rest IH]; cbn; [by intros ? [= <-]|].
  intros values. destruct (flatScalar v) as [scalar|] eqn:Hv; [|done].
  destruct (non_nil _ _) eqn:Hl; [done|]. intros (vs & Hvs & [= <-])%bind_Ok.
  destruct (IH _ Hvs) as [Hn Hf]. split; [cbn; by rewrite Hn|]. constructor; [|done].
  exists v. split; [done|]. cbn. intros text ->. by apply N.ltb_ge.
Qed.

Lemma holds_spec expected read : holds expected read = true ↔ read = Ok (Some expected).
Proof. destruct read as [[n|]| |]; cbn; try done. rewrite bool_decide_eq_true. naive_solver. Qed.

Theorem decodeStatusEnvelope_sound envelope mappingRef resourceID g values :
  decodeStatusEnvelope envelope mappingRef resourceID g = Ok values →
  as_string (field "mapping" envelope) = Some mappingRef ∧
  as_string (field "resourceId" envelope) = Some resourceID ∧
  envelopeInteger envelope "version" = Ok (Some outputEnvelopeVersion) ∧
  envelopeInteger envelope "targetGeneration" = Ok (Some g) ∧
  values ≠ [] ∧ (length values ≤ maxEnvelopeKeys)%nat ∧
  Forall (λ kv, ∃ v, flatScalar v = Some kv.2 ∧
    ∀ text, kv.2 = VString text → (N.of_nat (String.length text) ≤ maxEnvelopeStringLen)%N) values.
Proof.
  unfold decodeStatusEnvelope. intros H.
  repeat match type of H with (if ?c then _ else _) = _ => destruct c eqn:?; [done|] end.
  repeat match goal with Hn : negb _ = false |- _ => apply negb_false_iff in Hn end.
  destruct (as_map _) as [raws|]; [|done].
  destruct (Nat.ltb _ (length raws)) eqn:Hlen; [done|].
  apply bind_Ok in H as (vs & Hvs & H).
  destruct (bool_decide_reflect (vs = [])); [done|]. injection H as ->.
  apply flatValues_spec in Hvs as [Hnames Hall]. apply Nat.ltb_ge in Hlen.
  assert (length values = length raws) as ->
    by (apply (f_equal length) in Hnames; by rewrite !length_fmap in Hnames).
  repeat split; try done; by (apply is_text_spec || apply holds_spec).
Qed.
End runtime.
