(* ===== verification/CrossplaneCalls.v ===== *)
(** * The calls of the Crossplane adapter

    Models [provisioner.go], [submission.go], [observation.go] and
    [discovery.go] of [src/internal/provisioning/crossplane]: [Submit] and
    [Observe] as computations that call the server ([Kube.kube]).  A result is
    what the Go call returns, an answer with an error or none; dereferencing the
    object of a reply that has none panics.  What the two may do to a cluster is
    shown in [Cluster]. *)

From S2P Require Import Prelude Operation Values Resource Status Provisioning.
From S2P Require Import Text Encoding Kube Crossplane CrossplaneFacts.
Open Scope string_scope.
Open Scope go_scope.
Open Scope list_scope.

(** ** Answers *)

Definition failureSubmission (correlation state : string) (handle : option ExecutionHandle)
    (failure : option ExecutionFailure) (facts : ObservedFacts) : Submission :=
  {| sub_Observation :=
       {| eo_Correlation := correlation;
          eo_Execution := Some {| ex_State := state; ex_Handle := handle;
                                  ex_Failure := failure |};
          eo_Resource := facts; eo_ObservedAt := time_zero; eo_Outputs := None |} |}.

Definition failedSubmission (kind reason : string) : Submission :=
  failureSubmission RequestCorrelationNotFound ExecutionStateFailed None
    (Some {| ef_Kind := kind; ef_Reason := reason;
             ef_Message := "provisioning request was rejected before any infrastructure effect" |})
    unknownFacts.

Definition conflictedSubmission (facts : ObservedFacts) (failure : ExecutionFailure) : Submission :=
  failureSubmission RequestCorrelationFound ExecutionStateFailed None (Some failure) facts.

Definition acceptedSubmission (handle : ExecutionHandle) (facts : ObservedFacts) : Submission :=
  failureSubmission RequestCorrelationFound ExecutionStateAccepted (Some handle) None facts.

(** The answer beside [ErrAmbiguousSubmission]. *)
Definition unknownSubmission (handle : ExecutionHandle) : Submission :=
  failureSubmission RequestCorrelationUnknown ExecutionStateUnknown (Some handle)
    (Some {| ef_Kind := FailureUnknown; ef_Reason := "SubmissionOutcomeUnknown";
             ef_Message := "submission outcome could not be determined" |})
    unknownFacts.

Definition deletionObservedComplete (handle : ExecutionHandle) : Submission :=
  failureSubmission RequestCorrelationFound ExecutionStateSucceeded (Some handle) None
    absentFacts.

(** The answer of [submitDelete] when the target is proved absent. *)
Definition absentSubmission : Submission :=
  failureSubmission RequestCorrelationNotFound ExecutionStateFailed None
    (Some {| ef_Kind := FailureNotFound; ef_Reason := reasonManagedTargetAbsent;
             ef_Message := "the managed target is conclusively absent" |})
    absentFacts.

Definition identityConflictFailure (reason : string) : ExecutionFailure :=
  {| ef_Kind := FailureExecution; ef_Reason := reason;
     ef_Message := if reason =? reasonTargetIdentityChanged
                   then "the managed target's physical identity changed during the execution"
                   else "a foreign object occupies the managed target name" |}.

Definition kindUnavailableFailure : ExecutionFailure :=
  {| ef_Kind := FailureUnsupported; ef_Reason := reasonTargetKindUnregistered;
     ef_Message := "the target API kind is no longer served by the control plane" |}.

Definition executionObservation (correlation : string) (execution : option Execution)
    (facts : ObservedFacts) (observedAt : Time) : ExecutionObservation :=
  {| eo_Correlation := correlation; eo_Execution := execution; eo_Resource := facts;
     eo_ObservedAt := observedAt; eo_Outputs := None |}.

Definition conflictedObservation (facts : ObservedFacts) (failure : ExecutionFailure)
    (observedAt : Time) : ExecutionObservation :=
  executionObservation RequestCorrelationFound
    (Some {| ex_State := ExecutionStateFailed; ex_Handle := None; ex_Failure := Some failure |})
    facts observedAt.

Definition runningObservation (facts : ObservedFacts) (handle : ExecutionHandle)
    (observedAt : Time) : ExecutionObservation :=
  executionObservation RequestCorrelationFound
    (Some {| ex_State := ExecutionStateRunning; ex_Handle := Some handle; ex_Failure := None |})
    facts observedAt.

Definition succeededObservation (facts : ObservedFacts) (handle : ExecutionHandle)
    (observedAt : Time) : ExecutionObservation :=
  executionObservation RequestCorrelationFound
    (Some {| ex_State := ExecutionStateSucceeded; ex_Handle := Some handle; ex_Failure := None |})
    facts observedAt.

Definition deletionCompleteObservation (handle : ExecutionHandle) : ExecutionObservation :=
  succeededObservation absentFacts handle time_zero.

(** ** Classification *)

Record failurePair := { fp_kind : string; fp_reason : string }.

Definition classifyAPIError (err : clientError) : failurePair :=
  if IsForbidden err
  then {| fp_kind := FailureUnavailable; fp_reason := reasonAccessDenied |}
  else if IsInvalid err
  then {| fp_kind := FailureInvalidRequest; fp_reason := reasonAdmissionRejected |}
  else if IsNotFound err
  then {| fp_kind := FailureUnsupported; fp_reason := reasonTargetKindUnregistered |}
  else {| fp_kind := FailureUnknown; fp_reason := "ControlPlaneRejected" |}.

Definition isTransportUncertain (err : clientError) : bool :=
  negb (IsAPIError err) || IsUnavailable err.

(** The preflight read failed: nothing was written. *)
Definition preflightFailure (err : clientError) : Submission :=
  if negb (IsAPIError err) || IsUnavailable err
  then failedSubmission FailureUnavailable reasonControlPlaneUnavailable
  else let pair := classifyAPIError err in failedSubmission (fp_kind pair) (fp_reason pair).

Definition resolveRequest (p : XProvisioner) (ref : ResourceTypeRef) (capability : Capability)
    : resolvedBinding + failurePair :=
  match lookupBinding (xp_bindings p) ref with
  | None => inr {| fp_kind := FailureUnsupported; fp_reason := "ResourceTypeUnsupported" |}
  | Some binding =>
      if (capability <>? "") && negb (supportsCapability binding capability)
      then inr {| fp_kind := FailureUnsupported; fp_reason := "CapabilityUnsupported" |}
      else inl binding
  end.

Inductive absenceResolution := absenceProven | kindNotServed | absenceUncertain.

(** [resolveAbsence], and what the caller does with its answer. *)
Definition resolveAbsence {V} (binding : resolvedBinding) (next : absenceResolution → kube V)
    : kube V :=
  ServedResource (rb_gvr binding) (λ verdict, next (match verdict with
    | ServedConfirmed => absenceProven
    | ServedRefuted => kindNotServed
    | ServedUnknown => absenceUncertain
    end)).

Inductive mutationOutcome :=
  | mutationSucceeded
  | mutationIdentityConflict
  | mutationRejected
  | mutationUncertain.

Definition maxConditionalRetries : nat := 3.

(** ** Submit *)

(** What [Submit] and [Observe] return. *)
Abbreviation submission_call := (kube (outcome (Submission * option error))) (only parsing).

Definition answers (s : Submission) : submission_call := Done (Ok (s, None)).
Definition uncertain_outcome (handle : ExecutionHandle) : submission_call :=
  Done (Ok (unknownSubmission handle, Some ErrAmbiguousSubmission)).

Definition nil_object : string := "invalid memory address or nil pointer dereference".

Definition foreignTarget : Submission :=
  conflictedSubmission (presentFacts ResourceReadinessUnknown)
    (identityConflictFailure reasonTargetIdentityConflict).

(** [mutationSubmission]. *)
Definition mutationSubmission (handle : ExecutionHandle) (result : mutationOutcome) : submission_call :=
  match result with
  | mutationSucceeded =>
      answers (acceptedSubmission handle (presentFacts ResourceReadinessUnknown))
  | mutationIdentityConflict => answers foreignTarget
  | mutationUncertain => uncertain_outcome handle
  | mutationRejected => answers (failedSubmission FailureExecution "DesiredStateUpdateRejected")
  end.

Section calls.
Context {runtime : Runtime} {digest : Digest}.

(** The loop of [applyDesiredState], with the attempts that are left; [owner] is
    the identity that the manifest names. *)
Fixpoint applyDesiredState {V} (attempts : nat) (binding : resolvedBinding)
    (owner : identityMetadata) (name : string) (manifest : Object)
    (verifiedUID currentVersion : string) (next : outcome mutationOutcome → kube V) : kube V :=
  match attempts with
  | 0 => next (Ok mutationRejected)
  | S attempts =>
      Update (rb_gvr binding) (rb_namespace binding) name
        (conditionalUpdate manifest currentVersion) currentVersion (λ reply,
      match reply with
      | inl _ => next (Ok mutationSucceeded)
      | inr err =>
          if IsConflict err then
            Get (rb_gvr binding) (rb_namespace binding) name (λ reply,
            match reply with
            | inr getErr =>
                next (Ok (if IsNotFound getErr then mutationIdentityConflict
                          else mutationUncertain))
            | inl None => next (Panic nil_object)
            | inl (Some fresh) =>
                if negb (verify owner fresh) ||
                   (verifiedUID <>? "") && (UID fresh <>? verifiedUID)
                then next (Ok mutationIdentityConflict)
                else applyDesiredState attempts binding owner name manifest verifiedUID
                       (ResourceVersion fresh) next
            end)
          else if isTransportUncertain err then next (Ok mutationUncertain)
          else next (Ok mutationRejected)
      end)
  end.

Definition resourceIDOfManifest (manifest : Object) : string :=
  default "" (AnnotationString manifest annotationResourceID).

(** [applyDesiredState] followed by [mutationSubmission]. *)
Definition submitDesiredState (p : XProvisioner) (binding : resolvedBinding) (name : string)
    (manifest : Object) (existing : Object) (handle : ExecutionHandle) : submission_call :=
  applyDesiredState maxConditionalRetries binding
    (identityFor p (b_ResourceType (rb_binding binding)) (resourceIDOfManifest manifest))
    name manifest (UID existing) (ResourceVersion existing) (λ result,
  match result with
  | Ok result => mutationSubmission handle result
  | Err e => Done (Err e)
  | Panic message => Done (Panic message)
  end).

Definition createMissingObject (p : XProvisioner) (binding : resolvedBinding)
    (request : ExecutionRequest) (manifest : Object) (handle : ExecutionHandle) : submission_call :=
  Create (rb_gvr binding) (rb_namespace binding) manifest (λ reply,
  match reply with
  | inl _ => answers (acceptedSubmission handle (presentFacts ResourceReadinessUnknown))
  | inr err =>
      if IsAlreadyExists err then
        Get (rb_gvr binding) (rb_namespace binding)
          (targetName p binding (er_ResourceID request)) (λ reply,
        match reply with
        | inl (Some raced) =>
            if verify (identityFor p (er_ResourceType request) (er_ResourceID request)) raced
            then submitDesiredState p binding (Name raced) manifest raced handle
            else answers foreignTarget
        | inl None => Done (Panic nil_object)
        | inr _ => uncertain_outcome handle
        end)
      else if isTransportUncertain err then uncertain_outcome handle
      else let pair := classifyAPIError err in
           answers (failedSubmission (fp_kind pair) (fp_reason pair))
  end).

Definition inputOf (request : ExecutionRequest) : Input :=
  {| in_OperationID := er_OperationID request; in_AttemptNumber := er_AttemptNumber request;
     in_ResourceID := er_ResourceID request; in_ResourceType := er_ResourceType request;
     in_Capability := er_Capability request; in_Spec := er_Spec request;
     in_TargetGeneration := er_TargetGeneration request |}.

(** [buildExecutionManifest]; a panic of the binding's encoder goes through. *)
Definition buildExecutionManifest (p : XProvisioner) (binding : resolvedBinding)
    (request : ExecutionRequest) : outcome Object :=
  buildManifest binding (identityFor p (er_ResourceType request) (er_ResourceID request))
    (targetName p binding (er_ResourceID request)) (inputOf request).

Definition submitCreateOrUpdate (p : XProvisioner) (binding : resolvedBinding)
    (request : ExecutionRequest) : submission_call :=
  match buildExecutionManifest p binding request with
  | Err _ => answers (failedSubmission FailureInvalidRequest "ProgramInputInvalid")
  | Panic message => Done (Panic message)
  | Ok manifest =>
      let name := targetName p binding (er_ResourceID request) in
      let handle := encodeHandle binding name "" in
      Get (rb_gvr binding) (rb_namespace binding) name (λ reply,
      match reply with
      | inr err =>
          if IsNotFound err then
            if er_Capability request =? CapabilityUpdate then
              resolveAbsence binding (λ absence, answers (match absence with
                | kindNotServed => failedSubmission FailureUnsupported reasonTargetKindUnregistered
                | absenceUncertain =>
                    failedSubmission FailureUnavailable reasonControlPlaneUnavailable
                | absenceProven => failedSubmission FailureNotFound reasonManagedTargetAbsent
                end))
            else createMissingObject p binding request manifest handle
          else answers (preflightFailure err)
      | inl None => Done (Panic nil_object)
      | inl (Some existing) =>
          if verify (identityFor p (er_ResourceType request) (er_ResourceID request)) existing
          then submitDesiredState p binding name manifest existing handle
          else answers foreignTarget
      end)
  end.

Definition submitDelete (p : XProvisioner) (binding : resolvedBinding)
    (request : ExecutionRequest) : submission_call :=
  let name := targetName p binding (er_ResourceID request) in
  let handle := encodeHandle binding name "" in
  Get (rb_gvr binding) (rb_namespace binding) name (λ reply,
  match reply with
  | inr err =>
      if IsNotFound err then
        resolveAbsence binding (λ absence, answers (match absence with
          | absenceProven => absentSubmission
          | kindNotServed => failedSubmission FailureUnsupported reasonTargetKindUnregistered
          | absenceUncertain => failedSubmission FailureUnavailable reasonControlPlaneUnavailable
          end))
      else answers (preflightFailure err)
  | inl None => Done (Panic nil_object)
  | inl (Some existing) =>
      if negb (verify (identityFor p (er_ResourceType request) (er_ResourceID request)) existing)
      then answers foreignTarget
      else Delete (rb_gvr binding) (rb_namespace binding) name (UID existing) (λ reply,
      match reply with
      | None => answers (acceptedSubmission handle (presentFacts ResourceReadinessNotReady))
      | Some deleteErr =>
          if IsConflict deleteErr then
            Get (rb_gvr binding) (rb_namespace binding) name (λ reply,
            match reply with
            | inl _ => answers foreignTarget
            | inr getErr => if IsNotFound getErr
                            then answers (deletionObservedComplete handle)
                            else uncertain_outcome handle
            end)
          else if IsNotFound deleteErr then
            resolveAbsence binding (λ absence,
              match absence with
              | absenceProven => answers (deletionObservedComplete handle)
              | kindNotServed =>
                  answers (conflictedSubmission (presentFacts ResourceReadinessUnknown)
                    kindUnavailableFailure)
              | absenceUncertain => uncertain_outcome handle
              end)
          else if isTransportUncertain deleteErr then uncertain_outcome handle
          else let pair := classifyAPIError deleteErr in
               answers (failedSubmission (fp_kind pair) (fp_reason pair))
      end)
  end).

(** [Submit]. *)
Definition XSubmit (p : XProvisioner) (request : ExecutionRequest) : submission_call :=
  match ExecutionRequest_Validate request with
  | Ok _ =>
      match resolveRequest p (er_ResourceType request) (er_Capability request) with
      | inr failure => answers (failedSubmission (fp_kind failure) (fp_reason failure))
      | inl binding =>
          if er_Capability request =? CapabilityDelete
          then submitDelete p binding request
          else submitCreateOrUpdate p binding request
      end
  | _ => answers (failedSubmission FailureInvalidRequest "InvalidExecutionRequest")
  end.

(** ** Observe *)

Definition observed (o : ExecutionObservation) : kube observation_result := Done (Ok (o, None)).
Definition unobserved (kind reason message : string) : kube observation_result :=
  Done (Ok (no_observation, Some (ObservationError
    {| ef_Kind := kind; ef_Reason := reason; ef_Message := message |}))).
Definition observationUnavailable (reason : string) : kube observation_result :=
  unobserved FailureUnavailable reason "provisioning observation is unavailable".

Definition mapping_error (format : string) (args : list arg) : option observationError :=
  Some (OutputMappingError (Wrapf ErrObservationFailure format args)).

Definition withOutputs (o : ExecutionObservation) (state : string)
    (values : list (string * value)) (mapping : OutputMapping) (reason : string)
    : ExecutionObservation :=
  o <| eo_Outputs := Some {| oe_State := state; oe_Values := values;
                             oe_OutputMappingRef := map_Ref mapping; oe_Reason := reason |} |>.

Definition attachOutputs (binding : resolvedBinding) (request : ObservationRequest)
    (object : Object) (o : ExecutionObservation)
    : ExecutionObservation * option observationError :=
  if (or_Capability request =? CapabilityDelete) || (or_Capability request =? "") ||
     negb ((eo_Correlation o =? RequestCorrelationFound) &&
           non_nil (eo_Execution o) (λ ex, ex_State ex =? ExecutionStateSucceeded))
  then (o, None) else
  let selected := or_OutputMappingRef request in
  let source := or_OutputSourceMappingRef request in
  if bool_decide (rb_outputs binding = ∅) then
    if (selected =? "") && (source =? "") then (o, None)
    else (o, mapping_error
      "%w: execution references output mapping %q but no such mapping is registered"
      [ArgS selected])
  else if selected =? "" then
    (o, mapping_error "%w: registered output mapping %q has no durable identity on the execution"
          [ArgS (b_CurrentOutputMappingRef (rb_binding binding))])
  else
    match rb_outputs binding !! selected with
    | None => (o, mapping_error "%w: requested output mapping %q is not registered"
                    [ArgS selected])
    | Some mapping =>
        if (source <>? "") && (map_CompatibleSourceMappingRef mapping <>? source) then
          (o, mapping_error
             "%w: selected output mapping %q is not compatible with source mapping %q"
             [ArgS (map_Ref mapping); ArgS source])
        else
          let envelopeRef := if source <>? "" then source else map_Ref mapping in
          match extractOutputEvidence object mapping envelopeRef (or_ResourceID request)
                  (or_TargetGeneration request) with
          | evidenceAvailable values => (withOutputs o OutputsAvailable values mapping "", None)
          | evidenceInvalid =>
              (withOutputs o OutputsInvalid [] mapping "OutputContractViolation", None)
          | evidenceUnavailable =>
              (withOutputs o OutputsUnavailable [] mapping "OutputsUnavailable", None)
          end
    end.

(** What [Observe] concludes from an object that is Liftr's, whose identity has
    not changed. *)
Definition observeOwned (binding : resolvedBinding) (request : ObservationRequest)
    (handle : ExecutionHandle) (object : Object) : kube observation_result :=
  let passive := or_OperationID request =? "" in
  let evaluation := evaluateObject object binding (or_TargetGeneration request) in
  let facts := presentFacts (ev_readiness evaluation) in
  let at_ := ev_observedAt evaluation in
  if passive then observed (executionObservation RequestCorrelationUnknown None facts at_)
  else if or_Capability request =? CapabilityDelete then
    if Terminating object
    then observed (runningObservation (presentFacts ResourceReadinessNotReady) handle at_)
    else observed (runningObservation facts handle at_)
  else if negb (operationCorrelated object (or_OperationID request) (or_TargetGeneration request))
  then observed (executionObservation RequestCorrelationNotFound None facts at_)
  else match ev_terminalFailure evaluation with
       | Some failure => observed (conflictedObservation facts failure at_)
       | None =>
           if ev_readiness evaluation =? ResourceReadinessReady
           then Done (Ok (attachOutputs binding request object
                  (succeededObservation (presentFacts ResourceReadinessReady) handle at_)))
           else observed (runningObservation facts handle at_)
       end.

(** What it concludes from a target that was not found. *)
Definition observeAbsent (binding : resolvedBinding) (request : ObservationRequest)
    (handle : ExecutionHandle) : kube observation_result :=
  let passive := or_OperationID request =? "" in
  let uncertain reason :=
    if passive
    then observed (executionObservation RequestCorrelationUnknown None unknownFacts time_zero)
    else observationUnavailable reason in
  resolveAbsence binding (λ absence,
    match absence with
    | kindNotServed => uncertain reasonTargetKindUnregistered
    | absenceUncertain => uncertain reasonControlPlaneUnavailable
    | absenceProven =>
        if negb passive && (or_Capability request =? CapabilityDelete)
        then observed (deletionCompleteObservation handle)
        else observed (executionObservation
               (if passive then RequestCorrelationUnknown else RequestCorrelationNotFound)
               None absentFacts time_zero)
    end).

(** [Observe]. *)
Definition XObserve (p : XProvisioner) (request : ObservationRequest) : kube observation_result :=
  match ObservationRequest_Validate request with
  | Ok _ =>
      match resolveRequest p (or_ResourceType request) (or_Capability request) with
      | inr failure =>
          unobserved (fp_kind failure) (fp_reason failure)
            "observation capability is unsupported"
      | inl binding =>
          let passive := or_OperationID request =? "" in
          let name := targetName p binding (or_ResourceID request) in
          let expectedUID := uidFromHandle request in
          Get (rb_gvr binding) (rb_namespace binding) name (λ reply,
          match reply with
          | inr err =>
              if IsNotFound err
              then observeAbsent binding request (encodeHandle binding name expectedUID)
              else observationUnavailable
                     (if IsAPIError err && negb (IsUnavailable err)
                      then fp_reason (classifyAPIError err) else reasonControlPlaneUnavailable)
          | inl None => Done (Panic nil_object)
          | inl (Some object) =>
              if negb (verify (identityFor p (or_ResourceType request) (or_ResourceID request))
                         object)
              then observed
                (if passive
                 then executionObservation RequestCorrelationUnknown None
                        (presentFacts ResourceReadinessUnknown) time_zero
                 else conflictedObservation (presentFacts ResourceReadinessUnknown)
                        (identityConflictFailure reasonTargetIdentityConflict) time_zero)
              else if (expectedUID <>? "") && (UID object <>? expectedUID)
              then observed (conflictedObservation (presentFacts ResourceReadinessUnknown)
                     (identityConflictFailure reasonTargetIdentityChanged) time_zero)
              else observeOwned binding request (encodeHandle binding name (UID object)) object
          end)
      end
  | _ => unobserved FailureInvalidRequest "InvalidObservationRequest"
           "observation request is invalid"
  end.
End calls.
