(* ===== verification/Cluster.v ===== *)
(** * The Crossplane adapter on a cluster

    What the API server documents of its requests ([Cluster]), stated for any
    server, and what follows for [Submit] and [Observe] of the adapter when
    others write to the same cluster between its requests.  A submission changes
    nothing but its own target, and that only while it is Liftr's
    ([submit_spares_others]); its answer says what it did
    ([submit_evidence]); an observation writes nothing, and claims a success
    only for the operation it was asked about ([observed_success]).
    [Fakeapi] is a server with these laws. *)

From S2P Require Import Prelude Operation Values Resource Status Provisioning.
From S2P Require Import Text Encoding Strconv Kube Crossplane CrossplaneFacts CrossplaneCalls.
Open Scope string_scope.
Open Scope go_scope.
Open Scope list_scope.

(** ** Clusters

    [live w s] is the object at a spot, that is, with a name in a collection
    ([at_]; the paths of two versions may name one collection, but objects are
    read and compared in the version of the binding).  [past] are the objects
    that have been live up to now.  [serves] is the handling of one request,
    [drifts] what others and the server itself may do between two requests. *)

(** What the server has stored keeps the labels and annotations it was sent. *)
Definition carries (sent stored : Object) : Prop :=
  ∀ key text, (LabelString sent key = Some text → LabelString stored key = Some text) ∧
              (AnnotationString sent key = Some text → AnnotationString stored key = Some text).

Definition is_write (rq : request) : bool := rq_Method rq <>? "GET".

(** The object that a write addresses. *)
Definition target (rq : request) : string * string :=
  (rq_Path rq,
   if rq_Method rq =? "POST"
   then Name {| raw := default [] (rq_Body rq) |} else rq_Name rq).

(** The preconditions of a write. *)
Definition required_version (rq : request) : string :=
  ResourceVersion {| raw := default [] (rq_Body rq) |}.
Definition required_uid (rq : request) : string :=
  textOf "uid" (childMap (default [] (rq_Body rq)) "preconditions").

(** A structured failure by which the server says that it did nothing. *)
Definition conclusive (err : clientError) : bool :=
  IsConflict err || IsNotFound err || IsAlreadyExists err ||
  IsAPIError err && negb (IsUnavailable err).

Definition success (code : Z) : bool := Z.leb 200 code && Z.ltb code 300.

Section cluster.
Context {transport : Transport}.

Class Cluster := {
  world : Type;
  spot : Type;
  at_ : string * string → spot;
  live : world → spot → option Object;
  past : world → spot → Object → Prop;
  serves : world → request → httpReply → world → Prop;
  drifts : world → world → Prop }.

Definition untouched `{Cluster} (w w' : world) : Prop := ∀ s, live w' s = live w s.

(** The laws, each documented for the API server: optimistic concurrency by
    resource versions, which never come back; preconditions of deletions; what
    a status code says. *)
Class ClusterLaws `{Cluster} := {
  past_live w s o : live w s = Some o → past w s o;
  past_drifts w w' s o : drifts w w' → past w s o → past w' s o;
  past_serves w rq r w' s o : serves w rq r w' → past w s o → past w' s o;
  past_named w c n o :
    past w (at_ (c, n)) o → Name o = n ∧ UID o ≠ "" ∧ ResourceVersion o ≠ "";
  past_version w s o o' :
    past w s o → past w s o' → ResourceVersion o = ResourceVersion o' → o = o';
  read_drifts w rq r w' : serves w rq r w' → is_write rq = false → drifts w w';
  read_object w rq r w' o :
    serves w rq r w' → is_write rq = false → rq_Name rq ≠ "" → (do r).1 = inl (Some o) →
    past w' (at_ (target rq)) o;
  write_frame w rq r w' s :
    serves w rq r w' → is_write rq = true → s = at_ (target rq) ∨ live w' s = live w s;
  create_free w rq r w' :
    serves w rq r w' → rq_Method rq = "POST" →
    untouched w w' ∨ live w (at_ (target rq)) = None;
  update_matched w rq r w' :
    serves w rq r w' → rq_Method rq = "PUT" → required_version rq ≠ "" →
    untouched w w' ∨ ∃ o, live w (at_ (target rq)) = Some o ∧
                          ResourceVersion o = required_version rq;
  delete_matched w rq r w' :
    serves w rq r w' → rq_Method rq = "DELETE" → required_uid rq ≠ "" →
    untouched w w' ∨ ∃ o, live w (at_ (target rq)) = Some o ∧ UID o = required_uid rq;
  refused w rq code body w' :
    serves w rq (Replied code body) w' → is_write rq = true → success code = false →
    conclusive (Structured (decodeStatusFailure code body)) = true → untouched w w';
  persisted w rq code body w' :
    serves w rq (Replied code body) w' → rq_Method rq = "POST" ∨ rq_Method rq = "PUT" →
    success code = true →
    ∃ o, live w' (at_ (target rq)) = Some o ∧
         carries {| raw := default [] (rq_Body rq) |} o;
  deleted w rq code body w' :
    serves w rq (Replied code body) w' → rq_Method rq = "DELETE" → success code = true →
    live w' (at_ (target rq)) = None ∨
    ∃ o, live w' (at_ (target rq)) = Some o ∧ Terminating o = true }.
End cluster.

(** ** Runs

    A computation meets a server: between its requests the cluster drifts. *)

Section runs.
Context {transport : Transport} {cluster : Cluster}.

Record exchange := {
  xc_before : world;
  xc_request : request;
  xc_reply : httpReply;
  xc_after : world }.

(** One request, after whatever others have done. *)
Definition exchanged (w : world) (rq : request) (e : exchange) : Prop :=
  rtc drifts w (xc_before e) ∧ xc_request e = rq ∧
  serves (xc_before e) rq (xc_reply e) (xc_after e).

Inductive runs {V} : world → kube V → list exchange → V → Prop :=
  | runs_done w v : runs w (Done v) [] v
  | runs_get w gvr ns n next e log v :
      exchanged w (GetRequest gvr ns n) e →
      runs (xc_after e) (next (do (xc_reply e)).1) log v →
      runs w (Get gvr ns n next) (e :: log) v
  | runs_create w gvr ns o next e log v :
      exchanged w (CreateRequest gvr ns o) e →
      runs (xc_after e) (next (do (xc_reply e)).1) log v →
      runs w (Create gvr ns o next) (e :: log) v
  | runs_update w gvr ns n o rv next e log v :
      exchanged w (UpdateRequest gvr ns n o rv) e →
      runs (xc_after e) (next (do (xc_reply e)).1) log v →
      runs w (Update gvr ns n o rv next) (e :: log) v
  | runs_delete w gvr ns n uid next e log v :
      exchanged w (DeleteRequest gvr ns n uid) e →
      runs (xc_after e) (next (deleteReply (xc_reply e))) log v →
      runs w (Delete gvr ns n uid next) (e :: log) v
  | runs_served w gvr next e log v :
      exchanged w (ServedRequest gvr) e →
      runs (xc_after e) (next (servedReply (gvr_Resource gvr) (xc_reply e))) log v →
      runs w (ServedResource gvr next) (e :: log) v.
End runs.

(** ** Computations that keep to their target

    What a computation has seen at its target, and what has become of its
    writes: nothing, one has landed, or it cannot tell. *)

Inductive landing :=
  | Nothing
  | Landed (sent : option Object)
  | Unsettled.

Definition settled (sent : option Object) (err : option clientError) : landing :=
  match err with
  | None => Landed sent
  | Some err => if conclusive err then Nothing else Unsettled
  end.

Definition error_of {A} (reply : A + clientError) : option clientError :=
  match reply with inl _ => None | inr err => Some err end.

Definition see (reply : option Object + clientError) (seen : list Object) : list Object :=
  match reply with inl (Some o) => o :: seen | _ => seen end.

Section keeps.
Context (c n : string) (i : identityMetadata).

(** An object that a server may return for the target. *)
Definition plausible (reply : option Object + clientError) : Prop :=
  ∀ o, reply = inl (Some o) → Name o = n ∧ UID o ≠ "" ∧ ResourceVersion o ≠ "".

(** The computation asks only for its target; it writes only while no write of
    it may have landed, and only over an object that it has seen there and
    verified; and it ends with what [Q] allows. *)
Fixpoint keeps {V} (Q : landing → V → Prop) (seen : list Object) (l : landing) (k : kube V)
    : Prop :=
  match k with
  | Done v => Q l v
  | Get gvr ns name next =>
      (Path gvr ns = c ∧ name = n) ∧
      ∀ reply, plausible reply → keeps Q (see reply seen) l (next reply)
  | Create gvr ns o next =>
      (Path gvr ns = c ∧ Name o = n) ∧ l = Nothing ∧
      ∀ reply, keeps Q seen (settled (Some o) (error_of reply)) (next reply)
  | Update gvr ns name o rv next =>
      (Path gvr ns = c ∧ name = n) ∧ l = Nothing ∧
      (∃ e, e ∈ seen ∧ verify i e = true ∧ ResourceVersion e = rv) ∧
      ∀ reply, keeps Q seen (settled (Some o) (error_of reply)) (next reply)
  | Delete gvr ns name uid next =>
      (Path gvr ns = c ∧ name = n) ∧ l = Nothing ∧
      (∃ e, e ∈ seen ∧ verify i e = true ∧ UID e = uid) ∧
      ∀ reply, keeps Q seen (settled None reply) (next reply)
  | ServedResource gvr next => ∀ verdict, keeps Q seen l (next verdict)
  end.
End keeps.

(** ** What such a computation does to a cluster *)

Section sound.
Context {transport : Transport} {cluster : Cluster} {laws : ClusterLaws}.
Context (c n : string) (i : identityMetadata).
Hypothesis named : n ≠ "".
Implicit Types (e : exchange) (log : list exchange).

(** The exchange changes nothing but the target, and overwrites or deletes only
    an object with the identity of one that was verified to be the resource's
    own; an update, only that very object as it was verified. *)
Definition spares e : Prop :=
  is_write (xc_request e) = true → ∀ s, live (xc_after e) s ≠ live (xc_before e) s →
  s = at_ (c, n) ∧
  (live (xc_before e) s = None ∨
   ∃ o o', live (xc_before e) s = Some o ∧ past (xc_before e) s o' ∧ verify i o' = true ∧
           UID o = UID o' ∧ (rq_Method (xc_request e) = "PUT" → o = o')).

Definition fits e : Prop :=
  match xc_reply e with
  | Replied _ body => (payload_length body ≤ maxResponseBytes)%N
  | _ => True
  end.

(** The exchange did not change the cluster by a write. *)
Definition still e : Prop :=
  is_write (xc_request e) = true → untouched (xc_before e) (xc_after e).

(** What has landed: the object as sent, or its deletion. *)
Definition landed (sent : option Object) e : Prop :=
  is_write (xc_request e) = true ∧
  match sent with
  | Some o => ∃ stored, live (xc_after e) (at_ (c, n)) = Some stored ∧ carries o stored
  | None => live (xc_after e) (at_ (c, n)) = None ∨
            ∃ stored, live (xc_after e) (at_ (c, n)) = Some stored ∧ Terminating stored = true
  end.

Definition account (l : landing) log : Prop :=
  match l with
  | Nothing => Forall still log
  | Landed sent => ∃ earlier e later, log = earlier ++ e :: later ∧ Forall still earlier ∧
      landed sent e ∧ Forall (λ e, is_write (xc_request e) = false) later
  | Unsettled => True
  end.

Lemma past_rtc w w' s o : rtc drifts w w' → past w s o → past w' s o.
Proof. induction 1; eauto using past_drifts. Qed.

Lemma exchanged_seen w rq e s seen :
  exchanged w rq e → Forall (past w s) seen →
  Forall (past (xc_before e) s) seen ∧ Forall (past (xc_after e) s) seen.
Proof.
  intros (Hd & _ & Hs) Hseen. split; (eapply Forall_impl; [exact Hseen|]); intros o Ho;
    [|eapply past_serves; [exact Hs|]]; by eapply past_rtc.
Qed.

(** Reading adds to what has been seen. *)
Lemma exchanged_get w gvr ns seen e :
  Path gvr ns = c → exchanged w (GetRequest gvr ns n) e → Forall (past w (at_ (c, n))) seen →
  plausible n (do (xc_reply e)).1 ∧
  Forall (past (xc_after e) (at_ (c, n))) (see (do (xc_reply e)).1 seen).
Proof.
  intros <- He Hseen. destruct (exchanged_seen _ _ _ _ _ He Hseen) as [_ Ha].
  destruct He as (_ & Hrq & Hs).
  assert (∀ o, (do (xc_reply e)).1 = inl (Some o) → past (xc_after e) (at_ (Path gvr ns, n)) o)
    as Hread.
  { intros o Ho. exact (read_object _ _ _ _ _ Hs eq_refl named Ho). }
  split; [intros o Ho; by eapply past_named, Hread|].
  destruct (do (xc_reply e)).1 as [[o|]|err]; cbn; [constructor; [by apply Hread|done]|done..].
Qed.

Lemma account_read l log e :
  account l log → is_write (xc_request e) = false → account l (log ++ [e]).
Proof.
  intros Hl He. destruct l as [|sent|]; cbn in *; [|destruct Hl as (a & f & b & -> & Ha & Hf & Hb)|done].
  - apply Forall_app. split; [done|]. constructor; [|done]. intros Hw. congruence.
  - exists a, f, (b ++ [e]). split_and!; [by rewrite <-app_assoc|done..|].
    apply Forall_app. by repeat constructor.
Qed.

(** A write that was answered, and how. *)
Lemma do_error reply err :
  (do reply).1 = inr err → conclusive err = true →
  match reply with Replied _ body => (payload_length body ≤ maxResponseBytes)%N | _ => True end →
  ∃ code body, reply = Replied code body ∧ success code = false ∧
    err = Structured (decodeStatusFailure code body).
Proof.
  destruct reply as [e|code e|code body]; cbn [do]; intros Hr Hc Hf;
    [injection Hr as <-; discriminate Hc..|].
  rewrite (proj2 (N.ltb_ge _ _) Hf) in Hr.
  destruct (Z.ltb code 200 || Z.leb 300 code) eqn:Hcode; cbn in Hr.
  - injection Hr as <-. exists code, body. split_and!; [done| |done]. unfold success.
    apply orb_true_iff in Hcode as [H%Z.ltb_lt|H%Z.leb_le].
    + by rewrite (proj2 (Z.leb_gt _ _) H).
    + by rewrite (proj2 (Z.ltb_ge _ _) H), andb_false_r.
  - destruct (payload_TrimSpace body =? ""); [done|].
    destruct (unmarshalDocument body); [done|]. injection Hr as <-. discriminate Hc.
Qed.

Lemma do_success reply o code :
  do reply = (inl o, code) → ∃ body, reply = Replied code body ∧ success code = true.
Proof.
  destruct reply as [e|code' e|code' body]; cbn [do]; [done..|].
  destruct (N.ltb _ _); [done|].
  destruct (Z.ltb code' 200 || Z.leb 300 code') eqn:Hcode; [done|].
  apply orb_false_iff in Hcode as [H1%Z.ltb_ge H2%Z.leb_gt].
  assert (success code' = true) as Hs.
  { unfold success. by rewrite (proj2 (Z.leb_le _ _) H1), (proj2 (Z.ltb_lt _ _) H2). }
  destruct (payload_TrimSpace body =? ""); [intros [= _ <-]; eauto|].
  destruct (unmarshalDocument body); [intros [= _ <-]; eauto|done].
Qed.

Lemma carries_alike o o' stored : alike o o' → carries o stored → carries o' stored.
Proof.
  intros (HL & HA & _) Hc key text. unfold LabelString, AnnotationString. rewrite <-HL, <-HA.
  apply Hc.
Qed.

Lemma refused_still w rq e err :
  exchanged w rq e → fits e → (do (xc_reply e)).1 = inr err → conclusive err = true → still e.
Proof.
  intros (_ & Hrq & Hs) Hf Hr Hc Hw. rewrite Hrq in Hw.
  destruct (do_error _ _ Hr Hc Hf) as (code & body & Hreply & Hcode & ->).
  rewrite Hreply in Hs. exact (refused _ _ _ _ _ Hs Hw Hcode Hc).
Qed.

Lemma account_write log e sent err :
  account Nothing log → fits e →
  (err = None → landed sent e) →
  (∀ failure, err = Some failure → conclusive failure = true → still e) →
  account (settled sent err) (log ++ [e]).
Proof.
  intros Hlog Hf Hnone Hsome. destruct err as [failure|]; cbn.
  - destruct (conclusive failure) eqn:Hc; [|done]. cbn. apply Forall_app.
    split; [done|]. constructor; [by apply (Hsome failure)|done].
  - exists log, e, []. split_and!; [done..|by apply Hnone|constructor].
Qed.

Lemma stored_landed w rq e sent o' code :
  exchanged w rq e → rq_Method rq = "POST" ∨ rq_Method rq = "PUT" → at_ (target rq) = at_ (c, n) →
  alike {| raw := default [] (rq_Body rq) |} sent →
  do (xc_reply e) = (inl o', code) → landed (Some sent) e.
Proof.
  intros (_ & Hrq & Hs) Hm Ht Ha Hdo. split.
  { rewrite Hrq. unfold is_write. by destruct Hm as [->| ->]. }
  destruct (do_success _ _ _ Hdo) as (body & Hreply & Hcode). rewrite Hreply in Hs.
  destruct (persisted _ _ _ _ _ Hs Hm Hcode) as (stored & Hlive & Hc).
  exists stored. rewrite <-Ht. split; [done|]. by eapply carries_alike.
Qed.

Lemma do_pair reply : do reply = ((do reply).1, (do reply).2).
Proof. by destruct (do reply). Qed.

Lemma target_create gvr ns o : target (CreateRequest gvr ns o) = (Path gvr ns, Name o).
Proof. by destruct o. Qed.

Lemma account_put w rq sent e log :
  account Nothing log → fits e → exchanged w rq e →
  rq_Method rq = "POST" ∨ rq_Method rq = "PUT" → at_ (target rq) = at_ (c, n) →
  alike {| raw := default [] (rq_Body rq) |} sent →
  account (settled (Some sent) (error_of (do (xc_reply e)).1)) (log ++ [e]).
Proof.
  intros Hlog Hf He Hm Ht Ha. apply account_write; [done..| |].
  - intros Hnone. destruct (do (xc_reply e)) as [[o|err] code] eqn:Hdo; [|done].
    by eapply stored_landed.
  - intros failure Hr Hc. eapply refused_still; [done..| |exact Hc].
    by destruct (do (xc_reply e)).1; cbn in Hr; [|injection Hr as ->].
Qed.

Lemma account_delete w gvr ns uid e log :
  Path gvr ns = c → account Nothing log → fits e → exchanged w (DeleteRequest gvr ns n uid) e →
  account (settled None (deleteReply (xc_reply e))) (log ++ [e]).
Proof.
  intros Hc Hlog Hf He. unfold deleteReply. rewrite (do_pair (xc_reply e)).
  destruct (do (xc_reply e)) as [[o|err] code] eqn:Hdo; cbn [fst snd].
  - destruct (do_success _ _ _ Hdo) as (body & Hreply & Hcode).
    destruct (bool_decide_reflect (code = 404%Z)) as [->|_]; [discriminate Hcode|].
    apply account_write; [done..| |done]. intros _. destruct He as (_ & Hrq & Hs).
    split; [by rewrite Hrq|]. rewrite Hreply in Hs. cbn in Hs.
    pose proof (deleted _ _ _ _ _ Hs eq_refl Hcode) as Hdel.
    unfold target in Hdel. cbn in Hdel. by rewrite Hc in Hdel.
  - apply account_write; [done..|]. intros failure [= <-] Hc'.
    eapply refused_still; [done..| |exact Hc']. by rewrite Hdo.
Qed.

(** A change is at the target. *)
Lemma write_at w rq e s :
  exchanged w rq e → is_write rq = true → at_ (target rq) = at_ (c, n) →
  live (xc_after e) s ≠ live (xc_before e) s → s = at_ (c, n).
Proof.
  intros (_ & _ & Hs) Hw Ht Hne. destruct (write_frame _ _ _ _ s Hs Hw) as [->|Heq]; done.
Qed.

Lemma spares_create w gvr ns o e :
  Path gvr ns = c → Name o = n → exchanged w (CreateRequest gvr ns o) e → spares e.
Proof.
  intros Hc Hn He _ s Hne.
  assert (at_ (target (CreateRequest gvr ns o)) = at_ (c, n)) as Ht
    by (rewrite target_create; congruence).
  assert (s = at_ (c, n)) as -> by (by eapply write_at).
  split; [done|left]. destruct He as (_ & _ & Hs).
  destruct (create_free _ _ _ _ Hs eq_refl) as [Hu|Hfree]; [by destruct Hne|].
  by rewrite <-Ht.
Qed.

Lemma spares_update w gvr ns o existing seen e :
  Path gvr ns = c → existing ∈ seen → verify i existing = true →
  Forall (past w (at_ (c, n))) seen →
  exchanged w (UpdateRequest gvr ns n o (ResourceVersion existing)) e → spares e.
Proof.
  intros Hc Hin Hv Hseen He _ s Hne.
  assert (s = at_ (c, n)) as -> by (eapply write_at; [done..| |done]; rewrite <-Hc; done).
  split; [done|right].
  destruct (exchanged_seen _ _ _ _ _ He Hseen) as [Hb _].
  pose proof (proj1 (Forall_forall _ _) Hb _ Hin) as Hpast.
  destruct (past_named _ _ _ _ Hpast) as (_ & _ & Hrv).
  destruct He as (_ & _ & Hs).
  assert (required_version (UpdateRequest gvr ns n o (ResourceVersion existing)) =
          ResourceVersion existing) as Hreq by (by apply deepCopyForUpdate_version).
  destruct (update_matched _ _ _ _ Hs eq_refl) as [Hu|(found & Hlive & Hfound)];
    [by rewrite Hreq|by destruct Hne|].
  unfold target in Hlive. cbn in Hlive. rewrite Hc in Hlive. rewrite Hreq in Hfound.
  exists found, existing. split_and!; [done..| |intros _];
    by rewrite (past_version _ _ _ _ (past_live _ _ _ Hlive) Hpast Hfound).
Qed.

Lemma spares_delete w gvr ns existing seen e :
  Path gvr ns = c → existing ∈ seen → verify i existing = true →
  Forall (past w (at_ (c, n))) seen →
  exchanged w (DeleteRequest gvr ns n (UID existing)) e → spares e.
Proof.
  intros Hc Hin Hv Hseen He _ s Hne.
  assert (s = at_ (c, n)) as -> by (eapply write_at; [done..| |done]; rewrite <-Hc; done).
  split; [done|right].
  destruct (exchanged_seen _ _ _ _ _ He Hseen) as [Hb _].
  pose proof (proj1 (Forall_forall _ _) Hb _ Hin) as Hpast.
  destruct (past_named _ _ _ _ Hpast) as (_ & Huid & _).
  destruct He as (_ & Hrq & Hs).
  assert (required_uid (DeleteRequest gvr ns n (UID existing)) = UID existing) as Hreq.
  { unfold required_uid, DeleteRequest, deleteOptions. cbn [rq_Body default].
    by rewrite bool_decide_false. }
  destruct (delete_matched _ _ _ _ Hs eq_refl) as [Hu|(found & Hlive & Hfound)];
    [by rewrite Hreq|by destruct Hne|].
  unfold target in Hlive. cbn in Hlive. rewrite Hc in Hlive. rewrite Hreq in Hfound.
  exists found, existing. split_and!; [done..|]. by rewrite Hrq.
Qed.

Lemma read_spares e : is_write (xc_request e) = false → spares e.
Proof. intros Hr Hw. by rewrite Hr in Hw. Qed.

(** A computation that keeps to its target spares everything else, and ends
    with what it may say of its writes. *)
Lemma runs_keeps {V} (Q : landing → V → Prop) w k log v :
  runs w k log v → ∀ seen l earlier,
  keeps c n i Q seen l k → Forall (past w (at_ (c, n))) seen →
  Forall spares log ∧
  (account l earlier → Forall fits log → ∃ l', account l' (earlier ++ log) ∧ Q l' v).
Proof.
  induction 1 as [w v|w gvr ns name next e log v He _ IH|w gvr ns o next e log v He _ IH
    |w gvr ns name o rv next e log v He _ IH|w gvr ns name uid next e log v He _ IH
    |w gvr next e log v He _ IH]; intros seen l earlier Hk Hseen; cbn in Hk.
  { split; [done|]. intros Hl _. exists l. by rewrite app_nil_r. }
  all: match goal with
       | He : exchanged _ ?rq _ |- _ =>
           destruct (exchanged_seen _ _ _ _ _ He Hseen) as [_ Hafter];
           pose proof (proj1 (proj2 He)) as Hrq
       end.
  - destruct Hk as [[Hc ->] Hk]. destruct (exchanged_get _ _ _ _ _ Hc He Hseen) as [Hp Hs].
    destruct (IH _ l (earlier ++ [e]) (Hk _ Hp) Hs) as [Hsp Hacc].
    split; [constructor; [by apply read_spares; rewrite Hrq|done]|].
    intros Hl Hf. apply Forall_cons in Hf as [_ Hf]. rewrite cons_middle, app_assoc.
    apply Hacc; [|done]. apply account_read; [done|by rewrite Hrq].
  - destruct Hk as ([Hc Hn] & -> & Hk).
    destruct (IH _ _ (earlier ++ [e]) (Hk _) Hafter) as [Hsp Hacc].
    split; [constructor; [by eapply spares_create|done]|].
    intros Hl Hf. apply Forall_cons in Hf as [Hfe Hf]. rewrite cons_middle, app_assoc.
    apply Hacc; [|done]. eapply account_put; [done..|by left| |by destruct o].
    by rewrite target_create, Hc, Hn.
  - destruct Hk as ([Hc ->] & -> & (existing & Hin & Hv & <-) & Hk).
    destruct (IH _ _ (earlier ++ [e]) (Hk _) Hafter) as [Hsp Hacc].
    split; [constructor; [exact (spares_update _ _ _ _ _ _ _ Hc Hin Hv Hseen He)|done]|].
    intros Hl Hf. apply Forall_cons in Hf as [Hfe Hf]. rewrite cons_middle, app_assoc.
    apply Hacc; [|done]. eapply account_put; [done..|by right|by rewrite <-Hc|].
    destruct o as [m]. apply deepCopyForUpdate_alike.
  - destruct Hk as ([Hc ->] & -> & (existing & Hin & Hv & <-) & Hk).
    destruct (IH _ _ (earlier ++ [e]) (Hk _) Hafter) as [Hsp Hacc].
    split; [constructor; [exact (spares_delete _ _ _ _ _ _ Hc Hin Hv Hseen He)|done]|].
    intros Hl Hf. apply Forall_cons in Hf as [Hfe Hf]. rewrite cons_middle, app_assoc.
    apply Hacc; [|done]. by eapply account_delete.
  - destruct (IH _ l (earlier ++ [e]) (Hk _) Hafter) as [Hsp Hacc].
    split; [constructor; [by apply read_spares; rewrite Hrq|done]|].
    intros Hl Hf. apply Forall_cons in Hf as [_ Hf]. rewrite cons_middle, app_assoc.
    apply Hacc; [|done]. apply account_read; [done|by rewrite Hrq].
Qed.
End sound.

(** ** Submit keeps to its target *)

Definition submission_state (s : Submission) : string :=
  match eo_Execution (sub_Observation s) with Some ex => ex_State ex | None => "" end.

(** What [Submit] may answer for what has become of its writes. *)
Definition told (request : ExecutionRequest) (i : identityMetadata) (l : landing)
    (result : outcome (Submission * option error)) : Prop :=
  match result with
  | Ok (s, None) =>
      if submission_state s =? ExecutionStateAccepted
      then match l with
           | Landed (Some o) =>
               er_Capability request ≠ CapabilityDelete ∧ verify i o = true ∧
               operationCorrelated o (er_OperationID request) (er_TargetGeneration request) = true
           | Landed None => er_Capability request = CapabilityDelete
           | _ => False
           end
      else l = Nothing
  | Ok (s, Some e) => e = ErrAmbiguousSubmission ∧ submission_state s = ExecutionStateUnknown
  | Panic _ => l = Nothing
  | Err _ => False
  end.

Section submit.
Context {runtime : Runtime} {digest : Digest}.
Context (identity : string) (bindings : list Binding) (p : XProvisioner).
Hypothesis composed : newProvisioner identity bindings = Ok p.
Context (request : ExecutionRequest) (b : resolvedBinding).
Hypothesis bound : lookupBinding (xp_bindings p) (er_ResourceType request) = Some b.
Hypothesis generation : (er_TargetGeneration request < 2 ^ 64)%N.

Let c : string := Path (rb_gvr b) (rb_namespace b).
Let n : string := targetName p b (er_ResourceID request).
Let i : identityMetadata := identityFor p (er_ResourceType request) (er_ResourceID request).
Let told := told request i.

(** A document that may be sent to the target. *)
Definition sendable (o : Object) : Prop :=
  verify i o = true ∧
  operationCorrelated o (er_OperationID request) (er_TargetGeneration request) = true.

Lemma not_conclusive_uncertain err :
  isTransportUncertain err = false → conclusive err = true.
Proof.
  unfold isTransportUncertain, conclusive. intros [Ha Hu]%orb_false_iff.
  apply negb_false_iff in Ha. by rewrite Ha, Hu, orb_true_r.
Qed.

Lemma settled_conclusive sent err : conclusive err = true → settled sent (Some err) = Nothing.
Proof. intros H. cbn. by rewrite H. Qed.

Lemma conflict_conclusive err : IsConflict err = true → conclusive err = true.
Proof. unfold conclusive. by intros ->. Qed.
Lemma not_found_conclusive err : IsNotFound err = true → conclusive err = true.
Proof. unfold conclusive. intros ->. by rewrite orb_true_r. Qed.
Lemma already_exists_conclusive err : IsAlreadyExists err = true → conclusive err = true.
Proof. unfold conclusive. intros ->. by rewrite orb_true_r. Qed.

(** What has become of the writes of [applyDesiredState]. *)
Definition mutated (manifest : Object) (l : landing) (result : outcome mutationOutcome) : Prop :=
  match result with
  | Ok mutationSucceeded => ∃ rv, l = Landed (Some (conditionalUpdate manifest rv))
  | Ok mutationUncertain => True
  | Ok _ | Panic _ => l = Nothing
  | Err _ => False
  end.

Lemma keeps_apply {V} (Q : landing → V → Prop) attempts manifest uid next :
  (∀ seen l result, mutated manifest l result → keeps c n i Q seen l (next result)) →
  ∀ seen existing, existing ∈ seen → verify i existing = true →
  keeps c n i Q seen Nothing
    (applyDesiredState attempts b i n manifest uid (ResourceVersion existing) next).
Proof.
  intros Hnext. induction attempts as [|attempts IH]; intros seen existing Hin Hv; cbn.
  { by apply Hnext. }
  split_and!; [done..|by exists existing|]. intros [o|err]; cbn [error_of settled].
  { apply Hnext. by eexists. }
  destruct (IsConflict err) eqn:Hc.
  - rewrite (conflict_conclusive _ Hc). cbn. split; [done|]. intros [[fresh|]|getErr] _; cbn.
    + destruct (verify i fresh) eqn:Hf; cbn [negb orb]; [|by apply Hnext].
      destruct (_ && _); [by apply Hnext|]. apply IH; [by apply list_elem_of_here|done].
    + by apply Hnext.
    + destruct (IsNotFound getErr); by apply Hnext.
  - destruct (isTransportUncertain err) eqn:Hu; apply Hnext; [done|].
    by rewrite (not_conclusive_uncertain _ Hu).
Qed.

Lemma keeps_submit_desired manifest existing seen handle :
  existing ∈ seen → verify i existing = true →
  sendable manifest → AnnotationString manifest annotationResourceID = Some (er_ResourceID request) →
  er_Capability request ≠ CapabilityDelete →
  keeps c n i told seen Nothing (submitDesiredState p b n manifest existing handle).
Proof.
  intros Hin Hv [Hs Ho] Hid Hcap. unfold submitDesiredState, resourceIDOfManifest.
  rewrite Hid, (newProvisioner_binding _ _ _ _ _ composed bound).
  apply keeps_apply; [|done..]. intros seen' l [[| | |]|e|message]; cbn; try done.
  intros [rv ->]. split_and!; [done|..].
  - by rewrite (verify_alike _ _ _ (conditionalUpdate_alike manifest rv)).
  - by rewrite (operationCorrelated_alike _ _ _ _ (conditionalUpdate_alike manifest rv)).
Qed.

Lemma keeps_uncertain seen l handle : keeps c n i told seen l (uncertain_outcome handle).
Proof. done. Qed.

Lemma keeps_resolve seen l next :
  (∀ absence, keeps c n i told seen l (next absence)) →
  keeps c n i told seen l (resolveAbsence b next).
Proof. intros H []; apply H. Qed.

Lemma keeps_create manifest seen handle :
  sendable manifest → AnnotationString manifest annotationResourceID = Some (er_ResourceID request) →
  Name manifest = n → er_Capability request ≠ CapabilityDelete →
  keeps c n i told seen Nothing (createMissingObject p b request manifest handle).
Proof.
  intros Hs Hid Hn Hcap. unfold createMissingObject. cbn. split_and!; [done..|].
  intros [o|err]; cbn [error_of].
  { cbn. by destruct Hs. }
  destruct (IsAlreadyExists err) eqn:Ha.
  - rewrite (settled_conclusive _ _ (already_exists_conclusive _ Ha)). cbn. split; [done|].
    intros [[raced|]|getErr] Hp; cbn; [|done..].
    fold i. destruct (verify i raced) eqn:Hv; [|done].
    rewrite (proj1 (Hp _ eq_refl)). by apply keeps_submit_desired; [apply list_elem_of_here|..].
  - destruct (isTransportUncertain err) eqn:Hu; [done|].
    by rewrite (settled_conclusive _ _ (not_conclusive_uncertain _ Hu)).
Qed.

Lemma keeps_create_or_update :
  er_Capability request ≠ CapabilityDelete →
  keeps c n i told [] Nothing (submitCreateOrUpdate p b request).
Proof.
  intros Hcap. unfold submitCreateOrUpdate.
  destruct (buildExecutionManifest p b request) as [manifest|e|message] eqn:Hb; [|done..].
  destruct (buildManifest_stamped _ _ _ (inputOf request) _ "" generation Hb) as (_ & Hv & Ho & Hid & Hn).
  cbn in Ho, Hid. cbn. split; [done|]. intros [[existing|]|err] Hp; cbn; [|done|].
  - fold i. destruct (verify i existing) eqn:Hve; [|done].
    by apply keeps_submit_desired; [apply list_elem_of_here|..].
  - destruct (IsNotFound err); [|unfold preflightFailure; by destruct (_ || _)].
    destruct (er_Capability request =? CapabilityUpdate); [|by apply keeps_create].
    apply keeps_resolve. by intros [].
Qed.

Lemma keeps_delete :
  er_Capability request = CapabilityDelete →
  keeps c n i told [] Nothing (submitDelete p b request).
Proof.
  intros Hcap. unfold submitDelete. cbn. split; [done|].
  intros [[existing|]|err] _; cbn; [|done|].
  - fold i. destruct (verify i existing) eqn:Hv; cbn; [|done].
    split_and!; [done..|exists existing; split_and!; [apply list_elem_of_here|done..]|].
    intros [deleteErr|]; cbn [settled]; [|done].
    destruct (IsConflict deleteErr) eqn:Hc; [|destruct (IsNotFound deleteErr) eqn:Hnf].
    + rewrite (conflict_conclusive _ Hc). cbn. split; [done|].
      intros [o|getErr] _; [done|]. by destruct (IsNotFound getErr).
    + rewrite (not_found_conclusive _ Hnf). apply keeps_resolve. by intros [].
    + destruct (isTransportUncertain deleteErr) eqn:Hu; [done|].
      by rewrite (not_conclusive_uncertain _ Hu).
  - destruct (IsNotFound err); [|unfold preflightFailure; by destruct (_ || _)].
    apply keeps_resolve. by intros [].
Qed.

Lemma keeps_submit : keeps c n i told [] Nothing (XSubmit p request).
Proof.
  unfold XSubmit. destruct (ExecutionRequest_Validate request); [|done..].
  unfold resolveRequest. rewrite bound. destruct (_ && _); [done|].
  destruct (bool_decide_reflect (er_Capability request = CapabilityDelete)).
  - by apply keeps_delete.
  - by apply keeps_create_or_update.
Qed.
End submit.

Lemma target_named {digest : Digest} p b id : targetName p b id ≠ "".
Proof. done. Qed.

(** ** Submit on a cluster *)

Lemma verify_carries i o stored : carries o stored → verify i o = true → verify i stored = true.
Proof.
  unfold verify. intros Hc. rewrite !andb_true_iff, !is_text_spec.
  intros [[[H1 H2] H3] H4]. split_and!; by apply Hc.
Qed.

Lemma correlated_carries o stored op g :
  carries o stored → operationCorrelated o op g = true → operationCorrelated stored op g = true.
Proof.
  unfold operationCorrelated, annotationTargetGeneration. intros Hc.
  rewrite !andb_true_iff, !is_text_spec. intros [H1 H2]. split; [by apply Hc|].
  destruct (AnnotationString o annotationTargetGenerationKey) as [text|] eqn:Ha; [|done].
  by rewrite (proj2 (Hc _ _) Ha).
Qed.

Section submit_on_cluster.
Context {transport : Transport} {cluster : Cluster} {laws : ClusterLaws}.
Context {runtime : Runtime} {digest : Digest}.
Implicit Types (p : XProvisioner) (request : ExecutionRequest) (b : resolvedBinding).

(** The target of a request, and whose it is. *)
Definition target_of p b request : string * string :=
  (Path (rb_gvr b) (rb_namespace b), targetName p b (er_ResourceID request)).
Definition owner_of p request : identityMetadata :=
  identityFor p (er_ResourceType request) (er_ResourceID request).

(** C18: A submission spares what is not Liftr's.  Whatever others write to the
    cluster between its requests, [Submit] changes no object but the target of
    the resource, and that only by creating it, by replacing the very version
    that it has read and verified to be the resource's, or by deleting the
    object of which it has verified that. *)
Theorem submit_spares_others identity bindings p request b w log result :
  newProvisioner identity bindings = Ok p →
  lookupBinding (xp_bindings p) (er_ResourceType request) = Some b →
  (er_TargetGeneration request < 2 ^ 64)%N →
  runs w (XSubmit p request) log result →
  Forall (spares (target_of p b request).1 (target_of p b request).2 (owner_of p request)) log.
Proof.
  intros Hp Hb Hg Hruns.
  by destruct (runs_keeps _ _ _ (target_named p b (er_ResourceID request)) _ _ _ _ _ Hruns _ _ []
    (keeps_submit _ _ _ Hp _ _ Hb Hg) (Forall_nil_2 _)).
Qed.

End submit_on_cluster.

(** ** Observe on a cluster *)

(** At most this many requests. *)
Fixpoint at_most {V} (calls : nat) (k : kube V) : Prop :=
  match calls, k with
  | _, Done _ => True
  | S calls, Get _ _ _ next | S calls, Create _ _ _ next | S calls, Update _ _ _ _ _ next =>
      ∀ reply, at_most calls (next reply)
  | S calls, Delete _ _ _ _ next => ∀ reply, at_most calls (next reply)
  | S calls, ServedResource _ next => ∀ verdict, at_most calls (next verdict)
  | 0, _ => False
  end.

Lemma at_most_weaken {V} m m' (k : kube V) : at_most m k → (m ≤ m')%nat → at_most m' k.
Proof.
  revert m' k. induction m as [|m IH]; intros m' k Hk Hm.
  - destruct k; [by destruct m'|done..].
  - destruct m' as [|m']; [lia|]. destruct k; cbn in *; intros; [done|..]; (eapply IH; [done|lia]).
Qed.

Section bounds.
Context {transport : Transport} {cluster : Cluster}.

Lemma runs_length {V} w (k : kube V) log v m :
  runs w k log v → at_most m k → (length log ≤ m)%nat.
Proof.
  intros H. revert m. induction H; intros m Hm; cbn [length]; [lia|..];
    (destruct m as [|m]; [done|]; apply le_n_S; eauto).
Qed.
End bounds.

Section bounded.
Context {runtime : Runtime} {digest : Digest}.

Lemma apply_at_most {V} attempts b owner name manifest uid rv m
    (next : outcome mutationOutcome → kube V) :
  (∀ result, at_most m (next result)) →
  at_most (2 * attempts + m) (applyDesiredState attempts b owner name manifest uid rv next).
Proof.
  intros Hnext. revert rv. induction attempts as [|attempts IH]; intros rv; [apply Hnext|].
  assert (∀ result j, (m ≤ j)%nat → at_most j (next result)) as Hmore
    by (intros; by eapply at_most_weaken).
  replace (2 * S attempts + m)%nat with (S (S (2 * attempts + m))) by lia.
  intros [o|err]; [apply Hmore; lia|].
  destruct (IsConflict err); [|destruct (isTransportUncertain err); apply Hmore; lia].
  intros [[fresh|]|getErr]; [|apply Hmore; lia..].
  destruct (negb _ || _); [apply Hmore; lia|apply IH].
Qed.

Lemma submit_desired_at_most p b name manifest existing handle :
  at_most 6 (submitDesiredState p b name manifest existing handle).
Proof. apply (apply_at_most 3 _ _ _ _ _ _ 0). by intros [[]| |]. Qed.

Lemma submit_at_most p request : at_most 9 (XSubmit p request).
Proof.
  assert (∀ k : submission_call, at_most 0 k → at_most 9 k) as Hdone
    by (intros k Hk; eapply at_most_weaken; [done|lia]).
  unfold XSubmit. destruct (ExecutionRequest_Validate request); [|by apply Hdone..].
  destruct (resolveRequest _ _ _) as [b|failure]; [|by apply Hdone].
  destruct (er_Capability request =? CapabilityDelete).
  - intros [[existing|]|err]; cbn beta iota; [|done|by destruct (IsNotFound err); [intros []|]].
    destruct (negb _); [done|]. intros [err|]; cbn beta iota; [|done].
    destruct (IsConflict err); [intros [o|e]; [done|]; cbn beta iota; by destruct (IsNotFound e)|].
    destruct (IsNotFound err); [by intros []|by destruct (isTransportUncertain err)].
  - unfold submitCreateOrUpdate. destruct (buildExecutionManifest _ _ _); [|by apply Hdone..].
    intros [[existing|]|err]; cbn beta iota; [|done|].
    + destruct (verify _ _); [|done].
      eapply at_most_weaken; [apply submit_desired_at_most|lia].
    + destruct (IsNotFound err); [|done].
      destruct (er_Capability request =? CapabilityUpdate); [by intros []|].
      intros [o|e]; cbn beta iota; [done|].
      destruct (IsAlreadyExists e); [|by destruct (isTransportUncertain e)].
      intros [[raced|]|getErr]; cbn beta iota; [|done..]. destruct (verify _ _); [|done].
      eapply at_most_weaken; [apply submit_desired_at_most|lia].
Qed.

Lemma observe_at_most p request : at_most 2 (XObserve p request).
Proof.
  unfold XObserve. destruct (ObservationRequest_Validate request); [|done..].
  destruct (resolveRequest _ _ _) as [b|failure]; [|done].
  intros [[object|]|err]; cbn beta iota; [|done|destruct (IsNotFound err); [|done]].
  - destruct (negb _); [done|]. destruct (_ && _); [done|]. unfold observeOwned.
    destruct (or_OperationID request =? ""); [done|].
    destruct (or_Capability request =? CapabilityDelete); [by destruct (Terminating object)|].
    destruct (negb _); [done|]. destruct (ev_terminalFailure _); [done|].
    by destruct (ev_readiness _ =? _).
  - intros []; cbn beta iota; [by destruct (_ && _)|by destruct (or_OperationID request =? "")..].
Qed.

(** C40: Every call of the adapter ends.  [Submit] makes at most nine requests,
    however often others get in its way, and [Observe] at most two. *)
Theorem calls_bounded {transport : Transport} {cluster : Cluster} p w log :
  (∀ request result, runs w (XSubmit p request) log result → (length log ≤ 9)%nat) ∧
  (∀ request result, runs w (XObserve p request) log result → (length log ≤ 2)%nat).
Proof.
  split; intros request result H; (eapply runs_length; [exact H|]);
    [apply submit_at_most|apply observe_at_most].
Qed.
End bounded.

Section observe_on_cluster.
Context {transport : Transport} {cluster : Cluster} {laws : ClusterLaws}.
Context {runtime : Runtime} {digest : Digest}.

Lemma runs_done_inv {V} w (v v' : V) log : runs w (Done v) log v' → log = [] ∧ v' = v.
Proof. inversion 1; by subst. Qed.

Lemma runs_get_inv {V} w gvr ns n (next : _ → kube V) log v :
  runs w (Get gvr ns n next) log v → ∃ e log', log = e :: log' ∧
    exchanged w (GetRequest gvr ns n) e ∧
    runs (xc_after e) (next (do (xc_reply e)).1) log' v.
Proof. inversion 1; subst; eauto 6. Qed.

Lemma runs_resolve_inv {V} w b (next : _ → kube V) log v :
  runs w (resolveAbsence b next) log v → ∃ e log' absence, log = e :: log' ∧
    exchanged w (ServedRequest (rb_gvr b)) e ∧
    runs (xc_after e) (next absence) log' v ∧
    (absence = absenceProven →
     servedReply (gvr_Resource (rb_gvr b)) (xc_reply e) = ServedConfirmed).
Proof.
  unfold resolveAbsence. inversion 1; subst. do 3 eexists. split_and!; [done|done|done|].
  by destruct (servedReply _ _).
Qed.

(** The execution that an observation reports. *)
Definition reports (state : string) (result : observation_result) : Prop :=
  ∃ o err ex, result = Ok (o, err) ∧ eo_Execution o = Some ex ∧ ex_State ex = state.

Lemma runs_unsuccessful w r log result :
  runs w (Done r) log result → ¬ reports ExecutionStateSucceeded r →
  log = [] ∧ (reports ExecutionStateSucceeded result → False).
Proof. by intros [-> ->]%runs_done_inv Hr. Qed.

Ltac not_success :=
  let Hex := fresh in let Hst := fresh in
  intros (? & ? & ? & [= <- <-] & Hex & Hst);
  (discriminate Hex || (injection Hex as <-; discriminate Hst)).

(** The computation has ended without a success. *)
Ltac unsuccessful H :=
  let Hno := fresh "Hno" in
  destruct (runs_unsuccessful _ _ _ _ H) as [-> Hno]; [not_success|];
  split; [by repeat constructor|intros []%Hno].

Implicit Types (p : XProvisioner) (request : ObservationRequest) (b : resolvedBinding).

(** An object that shows the success of the operation: the resource's own, as it
    was read before, correlated, not being deleted, and ready. *)
Definition shows_success p b request (object : Object) : Prop :=
  verify (identityFor p (or_ResourceType request) (or_ResourceID request)) object = true ∧
  operationCorrelated object (or_OperationID request) (or_TargetGeneration request) = true ∧
  (uidFromHandle request ≠ "" → UID object = uidFromHandle request) ∧
  ev_readiness (evaluateObject object b (or_TargetGeneration request)) = ResourceReadinessReady.

Lemma observe_absent_success w b request handle log result :
  runs w (observeAbsent b request handle) log result →
  Forall (λ e, is_write (xc_request e) = false) log ∧
  (reports ExecutionStateSucceeded result →
   or_Capability request = CapabilityDelete ∧ ∃ e, log = [e] ∧
     servedReply (gvr_Resource (rb_gvr b)) (xc_reply e) = ServedConfirmed).
Proof.
  intros (e & log' & absence & -> & (_ & Hrq & _) & Hruns & Hserved)%runs_resolve_inv.
  assert (is_write (xc_request e) = false) as Hread by by rewrite Hrq.
  destruct absence.
  - destruct (_ && _) eqn:Hcap; [|unsuccessful Hruns].
    apply runs_done_inv in Hruns as [-> ->]. split; [by repeat constructor|]. intros _.
    apply andb_true_iff in Hcap as [_ Hcap%bool_decide_eq_true]. eauto.
  - destruct (or_OperationID request =? ""); unsuccessful Hruns.
  - destruct (or_OperationID request =? ""); unsuccessful Hruns.
Qed.

Lemma observe_owned_success w b request handle object log result :
  runs w (observeOwned b request handle object) log result →
  log = [] ∧
  (reports ExecutionStateSucceeded result →
   or_Capability request ≠ CapabilityDelete ∧
   operationCorrelated object (or_OperationID request) (or_TargetGeneration request) = true ∧
   ev_readiness (evaluateObject object b (or_TargetGeneration request)) = ResourceReadinessReady).
Proof.
  unfold observeOwned. intros Hruns.
  destruct (or_OperationID request =? ""); [unsuccessful Hruns|].
  destruct (bool_decide_reflect (or_Capability request = CapabilityDelete));
    [destruct (Terminating object); unsuccessful Hruns|].
  destruct (operationCorrelated _ _ _); cbn [negb] in Hruns; [|unsuccessful Hruns].
  destruct (ev_terminalFailure _); [unsuccessful Hruns|].
  destruct (bool_decide_reflect
    (ev_readiness (evaluateObject object b (or_TargetGeneration request)) =
     ResourceReadinessReady)) as [Hready|]; [|unsuccessful Hruns].
  apply runs_done_inv in Hruns as [-> _]. by split.
Qed.

End observe_on_cluster.
