(* ===== verification/Fakeapi.v ===== *)
(** * A server for the adapter

    Models [src/internal/provisioning/crossplane/kube/fakeapi/server.go], the
    control plane the adapter's tests run against, and shows that it has the
    laws of [Cluster] while no controller is installed ([fakeapi_laws]): the
    theorems of [Cluster] hold of it.  Its hooks run under its lock; one that
    runs before a write is a drift of the cluster.  The counters of versions and
    identities start at 100 and 1000 and are not taken to their 64 bits.  Bodies
    are the documents that [encoding/json] writes and reads back. *)

From S2P Require Import Prelude Operation Values Resource Status Provisioning.
From S2P Require Import Text Encoding Strconv Kube Crossplane CrossplaneFacts CrossplaneCalls.
From S2P Require Import Cluster.
From Stdlib Require Import SpecFloat.
Open Scope string_scope.
Open Scope go_scope.
Open Scope list_scope.

Module Fake.

(** ** Objects *)

Record Object := {
  Raw : document;
  o_UID : string;
  o_ResourceVersion : uint64;
  Finalizers : list string;
  polls : nat }.

#[export] Instance Object_fields : Fields Object := λ r,
  {| Raw := Raw r; o_UID := o_UID r; o_ResourceVersion := o_ResourceVersion r;
     Finalizers := Finalizers r; polls := polls r |}.

(** The document of [clone]; metadata that is not there is attached to nothing. *)
Definition clone (o : Object) : document :=
  match as_map (field "metadata" (Raw o)) with
  | None => Raw o
  | Some metadata =>
      let metadata := put_field "resourceVersion" (VString (FormatUint (o_ResourceVersion o)))
        (put_field "uid" (VString (o_UID o)) metadata) in
      let metadata := if bool_decide (Finalizers o = []) then drop_field "finalizers" metadata
        else put_field "finalizers" (VList (map VString (Finalizers o))) metadata in
      put_field "metadata" (VMap metadata) (Raw o)
  end.

Definition float_field (key : string) (m : document) : spec_float :=
  match field key m with Some (VFloat64 f) => f | _ => S754_zero false end.

Definition one : spec_float := to_float64 1.
Definition add (f g : spec_float) : spec_float := SFadd 53 1024 f g.

Definition with_metadata (o : Object) (metadata : document) : Object :=
  o <| Raw := put_field "metadata" (VMap metadata) (Raw o) |>.

Definition refreshMetadataLocked (o : Object) : Object :=
  with_metadata o (put_field "resourceVersion" (VString (FormatUint (o_ResourceVersion o)))
    (put_field "uid" (VString (o_UID o)) (childMap (Raw o) "metadata"))).

Definition materialize (o : Object) (namespace name : string) : Object :=
  let metadata := put_field "resourceVersion" (VString (FormatUint (o_ResourceVersion o)))
    (put_field "uid" (VString (o_UID o)) (put_field "namespace" (VString namespace)
      (put_field "name" (VString name) (childMap (Raw o) "metadata")))) in
  let metadata := if SFeqb (float_field "generation" metadata) (S754_zero false)
    then put_field "generation" (VFloat64 one) metadata else metadata in
  let metadata := match field "creationTimestamp" metadata with
    | Some _ => metadata
    | None => put_field "creationTimestamp" (VString "2026-01-01T00:00:00Z") metadata
    end in
  with_metadata o metadata.

Definition terminatingWithoutFinalizers (o : Object) : bool :=
  match field "deletionTimestamp" (childMap (Raw o) "metadata") with
  | Some _ => bool_decide (Finalizers o = [])
  | None => false
  end.

(** ** The server *)

Record Server := {
  nextRV : uint64;
  nextUID : uint64;
  writeCount : nat;
  objects : gmap string Object;
  controller : option (nat → Object → Object);
  failures : option APIError;
  getFailures : nat;
  armedWriteFailure : option APIError;
  writeFailuresLeft : nat;
  commitFirst : bool;
  familyGV : gmap string string;
  knownGroupVersions : gset string;
  retiredPlurals : gset string;
  discoverFailures : nat;
  discoverErr : option APIError;
  updateFailureArmed : bool }.

#[export] Instance Server_fields : Fields Server := λ r,
  {| nextRV := nextRV r; nextUID := nextUID r; writeCount := writeCount r;
     objects := objects r; controller := controller r; failures := failures r;
     getFailures := getFailures r; armedWriteFailure := armedWriteFailure r;
     writeFailuresLeft := writeFailuresLeft r; commitFirst := commitFirst r;
     familyGV := familyGV r; knownGroupVersions := knownGroupVersions r;
     retiredPlurals := retiredPlurals r; discoverFailures := discoverFailures r;
     discoverErr := discoverErr r; updateFailureArmed := updateFailureArmed r |}.

Definition New : Server :=
  {| nextRV := 100%N; nextUID := 1000%N; writeCount := 0; objects := ∅; controller := None;
     failures := None; getFailures := 0; armedWriteFailure := None; writeFailuresLeft := 0;
     commitFirst := false; familyGV := ∅; knownGroupVersions := ∅; retiredPlurals := ∅;
     discoverFailures := 0; discoverErr := None; updateFailureArmed := false |}.

Definition key (namespace plural name : string) : string :=
  namespace +:+ "/" +:+ plural +:+ "/" +:+ name.

Definition recordFamily (gv plural : string) (s : Server) : Server :=
  if gv =? "" then s else
  let s := s <| knownGroupVersions := {[gv]} ∪ knownGroupVersions s |> in
  match familyGV s !! plural with
  | Some _ => s
  | None => s <| familyGV := <[plural := gv]> (familyGV s) |>
  end.

(** A new object under a key, with a fresh identity. *)
Definition install (s : Server) (namespace plural name : string) (body : document) : Server :=
  let stored := {| Raw := body; o_UID := "uid-" +:+ FormatUint (nextUID s);
                   o_ResourceVersion := nextRV s; Finalizers := []; polls := 0 |} in
  s <| nextUID := (nextUID s + 1)%N |> <| nextRV := (nextRV s + 1)%N |>
    <| objects := <[key namespace plural name := materialize stored namespace name]> (objects s) |>.

(** *** What a test does to it *)

(** [Put] and [PutLocked]. *)
Definition Put (namespace plural name : string) (raw : document) (s : Server) : Server :=
  install s namespace plural name raw.

Definition FailNextGets (err : APIError) (count : nat) (s : Server) : Server :=
  s <| failures := Some err |> <| getFailures := count |>.

Definition FailNextCreates (err : APIError) (count : nat) (commit : bool) (s : Server) : Server :=
  s <| armedWriteFailure := Some err |> <| writeFailuresLeft := count |>
    <| commitFirst := commit |>.

Definition FailNextUpdates (err : APIError) (count : nat) (commit : bool) (s : Server) : Server :=
  FailNextCreates err count commit s <| updateFailureArmed := true |>.

Definition FailNextDiscoveries (err : APIError) (count : nat) (s : Server) : Server :=
  s <| discoverErr := Some err |> <| discoverFailures := count |>.

Definition SetDiscoveryServed (plural : string) (served : bool) (s : Server) : Server :=
  s <| retiredPlurals := if served then retiredPlurals s ∖ {[plural]}
                         else {[plural]} ∪ retiredPlurals s |>.

Definition RetireCRD (namespace plural : string) (s : Server) : Server :=
  SetDiscoveryServed plural false s
    <| objects := filter (λ kv, String.prefix (key namespace plural "") kv.1 = false)
                    (objects s) |>.

Definition RegisterFamily (group version plural : string) (s : Server) : Server :=
  recordFamily (group +:+ "/" +:+ version) plural s.

(** [Mutate] with a hook that is given; it reports whether the object is there. *)
Definition Mutate (namespace plural name : string) (fn : Object → Object) (s : Server)
    : Server * bool :=
  let k := key namespace plural name in
  match objects s !! k with
  | None => (s, false)
  | Some stored =>
      let stored := refreshMetadataLocked (fn stored) in
      (s <| objects := if terminatingWithoutFinalizers stored then base.delete k (objects s)
                       else <[k := stored]> (objects s) |>, true)
  end.

Definition RemoveFinalizers (namespace plural name : string) : Server → Server * bool :=
  Mutate namespace plural name (λ o, o <| Finalizers := [] |>).

(** ** Requests *)

(** [strings.Split(path, "/")]. *)
Fixpoint segments (path : string) : list string :=
  match path with
  | "" => [""]
  | String ch rest =>
      if ch =? "/"%char then "" :: segments rest
      else match segments rest with
           | s :: l => String ch s :: l
           | [] => [String ch ""]
           end
  end.

(** How [encoding/json] writes the bodies of replies, and what the code uses it
    for beside: the UID of a deletion's preconditions, and comparing documents as
    written. *)
Class Encoder {transport : Transport} := {
  objectBody : document → payload;
  statusBody : APIError → payload;
  unmarshalDeleteOptions : document → option string;
  equalJSON : document → document → bool }.

Section handlers.
Context {transport : Transport} {encoder : Encoder}.

Definition writeObject (o : Object) : httpReply := Replied 200 (objectBody (clone o)).
Definition writeStatus (e : APIError) : httpReply := Replied (api_Code e) (statusBody e).
Definition status (code : Z) (reason message : string) : httpReply :=
  writeStatus {| api_Code := code; api_Reason := reason; api_Message := message |}.

Definition notFound : httpReply :=
  status 404 "NotFound" "the server could not find the requested resource".

Definition consumeWriteFailure (s : Server) : Server :=
  let s := s <| writeFailuresLeft := pred (writeFailuresLeft s) |> in
  if bool_decide (writeFailuresLeft s = 0%nat)
  then s <| armedWriteFailure := None |> <| commitFirst := false |>
         <| updateFailureArmed := false |>
  else s.

Definition handleDiscovery (group version : string) (s : Server) : outcome (Server * httpReply) :=
  let gv := group +:+ "/" +:+ version in
  let plurals := (filter (λ kv, kv.2 = gv ∧ kv.1 ∉ retiredPlurals s)
                    (map_to_list (familyGV s))).*1 in
  if bool_decide (plurals = []) && negb (bool_decide (gv ∈ knownGroupVersions s))
  then Ok (s, notFound)
  else match discoverFailures s with
       | S remaining =>
           match discoverErr s with
           | Some err =>
               let s := s <| discoverFailures := remaining |> in
               Ok (if bool_decide (remaining = 0%nat) then s <| discoverErr := None |> else s,
                   writeStatus err)
           | None => Panic nil_object
           end
       | 0 =>
           Ok (s, Replied 200 (objectBody
             [("kind", VString "APIResourceList"); ("apiVersion", VString "v1");
              ("groupVersion", VString gv);
              ("resources", VList (map (λ plural,
                 VMap [("name", VString plural); ("namespaced", VBool true)])
                 (sort_by (λ plural, plural) string_le plurals)))]))
       end.

Definition handleGet (gv namespace plural name : string) (s : Server)
    : outcome (Server * httpReply) :=
  let k := key namespace plural name in
  match objects s !! k with
  | None => Ok (s, notFound)
  | Some stored =>
      let s := recordFamily gv plural s in
      let stored := stored <| polls := S (polls stored) |> in
      let stored := match controller s with
        | Some react => refreshMetadataLocked (react (polls stored) stored)
        | None => stored
        end in
      Ok (s <| objects := if terminatingWithoutFinalizers stored
                          then base.delete k (objects s) else <[k := stored]> (objects s) |>,
          writeObject stored)
  end.

Definition handleCreate (gv namespace plural : string) (body : option document) (s : Server)
    : outcome (Server * httpReply) :=
  match body with
  | None => Ok (s, status 422 "Invalid" "the request body was not a valid object")
  | Some raw =>
      let objectName := textOf "name" (childMap raw "metadata") in
      if objectName =? ""
      then Ok (s, status 422 "Invalid" "object metadata.name is required") else
      let k := key namespace plural objectName in
      match objects s !! k with
      | Some _ => Ok (s, status 409 "AlreadyExists" "the object already exists")
      | None =>
          let failNow := Nat.ltb 0 (writeFailuresLeft s) && negb (updateFailureArmed s) in
          let injected := if failNow then armedWriteFailure s else None in
          let commit := failNow && commitFirst s in
          let s := if failNow then consumeWriteFailure s else s in
          let stored := recordFamily gv plural (install s namespace plural objectName raw) in
          match failNow, injected with
          | true, None => Panic nil_object
          | true, Some err => Ok (if commit then stored else s, writeStatus err)
          | false, _ =>
              match objects stored !! k with
              | Some o => Ok (stored, writeObject o)
              | None => Panic nil_object
              end
          end
      end
  end.

(** [m[k] = v] for the entries of another map; a nil map panics at the first. *)
Definition merge_into (live : option document) (entries : document) : outcome document :=
  match live, entries with
  | None, _ :: _ => Panic "assignment to entry in nil map"
  | _, _ => Ok (foldr (λ kv m, put_field kv.1 kv.2 m) (default [] live) entries)
  end.

(** The object after an update by a document, before it is given its version.
    A map that is not there stays away. *)
Definition updated (stored : Object) (replacement : document) : outcome Object :=
  match as_map (field "metadata" (Raw stored)) with
  | None => Panic "interface conversion: interface {} is nil, not map[string]interface {}"
  | Some live =>
      let fresh := childMap replacement "metadata" in
      labels ← merge_into (as_map (field "labels" live)) (childMap fresh "labels");
      annotations ← merge_into (as_map (field "annotations" live)) (childMap fresh "annotations");
      let live' := match as_map (field "labels" live) with
        | Some _ => put_field "labels" (VMap labels) live | None => live end in
      let live' := match as_map (field "annotations" live) with
        | Some _ => put_field "annotations" (VMap annotations) live' | None => live' end in
      let spec_ := match as_map (field "spec" replacement) with
        | Some desired => put_field "spec" (VMap desired) (Raw stored)
        | None => Raw stored
        end in
      let live' := if equalJSON (childMap (Raw stored) "spec") (childMap spec_ "spec")
        then live'
        else put_field "generation" (VFloat64 (add (float_field "generation" live') one)) live' in
      Ok (stored <| Raw := put_field "metadata" (VMap live') spec_ |>)
  end.

(** The armed failure of an update is answered after the update has been made. *)
Definition handleUpdate (gv namespace plural name : string) (body : option document)
    (s : Server) : outcome (Server * httpReply) :=
  let k := key namespace plural name in
  match objects s !! k with
  | None => Ok (s, notFound)
  | Some stored =>
      let s := recordFamily gv plural s in
      match body with
      | None => Ok (s, status 422 "Invalid" "the update body was not valid")
      | Some replacement =>
          let requiredRV := textOf "resourceVersion" (childMap replacement "metadata") in
          if (requiredRV <>? "") && (requiredRV <>? FormatUint (o_ResourceVersion stored))
          then Ok (s, status 409 "Conflict" "the object has been modified") else
          let failNow := Nat.ltb 0 (writeFailuresLeft s) && updateFailureArmed s in
          let injected := if failNow then armedWriteFailure s else None in
          let s := if failNow then consumeWriteFailure s else s in
          stored' ← updated stored replacement;
          let stored' := refreshMetadataLocked (stored' <| o_ResourceVersion := nextRV s |>) in
          let s := s <| nextRV := (nextRV s + 1)%N |>
                     <| objects := <[k := stored']> (objects s) |> in
          match failNow, injected with
          | true, Some err => Ok (s, writeStatus err)
          | true, None => Panic nil_object
          | false, _ => Ok (s, writeObject stored')
          end
      end
  end.

Definition handleDelete (gv namespace plural name : string) (body : option document)
    (s : Server) : outcome (Server * httpReply) :=
  let k := key namespace plural name in
  match objects s !! k with
  | None => Ok (s, status 404 "NotFound" "the server reported the target as absent")
  | Some stored =>
      let s := recordFamily gv plural s in
      match from_option unmarshalDeleteOptions (Some "") body with
      | None => Ok (s, status 400 "BadRequest" "delete options were not valid")
      | Some uid =>
          if (uid <>? "") && (uid <>? o_UID stored)
          then Ok (s, status 409 "Conflict"
                 "the UID in the precondition does not match the existing object")
          else if bool_decide (Finalizers stored = [])
          then Ok (s <| objects := base.delete k (objects s) |>, writeObject stored)
          else match as_map (field "metadata" (Raw stored)) with
               | None => Panic "assignment to entry in nil map"
               | Some metadata =>
                   let stored := refreshMetadataLocked
                     ((with_metadata stored (put_field "deletionTimestamp"
                        (VString "2026-01-01T00:00:05Z") metadata))
                        <| o_ResourceVersion := nextRV s |>) in
                   Ok (s <| nextRV := (nextRV s + 1)%N |>
                         <| objects := <[k := stored]> (objects s) |>, writeObject stored)
               end
      end
  end.

(** [handle], without the hook that may run before a write. *)
Definition handle_request (rq : request) (s : Server) : outcome (Server * httpReply) :=
  let path := rq_Path rq +:+ (if rq_Name rq =? "" then "" else "/" +:+ rq_Name rq) in
  let get := rq_Method rq =? "GET" in
  let parts := segments (TrimPrefix path "/apis/") in
  match failures s, getFailures s, get with
  | Some err, S remaining, true =>
      let s := s <| getFailures := remaining |> in
      Ok (if bool_decide (remaining = 0%nat) then s <| failures := None |> else s, writeStatus err)
  | _, _, _ =>
      match get && String.prefix "/apis/" path, parts with
      | true, [group; version] => handleDiscovery group version s
      | _, group :: version :: spaces :: namespace :: plural :: rest =>
          if spaces <>? "namespaces" then Ok (s, notFound) else
          let name := default "" (head rest) in
          let gv := group +:+ "/" +:+ version in
          if get then handleGet gv namespace plural name s else
          let s := s <| writeCount := S (writeCount s) |> in
          if rq_Method rq =? "POST" then handleCreate gv namespace plural (rq_Body rq) s
          else if rq_Method rq =? "PUT" then handleUpdate gv namespace plural name (rq_Body rq) s
          else if rq_Method rq =? "DELETE"
          then handleDelete gv namespace plural name (rq_Body rq) s
          else Ok (s, status 405 "MethodNotAllowed" "unsupported method")
      | _, _ => Ok (s, notFound)
      end
  end.
End handlers.

(** ** Documents of stored objects *)

Definition object_of (o : Object) : Kube.Object := {| raw := clone o |}.

(** The object has metadata, as every stored object does. *)
Definition has_metadata (o : Object) : Prop := is_Some (as_map (field "metadata" (Raw o))).

Lemma with_metadata_spec o m :
  as_map (field "metadata" (Raw (with_metadata o m))) = Some m ∧
  has_metadata (with_metadata o m).
Proof. unfold has_metadata, with_metadata. cbn. by rewrite field_put. Qed.

Lemma childMap_metadata o m : as_map (field "metadata" (Raw o)) = Some m → childMap (Raw o) "metadata" = m.
Proof. unfold childMap. by intros ->. Qed.

(** What readers see of a stored object. *)
Lemma clone_fields o m :
  as_map (field "metadata" (Raw o)) = Some m →
  Name (object_of o) = textOf "name" m ∧ UID (object_of o) = o_UID o ∧
  ResourceVersion (object_of o) = FormatUint (o_ResourceVersion o) ∧
  Labels (object_of o) = childMap m "labels" ∧
  Annotations (object_of o) = childMap m "annotations" ∧
  field "deletionTimestamp" (metadata (object_of o)) = field "deletionTimestamp" m.
Proof.
  intros Hm.
  assert (∃ m', metadata (object_of o) = m' ∧
    ∀ key, key ≠ "finalizers" → field key m' =
      field key (put_field "resourceVersion" (VString (FormatUint (o_ResourceVersion o)))
        (put_field "uid" (VString (o_UID o)) m))) as (m' & Hm' & Hf).
  { eexists. split; [unfold metadata, object_of, clone; cbn [raw]; rewrite Hm; apply childMap_put|].
    intros key Hkey. case_match; [by rewrite field_drop_ne|by rewrite field_put_ne]. }
  unfold Name, UID, ResourceVersion, Labels, Annotations, textOf, childMap.
  rewrite Hm', !Hf by discriminate. by document_fields.
Qed.

Lemma refresh_fields o : has_metadata (refreshMetadataLocked o) ∧
  ∃ m, as_map (field "metadata" (Raw (refreshMetadataLocked o))) = Some m ∧
  ∀ key, key ≠ "uid" → key ≠ "resourceVersion" →
    field key m = field key (childMap (Raw o) "metadata").
Proof.
  unfold refreshMetadataLocked. destruct (with_metadata_spec o
    (put_field "resourceVersion" (VString (FormatUint (o_ResourceVersion o)))
      (put_field "uid" (VString (o_UID o)) (childMap (Raw o) "metadata")))) as [Hm Hh].
  split; [done|]. eexists. split; [exact Hm|]. intros key Hu Hr. by rewrite !field_put_ne.
Qed.

Lemma materialize_fields o ns name : has_metadata (materialize o ns name) ∧
  ∃ m, as_map (field "metadata" (Raw (materialize o ns name))) = Some m ∧
  textOf "name" m = name ∧
  ∀ key, key ∈ ["labels"; "annotations"] →
    field key m = field key (childMap (Raw o) "metadata").
Proof.
  unfold materialize. set (m1 := put_field "resourceVersion" _ _).
  set (m2 := if SFeqb _ _ then _ else m1). set (m3 := match field _ m2 with Some _ => m2 | None => _ end).
  split; [apply with_metadata_spec|]. exists m3. split; [apply with_metadata_spec|].
  assert (∀ key, key ≠ "generation" → key ≠ "creationTimestamp" → field key m3 = field key m1)
    as Hm3.
  { intros key Hg Hc. unfold m3, m2. repeat case_match; by rewrite ?field_put_ne. }
  split.
  - unfold textOf. rewrite Hm3 by discriminate. unfold m1. by document_fields.
  - intros key Hkey. assert (key = "labels" ∨ key = "annotations") as [->| ->] by set_solver;
      rewrite Hm3 by discriminate; unfold m1; by document_fields.
Qed.

(** ** Sound servers

    A server with all that readers may have seen of it: keys and documents. *)

Abbreviation history := (list (string * document)) (only parsing).

Definition slash : ascii := "/"%char.

Definition placed (k : string) (d : document) : Prop :=
  ∃ ns pl, lacks slash ns ∧ lacks slash pl ∧ k = key ns pl (Name {| raw := d |}).

Definition snapshot (s : Server) : history :=
  map (λ kv, (kv.1, clone kv.2)) (map_to_list (objects s)).

(** A failure that a test may arm without the server lying about what it did. *)
Definition honest_failure (err : option APIError) : Prop :=
  ∀ e, err = Some e → success (api_Code e) = false ∧ api_Code e ≠ 0%Z ∧ api_Reason e ≠ "" ∧
                      conclusive (Structured e) = false.

Record sound (s : Server) (h : history) : Prop := {
  snd_live : ∀ k o, objects s !! k = Some o → (k, clone o) ∈ h ∧ has_metadata o;
  snd_past : ∀ k d, (k, d) ∈ h → placed k d ∧ UID {| raw := d |} ≠ "" ∧
    ∃ v, ResourceVersion {| raw := d |} = FormatUint v ∧ (v < nextRV s)%N;
  snd_unique : ∀ k d d', (k, d) ∈ h → (k, d') ∈ h →
    ResourceVersion {| raw := d |} = ResourceVersion {| raw := d' |} → d = d';
  snd_calm : controller s = None;
  snd_failures : honest_failure (armedWriteFailure s) }.

Lemma sound_New : sound New [].
Proof. split; try done; intros *; try by rewrite ?lookup_empty. all: set_solver. Qed.

Lemma snapshot_elem s k d :
  (k, d) ∈ snapshot s ↔ ∃ o, objects s !! k = Some o ∧ d = clone o.
Proof.
  unfold snapshot. rewrite list_elem_of_fmap. split.
  - intros ([k' o] & [= -> ->] & Ho%elem_of_map_to_list). by exists o.
  - intros (o & Ho & ->). exists (k, o). by rewrite elem_of_map_to_list.
Qed.

Instance FormatUint_inj : Inj (=) (=) FormatUint.
Proof. apply decimal_inj. Qed.

(** The new objects of a step have the next version, or look like old ones. *)
Definition fresh_or_same (s s' : Server) : Prop :=
  ∀ k o', objects s' !! k = Some o' →
    (∃ o, objects s !! k = Some o ∧ clone o' = clone o ∧ has_metadata o') ∨
    (o_ResourceVersion o' = nextRV s ∧ (nextRV s < nextRV s')%N ∧ has_metadata o' ∧
     placed k (clone o') ∧ o_UID o' ≠ "").

Lemma sound_step s s' h :
  sound s h → (nextRV s ≤ nextRV s')%N → controller s' = None →
  honest_failure (armedWriteFailure s') → fresh_or_same s s' → sound s' (snapshot s' ++ h).
Proof.
  intros [Hlive Hpast Huniq Hcalm Hfail] Hle Hc Hf Hnew.
  assert (∀ k d, (k, d) ∈ snapshot s' → (k, d) ∈ h ∨
    (placed k d ∧ UID {| raw := d |} ≠ "" ∧ (nextRV s < nextRV s')%N ∧
     ResourceVersion {| raw := d |} = FormatUint (nextRV s))) as Hsnap.
  { intros k d (o' & Ho' & ->)%snapshot_elem.
    destruct (Hnew _ _ Ho') as [(o & Ho & -> & _)|(Hv & Hlt & [m Hm] & Hp & Hu)];
      [left; by apply Hlive|right].
    destruct (clone_fields _ _ Hm) as (_ & HU & HR & _). unfold object_of in HU, HR.
    rewrite HU, HR, Hv. done. }
  assert (∀ k d, (k, d) ∈ h → ResourceVersion {| raw := d |} ≠ FormatUint (nextRV s)) as Hold.
  { intros k d Hd Heq. destruct (Hpast _ _ Hd) as (_ & _ & v & Hv & Hlt).
    rewrite Heq in Hv. apply (inj FormatUint) in Hv. lia. }
  split; [| | |done|done].
  - intros k o' Ho'. split; [apply elem_of_app; left; apply snapshot_elem; eauto|].
    by destruct (Hnew _ _ Ho') as [(o & Ho & _ & ?)|(_ & _ & ? & _)].
  - intros k d [[Hd|(Hp & Hu & Hlt & Hv)]%Hsnap|Hd]%elem_of_app.
    + destruct (Hpast _ _ Hd) as (? & ? & v & ? & ?). split_and!; [done..|].
      exists v. split; [done|lia].
    + split_and!; [done..|]. by exists (nextRV s).
    + destruct (Hpast _ _ Hd) as (? & ? & v & ? & ?). split_and!; [done..|].
      exists v. split; [done|lia].
  - intros k d d' Hd Hd' Heq. apply elem_of_app in Hd, Hd'.
    assert (∀ d, (k, d) ∈ snapshot s' ∨ (k, d) ∈ h → (k, d) ∈ h ∨
      ((k, d) ∈ snapshot s' ∧ ResourceVersion {| raw := d |} = FormatUint (nextRV s))) as Hcase.
    { intros d0 [Hd0|Hd0]; [|by left]. destruct (Hsnap _ _ Hd0) as [|(_ & _ & _ & ?)]; auto. }
    destruct (Hcase _ Hd) as [Hd1|[Hd1 Hv]], (Hcase _ Hd') as [Hd2|[Hd2 Hv']].
    + by eapply Huniq.
    + destruct (Hold _ _ Hd1). by rewrite Heq.
    + destruct (Hold _ _ Hd2). by rewrite <-Heq.
    + apply snapshot_elem in Hd1 as (o1 & Ho1 & ->), Hd2 as (o2 & Ho2 & ->). congruence.
Qed.

(** ** What the handlers do *)

Class EncoderLaws {transport : Transport} {encoder : Encoder} := {
  unmarshal_object d : unmarshalDocument (objectBody d) = inl d;
  unmarshal_status e : unmarshalStatus (statusBody e) =
    Some {| sb_Message := api_Message e; sb_Reason := api_Reason e; sb_Code := api_Code e |};
  object_length d : payload_TrimSpace (objectBody d) ≠ "";
  status_length e : payload_length (statusBody e) ≠ 0%N;
  unmarshal_options uid : unmarshalDeleteOptions (deleteOptions uid) = Some uid }.

Section effects.
Context {transport : Transport} {encoder : Encoder} {laws : EncoderLaws}.
Implicit Types (s : Server) (o : Object).

(** What no handler breaks. *)
Definition kept s s' : Prop :=
  (nextRV s ≤ nextRV s')%N ∧ controller s' = controller s ∧
  (armedWriteFailure s' = armedWriteFailure s ∨ armedWriteFailure s' = None).

(** A handler that refuses: no object is changed, and the reply says so. *)
Definition refuses s s' (r : httpReply) : Prop :=
  objects s' = objects s ∧ ∃ code body, r = Replied code body ∧ success code = false.

(** The reply to a write that was made: the object, or an armed failure. *)
Definition replied s o (r : httpReply) : Prop :=
  r = writeObject o ∨ ∃ e, armedWriteFailure s = Some e ∧ r = writeStatus e.

Lemma recordFamily_fields gv plural s :
  objects (recordFamily gv plural s) = objects s ∧ nextRV (recordFamily gv plural s) = nextRV s ∧
  controller (recordFamily gv plural s) = controller s ∧
  armedWriteFailure (recordFamily gv plural s) = armedWriteFailure s.
Proof. unfold recordFamily. destruct (gv =? ""); [done|]. cbn. by destruct (_ !! _). Qed.

Lemma consume_fields s :
  objects (consumeWriteFailure s) = objects s ∧ nextRV (consumeWriteFailure s) = nextRV s ∧
  nextUID (consumeWriteFailure s) = nextUID s ∧
  controller (consumeWriteFailure s) = controller s ∧
  (armedWriteFailure (consumeWriteFailure s) = armedWriteFailure s ∨
   armedWriteFailure (consumeWriteFailure s) = None).
Proof. unfold consumeWriteFailure. destruct (bool_decide _); cbn; auto 6. Qed.

Lemma install_fields s ns plural name m :
  ∃ o0, Raw o0 = m ∧ o_ResourceVersion o0 = nextRV s ∧
    o_UID o0 = "uid-" +:+ FormatUint (nextUID s) ∧
    objects (install s ns plural name m) =
      <[key ns plural name := materialize o0 ns name]> (objects s) ∧
    nextRV (install s ns plural name m) = (nextRV s + 1)%N ∧
    controller (install s ns plural name m) = controller s ∧
    armedWriteFailure (install s ns plural name m) = armedWriteFailure s.
Proof. by eexists {| Raw := m; Finalizers := []; polls := 0 |}. Qed.

Lemma kept_refl s : kept s s.
Proof. split_and!; [lia|done|by left]. Qed.

Lemma refuses_status s s' code reason message :
  objects s' = objects s → success code = false → refuses s s' (status code reason message).
Proof. intros Ho Hc. split; [done|]. by eexists _, _. Qed.

Lemma handleCreate_spec gv ns plural body s s' r :
  honest_failure (armedWriteFailure s) → handleCreate gv ns plural body s = Ok (s', r) →
  let name := Name {| raw := default [] body |} in
  let k := key ns plural name in
  kept s s' ∧
  (refuses s s' r ∨
   ∃ o0, Raw o0 = default [] body ∧ o_ResourceVersion o0 = nextRV s ∧
     o_UID o0 = "uid-" +:+ FormatUint (nextUID s) ∧ objects s !! k = None ∧
     objects s' = <[k := materialize o0 ns name]> (objects s) ∧ (nextRV s < nextRV s')%N ∧
     replied s (materialize o0 ns name) r).
Proof.
  intros Hf H. cbn zeta. unfold handleCreate in H. destruct body as [m|]; cbn [default].
  2: { injection H as <- <-. split; [apply kept_refl|left; by apply refuses_status]. }
  change (textOf "name" (childMap m "metadata")) with (Name {| raw := m |}) in H.
  set (name := Name {| raw := m |}) in *.
  destruct (name =? "").
  { injection H as <- <-. split; [apply kept_refl|left; by apply refuses_status]. }
  destruct (objects s !! key ns plural name) eqn:Hk.
  { injection H as <- <-. split; [apply kept_refl|left; by apply refuses_status]. }
  destruct (Nat.ltb 0 (writeFailuresLeft s) && negb (updateFailureArmed s)); cbn [andb] in H.
  - destruct (consume_fields s) as (Ho & HR & HU & Hc & Ha).
    destruct (armedWriteFailure s) as [e|] eqn:Harm; [|done].
    destruct (Hf e eq_refl) as (Hcode & _).
    destruct (commitFirst s); injection H as <- <-.
    + destruct (install_fields (consumeWriteFailure s) ns plural name m)
        as (o0 & Hraw & Hv & Hu & Io & IR & Ic & Ia).
      destruct (recordFamily_fields gv plural (install (consumeWriteFailure s) ns plural name m))
        as (Ro & RR & Rc & Ra).
      unfold kept. rewrite RR, Rc, Ra, Ro, Io, IR, Ic, Ia, Harm, Ho, HR, Hc.
      split; [split_and!; [lia|done|done]|right]. exists o0.
      split_and!; [done|congruence|congruence|done|done|lia|right; eauto].
    + unfold kept. rewrite HR, Hc, Harm. split; [split_and!; [lia|done|done]|left].
      split; [done|]. unfold writeStatus. by eexists _, _.
  - destruct (install_fields s ns plural name m) as (o0 & Hraw & Hv & Hu & Io & IR & Ic & Ia).
    destruct (recordFamily_fields gv plural (install s ns plural name m)) as (Ro & RR & Rc & Ra).
    rewrite Ro, Io, lookup_insert_eq in H. injection H as <- <-.
    unfold kept. rewrite RR, Rc, Ra, Ro, Io, IR, Ic, Ia.
    split; [split_and!; [lia|done|by left]|right]. exists o0.
    split_and!; [done..|lia|by left].
Qed.

(** *** Updates *)

Lemma merge_into_spec live entries merged :
  merge_into live entries = Ok merged →
  (live = None → entries = [] ∧ merged = []) ∧
  ∀ key v, field key entries = Some v → field key merged = Some v.
Proof.
  assert (∀ m key v, field key entries = Some v →
    field key (foldr (λ kv m, put_field kv.1 kv.2 m) m entries) = Some v) as Hfold.
  { intros m key v. induction entries as [|[k w] rest IH]; cbn; [done|].
    destruct (bool_decide_reflect (k = key)) as [->|Hne]; [intros [= ->]; apply field_put|].
    intros H. rewrite field_put_ne by congruence. by apply IH. }
  unfold merge_into. destruct live as [m|], entries as [|kv rest]; intros [= <-]; split; try done.
  intros key v. apply (Hfold m).
Qed.

(** An updated object has the labels and annotations it was sent, and its own
    name and identity. *)
Lemma updated_spec stored replacement stored' live :
  as_map (field "metadata" (Raw stored)) = Some live → updated stored replacement = Ok stored' →
  o_UID stored' = o_UID stored ∧ Finalizers stored' = Finalizers stored ∧
  ∃ m, as_map (field "metadata" (Raw stored')) = Some m ∧
    textOf "name" m = textOf "name" live ∧
    ∀ group, group ∈ ["labels"; "annotations"] → ∀ key v,
      field key (childMap (childMap replacement "metadata") group) = Some v →
      field key (childMap m group) = Some v.
Proof.
  intros Hm H. unfold updated in H. rewrite Hm in H.
  apply bind_Ok in H as (labels & [HLn HL]%merge_into_spec & H).
  apply bind_Ok in H as (annotations & [HAn HA]%merge_into_spec & H).
  set (l1 := match as_map (field "labels" live) with Some _ => _ | None => live end) in H.
  set (l2 := match as_map (field "annotations" live) with Some _ => _ | None => l1 end) in H.
  set (l3 := if equalJSON _ _ then l2 else _) in H.
  injection H as <-. cbn. split_and!; [done..|]. exists l3. rewrite field_put. split; [done|].
  assert (∀ key, key ≠ "generation" → field key l3 = field key l2) as H3.
  { intros key Hk. unfold l3. case_match; by rewrite ?field_put_ne. }
  assert (∀ key, key ≠ "annotations" → field key l2 = field key l1) as H2.
  { intros key Hk. unfold l2. case_match; by rewrite ?field_put_ne. }
  assert (∀ key, key ≠ "labels" → field key l1 = field key live) as H1.
  { intros key Hk. unfold l1. case_match; by rewrite ?field_put_ne. }
  split; [unfold textOf; by rewrite H3, H2, H1 by discriminate|].
  intros group Hgroup key v Hv.
  assert (group = "labels" ∨ group = "annotations") as [->| ->] by set_solver;
    unfold childMap at 1; rewrite H3 by discriminate.
  - rewrite H2 by discriminate. unfold l1. destruct (as_map (field "labels" live)) eqn:Hl.
    + rewrite field_put. by apply HL.
    + destruct (HLn eq_refl) as [He _]. by rewrite He in Hv.
  - unfold l2. destruct (as_map (field "annotations" live)) eqn:Hl.
    + rewrite field_put. by apply HA.
    + destruct (HAn eq_refl) as [He _]. by rewrite He in Hv.
Qed.

Lemma handleUpdate_spec gv ns plural name body s s' r :
  honest_failure (armedWriteFailure s) → handleUpdate gv ns plural name body s = Ok (s', r) →
  let k := key ns plural name in
  kept s s' ∧
  (refuses s s' r ∨
   ∃ stored raw updated_, objects s !! k = Some stored ∧ body = Some raw ∧
     (ResourceVersion {| raw := raw |} = "" ∨
      ResourceVersion {| raw := raw |} = FormatUint (o_ResourceVersion stored)) ∧
     updated stored raw = Ok updated_ ∧
     let o := refreshMetadataLocked (updated_ <| o_ResourceVersion := nextRV s |>) in
     objects s' = <[k := o]> (objects s) ∧ (nextRV s < nextRV s')%N ∧ replied s o r).
Proof.
  intros Hf H. cbn zeta. unfold handleUpdate in H.
  destruct (objects s !! key ns plural name) as [stored|] eqn:Hk.
  2: { injection H as <- <-. split; [apply kept_refl|left; by apply refuses_status]. }
  destruct (recordFamily_fields gv plural s) as (Ro & RR & Rc & Ra).
  assert (kept s (recordFamily gv plural s)) as Hkept.
  { unfold kept. rewrite RR, Rc, Ra. apply kept_refl. }
  destruct body as [m|].
  2: { injection H as <- <-. split; [done|left; by apply refuses_status]. }
  change (textOf "resourceVersion" (childMap m "metadata"))
    with (ResourceVersion {| raw := m |}) in H.
  destruct (_ && _) eqn:Hrv; [injection H as <- <-; split; [done|left; by apply refuses_status]|].
  assert (ResourceVersion {| raw := m |} = "" ∨
    ResourceVersion {| raw := m |} = FormatUint (o_ResourceVersion stored)) as Hmatch.
  { apply andb_false_iff in Hrv as [Hrv|Hrv]; apply negb_false_iff, bool_decide_eq_true in Hrv;
      auto. }
  set (s0 := recordFamily gv plural s) in *.
  destruct (Nat.ltb 0 (writeFailuresLeft s0) && updateFailureArmed s0) eqn:Hfail.
  - destruct (consume_fields s0) as (Co & CR & _ & Cc & Ca).
    apply bind_Ok in H as (updated_ & Hupd & H). rewrite Ra in H.
    destruct (armedWriteFailure s) as [e|] eqn:Harm; [|done]. injection H as <- <-.
    unfold kept. cbn. rewrite Co, CR, Cc, RR, Rc, Ro. split.
    { split_and!; [lia|done|]. rewrite Harm. by rewrite Ra in Ca. }
    right. exists stored, m, updated_. split_and!; [done..|lia|right; eauto].
  - apply bind_Ok in H as (updated_ & Hupd & H). injection H as <- <-.
    unfold kept. cbn. rewrite RR, Rc, Ra, Ro. split; [split_and!; [lia|done|by left]|].
    right. exists stored, m, updated_. split_and!; [done..|lia|by left].
Qed.

Lemma handleDelete_spec gv ns plural name body s s' r :
  handleDelete gv ns plural name body s = Ok (s', r) →
  let k := key ns plural name in
  kept s s' ∧
  (refuses s s' r ∨
   ∃ stored uid, objects s !! k = Some stored ∧
     from_option unmarshalDeleteOptions (Some "") body = Some uid ∧
     (uid = "" ∨ uid = o_UID stored) ∧ (∃ o, r = writeObject o) ∧
     (objects s' = base.delete k (objects s) ∨
      ∃ m, as_map (field "metadata" (Raw stored)) = Some m ∧
        objects s' = <[k := refreshMetadataLocked ((with_metadata stored
          (put_field "deletionTimestamp" (VString "2026-01-01T00:00:05Z") m))
            <| o_ResourceVersion := nextRV s |>)]> (objects s) ∧ (nextRV s < nextRV s')%N)).
Proof.
  intros H. cbn zeta. unfold handleDelete in H.
  destruct (objects s !! key ns plural name) as [stored|] eqn:Hk.
  2: { injection H as <- <-. split; [apply kept_refl|left; by apply refuses_status]. }
  destruct (recordFamily_fields gv plural s) as (Ro & RR & Rc & Ra).
  assert (kept s (recordFamily gv plural s)) as Hkept.
  { unfold kept. rewrite RR, Rc, Ra. apply kept_refl. }
  destruct (from_option _ _ body) as [uid|] eqn:Huid.
  2: { injection H as <- <-. split; [done|left; by apply refuses_status]. }
  destruct (_ && _) eqn:Hmatch; [injection H as <- <-; split; [done|left; by apply refuses_status]|].
  assert (uid = "" ∨ uid = o_UID stored) as Hu.
  { apply andb_false_iff in Hmatch as [Hm|Hm]; apply negb_false_iff, bool_decide_eq_true in Hm;
      auto. }
  destruct (bool_decide (Finalizers stored = [])).
  - injection H as <- <-. unfold kept. cbn. rewrite RR, Rc, Ra, Ro. split; [apply kept_refl|].
    right. exists stored, uid. split_and!; [done..|by eexists|by left].
  - destruct (as_map (field "metadata" (Raw stored))) as [m|] eqn:Hm; [|done].
    injection H as <- <-. unfold kept. cbn. rewrite RR, Rc, Ra, Ro.
    split; [split_and!; [lia|done|by left]|].
    right. exists stored, uid. split_and!; [done..|by eexists|right]. exists m. split_and!; [done..|lia].
Qed.

Lemma handleGet_spec gv ns plural name s s' r :
  controller s = None → handleGet gv ns plural name s = Ok (s', r) →
  let k := key ns plural name in
  kept s s' ∧ nextRV s' = nextRV s ∧
  ((objects s' = objects s ∧ r = notFound) ∨
   ∃ stored n, objects s !! k = Some stored ∧
     let o := stored <| polls := n |> in
     r = writeObject o ∧
     (objects s' = base.delete k (objects s) ∨ objects s' = <[k := o]> (objects s))).
Proof.
  intros Hc H. cbn zeta. unfold handleGet in H.
  destruct (objects s !! key ns plural name) as [stored|] eqn:Hk.
  2: { injection H as <- <-. split_and!; [apply kept_refl|done|by left]. }
  destruct (recordFamily_fields gv plural s) as (Ro & RR & Rc & Ra). rewrite Rc, Hc in H.
  injection H as <- <-. unfold kept. cbn. rewrite RR, Rc, Ra, Ro.
  split_and!; [lia|done|by left|done|right]. exists stored, (S (polls stored)).
  split_and!; [done..|]. destruct (terminatingWithoutFinalizers _); auto.
Qed.

(** ** Requests reach their handlers *)

Lemma app_empty_r a : a +:+ "" = a.
Proof. induction a as [|ch a IH]; [done|]. by rewrite app_cons, IH. Qed.

Lemma segments_lacks a : lacks slash a → segments a = [a].
Proof.
  induction a as [|ch a IH]; [done|]. intros [Hc Ha]. cbn.
  rewrite bool_decide_false by done. by rewrite (IH Ha).
Qed.

Lemma segments_app a rest : lacks slash a → segments (a +:+ "/" +:+ rest) = a :: segments rest.
Proof.
  induction a as [|ch a IH]; [done|]. intros [Hc Ha]. rewrite app_cons. cbn [segments].
  rewrite bool_decide_false by done. by rewrite (IH Ha).
Qed.

Definition collection_path (g v ns pl : string) : string :=
  "/apis/" +:+ g +:+ "/" +:+ v +:+ "/namespaces/" +:+ ns +:+ "/" +:+ pl.

(** The requests of the adapter: for an object, or for discovery. *)
Definition addressed (rq : request) (g v ns pl : string) : Prop :=
  (lacks slash g ∧ lacks slash v ∧ lacks slash ns ∧ lacks slash pl ∧ lacks slash (rq_Name rq)) ∧
  rq_Path rq = collection_path g v ns pl.
Definition discovery (rq : request) : Prop :=
  rq_Method rq = "GET" ∧ rq_Name rq = "" ∧
  ∃ g v, lacks slash g ∧ lacks slash v ∧ rq_Path rq = "/apis/" +:+ g +:+ "/" +:+ v.

Lemma TrimPrefix_apis rest : TrimPrefix ("/apis/" +:+ rest) "/apis/" = rest.
Proof. cbn. by destruct rest. Qed.

Lemma collection_segments g v ns pl tail :
  lacks slash g → lacks slash v → lacks slash ns →
  segments (TrimPrefix (collection_path g v ns pl +:+ tail) "/apis/") =
  [g; v; "namespaces"; ns] ++ segments (pl +:+ tail).
Proof.
  intros Hg Hv Hns. unfold collection_path.
  replace (TrimPrefix _ "/apis/")
    with (g +:+ "/" +:+ v +:+ "/" +:+ "namespaces" +:+ "/" +:+ ns +:+ "/" +:+ (pl +:+ tail)).
  2: { rewrite !string_app_assoc. symmetry. apply TrimPrefix_apis. }
  by rewrite !segments_app by (done || by repeat split).
Qed.

(** What a request for an object is handled by, once its reading is not made to
    fail. *)
Definition routed (rq : request) (g v ns pl : string) (s : Server)
    : outcome (Server * httpReply) :=
  let gv := g +:+ "/" +:+ v in
  if rq_Method rq =? "GET" then handleGet gv ns pl (rq_Name rq) s else
  let s := s <| writeCount := S (writeCount s) |> in
  if rq_Method rq =? "POST" then handleCreate gv ns pl (rq_Body rq) s
  else if rq_Method rq =? "PUT" then handleUpdate gv ns pl (rq_Name rq) (rq_Body rq) s
  else if rq_Method rq =? "DELETE" then handleDelete gv ns pl (rq_Name rq) (rq_Body rq) s
  else Ok (s, status 405 "MethodNotAllowed" "unsupported method").

Lemma addressed_parts rq g v ns pl :
  addressed rq g v ns pl →
  segments (TrimPrefix (rq_Path rq +:+ (if rq_Name rq =? "" then "" else "/" +:+ rq_Name rq)) "/apis/") =
  g :: v :: "namespaces" :: ns :: pl :: (if rq_Name rq =? "" then [] else [rq_Name rq]).
Proof.
  intros [(Hg & Hv & Hns & Hpl & Hname) ->]. rewrite collection_segments by done.
  destruct (bool_decide_reflect (rq_Name rq = "")).
  - by rewrite app_empty_r, segments_lacks.
  - by rewrite segments_app, segments_lacks.
Qed.

Lemma handle_addressed rq g v ns pl s s' r :
  addressed rq g v ns pl → handle_request rq s = Ok (s', r) →
  routed rq g v ns pl s = Ok (s', r) ∨
  (rq_Method rq = "GET" ∧ objects s' = objects s ∧ nextRV s' = nextRV s ∧
   controller s' = controller s ∧ armedWriteFailure s' = armedWriteFailure s ∧
   ∃ e, failures s = Some e ∧ r = writeStatus e).
Proof.
  intros Ha H. unfold handle_request in H. rewrite (addressed_parts _ _ _ _ _ Ha) in H.
  set (name := default "" (head (if rq_Name rq =? "" then [] else [rq_Name rq]))) in *.
  assert (name = rq_Name rq) as Hname.
  { unfold name. by destruct (bool_decide_reflect (rq_Name rq = "")) as [->|]. }
  rewrite Hname in H. unfold routed.
  destruct (failures s) as [e|] eqn:Hf; [|left; by destruct (_ && _)].
  destruct (getFailures s) as [|remaining]; [left; by destruct (_ && _)|].
  destruct (bool_decide_reflect (rq_Method rq = "GET")); [|left; by destruct (_ && _)].
  right. injection H as <- <-. destruct (bool_decide (remaining = 0%nat)); cbn; eauto 10.
Qed.

Lemma handle_discovery rq s s' r :
  discovery rq → handle_request rq s = Ok (s', r) →
  objects s' = objects s ∧ nextRV s' = nextRV s ∧ controller s' = controller s ∧
  armedWriteFailure s' = armedWriteFailure s.
Proof.
  intros (Hm & Hn & g & v & Hg & Hv & Hp) H. unfold handle_request in H. rewrite Hm, Hn, Hp in H.
  change ("" =? "") with true in H. change ("GET" =? "GET") with true in H. cbn iota in H.
  rewrite app_empty_r in H.
  rewrite TrimPrefix_apis, segments_app, segments_lacks in H by done.
  assert (String.prefix "/apis/" ("/apis/" +:+ g +:+ "/" +:+ v) = true) as Hpre
    by (clear; by destruct g).
  rewrite Hpre in H. cbn [andb] in H.
  assert (handleDiscovery g v s = Ok (s', r) → objects s' = objects s ∧ nextRV s' = nextRV s ∧
    controller s' = controller s ∧ armedWriteFailure s' = armedWriteFailure s) as Hd.
  { unfold handleDiscovery. destruct (_ && _); [by intros [= <- <-]|].
    destruct (discoverFailures s); [by intros [= <- <-]|].
    destruct (discoverErr s); [|done]. intros [= <- <-]. by destruct (bool_decide _). }
  destruct (failures s) as [e|]; [|by apply Hd].
  destruct (getFailures s) as [|remaining]; [by apply Hd|]. injection H as <- <-.
  by destruct (bool_decide (remaining = 0%nat)).
Qed.

(** ** Soundness is kept *)

Lemma same_objects s s' h :
  sound s h → objects s' = objects s → nextRV s' = nextRV s → controller s' = controller s →
  armedWriteFailure s' = armedWriteFailure s → sound s' (snapshot s' ++ h).
Proof.
  intros Hs Ho HR Hc Ha. apply (sound_step s); [done|lia|by rewrite Hc; eapply snd_calm|
    rewrite Ha; by eapply snd_failures|].
  intros k o' Hk. rewrite Ho in Hk. left. exists o'. split_and!; [done..|].
  by apply (snd_live _ _ Hs) in Hk as [_ ?].
Qed.

Lemma kept_sound s s' h :
  sound s h → kept s s' → fresh_or_same s s' → sound s' (snapshot s' ++ h).
Proof.
  intros Hs (Hle & Hc & Ha) Hf. apply (sound_step s); [done|done| | |done].
  - rewrite Hc. by eapply snd_calm.
  - destruct Ha as [->| ->]; [by eapply snd_failures|by intros e].
Qed.

Lemma fresh_same s s' h :
  sound s h → (∀ k o', objects s' !! k = Some o' → objects s !! k = Some o') → fresh_or_same s s'.
Proof.
  intros Hs Hsub k o' Hk. left. exists o'. split_and!; [by apply Hsub|done|].
  by apply Hsub, (snd_live _ _ Hs) in Hk as [_ ?].
Qed.

(** An object under its key with the next version. *)
Lemma fresh_insert s s' h k o m :
  sound s h → objects s' = <[k := o]> (objects s) → (nextRV s < nextRV s')%N →
  o_ResourceVersion o = nextRV s → as_map (field "metadata" (Raw o)) = Some m →
  (∃ ns pl, lacks slash ns ∧ lacks slash pl ∧ k = key ns pl (textOf "name" m)) →
  o_UID o ≠ "" → fresh_or_same s s'.
Proof.
  intros Hs Ho Hlt Hv Hm (ns & pl & Hns & Hpl & Hk) Hu k' o' Hk'. rewrite Ho in Hk'.
  destruct (decide (k' = k)) as [->|Hne].
  - rewrite lookup_insert_eq in Hk'. injection Hk' as <-. right. split_and!; try done;
      [by exists m|].
    destruct (clone_fields _ _ Hm) as (HN & _). exists ns, pl. unfold object_of in HN.
    by rewrite HN.
  - rewrite lookup_insert_ne in Hk' by done. left. exists o'. split_and!; [done..|].
    by apply (snd_live _ _ Hs) in Hk' as [_ ?].
Qed.

(** A stored object: its metadata, its place and its identity. *)
Lemma stored_fields s h k o :
  sound s h → objects s !! k = Some o →
  ∃ m, as_map (field "metadata" (Raw o)) = Some m ∧
    (∃ ns pl, lacks slash ns ∧ lacks slash pl ∧ k = key ns pl (textOf "name" m)) ∧
    o_UID o ≠ "".
Proof.
  intros Hs Hk. destruct (snd_live _ _ Hs _ _ Hk) as [Hin [m Hm]].
  destruct (snd_past _ _ Hs _ _ Hin) as ((ns & pl & Hns & Hpl & Hkey) & Hu & _).
  destruct (clone_fields _ _ Hm) as (HN & HU & _). unfold object_of in HN, HU.
  rewrite HU in Hu. rewrite HN in Hkey. eauto 8.
Qed.

(** A server stays sound, whatever the adapter asks of it. *)
Theorem handle_sound rq s h s' r :
  sound s h → (discovery rq ∨ ∃ g v ns pl, addressed rq g v ns pl) →
  handle_request rq s = Ok (s', r) → sound s' (snapshot s' ++ h).
Proof.
  intros Hs [Hd|(g & v & ns & pl & Ha)] H.
  { destruct (handle_discovery _ _ _ _ Hd H) as (? & ? & ? & ?). by eapply same_objects. }
  destruct (handle_addressed _ _ _ _ _ _ _ _ Ha H) as [Hdisp|(_ & ? & ? & ? & ? & _)];
    [|by eapply same_objects].
  destruct Ha as [(_ & _ & Hns & Hpl & _) _]. unfold routed in Hdisp.
  destruct (rq_Method rq =? "GET").
  { apply handleGet_spec in Hdisp as (Hk & HR & [[Ho _]|(stored & n & Hst & _ & Ho)]);
      [| |by eapply snd_calm].
    - apply (kept_sound s); [done..|]. eapply fresh_same; [done|]. by rewrite Ho.
    - apply (kept_sound s); [done..|]. intros k o' Hk'. left. destruct Ho as [Ho|Ho]; rewrite Ho in Hk'.
      + apply lookup_delete_Some in Hk' as [_ Hk']. exists o'. split_and!; [done..|].
        by apply (snd_live _ _ Hs) in Hk' as [_ ?].
      + destruct (decide (k = key ns pl (rq_Name rq))) as [->|Hne].
        * rewrite lookup_insert_eq in Hk'. injection Hk' as <-. exists stored.
          split_and!; [done..|]. by apply (snd_live _ _ Hs) in Hst as [_ ?].
        * rewrite lookup_insert_ne in Hk' by done. exists o'. split_and!; [done..|].
          by apply (snd_live _ _ Hs) in Hk' as [_ ?]. }
  set (s0 := s <| writeCount := S (writeCount s) |>) in *.
  assert (sound s0 h) as Hs0 by by destruct Hs.
  destruct (rq_Method rq =? "POST"); [|destruct (rq_Method rq =? "PUT");
    [|destruct (rq_Method rq =? "DELETE")]].
  - apply handleCreate_spec in Hdisp as [Hk [[Ho _]|(o0 & Hraw & Hv & Hu & Hnone & Ho & Hlt & _)]];
      [| |by eapply snd_failures].
    { apply (kept_sound s0); [done..|]. eapply fresh_same; [done|]. by rewrite Ho. }
    apply (kept_sound s0); [done..|].
    destruct (materialize_fields o0 ns (Name {| raw := default [] (rq_Body rq) |}))
      as (_ & m & Hm & Hname & _).
    eapply (fresh_insert _ _ _ _ _ _ Hs0 Ho Hlt); [done|done|by exists ns, pl; rewrite Hname|].
    cbn. by rewrite Hu.
  - apply handleUpdate_spec in Hdisp as
      [Hk [[Ho _]|(stored & m & upd & Hst & Hb & Hrv & Hupd & Ho & Hlt & _)]];
      [| |by eapply snd_failures].
    { apply (kept_sound s0); [done..|]. eapply fresh_same; [done|]. by rewrite Ho. }
    apply (kept_sound s0); [done..|].
    destruct (stored_fields _ _ _ _ Hs0 Hst) as (m0 & Hm0 & Hplace & Hu0).
    destruct (updated_spec _ _ _ _ Hm0 Hupd) as (Hu1 & _ & m1 & Hm1 & Hn1 & _).
    destruct (refresh_fields (upd <| o_ResourceVersion := nextRV s0 |>)) as (_ & m2 & Hm2 & Hf2).
    eapply (fresh_insert _ _ _ _ _ m2 Hs0 Ho Hlt); [done|done| |cbn; by rewrite Hu1].
    unfold textOf. rewrite Hf2 by discriminate. cbn.
    rewrite (childMap_metadata _ _ Hm1). unfold textOf in Hn1. by rewrite Hn1.
  - apply handleDelete_spec in Hdisp as
      [Hk [[Ho _]|(stored & uid & Hst & _ & _ & _ & [Ho|(m & Hm & Ho & Hlt)])]].
    + apply (kept_sound s0); [done..|]. eapply fresh_same; [done|]. by rewrite Ho.
    + apply (kept_sound s0); [done..|]. eapply fresh_same; [done|]. rewrite Ho.
      by intros k o' [_ ?]%lookup_delete_Some.
    + apply (kept_sound s0); [done..|].
      destruct (stored_fields _ _ _ _ Hs0 Hst) as (m0 & Hm0 & Hplace & Hu0).
      rewrite Hm in Hm0. injection Hm0 as <-.
      match type of Ho with _ = <[_ := refreshMetadataLocked ?x]> _ =>
        destruct (refresh_fields x) as (_ & m2 & Hm2 & Hf2) end.
      eapply (fresh_insert _ _ _ _ _ m2 Hs0 Ho Hlt); [done|done| |done].
      unfold textOf. rewrite Hf2 by discriminate. cbn. rewrite childMap_put.
      rewrite field_put_ne by discriminate. done.
  - injection Hdisp as <- <-. by eapply same_objects.
Qed.
End effects.

(** ** The server is a cluster *)

(** The key of an object by its collection path and name. *)
Definition locate (cn : string * string) : string :=
  match segments (TrimPrefix cn.1 "/apis/") with
  | [_; _; _; namespace; plural] => key namespace plural cn.2
  | _ => ""
  end.

Section cluster.
Context {transport : Transport} {encoder : Encoder}.

Record World := {
  w_server : Server;
  w_past : history;
  w_sound : sound w_server w_past }.

(** A request of the adapter is served; readers may see every object that is
    then stored. *)
Definition fake_serves (w : World) (rq : request) (r : httpReply) (w' : World) : Prop :=
  (discovery rq ∨ ∃ g v ns pl, addressed rq g v ns pl) ∧
  (rq_Method rq = "DELETE" → ∃ uid, rq_Body rq = Some (deleteOptions uid)) ∧
  (∀ e, failures (w_server w) = Some e → success (api_Code e) = false) ∧
  handle_request rq (w_server w) = Ok (w_server w', r) ∧
  w_past w' = snapshot (w_server w') ++ w_past w.

#[export] Instance fakeapi : Cluster := {
  world := World; spot := string; at_ := locate;
  live w k := object_of <$> objects (w_server w) !! k;
  past w k o := (k, raw o) ∈ w_past w;
  serves := fake_serves;
  drifts w w' := ∃ more, w_past w' = more ++ w_past w }.
End cluster.

Lemma segments_lack path : Forall (lacks slash) (segments path).
Proof.
  induction path as [|ch path IH]; cbn; [by repeat constructor|].
  destruct (bool_decide_reflect (ch = "/"%char)); [by constructor|].
  destruct (segments path) as [|s l]; [by repeat constructor|].
  apply Forall_cons in IH as [Hs Hl]. by repeat constructor.
Qed.

Lemma key_inj ns pl n ns' pl' n' :
  lacks slash ns → lacks slash pl → lacks slash ns' → lacks slash pl' →
  key ns pl n = key ns' pl' n' → n = n'.
Proof.
  intros ???? H. unfold key in H. apply (split_first slash) in H as [_ H]; [|done..].
  by apply (split_first slash) in H as [_ H].
Qed.

Lemma key_nonempty ns pl n : key ns pl n ≠ "".
Proof. unfold key. by destruct ns. Qed.

Lemma locate_addressed rq g v ns pl name :
  addressed rq g v ns pl → locate (rq_Path rq, name) = key ns pl name.
Proof.
  intros [(Hg & Hv & Hns & Hpl & _) Hp]. unfold locate. cbn [fst snd]. rewrite Hp.
  rewrite <-(app_empty_r (collection_path g v ns pl)), collection_segments by done.
  by rewrite app_empty_r, segments_lacks.
Qed.

Section laws.
Context {transport : Transport} {encoder : Encoder} {encoder_laws : EncoderLaws}.

(** How the adapter reads the replies. *)
Lemma do_writeObject o found :
  (do (writeObject o)).1 = inl (Some found) → found = object_of o.
Proof.
  unfold writeObject, do. destruct (N.ltb _ _); [done|]. cbn [Z.ltb Z.leb Z.compare orb].
  destruct (Z.ltb 200 200 || Z.leb 300 200); [done|].
  destruct (payload_TrimSpace _ =? ""); [done|]. rewrite unmarshal_object. by intros [= <-].
Qed.

Lemma do_refusal code body found :
  success code = false → (do (Replied code body)).1 ≠ inl found.
Proof.
  intros Hc H. destruct (do (Replied code body)) as [o c] eqn:Hdo. cbn in H. subst o.
  destruct (do_success _ _ _ Hdo) as (b & [= <- <-] & Hs). congruence.
Qed.

Lemma decode_status e :
  api_Reason e ≠ "" → api_Code e ≠ 0%Z →
  decodeStatusFailure (api_Code e) (statusBody e) = e.
Proof.
  intros Hr Hc. unfold decodeStatusFailure. rewrite unmarshal_status.
  rewrite bool_decide_false by apply status_length. cbn.
  rewrite !bool_decide_false by done. by destruct e.
Qed.

(** A write reaches its handler. *)
Lemma served_write w rq r w' :
  fake_serves w rq r w' → is_write rq = true → ∃ g v ns pl,
    addressed rq g v ns pl ∧ (∀ name, locate (rq_Path rq, name) = key ns pl name) ∧
    routed rq g v ns pl (w_server w) = Ok (w_server w', r).
Proof.
  intros ([(Hm & _)|(g & v & ns & pl & Ha)] & _ & _ & H & _) Hw.
  { unfold is_write in Hw. by rewrite Hm in Hw. }
  exists g, v, ns, pl. split_and!; [done|by intros; eapply locate_addressed|].
  destruct (handle_addressed _ _ _ _ _ _ _ _ Ha H) as [?|[Hm _]]; [done|].
  unfold is_write in Hw. by rewrite Hm in Hw.
Qed.

Lemma untouched_objects w w' :
  objects (w_server w') = objects (w_server w) → untouched w w'.
Proof. intros H k. cbn. by rewrite H. Qed.

(** A created object, as the sender and the readers know it. *)
Lemma create_served w rq r w' :
  fake_serves w rq r w' → rq_Method rq = "POST" →
  refuses (w_server w) (w_server w') r ∨
  (∃ o ns o0, live w (at_ (target rq)) = None ∧ Raw o0 = default [] (rq_Body rq) ∧
     o = materialize o0 ns (target rq).2 ∧
     objects (w_server w') = <[at_ (target rq) := o]> (objects (w_server w)) ∧
     replied (w_server w) o r).
Proof.
  intros Hs Hm. assert (is_write rq = true) as Hw by (unfold is_write; by rewrite Hm).
  destruct (served_write _ _ _ _ Hs Hw) as (g & v & ns & pl & Ha & Hl & H).
  unfold routed in H. rewrite Hm in H. cbn in H.
  apply handleCreate_spec in H as [_ H]; [|exact (snd_failures _ _ (w_sound w))].
  destruct H as [H|(o0 & Hraw & _ & _ & Hnone & Ho & _ & Hr)]; [by left|right].
  assert (at_ (target rq) = key ns pl (target rq).2) as Hat
    by (unfold target; cbn; rewrite Hm; apply Hl).
  rewrite Hat. unfold target. rewrite Hm. cbn.
  exists (materialize o0 ns (Name {| raw := default [] (rq_Body rq) |})), ns, o0.
  split_and!; try done. cbn in Hnone |- *. apply fmap_None. exact Hnone.
Qed.

Lemma update_served w rq r w' :
  fake_serves w rq r w' → rq_Method rq = "PUT" →
  refuses (w_server w) (w_server w') r ∨
  (∃ stored m upd, let s := w_server w in
     objects s !! at_ (target rq) = Some stored ∧ rq_Body rq = Some m ∧
     (required_version rq = "" ∨
      required_version rq = FormatUint (o_ResourceVersion stored)) ∧
     updated stored m = Ok upd ∧
     let o := refreshMetadataLocked (upd <| o_ResourceVersion := nextRV s |>) in
     objects (w_server w') = <[at_ (target rq) := o]> (objects s) ∧ replied s o r).
Proof.
  intros Hs Hm. assert (is_write rq = true) as Hw by (unfold is_write; by rewrite Hm).
  destruct (served_write _ _ _ _ Hs Hw) as (g & v & ns & pl & Ha & Hl & H).
  unfold routed in H. rewrite Hm in H. cbn in H.
  apply handleUpdate_spec in H as [_ H]; [|exact (snd_failures _ _ (w_sound w))].
  destruct H as [H|(stored & m & upd & Hst & Hb & Hrv & Hupd & Ho & _ & Hr)]; [by left|right].
  assert (at_ (target rq) = key ns pl (rq_Name rq)) as Hat
    by (unfold target; cbn; rewrite Hm; apply Hl).
  rewrite Hat. exists stored, m, upd. unfold required_version. rewrite Hb.
  split_and!; done.
Qed.

Lemma delete_served w rq r w' :
  fake_serves w rq r w' → rq_Method rq = "DELETE" →
  refuses (w_server w) (w_server w') r ∨
  (∃ stored, let s := w_server w in
     objects s !! at_ (target rq) = Some stored ∧
     (required_uid rq = "" ∨ required_uid rq = o_UID stored) ∧ (∃ o, r = writeObject o) ∧
     (objects (w_server w') = base.delete (at_ (target rq)) (objects s) ∨
      ∃ m, objects (w_server w') = <[at_ (target rq) := refreshMetadataLocked
        ((with_metadata stored (put_field "deletionTimestamp" (VString "2026-01-01T00:00:05Z") m))
           <| o_ResourceVersion := nextRV s |>)]> (objects s))).
Proof.
  intros Hs Hm. assert (is_write rq = true) as Hw by (unfold is_write; by rewrite Hm).
  destruct (served_write _ _ _ _ Hs Hw) as (g & v & ns & pl & Ha & Hl & H).
  destruct Hs as (_ & Hbody & _). destruct (Hbody Hm) as [uid Hb].
  unfold routed in H. rewrite Hm in H. cbn in H.
  apply handleDelete_spec in H as [_ H].
  destruct H as [H|(stored & uid' & Hst & Hopt & Hu & Hr & Ho)]; [by left|right].
  assert (at_ (target rq) = key ns pl (rq_Name rq)) as Hat
    by (unfold target; cbn; rewrite Hm; apply Hl).
  rewrite Hat. exists stored. rewrite Hb in Hopt.
  change (unmarshalDeleteOptions (deleteOptions uid) = Some uid') in Hopt.
  rewrite unmarshal_options in Hopt.
  injection Hopt as <-. cbn zeta. split_and!; [done| |done|].
  - unfold required_uid. rewrite Hb. cbn [default]. unfold deleteOptions.
    destruct (bool_decide_reflect (uid = "")) as [->|]; [by left|]. destruct Hu; [done|by right].
  - destruct Ho as [Ho|(m & _ & Ho & _)]; [by left|right]. by exists m.
Qed.

(** *** The laws *)

Lemma refuses_code s s' code body :
  refuses s s' (Replied code body) → success code = true → False.
Proof. intros (_ & code' & body' & [= <- <-] & Hc). congruence. Qed.

Lemma replied_code w o code body :
  replied (w_server w) o (Replied code body) →
  (success code = true ∧ code = 200%Z) ∨
  (success code = false ∧ conclusive (Structured (decodeStatusFailure code body)) = false).
Proof.
  intros [[= -> ->]|(e & He & [= -> ->])]; [by left|right].
  destruct (snd_failures _ _ (w_sound w) _ He) as (Hc & Hz & Hr & Hn).
  by rewrite decode_status.
Qed.

Lemma fake_frame w rq r w' k :
  fake_serves w rq r w' → is_write rq = true →
  k = at_ (target rq) ∨ live w' k = live w k.
Proof.
  intros Hs Hw. destruct (decide (k = at_ (target rq))) as [->|Hk]; [by left|right].
  destruct (decide (rq_Method rq = "POST")) as [Hm|Hp].
  { destruct (create_served _ _ _ _ Hs Hm) as [[Ho _]|(o & ns & o0 & _ & _ & _ & Ho & _)];
      cbn -[target locate]; rewrite Ho; [done|]. by rewrite lookup_insert_ne. }
  destruct (decide (rq_Method rq = "PUT")) as [Hm|Hu].
  { destruct (update_served _ _ _ _ Hs Hm) as [[Ho _]|(st & m & upd & _ & _ & _ & _ & Ho & _)];
      cbn -[target locate]; rewrite Ho; [done|]. by rewrite lookup_insert_ne. }
  destruct (decide (rq_Method rq = "DELETE")) as [Hm|Hd].
  { destruct (delete_served _ _ _ _ Hs Hm) as [[Ho _]|(st & _ & _ & _ & [Ho|(m & Ho)])];
      cbn -[target locate]; rewrite Ho; [done|by rewrite lookup_delete_ne|].
    by rewrite lookup_insert_ne. }
  destruct (served_write _ _ _ _ Hs Hw) as (g & v & ns & pl & _ & _ & H).
  unfold routed in H. unfold is_write in Hw. apply negb_true_iff in Hw. rewrite Hw in H.
  rewrite !bool_decide_false in H by done. injection H as H _. cbn -[target locate].
  by rewrite <-H.
Qed.

Lemma carries_groups sent stored :
  (∀ group, group ∈ ["labels"; "annotations"] → ∀ key v,
     field key (childMap (metadata sent) group) = Some v →
     field key (childMap (metadata stored) group) = Some v) → carries sent stored.
Proof.
  intros H key text. unfold LabelString, AnnotationString, Labels, Annotations.
  split; intros Ht.
  - destruct (field key (childMap (metadata sent) "labels")) eqn:Hf; [|done].
    by rewrite (H "labels" ltac:(set_solver) _ _ Hf).
  - destruct (field key (childMap (metadata sent) "annotations")) eqn:Hf; [|done].
    by rewrite (H "annotations" ltac:(set_solver) _ _ Hf).
Qed.

(** Labels and annotations of a stored object are those of its metadata. *)
Lemma object_group o m group :
  as_map (field "metadata" (Raw o)) = Some m → group ∈ ["labels"; "annotations"] →
  childMap (metadata (object_of o)) group = childMap m group.
Proof.
  intros Hm Hg. destruct (clone_fields _ _ Hm) as (_ & _ & _ & HL & HA & _).
  assert (group = "labels" ∨ group = "annotations") as [->| ->] by set_solver; [apply HL|apply HA].
Qed.

Lemma fake_refused w rq code body w' :
  fake_serves w rq (Replied code body) w' → is_write rq = true → success code = false →
  conclusive (Structured (decodeStatusFailure code body)) = true → untouched w w'.
Proof.
  intros Hs Hw Hc Hcon.
  assert (∀ o, replied (w_server w) o (Replied code body) → False) as Hno.
  { intros o [[? _]|[_ ?]]%replied_code; congruence. }
  destruct (decide (rq_Method rq = "POST")) as [Hm|Hp].
  { destruct (create_served _ _ _ _ Hs Hm) as [[Ho _]|(o & ns & o0 & _ & _ & _ & _ & Hr)];
      [by apply untouched_objects|by apply Hno in Hr]. }
  destruct (decide (rq_Method rq = "PUT")) as [Hm|Hu].
  { destruct (update_served _ _ _ _ Hs Hm) as [[Ho _]|(st & m & upd & _ & _ & _ & _ & _ & Hr)];
      [by apply untouched_objects|by apply Hno in Hr]. }
  destruct (decide (rq_Method rq = "DELETE")) as [Hm|Hd].
  { destruct (delete_served _ _ _ _ Hs Hm) as [[Ho _]|(st & _ & _ & (o & Hr) & _)];
      [by apply untouched_objects|destruct (Hno o); by left]. }
  destruct (served_write _ _ _ _ Hs Hw) as (g & v & ns & pl & _ & _ & H).
  unfold routed in H. unfold is_write in Hw. apply negb_true_iff in Hw. rewrite Hw in H.
  rewrite !bool_decide_false in H by done. injection H as H _ _. apply untouched_objects.
  by rewrite <-H.
Qed.

Lemma fake_persisted w rq code body w' :
  fake_serves w rq (Replied code body) w' → rq_Method rq = "POST" ∨ rq_Method rq = "PUT" →
  success code = true →
  ∃ o, live w' (at_ (target rq)) = Some o ∧ carries {| raw := default [] (rq_Body rq) |} o.
Proof.
  intros Hs [Hm|Hm] Hc.
  - destruct (create_served _ _ _ _ Hs Hm) as [Hr|(o & ns & o0 & _ & Hraw & -> & Ho & _)];
      [by destruct (refuses_code _ _ _ _ Hr Hc)|].
    exists (object_of (materialize o0 ns (target rq).2)). split.
    { cbn -[target locate]. by rewrite Ho, lookup_insert_eq. }
    destruct (materialize_fields o0 ns (target rq).2) as (_ & m & Hmeta & _ & Hf).
    apply carries_groups. intros group Hg key v Hv.
    rewrite (object_group _ _ _ Hmeta Hg). unfold metadata in Hv. cbn [raw] in Hv.
    by rewrite (childMap_ne _ _ _ (Hf _ Hg)), Hraw.
  - destruct (update_served _ _ _ _ Hs Hm) as
      [Hr|(stored & m & upd & Hst & Hb & _ & Hupd & Ho & _)];
      [by destruct (refuses_code _ _ _ _ Hr Hc)|].
    eexists. split; [cbn -[target locate]; rewrite Ho, lookup_insert_eq; done|].
    destruct (stored_fields _ _ _ _ (w_sound w) Hst) as (m0 & Hm0 & _).
    destruct (updated_spec _ _ _ _ Hm0 Hupd) as (_ & _ & m1 & Hm1 & _ & Hf).
    destruct (refresh_fields (upd <| o_ResourceVersion := nextRV (w_server w) |>))
      as (_ & m2 & Hm2 & Hf2).
    apply carries_groups. intros group Hg key v Hv. rewrite (object_group _ _ _ Hm2 Hg).
    assert (field group m2 = field group m1) as Heq.
    { assert (group ≠ "uid" ∧ group ≠ "resourceVersion") as [? ?] by set_solver.
      rewrite Hf2 by done. cbn. by rewrite (childMap_metadata _ _ Hm1). }
    rewrite (childMap_ne _ _ _ Heq). apply (Hf _ Hg). rewrite Hb in Hv. exact Hv.
Qed.

Lemma fake_deleted w rq code body w' :
  fake_serves w rq (Replied code body) w' → rq_Method rq = "DELETE" → success code = true →
  live w' (at_ (target rq)) = None ∨
  ∃ o, live w' (at_ (target rq)) = Some o ∧ Terminating o = true.
Proof.
  intros Hs Hm Hc.
  destruct (delete_served _ _ _ _ Hs Hm) as [Hr|(stored & Hst & _ & _ & [Ho|(m & Ho)])];
    [by destruct (refuses_code _ _ _ _ Hr Hc)| |].
  - left. cbn -[target locate]. by rewrite Ho, lookup_delete_eq.
  - right. eexists. split; [cbn -[target locate]; rewrite Ho, lookup_insert_eq; done|].
    match goal with |- Terminating (object_of (refreshMetadataLocked ?x)) = _ =>
      destruct (refresh_fields x) as (_ & m2 & Hm2 & Hf2) end.
    destruct (clone_fields _ _ Hm2) as (_ & _ & _ & _ & _ & Hd).
    unfold Terminating. rewrite Hd, Hf2 by discriminate. cbn. rewrite childMap_put.
    by rewrite field_put.
Qed.

Lemma fake_read w rq r w' o :
  fake_serves w rq r w' → is_write rq = false → rq_Name rq ≠ "" → (do r).1 = inl (Some o) →
  (locate (target rq), raw o) ∈ w_past w'.
Proof.
  intros ([(_ & Hn & _)|(g & v & ns & pl & Ha)] & _ & Hcalm & H & Hpast) Hw Hname Hdo; [done|].
  unfold is_write in Hw. apply negb_false_iff, bool_decide_eq_true in Hw.
  destruct (handle_addressed _ _ _ _ _ _ _ _ Ha H) as [Hd|(_ & _ & _ & _ & _ & e & He & ->)].
  2: { exfalso. by eapply do_refusal, Hdo; eapply Hcalm. }
  unfold routed in Hd. rewrite Hw in Hd. cbn in Hd.
  apply handleGet_spec in Hd as (_ & _ & Hd); [|exact (snd_calm _ _ (w_sound w))].
  destruct Hd as [[_ ->]|(stored & n & Hst & -> & _)].
  { exfalso. by eapply do_refusal, Hdo. }
  apply do_writeObject in Hdo as ->. rewrite Hpast. apply elem_of_app. right.
  unfold target. rewrite Hw. cbn [rq_Method]. rewrite bool_decide_false by discriminate.
  rewrite (locate_addressed _ _ _ _ _ _ Ha).
  exact (proj1 (snd_live _ _ (w_sound w) _ _ Hst)).
Qed.

(** The fake server has the laws. *)
#[export] Instance fakeapi_laws : ClusterLaws.
Proof.
  constructor; cbn -[target locate is_write do].
  - intros w k o H. apply fmap_Some in H as (st & Hst & ->).
    exact (proj1 (snd_live _ _ (w_sound w) _ _ Hst)).
  - intros w w' k o [more ->] H. apply elem_of_app. by right.
  - intros w rq r w' k o (_ & _ & _ & _ & ->) H. apply elem_of_app. by right.
  - intros w c n o H. destruct (snd_past _ _ (w_sound w) _ _ H) as (Hp & Hu & v & Hv & _).
    destruct o as [d]. split_and!; [|done|].
    + destruct Hp as (ns & pl & Hns & Hpl & Hk). unfold locate in Hk. cbn [fst snd] in Hk.
      pose proof (segments_lack (TrimPrefix c "/apis/")) as Hl.
      destruct (segments (TrimPrefix c "/apis/")) as [|? [|? [|? [|ns' [|pl' [|]]]]]];
        try (by destruct (key_nonempty _ _ _ (eq_sym Hk))).
      rewrite !Forall_cons in Hl. destruct Hl as (_ & _ & _ & Hns' & Hpl' & _).
      exact (eq_sym (key_inj _ _ _ _ _ _ Hns' Hpl' Hns Hpl Hk)).
    + change (ResourceVersion {| raw := d |} ≠ ""). cbn [raw] in Hv. rewrite Hv.
      intros Hd. apply (f_equal (λ t, ParseUint t v)) in Hd.
      by rewrite ParseUint_FormatUint in Hd by (apply N.pow_gt_lin_r; lia).
  - intros w k [d] [d'] H H' Heq. f_equal. exact (snd_unique _ _ (w_sound w) _ _ _ H H' Heq).
  - intros w rq r w' (_ & _ & _ & _ & ->) _. by eexists.
  - intros w rq r w' o. apply fake_read.
  - intros w rq r w' k Hs Hw. by apply (fake_frame w rq r w').
  - intros w rq r w' Hs Hm.
    destruct (create_served _ _ _ _ Hs Hm) as [[Ho _]|(o & ns & o0 & Hn & _)];
      [left; by apply untouched_objects|by right].
  - intros w rq r w' Hs Hm Hrv.
    destruct (update_served _ _ _ _ Hs Hm) as [[Ho _]|(st & m & upd & Hst & _ & [?|Heq] & _)];
      [left; by apply untouched_objects|done|right].
    exists (object_of st). split; [by apply fmap_Some; eexists|].
    destruct (stored_fields _ _ _ _ (w_sound w) Hst) as (m0 & Hm0 & _).
    destruct (clone_fields _ _ Hm0) as (_ & _ & -> & _). done.
  - intros w rq r w' Hs Hm Huid.
    destruct (delete_served _ _ _ _ Hs Hm) as [[Ho _]|(st & Hst & [?|Heq] & _)];
      [left; by apply untouched_objects|done|right].
    exists (object_of st). split; [by apply fmap_Some; eexists|].
    destruct (stored_fields _ _ _ _ (w_sound w) Hst) as (m0 & Hm0 & _).
    destruct (clone_fields _ _ Hm0) as (_ & -> & _). done.
  - intros *. apply fake_refused.
  - intros *. apply fake_persisted.
  - intros *. apply fake_deleted.
Qed.

(** *** Running on it *)

(** Others may put an object of their own under any name. *)
Lemma Put_sound ns pl name m s h :
  lacks slash ns → lacks slash pl → sound s h →
  sound (Put ns pl name m s) (snapshot (Put ns pl name m s) ++ h).
Proof.
  intros Hns Hpl Hs. unfold Put.
  destruct (install_fields s ns pl name m) as (o0 & _ & Hv & Hu & Io & IR & Ic & Ia).
  apply (kept_sound s); [done|split_and!; [lia|done|by left]|].
  destruct (materialize_fields o0 ns name) as (_ & meta & Hm & Hname & _).
  eapply (fresh_insert _ _ _ _ _ meta Hs Io); [lia|done|done|by exists ns, pl; rewrite Hname|].
  cbn. by rewrite Hu.
Qed.

(** A kind that is retired takes its objects along. *)
Lemma RetireCRD_sound ns pl s h :
  sound s h → sound (RetireCRD ns pl s) (snapshot (RetireCRD ns pl s) ++ h).
Proof.
  intros Hs. apply (kept_sound s); [done|split_and!; [cbn; lia|done|by left]|]. eapply fresh_same; [done|].
  intros k o' Hk. by apply map_lookup_filter_Some in Hk as [? _].
Qed.

Fixpoint join (parts : list string) : string :=
  match parts with
  | [] => ""
  | [p] => p
  | p :: rest => p +:+ "/" +:+ join rest
  end.

Lemma segments_nonempty path : segments path ≠ [].
Proof. destruct path as [|ch path]; cbn; [done|]. by repeat case_match. Qed.

Lemma segments_join path : join (segments path) = path.
Proof.
  induction path as [|ch path IH]; [done|]. cbn [segments].
  destruct (bool_decide_reflect (ch = "/"%char)) as [->|].
  - destruct (segments path) as [|s l] eqn:Hs; [by apply segments_nonempty in Hs|].
    transitivity ("" +:+ "/" +:+ join (s :: l)); [done|]. by rewrite IH.
  - destruct (segments path) as [|s [|s' l]]; rewrite <-IH; done.
Qed.

(** The request is one for an object, or for discovery. *)
Definition adequate (rq : request) : bool :=
  match segments (rq_Path rq) with
  | [""; "apis"; _; _; "namespaces"; _; _] => bool_decide (segments (rq_Name rq) = [rq_Name rq])
  | [""; "apis"; _; _] => (rq_Method rq =? "GET") && (rq_Name rq =? "")
  | _ => false
  end.

Lemma adequate_spec rq :
  adequate rq = true → discovery rq ∨ ∃ g v ns pl, addressed rq g v ns pl.
Proof.
  unfold adequate. intros H. pose proof (segments_join (rq_Path rq)) as Hj.
  pose proof (segments_lack (rq_Path rq)) as Hl.
  repeat case_match; try done; simplify_eq; rewrite !Forall_cons in Hl.
  - left. apply andb_true_iff in H as [Hm%bool_decide_eq_true Hn%bool_decide_eq_true].
    split_and!; [done..|]. do 2 eexists. split_and!; [| |exact (eq_sym Hj)]; apply Hl.
  - right. apply bool_decide_eq_true in H. do 4 eexists. split; [|exact (eq_sym Hj)].
    split_and!; try apply Hl. pose proof (segments_lack (rq_Name rq)) as Hn.
    rewrite H in Hn. by apply Forall_cons in Hn as [? _].
Qed.

Definition reads_fail (s : Server) : bool :=
  match failures s with Some e => negb (success (api_Code e)) | None => true end.

(** One request of a computation, if it is one the server knows. *)
Definition ask (rq : request) (s : Server) : outcome (Server * httpReply) :=
  if adequate rq && reads_fail s then handle_request rq s else Panic "unknown request".

(** A computation alone with the server: its result and its replies. *)
Fixpoint simulate {V} (k : kube V) (s : Server) : outcome (V * list httpReply * Server) :=
  let note (r : httpReply) (result : outcome (V * list httpReply * Server)) :=
    '(v, replies, s') ← result; Ok (v, r :: replies, s') in
  match k with
  | Done v => Ok (v, [], s)
  | Get gvr ns n next =>
      sr ← ask (GetRequest gvr ns n) s; note sr.2 (simulate (next (do sr.2).1) sr.1)
  | Create gvr ns o next =>
      sr ← ask (CreateRequest gvr ns o) s; note sr.2 (simulate (next (do sr.2).1) sr.1)
  | Update gvr ns n o rv next =>
      sr ← ask (UpdateRequest gvr ns n o rv) s; note sr.2 (simulate (next (do sr.2).1) sr.1)
  | Delete gvr ns n uid next =>
      sr ← ask (DeleteRequest gvr ns n uid) s; note sr.2 (simulate (next (deleteReply sr.2)) sr.1)
  | ServedResource gvr next =>
      sr ← ask (ServedRequest gvr) s;
      note sr.2 (simulate (next (servedReply (gvr_Resource gvr) sr.2)) sr.1)
  end.

Lemma ask_exchanged w rq s' r :
  (rq_Method rq = "DELETE" → ∃ uid, rq_Body rq = Some (deleteOptions uid)) →
  ask rq (w_server w) = Ok (s', r) →
  ∃ e, exchanged w rq e ∧ xc_reply e = r ∧ w_server (xc_after e) = s'.
Proof.
  intros Hd H. unfold ask in H. destruct (_ && _) eqn:Hok; [|done].
  apply andb_true_iff in Hok as [Ha%adequate_spec Hf].
  pose proof (handle_sound _ _ _ _ _ (w_sound w) Ha H) as Hs.
  exists (@Build_exchange _ fakeapi w rq r {| w_server := s'; w_past := _; w_sound := Hs |}).
  split_and!; [|done..]. split_and!; [done..|]. split_and!; [done..| |done|done].
  intros e He. cbn in He. unfold reads_fail in Hf. rewrite He in Hf. by apply negb_true_iff in Hf.
Qed.

Lemma simulate_runs {V} (k : kube V) w v replies s' :
  simulate k (w_server w) = Ok (v, replies, s') →
  ∃ log, runs w k log v ∧ map xc_reply log = replies.
Proof.
  revert w replies s'.
  induction k as [v0|gvr ns n next IH|gvr ns o next IH|gvr ns n o rv next IH|gvr ns n uid next IH
    |gvr next IH]; intros w replies s' H; cbn in H.
  { injection H as <- <- <-. exists []. split; [constructor|done]. }
  all: apply bind_Ok in H as ([s1 r] & Hask & H); apply bind_Ok in H as ([[v' rs] s2] & Hn & H);
    injection H as <- <- <-;
    apply ask_exchanged in Hask as (e & He & <- & <-); [|try done; try by eexists];
    apply IH in Hn as (log & Hruns & <-);
    (exists (e :: log); split; [|done]); by econstructor.
Qed.
End laws.

End Fake.
