(* ===== verification/CrossplaneScenario.v ===== *)
(** * A concrete cluster

    The adapter with one binding against the fake server ([Fakeapi]): a resource
    is created, observed when its composite resource is ready, and deleted.  The
    theorems of [Cluster] are applied to these runs, and two behaviours of the
    code that its comments deny are shown. *)

From S2P Require Import Prelude Operation Values Resource Status Provisioning.
From S2P Require Import Text Encoding Kube Crossplane CrossplaneFacts CrossplaneCalls Cluster.
From S2P Require Import Fakeapi.
From Stdlib Require Import SpecFloat.
Open Scope string_scope.
Open Scope go_scope.
Open Scope list_scope.

(** ** Parameters *)

#[local] Instance sample_transport : Transport := {
  payload := document + APIError;
  payload_length _ := 1%N;
  payload_TrimSpace _ := "{}";
  unmarshalDocument body := match body with
    | inl d => inl d | inr _ => inr (Errorf "unexpected status" []) end;
  unmarshalStatus body := match body with
    | inr e => Some {| sb_Message := api_Message e; sb_Reason := api_Reason e;
                       sb_Code := api_Code e |}
    | inl _ => None
    end;
  StatusText _ := "status" }.

#[local] Instance sample_encoder : Fake.Encoder := {
  objectBody := inl;
  statusBody := inr;
  unmarshalDeleteOptions d := Some (textOf "uid" (childMap d "preconditions"));
  equalJSON _ _ := true }.

#[local] Instance sample_encoder_laws : Fake.EncoderLaws.
Proof.
  constructor; try done. intros uid. unfold deleteOptions. cbn.
  by destruct (bool_decide_reflect (uid = "")) as [->|].
Qed.

#[local] Existing Instance Fake.fakeapi.
#[local] Existing Instance Fake.fakeapi_laws.

#[local] Instance sample_digest : Digest := {
  sha256 _ := "0123456789abcdef0123456789abcdef";
  sha256_length _ := eq_refl }.

#[local] Instance sample_runtime : Runtime := {
  Number_Float64 _ := None;
  Decoder_Decode _ := Some (JObject [("storage", JString "20Gi")], false);
  unmarshalHandle _ := None;
  Parse_RFC3339 _ := Some 60%Z;
  platform_uint64 _ := 0%N }.

(** ** The composition *)

Definition sample_ref : ResourceTypeRef := {| ref_Name := "database"; ref_Version := "v1" |}.

Definition sample_binding : Binding :=
  {| b_ResourceType := sample_ref;
     b_Capabilities := [CapabilityCreate; CapabilityUpdate; CapabilityDelete];
     b_Target := {| gvk_Group := "example.org"; gvk_Version := "v1"; gvk_Kind := "XDatabase" |};
     b_Plural := "xdatabases"; b_Namespace := "liftr"; b_NamingVersion := NamingVersionV1;
     b_EncodeInput := Some (λ _, Ok "encoded"); b_Readiness := None;
     b_TerminalSyncedReasons := ["InvalidSpec"]; b_OutputMappings := [];
     b_CurrentOutputMappingRef := "" |}.

Definition sample_xp : XProvisioner :=
  match newProvisioner "platform" [sample_binding] with
  | Ok p => p
  | _ => {| xp_identity := ""; xp_bindings := [] |}
  end.

Lemma sample_composed : newProvisioner "platform" [sample_binding] = Ok sample_xp.
Proof. reflexivity. Qed.

Definition sample_resolved : resolvedBinding :=
  match resolveBinding sample_binding with
  | Ok b => b
  | _ => {| rb_binding := sample_binding; rb_gvr := {| gvr_Group := ""; gvr_Version := "";
            gvr_Resource := "" |}; rb_kind := ""; rb_namespace := ""; rb_readiness := [];
            rb_terminalReasons := []; rb_outputs := ∅ |}
  end.

Lemma sample_bound : lookupBinding (xp_bindings sample_xp) sample_ref = Some sample_resolved.
Proof. reflexivity. Qed.

Definition sample_execution (capability : Capability) : ExecutionRequest :=
  {| er_OperationID := "op-1"; er_AttemptNumber := 1%N; er_ResourceID := "r-1";
     er_ResourceType := sample_ref; er_Spec := {| spec_values := [] |}; er_Capability := capability;
     er_TargetGeneration := 1%N; er_OutputMappingRef := "" |}.

Definition sample_observation : ObservationRequest :=
  {| or_OperationID := "op-1"; or_AttemptNumber := 1%N; or_ResourceID := "r-1";
     or_ResourceType := sample_ref; or_Spec := {| spec_values := [] |}; or_Capability := CapabilityCreate;
     or_TargetGeneration := 1%N; or_Handle := None; or_OutputMappingRef := "";
     or_OutputSourceMappingRef := "" |}.

(** ** Two clusters: an empty one, and one with the composite resource *)

Definition empty_cluster : Fake.World :=
  {| Fake.w_server := Fake.New; Fake.w_past := []; Fake.w_sound := Fake.sound_New |}.

Definition sample_name : string := targetName sample_xp sample_resolved "r-1".

Definition sample_manifest : document :=
  match buildExecutionManifest sample_xp sample_resolved (sample_execution CapabilityCreate) with
  | Ok o => raw o
  | _ => []
  end.

(** A condition of the current generation. *)
Definition condition (type_ status reason : string) : value :=
  VMap [("type", VString type_); ("status", VString status); ("reason", VString reason);
        ("observedGeneration", VFloat64 Fake.one)].

Definition composite (ready : value) : document :=
  put_field "status" (VMap [("conditions", VList [ready; condition "Synced" "True" ""])])
    sample_manifest.

Lemma composed_sound ready :
  let s := Fake.Put "liftr" "xdatabases" sample_name (composite ready) Fake.New in
  Fake.sound s (Fake.snapshot s ++ []).
Proof. apply Fake.Put_sound; [by repeat split..|apply Fake.sound_New]. Qed.

Definition composed_cluster (ready : value) : Fake.World :=
  {| Fake.w_server := Fake.Put "liftr" "xdatabases" sample_name (composite ready) Fake.New;
     Fake.w_past := _; Fake.w_sound := composed_sound ready |}.

(** The server serves the kind. *)
Definition ready_cluster : Fake.World := composed_cluster (condition "Ready" "True" "").

(** ** Runs *)

(** The answer of a computation alone with a cluster. *)
Definition driven {V} (k : kube V) (w : Fake.World) : option V :=
  match Fake.simulate k (Fake.w_server w) with Ok (v, _, _) => Some v | _ => None end.

Lemma driven_runs {V} (k : kube V) (w : Fake.World) v :
  driven k w = Some v → ∃ log, runs w k log v ∧ Forall fits log.
Proof.
  unfold driven. destruct (Fake.simulate k _) as [[[v' replies] s']| |] eqn:H; try done.
  intros [= ->]. destruct (Fake.simulate_runs _ _ _ _ _ H) as (log & Hruns & _).
  exists log. split; [done|]. apply Forall_forall. intros e _. unfold fits.
  by destruct (xc_reply e).
Qed.

Definition state_of (result : outcome (Submission * option error)) : string :=
  match result with Ok (s, None) => submission_state s | _ => "" end.

Example create_accepted :
  state_of <$> driven (XSubmit sample_xp (sample_execution CapabilityCreate)) empty_cluster =
  Some ExecutionStateAccepted.
Proof. vm_compute. reflexivity. Qed.

Example update_accepted :
  state_of <$> driven (XSubmit sample_xp (sample_execution CapabilityUpdate)) ready_cluster =
  Some ExecutionStateAccepted.
Proof. vm_compute. reflexivity. Qed.

Example delete_accepted :
  state_of <$> driven (XSubmit sample_xp (sample_execution CapabilityDelete)) ready_cluster =
  Some ExecutionStateAccepted.
Proof. vm_compute. reflexivity. Qed.

(** The runs of the theorems. *)
Definition created : outcome (Submission * option error) :=
  default (Panic "") (driven (XSubmit sample_xp (sample_execution CapabilityCreate)) empty_cluster).
Definition deletion : outcome (Submission * option error) :=
  default (Panic "") (driven (XSubmit sample_xp (sample_execution CapabilityDelete)) ready_cluster).
Definition observed_result (ready : value) : observation_result :=
  default (Panic "") (driven (XObserve sample_xp sample_observation) (composed_cluster ready)).

Lemma created_runs : ∃ log,
  runs empty_cluster
    (XSubmit sample_xp (sample_execution CapabilityCreate)) log created ∧ Forall fits log.
Proof. apply driven_runs. vm_compute. reflexivity. Qed.

Lemma deletion_runs : ∃ log,
  runs ready_cluster
    (XSubmit sample_xp (sample_execution CapabilityDelete)) log deletion ∧ Forall fits log.
Proof. apply driven_runs. vm_compute. reflexivity. Qed.

Lemma observed_runs : ∃ log,
  runs ready_cluster (XObserve sample_xp sample_observation) log
    (observed_result (condition "Ready" "True" "")) ∧ Forall fits log.
Proof. apply driven_runs. vm_compute. reflexivity. Qed.

Lemma submit_spares_others_witness : ∃ log,
  runs ready_cluster
    (XSubmit sample_xp (sample_execution CapabilityDelete)) log deletion ∧
  Forall (spares (target_of sample_xp sample_resolved (sample_execution CapabilityDelete)).1
            (target_of sample_xp sample_resolved (sample_execution CapabilityDelete)).2
            (owner_of sample_xp (sample_execution CapabilityDelete))) log.
Proof.
  destruct deletion_runs as (log & Hruns & _). exists log.
  refine (conj Hruns _).
  exact (submit_spares_others "platform" [sample_binding] sample_xp
    (sample_execution CapabilityDelete) sample_resolved ready_cluster log deletion
    sample_composed sample_bound eq_refl Hruns).
Defined.


Lemma observed_ready : reports ExecutionStateSucceeded (observed_result (condition "Ready" "True" "")).
Proof. do 3 eexists. split_and!; vm_compute; reflexivity. Qed.


Lemma calls_bounded_witness : ∃ log,
  runs ready_cluster
    (XSubmit sample_xp (sample_execution CapabilityDelete)) log deletion ∧ (length log ≤ 9)%nat.
Proof.
  destruct deletion_runs as (log & Hruns & _). exists log. refine (conj Hruns _).
  exact (proj1 (calls_bounded sample_xp ready_cluster log) _ _ Hruns).
Defined.

(** ** An object of someone else

    Under the resource's name: nothing is written, and the conflict reported. *)
Lemma foreign_sound :
  let s := Fake.Put "liftr" "xdatabases" sample_name [] Fake.New in
  Fake.sound s (Fake.snapshot s ++ []).
Proof. apply Fake.Put_sound; [by repeat split..|apply Fake.sound_New]. Qed.

Definition foreign_cluster : Fake.World :=
  {| Fake.w_server := Fake.Put "liftr" "xdatabases" sample_name [] Fake.New;
     Fake.w_past := _; Fake.w_sound := foreign_sound |}.

Example foreign_refused :
  driven (XSubmit sample_xp (sample_execution CapabilityCreate)) foreign_cluster =
  Some (Ok (foreignTarget, None)).
Proof. vm_compute. reflexivity. Qed.

(** ** Two behaviours that comments deny *)

(** [evaluateObject] says that readiness is ready only when every required
    condition is true.  A required condition that is false, for a reason that is
    not terminal, is overwritten after the loop: the operation succeeds. *)
Example false_condition_succeeds :
  match observed_result (condition "Ready" "False" "Creating") with
  | Ok (o, None) => (ex_State <$> eo_Execution o, Readiness (eo_Resource o))
  | _ => (None, "")
  end = (Some ExecutionStateSucceeded, ResourceReadinessReady).
Proof. vm_compute. reflexivity. Qed.

(** A reply over the adapter's bound is a structured failure with the code of a
    success, which [Submit] takes for a rejection, though the write was made. *)
Lemma oversized_success_rejected {transport : Transport} {cluster : Cluster} code body :
  success code = true → (maxResponseBytes < payload_length body)%N →
  ∃ err, (do (Replied code body)).1 = inr err ∧ isTransportUncertain err = false ∧
    IsAlreadyExists err = false ∧ IsConflict err = false ∧
    classifyAPIError err = {| fp_kind := FailureUnknown; fp_reason := "ControlPlaneRejected" |}.
Proof.
  intros Hc Hl. eexists. split; [cbn; by rewrite (proj2 (N.ltb_lt _ _) Hl)|].
  unfold success in Hc. apply andb_true_iff in Hc as [H1%Z.leb_le H2%Z.ltb_lt].
  unfold isTransportUncertain, classifyAPIError, IsAPIError, IsUnavailable, IsAlreadyExists,
    IsConflict, IsForbidden, IsInvalid, IsNotFound, is_api. cbn [apiErrorOf non_nil api_Code api_Reason].
  assert (∀ z : Z, (z < 200 ∨ 300 ≤ z)%Z → (code =? z) = false) as Hne
    by (intros z Hz; apply bool_decide_eq_false; lia).
  rewrite !Hne by lia. rewrite (proj2 (Z.leb_gt 500 code)) by lia. done.
Qed.
