(* ===== verification/Pulumi.v ===== *)
(** * The Pulumi adapter

    Models [config.go], [names.go] and [provisioner.go] of
    [src/internal/provisioning/pulumi]: the programs the adapter runs and the
    checks of its configuration, the environment of a program, the names and the
    message by which an execution is found again, and what a record of the
    history says of one.  The files and the environment of the host are
    arguments.  [PulumiOutputs] has the envelope of the outputs, [PulumiCalls]
    the calls. *)

From S2P Require Import Prelude Operation Values Resource Status Provisioning.
From S2P Require Import Text Encoding Strconv Kube Crossplane.
Open Scope string_scope.
Open Scope go_scope.
Open Scope list_scope.

(** What the adapter uses of the Pulumi SDK, and of the standard library's
    [strconv.Unquote], [time.Parse] with [time.RFC3339] and [url.Parse]. *)
Record URL := {
  url_Scheme : string;
  url_Host : string;
  url_Path : string;
  url_User : bool;
  url_RawQuery : string;
  url_Fragment : string }.

Class Sdk := {
  FullyQualifiedStackName : string → string → string → string;
  Unquote : string → option string;
  time_Parse : string → option Time;
  url_Parse : string → option URL }.

(** ** Configuration *)

Definition StackNamingVersionV1 : string := "v1".
Definition inputEnvironment : string := "LIFTR_INPUT_FILE".

Record ProgramMapping := {
  pm_Ref : string;
  pm_ExportName : string;
  pm_CompatibleSourceMappingRef : string }.

Record Program := {
  prog_ResourceType : ResourceTypeRef;
  prog_Capabilities : list Capability;
  prog_ProjectName : string;
  prog_SourceDir : string;
  prog_SourceDigest : string;
  prog_EncodeInput : option (Input → outcome string);
  prog_RequiredEnvironment : list string;
  prog_SecretInputsUnsupported : bool;
  prog_OutputMappings : list ProgramMapping;
  prog_CurrentOutputMappingRef : string }.

(** [Config]; [pc_Environment] tells whether there is a provider. *)
Record PulumiConfig := {
  pc_Identity : string;
  pc_StackNamingVersion : string;
  pc_PulumiRoot : string;
  pc_GoExecutable : string;
  pc_BackendURL : string;
  pc_StackNamespace : string;
  pc_WorkspaceRoot : string;
  pc_Programs : list Program;
  pc_Environment : bool;
  pc_HistoryPageSize : Z;
  pc_HistoryMaximumPages : Z;
  pc_StaleWorkspaceAge : Z }.

(** *** Sources *)

Inductive entryKind := RegularFile | Directory | OtherFile.
#[export] Instance entryKind_eq_dec : EqDecision entryKind.
Proof. solve_decision. Defined.

(** An entry of a source tree, without the root; [se_contents] is [None] if the
    file cannot be read. *)
Record sourceEntry := {
  se_relative : string;
  se_kind : entryKind;
  se_permissions : N;
  se_contents : option string }.

(** [filepath.Base], of a path without a trailing separator. *)
Fixpoint path_base (path : string) : string :=
  match path with
  | "" => ""
  | String c rest => if existsb (λ d, d =? "/"%char) (letters path)
                     then path_base rest else path
  end.

Definition forbiddenSourcePath (relative : string) : bool :=
  let base := path_base relative in
  (relative =? ".git") || String.prefix ".git/" relative ||
  (relative =? ".pulumi") || String.prefix ".pulumi/" relative ||
  (String.prefix "Pulumi." base && (base <>? "Pulumi.yaml") && (base <>? "Pulumi.yml") &&
   (base <>? "Pulumi.json")).

(** [FileMode.String] of the owner's permission bits. *)
Definition ownerMode (permissions : N) : string :=
  (if N.testbit permissions 8 then "-r" else "--") +:+
  (if N.testbit permissions 7 then "w" else "-") +:+
  (if N.testbit permissions 6 then "x" else "-") +:+ "------".

(** What the walk writes into the hash, entry by entry in lexical order. *)
Fixpoint sourceText (entries : list sourceEntry) : outcome string :=
  match entries with
  | [] => Ok ""
  | e :: rest =>
      fail_if se_kind e =? OtherFile
        with Errorf "source contains unsupported file type" [] ;;
      fail_if forbiddenSourcePath (se_relative e)
        with Errorf "source contains mutable Pulumi workspace data" [] ;;
      fail_if (se_kind e =? RegularFile) && negb (non_nil (se_contents e) (λ _, true))
        with Errorf "read" [ArgS (se_relative e)] ;;
      let contents := if se_kind e =? RegularFile then default "" (se_contents e) else "" in
      text ← sourceText rest;
      Ok (se_relative e +:+ NUL +:+ ownerMode (se_permissions e) +:+ NUL +:+ contents +:+
          NUL +:+ text)
  end.

Definition SourceDigest {digest : Digest} (walk : outcome (list sourceEntry)) : outcome string :=
  entries ← walk;
  text ← sourceText entries;
  Ok (hex (sha256 text)).

(** *** Output mappings *)

(** The loop of [validateOutputMappings] over the mappings, with the references
    and the compatible sources already seen. *)
Fixpoint checkMappings (refs sources : list string) (mappings : list ProgramMapping)
    : outcome (list string) :=
  match mappings with
  | [] => Ok refs
  | mapping :: rest =>
      fail_if blank (pm_Ref mapping) || blank (pm_ExportName mapping)
        with Errorf "pulumi output mapping identity and export name are required" [] ;;
      fail_if bool_decide (pm_Ref mapping ∈ refs)
        with Errorf "pulumi output mapping identity is duplicated" [] ;;
      let source := pm_CompatibleSourceMappingRef mapping in
      if source =? "" then checkMappings (pm_Ref mapping :: refs) sources rest else
      fail_if blank source || (source =? pm_Ref mapping)
        with Errorf "compatible Pulumi output source mapping identity is invalid" [] ;;
      fail_if bool_decide (source ∈ sources)
        with Errorf "compatible Pulumi output source mapping identity is duplicated" [] ;;
      checkMappings (pm_Ref mapping :: refs) (source :: sources) rest
  end.

Definition validateProgramMappings (program : Program) : outcome unit :=
  let current := TrimSpace (prog_CurrentOutputMappingRef program) in
  if bool_decide (prog_OutputMappings program = []) then
    fail_if current <>? "" with Errorf "current Pulumi output mapping is not registered" [] ;;
    Ok tt
  else
    fail_if current =? "" with Errorf "current Pulumi output mapping identity is required" [] ;;
    refs ← checkMappings [] [] (prog_OutputMappings program);
    fail_if negb (bool_decide (prog_CurrentOutputMappingRef program ∈ refs))
      with Errorf "current Pulumi output mapping is not registered" [] ;;
    Ok tt.

(** *** Environment names *)

Definition reservedEnvironmentNames : list string :=
  ["PULUMI_BACKEND_URL"; "PULUMI_CONFIG_PASSPHRASE"; "PULUMI_CONFIG_PASSPHRASE_FILE";
   "PULUMI_DISABLE_AUTOMATIC_PLUGIN_ACQUISITION"; "PULUMI_DISABLE_REGISTRY_RESOLVE";
   "PULUMI_DIY_BACKEND_IGNORE_DEPRECATION_ERROR"; "PULUMI_DIY_BACKEND_NO_LEGACY_WARNING";
   "PULUMI_IGNORE_AMBIENT_PLUGINS"; "PULUMI_SKIP_UPDATE_CHECK";
   "PULUMI_AUTOMATION_API_SKIP_VERSION_CHECK"; inputEnvironment; "PATH"; "HOME"].

(** The loop, with the names already seen. *)
Fixpoint validateRequiredEnvironment (seen names : list string) : outcome unit :=
  match names with
  | [] => Ok tt
  | name :: rest =>
      fail_if blank name
        with Errorf "required environment variable names must not be empty" [] ;;
      fail_if bool_decide (name ∈ reservedEnvironmentNames)
        with Errorf "required environment variable %q is reserved" [ArgS name] ;;
      fail_if bool_decide (name ∈ seen)
        with Errorf "required environment variable %q is duplicated" [ArgS name] ;;
      validateRequiredEnvironment (name :: seen) rest
  end.

(** *** Validation *)

Record projectFile := {
  pf_Name : string;
  pf_Runtime : string;
  pf_Backend : bool;
  pf_binary : option string }.

(** What the checks see of the host: [os.Stat] says that a path is an executable
    regular file, [os.Lstat] that it is a real directory, the SDK's
    [LoadProject] what a project file holds, [filepath.WalkDir] a source
    tree. *)
Record Host := {
  host_executable : string → bool;
  host_directory : string → bool;
  host_LoadProject : string → option projectFile;
  host_walk : string → outcome (list sourceEntry) }.

(** [filepath.IsAbs]. *)
Definition IsAbs (path : string) : bool := String.prefix "/" path.

Fixpoint segments (current : string) (path : string) : list string :=
  match path with
  | "" => [current]
  | String c rest =>
      if c =? "/"%char then current :: segments "" rest
      else segments (current +:+ String c "") rest
  end.

(** The segments of a relative path that [filepath.Clean] keeps, the last first. *)
Definition cleaned (path : string) : list string :=
  foldl (λ kept segment,
    if bool_decide (segment ∈ [""; "."]) then kept
    else if segment =? ".." then
      match kept with
      | last :: kept' => if last =? ".." then segment :: kept else kept'
      | [] => [segment]
      end
    else segment :: kept) [] (segments "" path).

(** The cleaned path starts with [../]. *)
Definition escapes (path : string) : bool :=
  match rev (cleaned path) with
  | first :: _ :: _ => first =? ".."
  | _ => false
  end.

Definition validBackend {sdk : Sdk} (text : string) : bool :=
  non_nil (url_Parse text) (λ u,
    (url_Scheme u =? "file") && (url_Host u =? "") && IsAbs (url_Path u) &&
    negb (url_User u) && (url_RawQuery u =? "") && (url_Fragment u =? "")).

(** The project file is that of a prebuilt Go program in the source. *)
Definition programBinary (program : Program) (project : option projectFile) : outcome string :=
  fail_if negb (non_nil project (λ p,
      (pf_Name p =? prog_ProjectName program) && (pf_Runtime p =? "go") && negb (pf_Backend p)))
    with Errorf
      "v0.1 requires a matching Go Pulumi project without a source-defined backend" [] ;;
  match project ≫= pf_binary with
  | Some binary =>
      fail_if (binary =? "") || IsAbs binary || escapes binary
        with Errorf "v0.1 requires a source-relative prebuilt Go program" [] ;;
      Ok binary
  | None => Err (Errorf "v0.1 requires a source-relative prebuilt Go program" [])
  end.

(** The loop over the capabilities, with those already seen. *)
Fixpoint checkProgramCapabilities (seen capabilities : list Capability) : outcome unit :=
  match capabilities with
  | [] => Ok tt
  | capability :: rest =>
      fail_if (capability <>? CapabilityCreate) && (capability <>? CapabilityUpdate) &&
              (capability <>? CapabilityDelete)
        with Errorf "unsupported Pulumi program capability" [] ;;
      fail_if bool_decide (capability ∈ seen)
        with Errorf "pulumi program capability is duplicated" [] ;;
      checkProgramCapabilities (capability :: seen) rest
  end.

Fixpoint lookupProgram (programs : list (ResourceTypeRef * Program)) (ref : ResourceTypeRef)
    : option Program :=
  match programs with
  | [] => None
  | (r, program) :: rest => if r =? ref then Some program else lookupProgram rest ref
  end.

Section validation.
Context {digest : Digest} {sdk : Sdk} (host : Host).

Definition checkProgram (program : Program) : outcome unit :=
  let ref := prog_ResourceType program in
  let dir := prog_SourceDir program in
  fail_if blank (ref_Name ref) || blank (ref_Version ref) || blank (prog_ProjectName program) ||
          negb (IsAbs dir) || negb (non_nil (prog_EncodeInput program) (λ _, true))
    with Errorf "pulumi program registration is incomplete" [] ;;
  fail_if negb (prog_SecretInputsUnsupported program)
    with Errorf "v0.1 programs must reject secret-bearing input" [] ;;
  fail_if negb (host_directory host dir)
    with Errorf "pulumi source must be a real directory" [] ;;
  binary ← programBinary program (host_LoadProject host (dir +:+ "/Pulumi.yaml"));
  fail_if negb (host_executable host (dir +:+ "/" +:+ binary))
    with Errorf "prebuilt Go program is unavailable or not executable" [] ;;
  match SourceDigest (host_walk host dir) with
  | Err e => Err (Wrapf e "validate Pulumi source: %w" [])
  | Panic p => Panic p
  | Ok computed =>
      fail_if negb (EqualFold (prog_SourceDigest program) computed)
        with Errorf "pulumi source digest does not match its registration" [] ;;
      fail_if bool_decide (prog_Capabilities program = [])
        with Errorf "pulumi program capabilities are required" [] ;;
      _ ← validateRequiredEnvironment [] (prog_RequiredEnvironment program);
      _ ← validateProgramMappings program;
      checkProgramCapabilities [] (prog_Capabilities program)
  end.

(** The loop over the programs, with those already registered. *)
Fixpoint registerPrograms (registered : list (ResourceTypeRef * Program))
    (programs : list Program) : outcome (list (ResourceTypeRef * Program)) :=
  match programs with
  | [] => Ok registered
  | program :: rest =>
      _ ← checkProgram program;
      fail_if non_nil (lookupProgram registered (prog_ResourceType program)) (λ _, true)
        with Errorf "duplicate Pulumi program registration for resource type %s/%s"
               (ref_text (prog_ResourceType program)) ;;
      registerPrograms (registered ++ [(prog_ResourceType program, program)]) rest
  end.

Definition PulumiConfig_validate (c : PulumiConfig)
    : outcome (list (ResourceTypeRef * Program)) :=
  fail_if blank (pc_Identity c) || blank (pc_StackNamespace c)
    with Errorf "configuration identity and stack namespace are required" [] ;;
  fail_if blank (pc_StackNamingVersion c)
    with Errorf "stack naming version is required" [] ;;
  fail_if pc_StackNamingVersion c <>? StackNamingVersionV1
    with Errorf "unsupported stack naming version %q" [ArgS (pc_StackNamingVersion c)] ;;
  fail_if negb (IsAbs (pc_PulumiRoot c)) || negb (IsAbs (pc_GoExecutable c)) ||
          negb (IsAbs (pc_WorkspaceRoot c))
    with Errorf "pulumi, Go, and workspace paths must be absolute" [] ;;
  fail_if negb (host_executable host (pc_GoExecutable c))
    with Errorf "preinstalled Go runtime is unavailable or not executable" [] ;;
  fail_if negb (validBackend (pc_BackendURL c))
    with Errorf "v0.1 requires a private file backend URL" [] ;;
  fail_if Z.leb (pc_HistoryPageSize c) 0 || Z.leb (pc_HistoryMaximumPages c) 0
    with Errorf "positive history scan bounds are required" [] ;;
  fail_if Z.leb (pc_StaleWorkspaceAge c) 0
    with Errorf "positive stale workspace age is required" [] ;;
  fail_if bool_decide (pc_Programs c = [])
    with Errorf "at least one Pulumi program is required" [] ;;
  registerPrograms [] (pc_Programs c).
End validation.

(** ** The provisioner *)

Record PProvisioner := {
  pp_config : PulumiConfig;
  pp_programs : list (ResourceTypeRef * Program) }.

(** [newProvisioner], with a factory. *)
Definition newPulumi {digest : Digest} {sdk : Sdk} (host : Host) (config : PulumiConfig)
    : outcome PProvisioner :=
  programs ← PulumiConfig_validate host config;
  Ok {| pp_config := config; pp_programs := programs |}.

Definition programSupports (capabilities : list Capability) (capability : Capability) : bool :=
  bool_decide (capability ∈ capabilities).

(** [Capabilities]; [sortCapabilities] compares the same key as [Crossplane]'s. *)
Definition PCapabilities (p : PProvisioner) : list (ResourceTypeRef * Capability) :=
  sort_by capabilityKey string_le
    (concat (map (λ rp, map (pair rp.1) (prog_Capabilities rp.2)) (pp_programs p))).

Definition POutputMappingRef (p : PProvisioner) (resourceType : ResourceTypeRef)
    (capability : Capability) : string :=
  match lookupProgram (pp_programs p) resourceType with
  | Some program =>
      if (capability =? CapabilityDelete) ||
         negb (programSupports (prog_Capabilities program) capability) then ""
      else prog_CurrentOutputMappingRef program
  | None => ""
  end.

Definition PSelectOutputRecoveryMapping (p : PProvisioner) (resourceType : ResourceTypeRef)
    (capability : Capability) (sourceMappingRef : string) : option string :=
  match lookupProgram (pp_programs p) resourceType with
  | Some program =>
      if (sourceMappingRef =? "") || (capability =? CapabilityDelete) ||
         negb (programSupports (prog_Capabilities program) capability) then None
      else pm_Ref <$> find (λ m, (pm_Ref m <>? sourceMappingRef) &&
                                 (pm_CompatibleSourceMappingRef m =? sourceMappingRef))
                        (prog_OutputMappings program)
  | None => None
  end.

Definition programMapping (program : Program) (ref : string) : option ProgramMapping :=
  find (λ m, pm_Ref m =? ref) (prog_OutputMappings program).

(** ** The environment of an execution *)

Definition passphraseNames : list string :=
  ["PULUMI_CONFIG_PASSPHRASE"; "PULUMI_CONFIG_PASSPHRASE_FILE"].

Inductive environmentError := MissingRequiredEnvironment | EnvironmentError (e : error).

(** [resolveProgramEnvironment], with what the provider answered. *)
Definition resolveProgramEnvironment (provided : option (gmap string string + error))
    (required : list string) : gmap string string + environmentError :=
  match provided with
  | Some (inr e) => inr (EnvironmentError e)
  | _ =>
      let values := match provided with Some (inl values) => values | _ => ∅ end in
      let supplied := filter (λ kv, blank kv.2 = false) values in
      if existsb (λ kv, negb (bool_decide (kv.1 ∈ passphraseNames ++ required)))
           (map_to_list supplied)
      then inr (EnvironmentError
             (Errorf "execution environment contains an undeclared variable" []))
      else if existsb (λ name, bool_decide (supplied !! name = None)) required
      then inr MissingRequiredEnvironment
      else inl supplied
  end.

(** [environment]: the adapter's own settings are written before and after. *)
Definition adapterEnvironment (c : PulumiConfig) (inputPath : string)
    (supplied : gmap string string) : gmap string string :=
  let base := <["PULUMI_BACKEND_URL" := pc_BackendURL c]>
    (<["PULUMI_DISABLE_AUTOMATIC_PLUGIN_ACQUISITION" := "true"]>
    (<["PULUMI_DISABLE_REGISTRY_RESOLVE" := "true"]>
    (<["PULUMI_IGNORE_AMBIENT_PLUGINS" := "true"]>
    (<["PULUMI_SKIP_UPDATE_CHECK" := "true"]> {[inputEnvironment := inputPath]})))) in
  <[inputEnvironment := inputPath]>
  (<["PULUMI_SKIP_UPDATE_CHECK" := "true"]>
  (<["PULUMI_IGNORE_AMBIENT_PLUGINS" := "true"]>
  (<["PULUMI_DIY_BACKEND_NO_LEGACY_WARNING" := "true"]>
  (<["PULUMI_DIY_BACKEND_IGNORE_DEPRECATION_ERROR" := "true"]>
  (<["PULUMI_DISABLE_REGISTRY_RESOLVE" := "true"]>
  (<["PULUMI_DISABLE_AUTOMATIC_PLUGIN_ACQUISITION" := "true"]>
  (<["PULUMI_BACKEND_URL" := pc_BackendURL c]>
  (<["PULUMI_AUTOMATION_API_SKIP_VERSION_CHECK" := "false"]> (supplied ∪ base))))))))).

(** ** Names *)

Section names.
Context {digest : Digest} {sdk : Sdk}.

Definition stackNameV1 (identity stackNamespace project : string) (resourceID : ResourceID)
    : string :=
  let namespace := sha256 (identity +:+ NUL +:+ stackNamespace) in
  let resource := sha256 resourceID in
  FullyQualifiedStackName "organization" project
    ("liftr-" +:+ hex (String.substring 0 6 namespace) +:+ "-" +:+
     hex (String.substring 0 20 resource)).

Definition stackName (p : PProvisioner) (project : string) (resourceID : ResourceID)
    : outcome string :=
  if pc_StackNamingVersion (pp_config p) =? StackNamingVersionV1
  then Ok (stackNameV1 (pc_Identity (pp_config p)) (pc_StackNamespace (pp_config p)) project
             resourceID)
  else Panic "unreachable: stack naming version is validated before execution".

(** [handle]; the token is never blank. *)
Definition pulumiHandle (p : PProvisioner) (operationID : OperationID) (attempt : uint64)
    (resourceID : ResourceID) : ExecutionHandle :=
  {| handle_token := "lp1." +:+ RawURL_EncodeToString (bytes_of (sha256
       ("lp1" +:+ NUL +:+ pc_Identity (pp_config p) +:+ NUL +:+ operationID +:+ NUL +:+
        FormatUint attempt +:+ NUL +:+ resourceID))) |}.

Definition InfraName (identity namespace : string) (ref : ResourceTypeRef) (id : ResourceID)
    : string :=
  "liftr-" +:+ String.substring 0 20 (hex (sha256
    (String.concat NUL [identity; namespace; ref_Name ref; ref_Version ref; id]))).
End names.

Definition correlationMessage (operationID : OperationID) (attempt : uint64) : string :=
  "liftr/v1/" +:+ RawURL_EncodeToString (bytes_of operationID) +:+ "/" +:+ FormatUint attempt.

Definition expectedHistoryKind (capability : Capability) : string :=
  if capability =? CapabilityDelete then "destroy" else "update".

(** ** What a record of the history says *)

Record updateSummary := {
  us_kind : string;
  us_message : string;
  us_result : string;
  us_startTime : string;
  us_endTime : option string }.

Definition unknownResource : ObservedFacts :=
  {| Presence := ResourcePresenceUnknown; Readiness := ResourceReadinessUnknown;
     Drift := ResourceDriftUnknown |}.
Definition destroyedResource : ObservedFacts :=
  {| Presence := ResourcePresenceNotFound; Readiness := ResourceReadinessUnknown;
     Drift := ResourceDriftUnknown |}.

Definition summaryTime {sdk : Sdk} (value : option string) : Time :=
  default time_zero (value ≫= time_Parse).

(** The state and the failure of an execution, by the result of its record. *)
Definition summaryState (summary : updateSummary) : string * option ExecutionFailure :=
  let unknown := (ExecutionStateUnknown,
    Some {| ef_Kind := FailureUnknown; ef_Reason := "ExecutionResultUnknown";
            ef_Message := "provisioning execution result is unknown" |}) in
  let result := us_result summary in
  if result =? "succeeded" then (ExecutionStateSucceeded, None)
  else if result =? "failed" then
    (ExecutionStateFailed,
     Some {| ef_Kind := FailureExecution; ef_Reason := "ProgramExecutionFailed";
             ef_Message := "provisioning program execution failed" |})
  else if result =? "in-progress" then (ExecutionStateRunning, None)
  else if result =? "" then
    match us_endTime summary with
    | None => (ExecutionStateRunning, None)
    | Some _ => unknown
    end
  else unknown.

Definition observationFromSummary {sdk : Sdk} (summary : updateSummary)
    (expectedKind message : string) (handle : ExecutionHandle) : ExecutionObservation :=
  let observation := {| eo_Correlation := RequestCorrelationFound; eo_Execution := None;
    eo_Resource := unknownResource; eo_ObservedAt := summaryTime (us_endTime summary);
    eo_Outputs := None |} in
  if (us_message summary <>? message) || (us_kind summary <>? expectedKind)
  then observation <| eo_Correlation := RequestCorrelationUnknown |>
  else
    let (state, failure) := summaryState summary in
    let observation := observation <| eo_Execution :=
      Some {| ex_State := state; ex_Handle := Some handle; ex_Failure := failure |} |> in
    if (us_result summary =? "succeeded") && (expectedKind =? "destroy")
    then observation <| eo_Resource := destroyedResource |> else observation.

(** ** Properties *)

(** A message names one attempt of one operation. *)
Lemma b64_char_not_slash n : (n < 64)%N → b64_char n ≠ "/"%char.
Proof.
  intros Hn Hc. assert (negb (N.eqb (N_of_ascii (b64_char n)) 47) = true) as H.
  - revert Hn. apply (sextets (λ n, negb (N.eqb (N_of_ascii (b64_char n)) 47))).
    vm_compute. reflexivity.
  - by rewrite Hc in H.
Qed.

Lemma RawURL_lacks_slash bytes :
  Forall (λ b, b < 256)%N bytes → lacks "/" (RawURL_EncodeToString bytes).
Proof.
  intros Hb%b64_encode_bounded. unfold RawURL_EncodeToString.
  induction Hb as [|x l Hx _ IH]; cbn; [done|]. split; [|done].
  by apply b64_char_not_slash.
Qed.

Lemma correlationMessage_inj op op' attempt attempt' :
  correlationMessage op attempt = correlationMessage op' attempt' →
  op = op' ∧ attempt = attempt'.
Proof.
  unfold correlationMessage. intros H. apply app_length_inj in H as [_ H]; [|done].
  apply split_first in H as [Hop Ha]; [|apply RawURL_lacks_slash, bytes_of_bounded..].
  split; [|by apply (inj decimal)].
  apply (f_equal RawURL_DecodeString) in Hop.
  rewrite !RawURL_roundtrip in Hop by apply bytes_of_bounded. injection Hop as Hop.
  by apply bytes_of_inj.
Qed.

(** Nothing a platform supplies overrides what the adapter sets, and a program
    gets nothing that it did not declare. *)
Lemma adapterEnvironment_lookup c inputPath supplied name :
  adapterEnvironment c inputPath supplied !! name =
  if bool_decide (name = inputEnvironment) then Some inputPath
  else if bool_decide (name = "PULUMI_BACKEND_URL") then Some (pc_BackendURL c)
  else if bool_decide (name = "PULUMI_AUTOMATION_API_SKIP_VERSION_CHECK") then Some "false"
  else if bool_decide (name ∈ reservedEnvironmentNames ∧
            name ∉ passphraseNames ++ ["PATH"; "HOME"]) then Some "true"
  else supplied !! name.
Proof.
  unfold adapterEnvironment.
  repeat (rewrite lookup_insert; case_decide; [subst; reflexivity|]).
  rewrite !bool_decide_false by set_solver. rewrite lookup_union.
  repeat (rewrite lookup_insert_ne by done).
  rewrite lookup_singleton_ne by done. by destruct (supplied !! name).
Qed.

Lemma resolveProgramEnvironment_spec provided required supplied :
  resolveProgramEnvironment provided required = inl supplied →
  (∀ name, name ∈ required → ∃ v, supplied !! name = Some v ∧ blank v = false) ∧
  (∀ name v, supplied !! name = Some v →
     blank v = false ∧ name ∈ passphraseNames ++ required ∧
     ∃ values, provided = Some (inl values) ∧ values !! name = Some v).
Proof.
  unfold resolveProgramEnvironment. intros H.
  set (values := match provided with Some (inl values) => values | _ => ∅ end) in H.
  set (found := filter (λ kv : string * string, blank kv.2 = false) values) in H.
  assert (Hf : ∀ name v, found !! name = Some v → values !! name = Some v ∧ blank v = false).
  { intros name v (Hv & Hb)%map_lookup_filter_Some. done. }
  assert (existsb (λ kv, negb (bool_decide (kv.1 ∈ passphraseNames ++ required)))
            (map_to_list found) = false ∧
          existsb (λ name, bool_decide (found !! name = None)) required = false ∧
          supplied = found) as (Hd & Hr & ->).
  { destruct provided as [[?|?]|]; [|done|];
      destruct (existsb _ (map_to_list found)); try done;
      destruct (existsb _ required); try done; by injection H as <-. }
  split.
  - intros name Hname. destruct (found !! name) as [v|] eqn:Hv.
    + exists v. split; [done|]. by apply Hf in Hv as [_ ?].
    + assert (existsb (λ name, bool_decide (found !! name = None)) required = true) as Hx;
        [|congruence].
      apply existsb_exists. exists name. split; [by apply list_elem_of_In|].
      by apply bool_decide_eq_true.
  - intros name v Hv. destruct (Hf _ _ Hv) as [Hvv Hb]. split; [done|]. split.
    + destruct (decide (name ∈ passphraseNames ++ required)) as [|Hn]; [done|].
      assert (existsb (λ kv, negb (bool_decide (kv.1 ∈ passphraseNames ++ required)))
                (map_to_list found) = true) as Hx; [|congruence].
      apply existsb_exists. exists (name, v).
      split; [by apply list_elem_of_In, elem_of_map_to_list|].
      by apply negb_true_iff, bool_decide_eq_false.
    + subst values. destruct provided as [[m|?]|]; [by exists m|done..].
Qed.
