(* ===== verification/PulumiOutputs.v ===== *)
(** * The output envelope of a Pulumi program

    Models [src/internal/provisioning/pulumi/outputs.go]: the strict reading of
    the one stack export that may carry outputs.  The document is decoded token
    by token ([JsonTokens]), with bounds on its size, depth and keys; then the
    envelope must name the mapping, the resource and the generation.
    [decodeSelectedOutputEnvelope_sound] says what decoded values have shown. *)

From S2P Require Import Prelude Operation Values Resource.
From S2P Require Import Text Encoding Strconv Json JsonTokens Kube Crossplane.
From Stdlib Require Import SpecFloat.
Open Scope string_scope.
Open Scope go_scope.
Open Scope list_scope.

(** [json.Number.Float64]. *)
Class NumberParser := { Float64 : string → option spec_float }.

Definition envelopeVersion : uint64 := 1%N.
Definition maxOutputBytes : N := (64 * 2 ^ 10)%N.
Definition maxOutputDepth : nat := 4.
Definition maxOutputKeys : nat := 64.
Definition maxOutputStringLength : N := 4096%N.
Definition secretRedactionMarker : string := "[secret]".

Definition errEnvelopeInvalid : error := Sentinel "pulumi.errOutputEnvelopeInvalid".
Definition errOutputsUnextracted : error := Sentinel "pulumi.errOutputUnavailable".

(** [strings.Contains]. *)
Fixpoint contains (s part : string) : bool :=
  String.prefix part s || match s with "" => false | String _ rest => contains rest part end.

Definition too_long (s : string) : bool :=
  N.ltb maxOutputStringLength (N.of_nat (String.length s)).

(** ** The document *)

Definition unexpected (message : string) : error := Errorf message [].

(** [decoder.Token()], whose error is passed on. *)
Definition next_token (d : Decoder) : outcome (token * Decoder) :=
  match Token d with
  | Read t rest => Ok (t, rest)
  | EndOfInput => Err (Sentinel "io.EOF")
  | Malformed => Err (unexpected "invalid JSON")
  end.

Definition strictDecodeLeaf (t : token) : outcome decoded :=
  match t with
  | TString s =>
      fail_if too_long s with unexpected "string exceeds the length bound" ;;
      fail_if contains s secretRedactionMarker
        with unexpected "redacted secret material cannot appear in declared outputs" ;;
      Ok (JString s)
  | TNumber text => Ok (JNumber text)
  | TBool b => Ok (JBool b)
  | TNull => Ok JNull
  | TDelim _ => Err (unexpected "unsupported JSON token")
  end.

Definition is_delimiter (delimiter : N) (t : token) : bool :=
  match t with TDelim d => N.eqb d delimiter | _ => false end.

Section loops.
Context (decodeToken : token → Decoder → outcome (decoded * Decoder)).

(** [strictDecodeObject], with the entries so far; [room] keys are left. *)
Fixpoint strictDecodeObject (room : nat) (object : list (string * decoded)) (d : Decoder)
    : outcome (decoded * Decoder) :=
  '(t, d) ← next_token d;
  if is_delimiter 125 t then Ok (JObject object, d) else
  match t with
  | TString key =>
      fail_if existsb (λ e, e.1 =? key) object with unexpected "duplicate object key" ;;
      '(t, d) ← next_token d;
      '(v, d) ← decodeToken t d;
      match room with
      | 0 => Err (unexpected "object key count exceeds the bound")
      | S room => strictDecodeObject room (object ++ [(key, v)]) d
      end
  | _ => Err (unexpected "object key is not a string")
  end.

Fixpoint strictDecodeArray (room : nat) (items : list decoded) (d : Decoder)
    : outcome (decoded * Decoder) :=
  '(t, d) ← next_token d;
  if is_delimiter 93 t then Ok (JArray items, d) else
  '(v, d) ← decodeToken t d;
  match room with
  | 0 => Err (unexpected "array length exceeds the bound")
  | S room => strictDecodeArray room (items ++ [v]) d
  end.
End loops.

(** A token at a depth, of which [levels] more are allowed. The check of
    [strictDecodeValue] before it reads a value of an object is the one here;
    both fail alike. *)
Fixpoint strictDecodeToken (levels : nat) (t : token) (d : Decoder)
    : outcome (decoded * Decoder) :=
  match levels with
  | 0 => Err (unexpected "document nesting exceeds the depth bound")
  | S levels =>
      match t with
      | TDelim delimiter =>
          if N.eqb delimiter 123
          then strictDecodeObject (strictDecodeToken levels) maxOutputKeys [] d
          else if N.eqb delimiter 91
          then strictDecodeArray (strictDecodeToken levels) maxOutputKeys [] d
          else Err (Errorf "unexpected delimiter %q" [ArgN delimiter])
      | t => v ← strictDecodeLeaf t; Ok (v, d)
      end
  end.

(** [strictDecodeValue] at depth 0. *)
Definition strictDecodeValue (d : Decoder) : outcome (decoded * Decoder) :=
  '(t, d) ← next_token d;
  strictDecodeToken (S maxOutputDepth) t d.

(** ** The envelope *)

Fixpoint entry (name : string) (object : list (string * decoded)) : option decoded :=
  match object with
  | [] => None
  | (key, v) :: rest => if key =? name then Some v else entry name rest
  end.

Definition pulumiEnvelopeFields : list string :=
  ["version"; "mapping"; "resourceId"; "targetGeneration"; "values"].

Definition invalid_envelope (format : string) (args : list arg) : error :=
  Wrapf errEnvelopeInvalid format args.

Definition pulumiEnvelopeInteger (object : list (string * decoded)) (name : string)
    : outcome (option uint64) :=
  match entry name object with
  | Some (JNumber text) =>
      match ParseInt text 64 with
      | Ok parsed =>
          fail_if Z.ltb parsed 0
            with invalid_envelope "%w: output field %q is not an unsigned integer" [ArgS name] ;;
          Ok (Some (Z.to_N parsed))
      | _ => Err (invalid_envelope "%w: output field %q is not an unsigned integer" [ArgS name])
      end
  | _ => Ok None
  end.

Definition entry_is (v : option decoded) (expected : string) : bool :=
  match v with Some (JString s) => s =? expected | _ => false end.

Section decode.
Context {numbers : NumberParser}.

Definition strictScalar (v : decoded) : option value :=
  match v with
  | JString s => if too_long s || contains s secretRedactionMarker then None else Some (VString s)
  | JBool b => Some (VBool b)
  | JNumber text =>
      match ParseInt text 64 with
      | Ok integer =>
          if text =? FormatInt integer then Some (VInt Int64 integer)
          else VFloat64 <$> Float64 text
      | _ => VFloat64 <$> Float64 text
      end
  | _ => None
  end.

(** The loop over the values. *)
Fixpoint strictScalars (object : list (string * decoded)) : outcome (list (string * value)) :=
  match object with
  | [] => Ok []
  | (key, v) :: rest =>
      match strictScalar v with
      | None => Err (invalid_envelope "%w: output field %q is not a flat scalar" [ArgS key])
      | Some scalar => values ← strictScalars rest; Ok ((key, scalar) :: values)
      end
  end.

(** The document, and nothing after it. *)
Definition decodeDocument (raw : string) : outcome decoded :=
  match strictDecodeValue (NewDecoder raw) with
  | Ok (root, d) =>
      match Token d with
      | EndOfInput => Ok root
      | _ => Err (invalid_envelope "%w: trailing content after the output document" [])
      end
  | Err e => Err (Notef errEnvelopeInvalid "%w: %v" e)
  | Panic p => Panic p
  end.

Definition decodeSelectedOutputEnvelope (raw : string) (mappingRef : string)
    (resourceID : ResourceID) (targetGeneration : uint64) : outcome (list (string * value)) :=
  fail_if raw =? "" with invalid_envelope "%w: selected output is empty" [] ;;
  fail_if N.ltb maxOutputBytes (N.of_nat (String.length raw))
    with invalid_envelope "%w: selected output exceeds the size bound" [] ;;
  root ← decodeDocument raw;
  match root with
  | JObject object =>
      match find (λ e, negb (bool_decide (e.1 ∈ pulumiEnvelopeFields))) object with
      | Some (field, _) =>
          Err (invalid_envelope "%w: unknown private-envelope field %q" [ArgS field])
      | None =>
          version ← pulumiEnvelopeInteger object "version";
          fail_if negb (version =? Some envelopeVersion)
            with invalid_envelope "%w: unsupported output envelope version" [] ;;
          fail_if negb (entry_is (entry "mapping" object) mappingRef)
            with invalid_envelope
              "%w: output mapping identity does not match the persisted execution mapping" [] ;;
          fail_if negb (entry_is (entry "resourceId" object) resourceID)
            with invalid_envelope "%w: output envelope does not belong to this resource" [] ;;
          generation ← pulumiEnvelopeInteger object "targetGeneration";
          fail_if negb (generation =? Some targetGeneration)
            with invalid_envelope
              "%w: output envelope does not belong to this target generation" [] ;;
          match entry "values" object with
          | Some (JObject rawValues) => strictScalars rawValues
          | _ => Err (invalid_envelope "%w: output values are not an object" [])
          end
      end
  | _ => Err (invalid_envelope "%w: output document is not an object" [])
  end.
End decode.

#[local] Opaque maxOutputKeys.

(** ** Properties *)

(** A document within the bounds: keys are distinct, no text is too long or
    redacted, and at most [levels] levels are nested. *)
Definition proper_text (s : string) : Prop :=
  (N.of_nat (String.length s) ≤ maxOutputStringLength)%N ∧ contains s secretRedactionMarker = false.

Fixpoint proper (levels : nat) (v : decoded) : Prop :=
  match levels with
  | 0 => False
  | S levels =>
      match v with
      | JNull | JBool _ | JNumber _ => True
      | JString s => proper_text s
      | JObject entries =>
          (length entries ≤ maxOutputKeys)%nat ∧ NoDup entries.*1 ∧
          Forall (λ e, proper levels e.2) entries
      | JArray items => (length items ≤ maxOutputKeys)%nat ∧ Forall (proper levels) items
      end
  end.

Lemma proper_text_spec s :
  too_long s = false → contains s secretRedactionMarker = false → proper_text s.
Proof. unfold too_long. intros H%N.ltb_ge Hc. by split. Qed.

Section loop_lemmas.
Context (decodeToken : token → Decoder → outcome (decoded * Decoder)) (P : decoded → Prop).
Hypothesis decodes : ∀ t d v d', decodeToken t d = Ok (v, d') → P v.

Lemma strictDecodeObject_proper room object d v d' :
  NoDup object.*1 → Forall (λ e, P e.2) object →
  strictDecodeObject decodeToken room object d = Ok (v, d') →
  ∃ entries, v = JObject entries ∧ (length entries ≤ length object + room)%nat ∧
    NoDup entries.*1 ∧ Forall (λ e, P e.2) entries.
Proof.
  revert object d. induction room as [|room IH]; intros object d Hnd Hall H;
    cbn [strictDecodeObject] in H; apply bind_Ok in H as ([t d1] & _ & H);
    (destruct (is_delimiter 125 t);
      [injection H as <- <-; exists object; split_and!; [done|lia|done..]|]);
    destruct t as [delimiter|key| | |]; try done;
    apply fail_if_Ok in H as [Hdup H]; apply bind_Ok in H as ([t2 d2] & _ & H);
    apply bind_Ok in H as ([w d3] & Hw & H); [done|].
  apply IH in H as (entries & -> & Hlen & Hkeys & Hentries).
  - exists entries. split_and!; [done| |done..]. rewrite length_app in Hlen. cbn in Hlen. lia.
  - rewrite fmap_app. apply NoDup_app. split_and!; [done| |apply NoDup_singleton].
    intros k Hk Hin. cbn in Hin. apply list_elem_of_singleton in Hin as ->.
    apply list_elem_of_fmap in Hk as (e & He & Hin).
    assert (existsb (λ e', e'.1 =? key) object = true) as Hx; [|congruence].
    apply existsb_exists. exists e. split; [by apply list_elem_of_In|].
    by apply bool_decide_eq_true.
  - apply Forall_app. split; [done|]. constructor; [by eapply decodes|done].
Qed.

Lemma strictDecodeArray_proper room items d v d' :
  Forall P items → strictDecodeArray decodeToken room items d = Ok (v, d') →
  ∃ items', v = JArray items' ∧ (length items' ≤ length items + room)%nat ∧ Forall P items'.
Proof.
  revert items d. induction room as [|room IH]; intros items d Hall H;
    cbn [strictDecodeArray] in H; apply bind_Ok in H as ([t d1] & _ & H);
    (destruct (is_delimiter 93 t);
      [injection H as <- <-; exists items; split_and!; [done|lia|done]|]);
    apply bind_Ok in H as ([w d3] & Hw & H); [done|].
  apply IH in H as (items' & -> & Hlen & Hitems).
  - exists items'. split_and!; [done| |done]. rewrite length_app in Hlen. cbn in Hlen. lia.
  - apply Forall_app. split; [done|]. constructor; [by eapply decodes|done].
Qed.
End loop_lemmas.

Lemma strictDecodeToken_proper levels t d v d' :
  strictDecodeToken levels t d = Ok (v, d') → proper levels v.
Proof.
  revert t d v d'. induction levels as [|levels IH]; intros t d v d'; [done|].
  cbn [strictDecodeToken].
  assert (strictDecodeObject (strictDecodeToken levels) maxOutputKeys [] d = Ok (v, d') →
    proper (S levels) v) as Hobject.
  { intros (es & -> & ? & ? & ?)%(strictDecodeObject_proper _ (proper levels)); [done| |constructor..].
    eauto. }
  assert (strictDecodeArray (strictDecodeToken levels) maxOutputKeys [] d = Ok (v, d') →
    proper (S levels) v) as Harray.
  { intros (es & -> & ? & ?)%(strictDecodeArray_proper _ (proper levels)); [done| |constructor].
    eauto. }
  destruct t as [delimiter|s|text|b|]; [|cbn [strictDecodeLeaf]|by intros [= <- <-]..].
  - destruct (N.eqb delimiter 123); [exact Hobject|]. destruct (N.eqb delimiter 91); [exact Harray|].
    discriminate.
  - destruct (too_long s) eqn:Hl; [discriminate|].
    destruct (contains s secretRedactionMarker) eqn:Hc; [discriminate|].
    intros [= <- <-]. by apply proper_text_spec.
Qed.

Lemma decodeDocument_proper raw root :
  decodeDocument raw = Ok root → proper (S maxOutputDepth) root.
Proof.
  unfold decodeDocument, strictDecodeValue. intros H.
  destruct (next_token (NewDecoder raw)) as [[t d]| |]; try done. cbn [mbind outcome_bind] in H.
  destruct (strictDecodeToken _ t d) as [[v d']| |] eqn:Hv; [|done..].
  destruct (Token d'); try done. injection H as <-. by eapply strictDecodeToken_proper.
Qed.

(** What may be taken for an output: a flat scalar, none of it redacted. *)
Definition flat (v : value) : Prop :=
  match v with
  | VString s => proper_text s
  | VBool _ | VInt Int64 _ | VFloat64 _ => True
  | _ => False
  end.

Section decode_lemmas.
Context {numbers : NumberParser}.

Lemma strictScalar_flat v scalar : strictScalar v = Some scalar → flat scalar.
Proof.
  destruct v; cbn; try done.
  - by intros [= <-].
  - destruct (too_long s) eqn:Hl; [done|]. destruct (contains _ _) eqn:Hc; [done|].
    intros [= <-]. by apply proper_text_spec.
  - destruct (ParseInt text 64); [case_match|..];
      try (intros (f & <- & _)%fmap_Some || intros (f & _ & ->)%fmap_Some); try done.
    by intros [= <-].
Qed.

Lemma strictScalars_spec object values :
  strictScalars object = Ok values →
  values.*1 = object.*1 ∧ Forall (λ kv, flat kv.2) values ∧
  Forall2 (λ e kv, strictScalar e.2 = Some kv.2) object values.
Proof.
  revert values. induction object as [|[key v] rest IH]; cbn; [by intros ? [= <-]|].
  intros values. destruct (strictScalar v) as [scalar|] eqn:Hv; [|done].
  intros (vs & Hvs & [= <-])%bind_Ok. destruct (IH _ Hvs) as (Hn & Hf & H2).
  split_and!; [cbn; by rewrite Hn|constructor; [by eapply strictScalar_flat|done]|by constructor].
Qed.

Lemma entry_is_spec v expected : entry_is v expected = true ↔ v = Some (JString expected).
Proof.
  destruct v as [[| |s| | |]|]; cbn; try done. rewrite bool_decide_eq_true. naive_solver.
Qed.

Lemma pulumiEnvelopeInteger_spec object name n :
  pulumiEnvelopeInteger object name = Ok (Some n) ↔
  ∃ text, entry name object = Some (JNumber text) ∧ ParseInt text 64 = Ok (Z.of_N n).
Proof.
  unfold pulumiEnvelopeInteger. destruct (entry name object) as [[| | |text| |]|]; try naive_solver.
  split.
  - destruct (ParseInt text 64) as [z| |] eqn:Hz; [|done..].
    destruct (Z.ltb_spec z 0); [done|]. intros [= <-]. exists text. split; [done|].
    rewrite Hz. f_equal. lia.
  - intros (t & [= <-] & ->). destruct (Z.ltb_spec (Z.of_N n) 0); [lia|]. by rewrite N2Z.id.
Qed.

Lemma entry_elem name object v : entry name object = Some v → (name, v) ∈ object.
Proof.
  induction object as [|[key w] rest IH]; cbn; [done|].
  destruct (bool_decide_reflect (key = name)) as [->|]; [intros [= ->]; left|].
  intros H. right. by apply IH.
Qed.

(** Values are taken from an export only if it is one document within the
    bounds, an envelope of this version and of no other field, that names the
    mapping, the resource and the generation; and they are its values, each a
    flat scalar. *)
Theorem decodeSelectedOutputEnvelope_sound raw mappingRef resourceID g values :
  decodeSelectedOutputEnvelope raw mappingRef resourceID g = Ok values →
  ∃ object rawValues,
    decodeDocument raw = Ok (JObject object) ∧ proper (S maxOutputDepth) (JObject object) ∧
    Forall (λ e, e.1 ∈ pulumiEnvelopeFields) object ∧
    pulumiEnvelopeInteger object "version" = Ok (Some envelopeVersion) ∧
    entry "mapping" object = Some (JString mappingRef) ∧
    entry "resourceId" object = Some (JString resourceID) ∧
    pulumiEnvelopeInteger object "targetGeneration" = Ok (Some g) ∧
    entry "values" object = Some (JObject rawValues) ∧
    Forall2 (λ e kv, strictScalar e.2 = Some kv.2) rawValues values ∧
    values.*1 = rawValues.*1 ∧ NoDup values.*1 ∧ (length values ≤ maxOutputKeys)%nat ∧
    Forall (λ kv, flat kv.2) values.
Proof.
  unfold decodeSelectedOutputEnvelope. intros H.
  apply fail_if_Ok in H as [_ H]. apply fail_if_Ok in H as [_ H].
  apply bind_Ok in H as (root & Hroot & H). pose proof (decodeDocument_proper _ _ Hroot) as Hp.
  destruct root as [| | | |object|]; try done.
  destruct (find _ object) as [[]|] eqn:Hfields; [done|].
  apply bind_Ok in H as (version & Hv & H).
  destruct (bool_decide_reflect (version = Some envelopeVersion)) as [->|]; [|done].
  apply fail_if_Ok in H as [_ H].
  apply fail_if_Ok in H as [Hm%negb_false_iff%entry_is_spec H].
  apply fail_if_Ok in H as [Hr%negb_false_iff%entry_is_spec H].
  apply bind_Ok in H as (generation & Hg & H).
  destruct (bool_decide_reflect (generation = Some g)) as [->|]; [|done].
  apply fail_if_Ok in H as [_ H].
  destruct (entry "values" object) as [[| | | |rawValues|]|] eqn:Hvs; try done.
  apply strictScalars_spec in H as (Hkeys & Hflat & H2).
  assert (proper maxOutputDepth (JObject rawValues)) as (Hlen & Hnd & _).
  { destruct Hp as (_ & _ & Hall). apply entry_elem in Hvs.
    by apply (proj1 (Forall_forall _ _) Hall) in Hvs. }
  exists object, rawValues. split_and!; try done.
  - apply Forall_forall. intros e He. apply list_elem_of_In in He.
    pose proof (find_none _ _ Hfields _ He) as Hn. cbn in Hn.
    by apply negb_false_iff, bool_decide_eq_true in Hn.
  - by rewrite Hkeys.
  - apply (f_equal length) in Hkeys. rewrite !length_fmap in Hkeys. by rewrite Hkeys.
Qed.
End decode_lemmas.
