(* ===== verification/PulumiCalls.v ===== *)
(** * The calls of the Pulumi adapter

    Models [provisioner.go] and [automation.go] of
    [src/internal/provisioning/pulumi]: [Submit] and [Observe] as computations
    that call the host and the Pulumi SDK ([auto]).  What they do on any host is
    shown in [PulumiRuns]. *)

From S2P Require Import Prelude Operation Values Resource Status Provisioning.
From S2P Require Import Text Encoding Kube Crossplane Pulumi PulumiOutputs.
Open Scope string_scope.
Open Scope go_scope.
Open Scope list_scope.

(** ** Calls *)

Record isolatedWorkspace := { iw_workDir : string; iw_homeDir : string }.

Definition inputPath (w : isolatedWorkspace) : string := iw_workDir w +:+ "/.liftr/input".

(** The options of [auto.NewLocalWorkspace]. *)
Record localWorkspace := {
  lw_workDir : string;
  lw_homeDir : string;
  lw_environment : gmap string string }.

(** [createWorkspace] with what it copies and checks, [cleanup], the
    platform's environment callback, and what the SDK runs. *)
Inductive call :=
  | ProvideEnvironment
  | CreateWorkspace (root sourceDir sourceDigest input : string)
  | CleanupWorkspace (w : isolatedWorkspace)
  | NewLocalWorkspace (w : localWorkspace)
  | ListStacks (w : localWorkspace)
  | AutoSelectStack (w : localWorkspace) (name : string)
  | AutoNewStack (w : localWorkspace) (name : string)
  | RunCommand (w : localWorkspace) (args : list string)
  | StackHistory (w : localWorkspace) (name : string) (pageSize page : Z).

(** A stack, the failure that says it is not there (or is already), or another
    one. *)
Inductive stackReply := StackReady | StackRefused | StackFailed.

(** A failure is [None]; a command that ran has its output and exit code. *)
Definition reply (c : call) : Type :=
  match c with
  | ProvideEnvironment => gmap string string + error
  | CreateWorkspace _ _ _ _ => option isolatedWorkspace
  | CleanupWorkspace _ => unit
  | NewLocalWorkspace _ => bool
  | ListStacks _ => option (list string)
  | AutoSelectStack _ _ | AutoNewStack _ _ => stackReply
  | RunCommand _ _ => option (string * Z)
  | StackHistory _ _ _ _ => option (list updateSummary)
  end.

Inductive auto (V : Type) :=
  | Return (v : V)
  | Call (c : call) (next : reply c → auto V).
Arguments Return {V}.
Arguments Call {V}.

#[export] Instance auto_ret : MRet auto := @Return.
#[export] Instance auto_bind : MBind auto := λ V W f,
  fix bind k := match k with
                | Return v => f v
                | Call c next => Call c (λ r, bind (next r))
                end.

Definition provide : auto (gmap string string + error) := Call ProvideEnvironment Return.
Definition createWorkspace (root : string) (program : Program) (input : string)
    : auto (option isolatedWorkspace) :=
  Call (CreateWorkspace root (prog_SourceDir program) (prog_SourceDigest program) input) Return.
Definition cleanup (w : isolatedWorkspace) : auto unit := Call (CleanupWorkspace w) Return.
Definition Open (w : localWorkspace) : auto bool := Call (NewLocalWorkspace w) Return.
Definition listStacks (w : localWorkspace) : auto (option (list string)) :=
  Call (ListStacks w) Return.
Definition autoSelect (w : localWorkspace) (name : string) : auto stackReply :=
  Call (AutoSelectStack w name) Return.
Definition autoNew (w : localWorkspace) (name : string) : auto stackReply :=
  Call (AutoNewStack w name) Return.
Definition runCommand (w : localWorkspace) (args : list string) : auto (option (string * Z)) :=
  Call (RunCommand w args) Return.
Definition stackHistory (w : localWorkspace) (name : string) (pageSize page : Z)
    : auto (option (list updateSummary)) := Call (StackHistory w name pageSize page) Return.

(** ** Stacks *)

Inductive stackError := StackNotFound | StackExists | StackOther.
#[export] Instance stackError_eq_dec : EqDecision stackError.
Proof. solve_decision. Defined.

(** [name[strings.LastIndex(name, "/")+1:]]. *)
Definition hasStack (w : localWorkspace) (name : string) : auto (option bool) :=
  stacks ← listStacks w;
  Return (option_map (existsb (λ stack, (stack =? name) || (stack =? path_base name))) stacks).

Definition SelectStack (w : localWorkspace) (name : string) : auto (option stackError) :=
  found ← hasStack w name;
  match found with
  | None => Return (Some StackOther)
  | Some false => Return (Some StackNotFound)
  | Some true =>
      selected ← autoSelect w name;
      Return (match selected with
              | StackReady => None
              | StackRefused => Some StackNotFound
              | StackFailed => Some StackOther
              end)
  end.

Definition CreateStack (w : localWorkspace) (name : string) : auto (option stackError) :=
  created ← autoNew w name;
  match created with
  | StackReady => Return None
  | StackRefused => Return (Some StackExists)
  | StackFailed =>
      found ← hasStack w name;
      Return (Some (match found with Some true => StackExists | _ => StackOther end))
  end.

(** The stack of a submission; only a creation may make one. *)
Definition stackFor (w : localWorkspace) (name : string) (capability : Capability)
    : auto (option stackError) :=
  selected ← SelectStack w name;
  if (capability =? CapabilityCreate) && (selected =? Some StackNotFound) then
    created ← CreateStack w name;
    if created =? Some StackExists then SelectStack w name else Return created
  else Return selected.

Abbreviation submit_result := (outcome (Submission * option error)) (only parsing).

Section calls.
Context {digest : Digest} {sdk : Sdk} {numbers : NumberParser}.

Definition normalizeSummary (s : updateSummary) : updateSummary :=
  {| us_kind := us_kind s; us_message := default (us_message s) (Unquote (us_message s));
     us_result := us_result s; us_startTime := us_startTime s; us_endTime := us_endTime s |}.

Definition History (w : localWorkspace) (name : string) (pageSize page : Z)
    : auto (option (list updateSummary)) :=
  history ← stackHistory w name pageSize page;
  Return (option_map (map normalizeSummary) history).

Definition launchArgs (operation name message : string) : list string :=
  [operation; "--yes"; "--skip-preview"; "--stack"; name; "--message"; message;
   "--suppress-outputs"; "--suppress-progress"; "--color"; "never"].

Definition expectedCommandKind (operation : string) : string :=
  if operation =? "destroy" then "destroy" else "update".

(** [run], which [Up] and [Destroy] call. *)
Definition run (w : localWorkspace) (name operation message : string)
    : auto (option updateSummary) :=
  ran ← runCommand w (launchArgs operation name message);
  match ran with
  | None => Return None
  | Some _ =>
      history ← History w name 10 1;
      Return (match history with
              | Some h => find (λ s, (us_message s =? message) &&
                                     EqualFold (us_kind s) (expectedCommandKind operation)) h
              | None => None
              end)
  end.

Definition selectedOutputArgs (export name : string) : list string :=
  ["stack"; "output"; export; "--json"; "--stack"; name; "--color"; "never"].

Definition SelectedOutput (w : localWorkspace) (name export : string) : auto (option string) :=
  ran ← runCommand w (selectedOutputArgs export name);
  Return (match ran with
          | Some (stdout, exitCode) =>
              if (exitCode <>? 0%Z) || N.ltb maxOutputBytes (N.of_nat (String.length stdout))
              then None else Some stdout
          | None => None
          end).

(** ** The history *)

Definition uncorrelatedRecord : ExecutionObservation :=
  {| eo_Correlation := RequestCorrelationUnknown; eo_Execution := None;
     eo_Resource := unknownResource; eo_ObservedAt := time_zero; eo_Outputs := None |}.

Definition unavailableObservation (reason : string) : ExecutionFailure :=
  {| ef_Kind := FailureUnavailable; ef_Reason := reason;
     ef_Message := "provisioning observation is unavailable" |}.

(** What the matches mean. *)
Definition matched (capability : Capability) (message : string) (handle : ExecutionHandle)
    (matches : list updateSummary) : ExecutionObservation :=
  match matches with
  | [summary] =>
      observationFromSummary summary (expectedHistoryKind capability) message handle
  | _ => uncorrelatedRecord
  end.

(** The loop of [observeStack], with the pages left and the matches so far. *)
Fixpoint scanHistory (w : localWorkspace) (name : string) (pageSize : Z)
    (capability : Capability) (message : string) (handle : ExecutionHandle)
    (left : nat) (page : Z) (matches : list updateSummary)
    : auto (ExecutionObservation + ExecutionFailure) :=
  match left with
  | 0 => Return (inl (matched capability message handle matches))
  | S left' =>
      history ← History w name pageSize page;
      match history with
      | None => Return (inr (unavailableObservation "HistoryUnavailable"))
      | Some history =>
          let matches := matches ++ filter (λ s, us_message s = message) history in
          if Z.ltb (Z.of_nat (length history)) pageSize
          then Return (inl (matched capability message handle matches))
          else if bool_decide (left' = 0%nat) then Return (inl uncorrelatedRecord)
          else scanHistory w name pageSize capability message handle left' (page + 1) matches
      end
  end.

Definition observeStack (p : PProvisioner) (w : localWorkspace) (name : string)
    (capability : Capability) (message : string) (handle : ExecutionHandle)
    : auto (ExecutionObservation + ExecutionFailure) :=
  scanHistory w name (pc_HistoryPageSize (pp_config p)) capability message handle
    (Z.to_nat (pc_HistoryMaximumPages (pp_config p))) 1 [].

(** ** Outputs *)

Definition observedOutputs (o : ExecutionObservation) (state reason : string)
    (values : list (string * value)) (mapping : ProgramMapping) : ExecutionObservation :=
  o <| eo_Outputs := Some {| oe_State := state; oe_Values := values;
                             oe_OutputMappingRef := pm_Ref mapping; oe_Reason := reason |} |>.

Definition output_error (format : string) (args : list arg) : option error :=
  Some (Wrapf ErrObservationFailure format args).

Definition correlatedSuccess (o : ExecutionObservation) : bool :=
  (eo_Correlation o =? RequestCorrelationFound) &&
  non_nil (eo_Execution o) (λ ex, ex_State ex =? ExecutionStateSucceeded).

(** The evidence read with a mapping, whose envelope names [decodeRef]. *)
Definition readOutputs (w : localWorkspace) (name : string) (o : ExecutionObservation)
    (request : ObservationRequest) (mapping : ProgramMapping) (decodeRef : string)
    : auto (ExecutionObservation * option error) :=
  raw ← SelectedOutput w name (pm_ExportName mapping);
  Return (match raw with
    | None => (observedOutputs o OutputsUnavailable "OutputsUnavailable" [] mapping, None)
    | Some raw =>
        match decodeSelectedOutputEnvelope raw decodeRef (or_ResourceID request)
                (or_TargetGeneration request) with
        | Ok values => (observedOutputs o OutputsAvailable "" values mapping, None)
        | Err e =>
            (observedOutputs o OutputsInvalid
               (if errors_is e errOutputsUnextracted then "OutputsUnavailable"
                else "OutputContractViolation") [] mapping, None)
        | Panic _ => (o, None)
        end
    end).

(** [attachOutputs]; a type without a program has no mappings. *)
Definition pulumiOutputs (p : PProvisioner) (w : localWorkspace) (name : string)
    (o : ExecutionObservation) (request : ObservationRequest)
    : auto (ExecutionObservation * option error) :=
  if (or_Capability request =? CapabilityDelete) || negb (correlatedSuccess o)
  then Return (o, None) else
  let selected := or_OutputMappingRef request in
  let source := or_OutputSourceMappingRef request in
  let program := lookupProgram (pp_programs p) (or_ResourceType request) in
  let mappings := from_option prog_OutputMappings [] program in
  if bool_decide (mappings = []) && (selected =? "") && (source =? "") then Return (o, None)
  else if negb (non_nil program (λ _, true)) || bool_decide (mappings = []) then
    Return (o, output_error
      "%w: execution references output mapping %q but no such mapping is registered"
      [ArgS selected])
  else if selected =? "" then
    Return (o, output_error
      "%w: registered output mapping %q has no durable identity on the execution"
      [ArgS (from_option prog_CurrentOutputMappingRef "" program)])
  else
    match program ≫= λ program, programMapping program selected with
    | None => Return (o, output_error "%w: requested output mapping %q is not registered"
                           [ArgS selected])
    | Some mapping =>
        if source =? "" then readOutputs w name o request mapping (pm_Ref mapping)
        else if pm_CompatibleSourceMappingRef mapping <>? source then
          Return (o, output_error
            "%w: selected output mapping %q is not compatible with source mapping %q"
            [ArgS (pm_Ref mapping); ArgS source])
        else readOutputs w name o request mapping source
    end.

(** ** Submit *)

Definition observationRequestFromExecution (request : ExecutionRequest) : ObservationRequest :=
  {| or_OperationID := er_OperationID request; or_AttemptNumber := er_AttemptNumber request;
     or_ResourceID := er_ResourceID request; or_ResourceType := er_ResourceType request;
     or_Spec := {| spec_values := [] |}; or_Capability := er_Capability request;
     or_TargetGeneration := er_TargetGeneration request; or_Handle := None;
     or_OutputMappingRef := er_OutputMappingRef request; or_OutputSourceMappingRef := "" |}.

Definition zeroSubmission : Submission := {| sub_Observation := no_observation |}.

(** [failedSubmission]: rejected before anything was launched. *)
Definition rejectedSubmission (kind reason : string) : Submission :=
  {| sub_Observation := {| eo_Correlation := RequestCorrelationNotFound;
       eo_Execution := Some {| ex_State := ExecutionStateFailed; ex_Handle := None;
         ex_Failure := Some {| ef_Kind := kind; ef_Reason := reason;
           ef_Message := "provisioning request was rejected before execution" |} |};
       eo_Resource := unknownResource; eo_ObservedAt := time_zero; eo_Outputs := None |} |}.

(** [unknownObservation]. *)
Definition undeterminedSubmission (handle : ExecutionHandle) : Submission :=
  {| sub_Observation := {| eo_Correlation := RequestCorrelationUnknown;
       eo_Execution := Some {| ex_State := ExecutionStateUnknown; ex_Handle := Some handle;
         ex_Failure := Some {| ef_Kind := FailureUnknown; ef_Reason := "SubmissionOutcomeUnknown";
           ef_Message := "submission outcome could not be determined" |} |};
       eo_Resource := unknownResource; eo_ObservedAt := time_zero; eo_Outputs := None |} |}.

Definition rejects (kind reason : string) : auto submit_result :=
  Return (Ok (rejectedSubmission kind reason, None)).

(** What an execution is, and with which outputs. *)
Definition concludes (p : PProvisioner) (w : localWorkspace) (name : string)
    (request : ExecutionRequest) (o : ExecutionObservation) : auto submit_result :=
  '(o, attachErr) ← pulumiOutputs p w name o (observationRequestFromExecution request);
  Return (match attachErr with
          | Some e => Ok (zeroSubmission, Some e)
          | None => Ok ({| sub_Observation := o |}, None)
          end).

Definition requestHandle (p : PProvisioner) (request : ExecutionRequest) : ExecutionHandle :=
  pulumiHandle p (er_OperationID request) (er_AttemptNumber request) (er_ResourceID request).
Definition requestMessage (request : ExecutionRequest) : string :=
  correlationMessage (er_OperationID request) (er_AttemptNumber request).

(** After a launch that did not tell: the history may. *)
Definition recoverOutcome (p : PProvisioner) (w : localWorkspace) (name : string)
    (request : ExecutionRequest) : auto submit_result :=
  let unknown := Ok (undeterminedSubmission (requestHandle p request),
                     Some ErrAmbiguousSubmission) in
  found ← observeStack p w name (er_Capability request) (requestMessage request)
            (requestHandle p request);
  match found with
  | inl o =>
      if (eo_Correlation o =? RequestCorrelationFound) && non_nil (eo_Execution o) (λ _, true)
      then concludes p w name request o else Return unknown
  | inr _ => Return unknown
  end.

Definition launchOperation (capability : Capability) : string :=
  if capability =? CapabilityDelete then "destroy" else "up".

Definition launches_stack (p : PProvisioner) (w : localWorkspace) (name : string)
    (request : ExecutionRequest) : auto submit_result :=
  summary ← run w name (launchOperation (er_Capability request)) (requestMessage request);
  match summary with
  | Some summary =>
      let o := observationFromSummary summary (expectedHistoryKind (er_Capability request))
                 (requestMessage request) (requestHandle p request) in
      if (eo_Correlation o =? RequestCorrelationFound) &&
         non_nil (eo_Execution o) (λ ex, ex_State ex <>? ExecutionStateUnknown)
      then concludes p w name request o else recoverOutcome p w name request
  | None => recoverOutcome p w name request
  end.

(** [Submit] once the workspace is there, up to its deferred cleanup. *)
Definition submitIn (p : PProvisioner) (program : Program) (request : ExecutionRequest)
    (supplied : gmap string string) (iw : isolatedWorkspace) : auto submit_result :=
  let w := {| lw_workDir := iw_workDir iw; lw_homeDir := iw_homeDir iw;
              lw_environment := adapterEnvironment (pp_config p) (inputPath iw) supplied |} in
  opened ← Open w;
  if negb opened then rejects FailureUnavailable "WorkspaceInitializationFailed" else
  match stackName p (prog_ProjectName program) (er_ResourceID request) with
  | Ok name =>
      selected ← stackFor w name (er_Capability request);
      match selected with
      | Some StackNotFound => rejects FailureNotFound "ExecutionStateNotFound"
      | Some _ => rejects FailureUnavailable "StackSelectionFailed"
      | None => launches_stack p w name request
      end
  | Err e => Return (Err e)
  | Panic m => Return (Panic m)
  end.

Definition programInput (operationID : OperationID) (attempt : uint64) (resourceID : ResourceID)
    (ref : ResourceTypeRef) (capability : Capability) (spec : ResourceSpec) (generation : uint64)
    : Input :=
  {| in_OperationID := operationID; in_AttemptNumber := attempt; in_ResourceID := resourceID;
     in_ResourceType := ref; in_Capability := capability; in_Spec := spec;
     in_TargetGeneration := generation |}.

(** [program.EncodeInput(input)]. *)
Definition encodeInput (program : Program) (input : Input) : outcome string :=
  match prog_EncodeInput program with
  | Some encode => encode input
  | None => Panic "invalid memory address or nil pointer dereference"
  end.

Definition provided (p : PProvisioner) : auto (option (gmap string string + error)) :=
  if pc_Environment (pp_config p) then answer ← provide; Return (Some answer) else Return None.

Definition PSubmit (p : PProvisioner) (request : ExecutionRequest) : auto submit_result :=
  if negb (is_ok (ExecutionRequest_Validate request))
  then rejects FailureInvalidRequest "InvalidExecutionRequest" else
  match lookupProgram (pp_programs p) (er_ResourceType request) with
  | None => rejects FailureUnsupported "CapabilityUnsupported"
  | Some program =>
      if negb (programSupports (prog_Capabilities program) (er_Capability request))
      then rejects FailureUnsupported "CapabilityUnsupported" else
      values ← provided p;
      match resolveProgramEnvironment values (prog_RequiredEnvironment program) with
      | inr MissingRequiredEnvironment => rejects FailureUnavailable "RequiredEnvironmentMissing"
      | inr (EnvironmentError _) => rejects FailureUnavailable "ExecutionEnvironmentUnavailable"
      | inl supplied =>
          match encodeInput program (programInput (er_OperationID request)
                  (er_AttemptNumber request) (er_ResourceID request) (er_ResourceType request)
                  (er_Capability request) (er_Spec request) (er_TargetGeneration request)) with
          | Err _ => rejects FailureInvalidRequest "ProgramInputInvalid"
          | Panic m => Return (Panic m)
          | Ok encoded =>
              created ← createWorkspace (pc_WorkspaceRoot (pp_config p)) program encoded;
              match created with
              | None => rejects FailureUnavailable "WorkspaceUnavailable"
              | Some iw =>
                  answer ← submitIn p program request supplied iw;
                  _ ← cleanup iw;
                  Return answer
              end
          end
      end
  end.

(** ** Observe *)

Definition observes (o : ExecutionObservation) : auto observation_result := Return (Ok (o, None)).
Definition unobservedPulumi (failure : ExecutionFailure) : auto observation_result :=
  Return (Ok (no_observation, Some (ObservationError failure))).
Definition unavailable (reason : string) : auto observation_result :=
  unobservedPulumi (unavailableObservation reason).

(** [Observe] once the workspace is there. *)
Definition observeIn (p : PProvisioner) (program : Program) (request : ObservationRequest)
    (supplied : gmap string string) (iw : isolatedWorkspace) : auto observation_result :=
  let w := {| lw_workDir := iw_workDir iw; lw_homeDir := iw_homeDir iw;
              lw_environment := adapterEnvironment (pp_config p) (inputPath iw) supplied |} in
  opened ← Open w;
  if negb opened then unavailable "WorkspaceInitializationFailed" else
  match stackName p (prog_ProjectName program) (or_ResourceID request) with
  | Ok name =>
      selected ← SelectStack w name;
      match selected with
      | Some StackNotFound => observes uncorrelatedRecord
      | Some _ => unavailable "StackSelectionFailed"
      | None =>
          found ← observeStack p w name (or_Capability request)
            (correlationMessage (or_OperationID request) (or_AttemptNumber request))
            (pulumiHandle p (or_OperationID request) (or_AttemptNumber request)
               (or_ResourceID request));
          match found with
          | inr failure => unobservedPulumi failure
          | inl o =>
              '(o, e) ← pulumiOutputs p w name o request;
              Return (Ok (o, option_map OutputMappingError e))
          end
      end
  | Err _ => unavailable ""
  | Panic m => Return (Panic m)
  end.

Definition PObserve (p : PProvisioner) (request : ObservationRequest) : auto observation_result :=
  if negb (is_ok (ObservationRequest_Validate request)) then
    unobservedPulumi {| ef_Kind := FailureInvalidRequest; ef_Reason := "InvalidObservationRequest";
                        ef_Message := "observation request is invalid" |}
  else if or_OperationID request =? "" then observes uncorrelatedRecord else
  match lookupProgram (pp_programs p) (or_ResourceType request) with
  | Some program =>
      if negb (programSupports (prog_Capabilities program) (or_Capability request))
      then unobservedPulumi {| ef_Kind := FailureUnsupported; ef_Reason := "CapabilityUnsupported";
                               ef_Message := "provisioning capability is unsupported" |} else
      values ← provided p;
      match resolveProgramEnvironment values (prog_RequiredEnvironment program) with
      | inr MissingRequiredEnvironment => unavailable "RequiredEnvironmentMissing"
      | inr (EnvironmentError _) => unavailable "ExecutionEnvironmentUnavailable"
      | inl supplied =>
          match encodeInput program (programInput (or_OperationID request)
                  (or_AttemptNumber request) (or_ResourceID request) (or_ResourceType request)
                  (or_Capability request) (or_Spec request) (or_TargetGeneration request)) with
          | Err _ =>
              unobservedPulumi {| ef_Kind := FailureInvalidRequest;
                ef_Reason := "ProgramInputInvalid"; ef_Message := "program input is invalid" |}
          | Panic m => Return (Panic m)
          | Ok encoded =>
              created ← createWorkspace (pc_WorkspaceRoot (pp_config p)) program encoded;
              match created with
              | None => unavailable "WorkspaceUnavailable"
              | Some iw =>
                  answer ← observeIn p program request supplied iw;
                  _ ← cleanup iw;
                  Return answer
              end
          end
      end
  | None => unobservedPulumi {| ef_Kind := FailureUnsupported;
              ef_Reason := "CapabilityUnsupported";
              ef_Message := "provisioning capability is unsupported" |}
  end.
End calls.
