(* ===== verification/PulumiRuns.v ===== *)
(** * Runs of the Pulumi adapter

    A computation of [PulumiCalls] meets any host: [answered] says which calls it
    makes, how they were answered, and what it returns.  [submit_launches] and
    [submit_interpreted] say what an answer of [Submit] tells of what was
    launched, [observe_exact] what an observation reads off the history of a
    stack. *)

From S2P Require Import Prelude Operation Values Resource Status Provisioning.
From S2P Require Import Records Submission.
From S2P Require Import Text Encoding Kube Crossplane Pulumi PulumiOutputs PulumiCalls.
Open Scope string_scope.
Open Scope go_scope.
Open Scope list_scope.

(** ** Runs *)

Record event := Event { ev_call : call; ev_reply : reply ev_call }.

(** The computation makes these calls, is answered so, and returns [v]. *)
Fixpoint answered {V} (k : auto V) (log : list event) (v : V) : Prop :=
  match k with
  | Return v' => log = [] ∧ v = v'
  | Call c next => ∃ r log', log = Event c r :: log' ∧ answered (next r) log' v
  end.

(** The commands that change infrastructure. *)
Definition launch (e : event) : option (list string) :=
  match ev_call e with
  | RunCommand _ args =>
      match args with
      | operation :: _ => if bool_decide (operation ∈ ["up"; "destroy"]) then Some args else None
      | [] => None
      end
  | _ => None
  end.
Definition launches (log : list event) : list (list string) := omap launch log.

(** The workspaces made and removed. *)
Definition created (e : event) : option isolatedWorkspace :=
  match e with
  | Event c r =>
      match c return reply c → option isolatedWorkspace with
      | CreateWorkspace _ _ _ _ => λ r, r
      | _ => λ _, None
      end r
  end.
Definition removed (e : event) : option isolatedWorkspace :=
  match ev_call e with CleanupWorkspace w => Some w | _ => None end.

(** The records a history page shows, as the adapter reads them. *)
Definition shown {sdk : Sdk} (e : event) : list updateSummary :=
  match e with
  | Event c r =>
      match c return reply c → list updateSummary with
      | StackHistory _ _ _ _ => λ r, from_option (map normalizeSummary) [] r
      | _ => λ _, []
      end r
  end.

(** The host says that there is no such stack. *)
Definition absent (name : string) (e : event) : bool :=
  match e with
  | Event c r =>
      match c return reply c → bool with
      | ListStacks _ => λ r, non_nil r (λ stacks,
          negb (existsb (λ stack, (stack =? name) || (stack =? path_base name)) stacks))
      | AutoSelectStack _ n => λ r, (n =? name) && match r with StackRefused => true | _ => false end
      | _ => λ _, false
      end r
  end.

(** ** Postconditions of every run *)

Definition ensures {V} (k : auto V) (Q : list event → V → Prop) : Prop :=
  ∀ log v, answered k log v → Q log v.

Section ensures.
Context {V W : Type}.
Implicit Types (Q : list event → V → Prop).

Lemma ensures_return v Q : Q [] v → ensures (Return v) Q.
Proof. intros H log v' [-> ->]. exact H. Qed.

Lemma ensures_call c (next : reply c → auto V) Q :
  (∀ r, ensures (next r) (λ log v, Q (Event c r :: log) v)) → ensures (Call c next) Q.
Proof. intros H log v (r & log' & -> & Hr). by apply H. Qed.

Lemma ensures_weaken (k : auto V) Q Q' :
  ensures k Q → (∀ log v, Q log v → Q' log v) → ensures k Q'.
Proof. intros H HQ log v Hk. by apply HQ, H. Qed.

Lemma answered_bind (k : auto W) (f : W → auto V) log v :
  answered (k ≫= f) log v ↔
  ∃ log1 log2 x, log = log1 ++ log2 ∧ answered k log1 x ∧ answered (f x) log2 v.
Proof.
  revert log. induction k as [x|c next IH]; intros log.
  - split; [intros H; by exists [], log, x|]. by intros (l1 & l2 & y & -> & [-> ->] & H).
  - split.
    + intros (r & log' & -> & H). apply IH in H as (l1 & l2 & x & -> & H1 & H2).
      exists (Event c r :: l1), l2, x. split_and!; [done|by exists r, l1|done].
    + intros (l1 & l2 & x & -> & (r & l1' & -> & H1) & H2).
      exists r, (l1' ++ l2). split; [done|]. apply IH. by exists l1', l2, x.
Qed.

Lemma ensures_bind (k : auto W) (f : W → auto V) (P : list event → W → Prop) Q :
  ensures k P → (∀ log x, P log x → ensures (f x) (λ log' v, Q (log ++ log') v)) →
  ensures (k ≫= f) Q.
Proof. intros Hk Hf log v (l1 & l2 & x & -> & H1 & H2)%answered_bind. by eapply Hf; [apply Hk|]. Qed.
End ensures.

(** Nothing launched, no workspace made or removed. *)
Definition harmless (log : list event) : Prop :=
  launches log = [] ∧ omap created log = [] ∧ omap removed log = [].

Lemma harmless_nil : harmless [].
Proof. done. Qed.

Lemma launches_app log log' : launches (log ++ log') = launches log ++ launches log'.
Proof. apply omap_app. Qed.

Lemma harmless_app log log' : harmless log → harmless log' → harmless (log ++ log').
Proof.
  unfold harmless. rewrite launches_app, !omap_app. intros (-> & -> & ->) (-> & -> & ->). done.
Qed.

Lemma harmless_cons e log :
  launch e = None → created e = None → removed e = None → harmless log → harmless (e :: log).
Proof.
  unfold harmless, launches. cbn [omap list_omap]. by intros -> -> -> (-> & -> & ->).
Qed.
#[export] Hint Resolve harmless_nil harmless_app harmless_cons : core.

(** After a harmless start. *)
Lemma ensures_after {V W} (k : auto W) (f : W → auto V) (Q : list event → V → Prop) :
  ensures k (λ log _, harmless log) → (∀ x, ensures (f x) Q) →
  (∀ log log' v, harmless log → Q log' v → Q (log ++ log') v) → ensures (k ≫= f) Q.
Proof.
  intros Hk Hf HQ. eapply ensures_bind; [exact Hk|]. intros log x Hlog.
  eapply ensures_weaken; [apply Hf|]. auto.
Qed.

(** ** What the parts do *)

(** One step into a computation. *)
Ltac step_in :=
  first [ apply ensures_return
        | apply ensures_call; intros ?
        | match goal with
          | |- ensures (match ?x with _ => _ end) _ => destruct x eqn:?
          | |- ensures (if ?b then _ else _) _ => destruct b eqn:?
          end ].

(** Computations that are harmless on every path. *)
Ltac harmless_run :=
  repeat (step_in; cbn [mbind auto_bind mret auto_ret]);
  repeat (apply harmless_cons; [done..|]); try apply harmless_nil.

Lemma hasStack_ensures w name :
  ensures (hasStack w name) (λ log found,
    harmless log ∧ (found = Some false → existsb (absent name) log = true)).
Proof.
  unfold hasStack, listStacks. cbn [mbind auto_bind]. apply ensures_call. intros stacks.
  apply ensures_return. split; [auto|]. destruct stacks as [stacks|]; [|done].
  cbn. by intros [= ->].
Qed.

Lemma SelectStack_ensures w name :
  ensures (SelectStack w name) (λ log selected,
    harmless log ∧ (selected = Some StackNotFound → existsb (absent name) log = true)).
Proof.
  eapply ensures_bind; [apply hasStack_ensures|]. intros log found [Hlog Habsent].
  destruct found as [[|]|].
  - unfold autoSelect. cbn [mbind auto_bind]. apply ensures_call. intros r. apply ensures_return.
    split; [auto|]. rewrite existsb_app. cbn. rewrite bool_decide_true by done.
    destruct r; try done. intros _. by rewrite orb_true_r.
  - apply ensures_return. rewrite app_nil_r. auto.
  - apply ensures_return. rewrite app_nil_r. by split.
Qed.

Lemma CreateStack_ensures w name :
  ensures (CreateStack w name) (λ log made, harmless log ∧ made ≠ Some StackNotFound).
Proof.
  unfold CreateStack, autoNew, hasStack, listStacks. cbn.
  repeat (step_in; cbn [mbind auto_bind mret auto_ret]);
    (split; [repeat (apply harmless_cons; [done..|]); apply harmless_nil|]); try done.
  by destruct (option_map _ _) as [[]|].
Qed.

Lemma stackFor_ensures w name capability :
  ensures (stackFor w name capability) (λ log selected,
    harmless log ∧ (selected = Some StackNotFound → existsb (absent name) log = true)).
Proof.
  eapply ensures_bind; [apply SelectStack_ensures|]. intros log selected [Hlog Habsent].
  destruct (_ && _); [|apply ensures_return; rewrite app_nil_r; by split].
  eapply ensures_bind; [apply CreateStack_ensures|]. intros log' made [Hlog' Hmade].
  destruct (bool_decide _); [|apply ensures_return; split; [auto|by intros ?]].
  eapply ensures_weaken; [apply SelectStack_ensures|]. intros log'' found [Hlog'' Hfound].
  split; [auto|]. intros Hf. rewrite !existsb_app, (Hfound Hf). by rewrite !orb_true_r.
Qed.

Lemma provided_harmless p : ensures (provided p) (λ log _, harmless log).
Proof. unfold provided, provide. destruct (pc_Environment _); cbn; harmless_run. Qed.

Lemma Open_harmless w : ensures (Open w) (λ log _, harmless log).
Proof. unfold Open. harmless_run. Qed.

Section parts.
Context {digest : Digest} {sdk : Sdk} {numbers : NumberParser}.

(** A launch, and the record it finds of itself. *)
Lemma run_ensures w name operation message :
  operation ∈ ["up"; "destroy"] →
  ensures (run w name operation message) (λ log summary,
    launches log = [launchArgs operation name message] ∧
    omap created log = [] ∧ omap removed log = [] ∧
    ∀ s, summary = Some s → us_message s = message ∧ s ∈ concat (map shown log)).
Proof.
  intros Hop. assert (∀ r, launch (Event (RunCommand w (launchArgs operation name message)) r) =
    Some (launchArgs operation name message)) as Hlaunch.
  { intros r. cbn. by rewrite bool_decide_true. }
  unfold run, runCommand, History, stackHistory, launches. cbn [mbind auto_bind].
  apply ensures_call. intros [ran|].
  - apply ensures_call. intros history. cbn [option_map]. apply ensures_return.
    cbn [omap list_omap]. rewrite Hlaunch. split_and!; [done..|].
    intros s Hs. destruct history as [h|]; [|done]. cbn [option_map] in Hs.
    apply find_some in Hs as [Hin [Hm%bool_decide_eq_true _]%andb_true_iff].
    split; [done|]. cbn. rewrite app_nil_r. by apply list_elem_of_In.
  - apply ensures_return. cbn [omap list_omap]. rewrite Hlaunch. split_and!; done.
Qed.

(** A scan changes nothing, and answers from what it was shown. *)
Lemma scanHistory_ensures w name pageSize capability message handle left page matches :
  Forall (λ s, us_message s = message) matches →
  ensures (scanHistory w name pageSize capability message handle left page matches)
    (λ log found, harmless log ∧ ∀ o, found = inl o → o = uncorrelatedRecord ∨
       ∃ s, s ∈ matches ++ concat (map shown log) ∧ us_message s = message ∧
            o = observationFromSummary s (expectedHistoryKind capability) message handle).
Proof.
  assert (∀ shown_log ms : list updateSummary, Forall (λ s, us_message s = message) ms → ∀ o,
    o = matched capability message handle ms → (∀ s, s ∈ ms → s ∈ shown_log) →
    o = uncorrelatedRecord ∨ ∃ s, s ∈ shown_log ∧ us_message s = message ∧
      o = observationFromSummary s (expectedHistoryKind capability) message handle) as Hmatched.
  { intros shown_log [|s [|s' ms]] Hms o ->; cbn; [by left| |by left].
    intros Hin. right. exists s. apply Forall_cons in Hms as [? _].
    split_and!; [apply Hin; left|done|done]. }
  revert page matches. induction left as [|left IH]; intros page matches Hm; cbn [scanHistory].
  { apply ensures_return. split; [apply harmless_nil|]. intros o [= <-].
    rewrite app_nil_r. by eapply Hmatched. }
  unfold History, stackHistory. cbn [mbind auto_bind]. apply ensures_call. intros [history|];
    cbn [option_map]; [|apply ensures_return; split; [auto|done]].
  set (found := filter (λ s, us_message s = message) (map normalizeSummary history)).
  assert (Forall (λ s, us_message s = message) (matches ++ found)) as Hf.
  { apply Forall_app. split; [done|]. apply Forall_forall. by intros s [? _]%list_elem_of_filter. }
  assert (∀ s (rest : list updateSummary), s ∈ matches ++ found → s ∈ matches ++ map normalizeSummary history ++ rest)
    as Hsub.
  { intros s rest. rewrite !elem_of_app. intros [|[_ ?]%list_elem_of_filter]; auto. }
  destruct (Z.ltb _ pageSize); [apply ensures_return; split; [auto|]|].
  { intros o [= <-]. eapply Hmatched; [exact Hf|done|]. intros s Hs. by apply Hsub. }
  destruct (bool_decide (left = 0%nat)).
  { apply ensures_return. split; [auto|]. intros o [= <-]. by left. }
  eapply ensures_weaken; [by apply IH|]. intros log x [Hlog Hx]. split; [auto|].
  intros o Ho. destruct (Hx o Ho) as [->|(s & Hin & Hs & ->)]; [by left|]. right. exists s.
  split_and!; [|done..]. cbn. change (from_option _ _ _) with (map normalizeSummary history).
  rewrite elem_of_app in Hin. destruct Hin as [Hin|Hin]; [by apply Hsub|].
  rewrite !elem_of_app. auto.
Qed.

(** The same but for the outputs. *)
Definition outputless (o : ExecutionObservation) : ExecutionObservation :=
  o <| eo_Outputs := None |>.

Lemma pulumiOutputs_ensures p w name o request :
  ensures (pulumiOutputs p w name o request) (λ log result,
    harmless log ∧ outputless result.1 = outputless o ∧
    ∀ e, result.2 = Some e → errors_is e ErrObservationFailure = true).
Proof.
  assert (∀ mapping ref, ensures (readOutputs w name o request mapping ref) (λ log result,
    harmless log ∧ outputless result.1 = outputless o ∧ result.2 = None)) as Hread.
  { intros mapping ref. unfold readOutputs, SelectedOutput, runCommand. cbn [mbind auto_bind].
    apply ensures_call. intros r. apply ensures_return. split; [auto|].
    split; repeat case_match; done. }
  assert (∀ format args e, output_error format args = Some e →
    errors_is e ErrObservationFailure = true) as Herr.
  { intros format args e [= <-]. reflexivity. }
  unfold pulumiOutputs.
  repeat case_match; first
    [ apply ensures_return; split_and!; [auto|done|by eauto]
    | eapply ensures_weaken; [apply Hread|]; intros log r (? & ? & ->); by split_and! ].
Qed.

Lemma concludes_ensures p w name request o :
  ensures (concludes p w name request o) (λ log answer, harmless log ∧
    ((∃ o', answer = Ok ({| sub_Observation := o' |}, None) ∧ outputless o' = outputless o) ∨
     ∃ e, answer = Ok (zeroSubmission, Some e) ∧ errors_is e ErrObservationFailure = true)).
Proof.
  eapply ensures_bind; [apply pulumiOutputs_ensures|]. intros log [o' [e|]] (Hlog & Ho & He);
    apply ensures_return; rewrite app_nil_r; split; try done.
  - right. exists e. split; [done|]. by apply He.
  - left. by exists o'.
Qed.

(** What an answer tells once something was launched: the result of a record
    that bears the message of the request, or that the outcome is not known, or
    that its outputs cannot be read. *)
Definition reported (p : PProvisioner) (request : ExecutionRequest) (log : list event)
    (answer : submit_result) : Prop :=
  (∃ o s, answer = Ok ({| sub_Observation := o |}, None) ∧ s ∈ concat (map shown log) ∧
     us_message s = requestMessage request ∧
     us_kind s = expectedHistoryKind (er_Capability request) ∧
     outputless o = observationFromSummary s (expectedHistoryKind (er_Capability request))
       (requestMessage request) (requestHandle p request)) ∨
  answer = Ok (undeterminedSubmission (requestHandle p request), Some ErrAmbiguousSubmission) ∨
  ∃ e, answer = Ok (zeroSubmission, Some e) ∧ errors_is e ErrObservationFailure = true.

Lemma reported_more p request log log' answer :
  (∀ s, s ∈ concat (map shown log) → s ∈ concat (map shown log')) →
  reported p request log answer → reported p request log' answer.
Proof.
  intros H [(o & s & ? & ? & ?)|Hr]; [left; exists o, s; eauto|by right].
Qed.

(** A record that was found has the message and the kind. *)
Lemma observationFromSummary_found s kind message handle :
  eo_Correlation (observationFromSummary s kind message handle) = RequestCorrelationFound →
  us_message s = message ∧ us_kind s = kind.
Proof.
  unfold observationFromSummary.
  destruct (bool_decide_reflect (us_message s = message)), (bool_decide_reflect (us_kind s = kind));
    cbn; done.
Qed.

Lemma observationFromSummary_outputless s kind message handle :
  outputless (observationFromSummary s kind message handle) =
  observationFromSummary s kind message handle.
Proof.
  unfold observationFromSummary, outputless. destruct (_ || _); [done|].
  destruct (summaryState s). by destruct (_ && _).
Qed.

Lemma concludes_reported p w name request s :
  let o := observationFromSummary s (expectedHistoryKind (er_Capability request))
             (requestMessage request) (requestHandle p request) in
  eo_Correlation o = RequestCorrelationFound →
  ensures (concludes p w name request o) (λ log answer, harmless log ∧
    ∀ seen, s ∈ concat (map shown seen) → reported p request seen answer).
Proof.
  intros o Hfound. eapply ensures_weaken; [apply concludes_ensures|].
  intros log answer [Hlog Hanswer]. split; [done|]. intros seen Hs.
  destruct Hanswer as [(o' & -> & Ho)|He]; [left|by right; right].
  destruct (observationFromSummary_found _ _ _ _ Hfound). exists o', s.
  split_and!; [done..|]. rewrite Ho. apply observationFromSummary_outputless.
Qed.

Lemma recoverOutcome_ensures p w name request :
  ensures (recoverOutcome p w name request) (λ log answer,
    harmless log ∧ reported p request log answer).
Proof.
  eapply ensures_bind.
  { apply (scanHistory_ensures w name _ _ (requestMessage request) _ _ _ []). constructor. }
  intros log found [Hlog Hfound]. destruct found as [o|]; [|apply ensures_return].
  2: { rewrite app_nil_r. split; [done|]. by right; left. }
  destruct (_ && _) eqn:Hok; [|apply ensures_return; rewrite app_nil_r; split; [done|by right; left]].
  apply andb_true_iff in Hok as [Hcorr%bool_decide_eq_true Hex].
  destruct (Hfound o eq_refl) as [->|(s & Hin & _ & ->)]; [done|].
  eapply ensures_weaken; [by apply concludes_reported|].
  intros log' answer [Hlog' Hanswer]. split; [auto|]. apply Hanswer.
  cbn [app] in Hin. rewrite map_app, concat_app. apply elem_of_app. by left.
Qed.

Lemma launches_stack_ensures p w name request :
  ensures (launches_stack p w name request) (λ log answer,
    launches log = [launchArgs (launchOperation (er_Capability request)) name
                      (requestMessage request)] ∧
    omap created log = [] ∧ omap removed log = [] ∧ reported p request log answer).
Proof.
  eapply ensures_bind.
  { apply run_ensures. unfold launchOperation. destruct (bool_decide _); set_solver. }
  intros log summary (Hlaunch & Hc & Hr & Hsummary).
  assert (∀ k, ensures k (λ log' answer, harmless log' ∧ reported p request (log ++ log') answer) →
    ensures k (λ log' answer, launches (log ++ log') = [launchArgs (launchOperation
        (er_Capability request)) name (requestMessage request)] ∧
      omap created (log ++ log') = [] ∧ omap removed (log ++ log') = [] ∧
      reported p request (log ++ log') answer)) as Hthen.
  { intros k Hk. eapply ensures_weaken; [exact Hk|]. intros log' answer ((Hl & Hc' & Hr') & Hrep).
    rewrite launches_app, !omap_app, Hlaunch, Hl, Hc, Hc', Hr, Hr'. done. }
  apply Hthen. assert (ensures (recoverOutcome p w name request) (λ log' answer,
    harmless log' ∧ reported p request (log ++ log') answer)) as Hrecovers.
  { eapply ensures_weaken; [apply recoverOutcome_ensures|]. intros log' answer [? Hrep]. split; [done|].
    eapply reported_more; [|exact Hrep]. intros s Hs. rewrite map_app, concat_app.
    apply elem_of_app. by right. }
  destruct summary as [s|]; [|done]. cbv zeta. destruct (_ && _) eqn:Hok; [|done].
  apply andb_true_iff in Hok as [Hcorr%bool_decide_eq_true _].
  destruct (Hsummary s eq_refl) as [_ Hin].
  eapply ensures_weaken; [by apply concludes_reported|]. intros log' answer [Hlog' Hanswer].
  split; [done|]. apply Hanswer. rewrite map_app, concat_app. apply elem_of_app. by left.
Qed.

(** ** Submit *)

Definition stack_absent (p : PProvisioner) (request : ExecutionRequest) (log : list event) : Prop :=
  ∃ program name, lookupProgram (pp_programs p) (er_ResourceType request) = Some program ∧
    stackName p (prog_ProjectName program) (er_ResourceID request) = Ok name ∧
    existsb (absent name) log = true.

Lemma stack_absent_more p request log log' :
  (∀ name, existsb (absent name) log = true → existsb (absent name) log' = true) →
  stack_absent p request log → stack_absent p request log'.
Proof. intros H (program & name & ? & ? & ?). exists program, name. auto. Qed.

(** Nothing was launched and the answer is a rejection, which says that something
    was not found only of the request's stack; or one launch, of the request's
    own stack and with its message, is reported. *)
Definition submission_told (p : PProvisioner) (request : ExecutionRequest) (log : list event)
    (answer : submit_result) : Prop :=
  (launches log = [] ∧ ∃ kind reason, answer = Ok (rejectedSubmission kind reason, None) ∧
     (kind = FailureNotFound → stack_absent p request log)) ∨
  ∃ program name, lookupProgram (pp_programs p) (er_ResourceType request) = Some program ∧
    er_Capability request ∈ prog_Capabilities program ∧
    stackName p (prog_ProjectName program) (er_ResourceID request) = Ok name ∧
    launches log = [launchArgs (launchOperation (er_Capability request)) name
                      (requestMessage request)] ∧
    reported p request log answer.

(** No workspace is made or removed meanwhile. *)
Definition settles (p : PProvisioner) (request : ExecutionRequest) (log : list event)
    (answer : submit_result) : Prop :=
  omap created log = [] ∧ omap removed log = [] ∧ submission_told p request log answer.

Lemma rejects_ensures p request kind reason :
  kind ≠ FailureNotFound → ensures (rejects kind reason) (settles p request).
Proof.
  intros Hk. apply ensures_return. split_and!; [done..|]. left. split; [done|].
  by eexists _, _.
Qed.

Lemma submission_told_after p request log log' answer :
  launches log = [] → submission_told p request log' answer → submission_told p request (log ++ log') answer.
Proof.
  intros Hl [[Hl' Hanswer]|(program & name & Hp & Hc & Hn & Hl' & Hrep)].
  - left. rewrite launches_app, Hl, Hl'. split; [done|].
    destruct Hanswer as (kind & reason & ? & Hk). exists kind, reason. split; [done|].
    intros HF. eapply stack_absent_more, Hk, HF. intros name. rewrite existsb_app.
    intros ->. apply orb_true_r.
  - right. exists program, name. split_and!; [done..| |].
    + by rewrite launches_app, Hl, Hl'.
    + eapply reported_more; [|exact Hrep]. intros s Hs. rewrite map_app, concat_app.
      apply elem_of_app. by right.
Qed.

Lemma settles_after p request log log' answer :
  harmless log → settles p request log' answer → settles p request (log ++ log') answer.
Proof.
  intros (Hl & Hc & Hr) (Hc' & Hr' & Hs). unfold settles. rewrite !omap_app, Hc, Hr, Hc', Hr'.
  split_and!; [done..|]. by apply submission_told_after.
Qed.

Lemma submitIn_ensures p program request supplied iw :
  pc_StackNamingVersion (pp_config p) = StackNamingVersionV1 →
  lookupProgram (pp_programs p) (er_ResourceType request) = Some program →
  er_Capability request ∈ prog_Capabilities program →
  ensures (submitIn p program request supplied iw) (settles p request).
Proof.
  intros Hv Hp Hcap. eapply ensures_after; [apply Open_harmless| |apply settles_after].
  intros opened. destruct opened; cbn [negb]; [|by apply rejects_ensures].
  destruct (stackName p _ _) as [name| |] eqn:Hname; [|unfold stackName in Hname;
    rewrite bool_decide_true in Hname by done; done..].
  eapply ensures_bind; [apply stackFor_ensures|]. intros log selected [Hlog Habsent].
  assert (∀ k, ensures k (settles p request) →
    ensures k (λ log' answer, settles p request (log ++ log') answer)) as Hthen.
  { intros k Hk. eapply ensures_weaken; [exact Hk|]. auto using settles_after. }
  destruct selected as [[]|].
  - apply ensures_return. rewrite app_nil_r. destruct Hlog as (Hl & Hc & Hr).
    split_and!; [done..|]. left. split; [done|]. eexists _, _. split; [done|]. intros _.
    exists program, name. auto.
  - by apply Hthen, rejects_ensures.
  - by apply Hthen, rejects_ensures.
  - apply Hthen. eapply ensures_weaken; [apply launches_stack_ensures|].
    intros log' answer (Hl & Hc & Hr & Hrep). split_and!; [done..|]. right.
    by exists program, name.
Qed.

(** ** A provisioner that was made *)

Lemma registerPrograms_sound host registered programs result :
  registerPrograms host registered programs = Ok result →
  (∀ ref program, lookupProgram registered ref = Some program →
     is_Some (prog_EncodeInput program)) →
  ∀ ref program, lookupProgram result ref = Some program →
     is_Some (prog_EncodeInput program) ∧
     (program ∈ programs ∨ lookupProgram registered ref = Some program).
Proof.
  assert (∀ l r program ref, lookupProgram (l ++ [(r, program)]) ref =
    match lookupProgram l ref with
    | Some found => Some found
    | None => if bool_decide (r = ref) then Some program else None
    end) as Hsnoc.
  { induction l as [|[r' program'] l IH]; intros; cbn; [done|].
    destruct (bool_decide (r' = ref)); [done|apply IH]. }
  revert registered. induction programs as [|program rest IH]; intros registered; cbn.
  { intros [= <-] H ref program Hp. split; [by eapply H|by right]. }
  intros (? & Hcheck & [_ H]%fail_if_Ok)%bind_Ok Hreg ref found Hfound.
  assert (is_Some (prog_EncodeInput program)) as Henc.
  { unfold checkProgram in Hcheck. apply fail_if_Ok in Hcheck as [Hc _].
    apply orb_false_iff in Hc as [_ Hc]. apply negb_false_iff, non_nil_true in Hc as (e & He & _).
    by exists e. }
  eapply IH in H as [Hsome Hin]; [|..|exact Hfound].
  - split; [done|]. rewrite Hsnoc in Hin.
    destruct Hin as [Hin|Hin]; [left; by right|].
    destruct (lookupProgram registered ref); [by right|].
    destruct (bool_decide _); [|done]. injection Hin as ->. left. left.
  - intros ref' program'. rewrite Hsnoc. destruct (lookupProgram registered ref') eqn:Hr.
    + intros [= <-]. by eapply Hreg.
    + destruct (bool_decide _); [|done]. by intros [= <-].
Qed.

(** Its names are of the version it knows, its programs have encoders; those
    are functions of the platform that do not panic. *)
Definition sound (p : PProvisioner) : Prop :=
  pc_StackNamingVersion (pp_config p) = StackNamingVersionV1 ∧
  (0 < pc_HistoryPageSize (pp_config p))%Z ∧ (0 < pc_HistoryMaximumPages (pp_config p))%Z ∧
  ∀ ref program, lookupProgram (pp_programs p) ref = Some program →
    ∀ input m, encodeInput program input ≠ Panic m.

Definition encodes (config : PulumiConfig) : Prop :=
  ∀ program encode input m, program ∈ pc_Programs config →
    prog_EncodeInput program = Some encode → encode input ≠ Panic m.

Lemma newPulumi_sound host config p : newPulumi host config = Ok p → encodes config → sound p.
Proof.
  unfold newPulumi, PulumiConfig_validate. intros (programs & H & [= <-])%bind_Ok Henc.
  repeat (apply fail_if_Ok in H as [? H]).
  repeat match goal with
         | Hn : negb (bool_decide _) = false |- _ =>
             apply negb_false_iff, bool_decide_eq_true in Hn
         | Hn : (Z.leb _ _ || Z.leb _ _) = false |- _ =>
             apply orb_false_iff in Hn as [?%Z.leb_gt ?%Z.leb_gt]
         end.
  split_and!; [done..|]. cbn. intros ref program Hp input m.
  destruct (registerPrograms_sound _ _ _ _ H ltac:(done) _ _ Hp) as [[encode He] [Hin|?]]; [|done].
  unfold encodeInput. rewrite He. by eapply Henc.
Qed.

(** [Submit] removes the workspace it makes. *)
Lemma PSubmit_ensures p request :
  sound p →
  ensures (PSubmit p request) (λ log answer,
    omap created log = omap removed log ∧ (length (omap created log) ≤ 1)%nat ∧
    submission_told p request log answer).
Proof.
  intros (Hv & _ & _ & Henc).
  assert (∀ k, ensures k (settles p request) → ensures k (λ log answer,
    omap created log = omap removed log ∧ (length (omap created log) ≤ 1)%nat ∧
    submission_told p request log answer)) as Hsettles.
  { intros k Hk. eapply ensures_weaken; [exact Hk|]. intros log answer (-> & -> & ?).
    split_and!; [done|cbn; lia|done]. }
  pose proof (λ kind reason Hk, Hsettles _ (rejects_ensures p request kind reason Hk)) as Hrejects.
  unfold PSubmit. destruct (negb _); [by apply Hrejects|].
  destruct (lookupProgram _ _) as [program|] eqn:Hp; [|by apply Hrejects].
  destruct (programSupports _ _) eqn:Hcap; cbn [negb]; [|by apply Hrejects].
  apply bool_decide_eq_true in Hcap.
  eapply ensures_after; [apply provided_harmless| |].
  2: { intros log log' answer (Hl & Hc & Hr) (Hcr & Hlen & Hs). rewrite !omap_app, Hc, Hr.
       split_and!; [done..|]. by apply submission_told_after. }
  intros values. destruct (resolveProgramEnvironment _ _) as [supplied|[]]; [|by apply Hrejects..].
  destruct (encodeInput _ _) as [encoded|e|m] eqn:Hm; [|by apply Hrejects|by eapply Henc in Hm].
  unfold createWorkspace. cbn [mbind auto_bind]. apply ensures_call. intros made. cbn in made.
  destruct made as [iw|].
  - eapply ensures_bind; [by apply submitIn_ensures|]. intros log answer (Hc & Hr & Hs).
    unfold cleanup. cbn [mbind auto_bind]. apply ensures_call. intros []. apply ensures_return.
    set (made := Event (CreateWorkspace _ _ _ _) _). set (gone := Event (CleanupWorkspace _) _).
    change (omap created (made :: log ++ [gone])) with (iw :: omap created (log ++ [gone])).
    change (omap removed (made :: log ++ [gone])) with (omap removed (log ++ [gone])).
    rewrite !omap_app, Hc, Hr. split_and!; [done|cbn; lia|].
    apply (submission_told_after p request [made]); [done|].
    destruct Hs as [[Hl Ha]|(pr & name & ? & ? & ? & Hl & Hrep)].
    + left. rewrite launches_app, Hl. split; [done|].
      destruct Ha as (kind & reason & ? & Hk). exists kind, reason. split; [done|].
      intros HF. eapply stack_absent_more, Hk, HF. intros name. rewrite existsb_app. by intros ->.
    + right. exists pr, name. rewrite launches_app, Hl. split_and!; [done..|].
      eapply reported_more; [|exact Hrep]. intros s Hin. rewrite map_app, concat_app.
      apply elem_of_app. by left.
  - apply ensures_return. split_and!; [done|cbn; lia|]. left. split; [done|]. eexists _, _. by split.
Qed.
End parts.

(** ** How Liftr reads an answer *)

Lemma unknownResource_valid : validateObservedFacts unknownResource = None.
Proof. reflexivity. Qed.
Lemma destroyedResource_valid : validateObservedFacts destroyedResource = None.
Proof. reflexivity. Qed.

(** What is recorded of a finished record. *)
Lemma observationFromSummary_matched {sdk : Sdk} s kind message handle :
  us_message s = message → us_kind s = kind →
  let o := observationFromSummary s kind message handle in
  eo_Correlation o = RequestCorrelationFound ∧
  eo_Execution o = Some {| ex_State := (summaryState s).1; ex_Handle := Some handle;
                           ex_Failure := (summaryState s).2 |} ∧
  validateObservedFacts (eo_Resource o) = None ∧
  eo_ObservedAt o = summaryTime (us_endTime s).
Proof.
  intros Hm Hk. unfold observationFromSummary. rewrite !bool_decide_true by done. cbn [negb orb].
  destruct (summaryState s) as [state failure]. destruct (_ && _); split_and!; done.
Qed.

Lemma summaryState_valid s : ValidExecutionState (summaryState s).1 = true.
Proof. unfold summaryState. repeat case_match; reflexivity. Qed.

Lemma summaryState_succeeded s :
  (summaryState s).1 = ExecutionStateSucceeded → us_result s = "succeeded".
Proof.
  unfold summaryState. destruct (bool_decide_reflect (us_result s = "succeeded")); [done|].
  repeat case_match; done.
Qed.

Section interpreted.
Context {digest : Digest} {sdk : Sdk} {numbers : NumberParser} (Error : error → string).

(** An interpretation with a verdict on the attempt, and a success only as the
    third argument says. *)
Definition interpreted (rejected succeeded : Prop)
    (reading : outcome (ProvisioningExecutionRecord * SubmissionAttemptRecord *
                        SubmissionOutcome * option Finish)) : Prop :=
  ∃ e a result finish, reading = Ok (e, a, result, finish) ∧
    (sa_State a = SubmissionAttemptRejected ↔ rejected) ∧
    (result = SubmissionOutcomeSucceeded → succeeded).

Lemma interpreted_ambiguous e a failure (P Q : Prop) :
  ¬ P → interpreted P Q (ambiguous e a failure).
Proof. intros HP. eexists _, _, _, _. split; [done|]. split; [|done]. by split. Qed.

Lemma interpreted_rejected e a kind reason now (Q : Prop) :
  (pe_Capability e = CapabilityDelete → kind = FailureNotFound → Q) →
  interpreted True Q
    (InterpretSubmission Error e a (rejectedSubmission kind reason) None now).
Proof.
  intros HQ. unfold InterpretSubmission.
  cbn [rejectedSubmission sub_Observation eo_ObservedAt eo_Resource eo_Execution].
  rewrite unknownResource_valid.
  change (non_nil _ (λ _, providerEvidenceStale e time_zero)) with false. cbv iota.
  unfold interpretFresh, resolveSubmission. cbn -[recordSubmission ConclusiveManagedAbsence].
  match goal with |- context [if ConclusiveManagedAbsence ?c ?k ?x ?ac then _ else _] =>
    destruct (ConclusiveManagedAbsence c k x ac) eqn:Hc end.
  - eexists _, _, _, _. split; [done|]. split; [done|]. intros _.
    unfold ConclusiveManagedAbsence in Hc. cbn in Hc. autorewrite with go_bool in Hc.
    destruct Hc as [[[Hcap _] _] [_ Hk]]. apply HQ; [|exact Hk]. rewrite <-Hcap.
    unfold recordSubmission, acceptProviderEvidence. cbn. by repeat case_match.
  - eexists _, _, _, _. split; [done|]. done.
Qed.

Lemma interpreted_found e a o execution now (Q : Prop) :
  sa_State a ≠ SubmissionAttemptRejected →
  eo_Correlation o = RequestCorrelationFound → eo_Execution o = Some execution →
  validateObservedFacts (eo_Resource o) = None → ValidExecutionState (ex_State execution) = true →
  (ex_State execution = ExecutionStateSucceeded → Q) →
  interpreted False Q (InterpretSubmission Error e a {| sub_Observation := o |} None now).
Proof.
  intros Ha Hcorr Hex Hfacts Hstate HQ. unfold InterpretSubmission. cbn [sub_Observation].
  rewrite Hfacts, Hex. cbn [non_nil].
  destruct (providerEvidenceStale _ _); [apply interpreted_ambiguous; intros []|].
  unfold interpretFresh, resolveSubmission. cbn [sub_Observation]. rewrite Hex, Hcorr, Hstate.
  change (RequestCorrelationFound =? RequestCorrelationNotFound) with false.
  change (RequestCorrelationFound =? RequestCorrelationFound) with true.
  rewrite !andb_false_r. cbn [andb orb negb non_nil].
  destruct (ex_State execution =? ExecutionStateUnknown) eqn:Hu; cbn [orb];
    [apply interpreted_ambiguous; intros []|].
  unfold submissionResult. unfold ValidExecutionState in Hstate.
  destruct (_ || (ex_State execution =? ExecutionStateRunning));
    [eexists _, _, _, _; split; [done|]; done|].
  destruct (bool_decide_reflect (ex_State execution = ExecutionStateSucceeded));
    [eexists _, _, _, _; split; [done|]; split; [done|by auto]|].
  destruct (bool_decide_reflect (ex_State execution = ExecutionStateFailed));
    [eexists _, _, _, _; split; [done|]; done|].
  by rewrite Hu in Hstate.
Qed.

Lemma interpreted_undetermined e a s err now (P Q : Prop) :
  ¬ P → eo_Execution (sub_Observation s) = None ∨
        non_nil (eo_Execution (sub_Observation s)) (λ x, ex_State x =? ExecutionStateUnknown) →
  interpreted P Q (InterpretSubmission Error e a s err now).
Proof.
  intros HP Hs. unfold InterpretSubmission.
  destruct (non_nil _ (λ _, providerEvidenceStale _ _)); [by apply interpreted_ambiguous|].
  assert (∀ x a now, eo_Execution (sub_Observation x) = eo_Execution (sub_Observation s) →
    interpreted P Q (interpretFresh Error e a x err now)) as Hfresh.
  { intros x a' now' Hx. unfold interpretFresh, resolveSubmission. rewrite Hx.
    destruct Hs as [->|Hs]; [by apply interpreted_ambiguous|].
    destruct (eo_Execution (sub_Observation s)) as [backend|]; [|done]. cbn in Hs.
    apply Is_true_true in Hs. rewrite Hs, !orb_true_r. cbn [orb].
    by apply interpreted_ambiguous. }
  destruct (validateObservedFacts _); [|by apply Hfresh].
  destruct (non_nil _ (λ x, terminalState _)); [|by apply interpreted_ambiguous].
  by apply Hfresh.
Qed.
End interpreted.

(** ** Observe *)

(** The history of a stack is this list of records, while its pages are read. *)
Definition from_history (records : list updateSummary) (e : event) : Prop :=
  match e with
  | Event c r =>
      match c return reply c → Prop with
      | StackHistory _ _ size page => λ r, ∀ h, r = Some h →
          h = take (Z.to_nat size) (drop (Z.to_nat ((page - 1) * size)) records)
      | _ => λ _, True
      end r
  end.

Section observe.
Context {digest : Digest} {sdk : Sdk} {numbers : NumberParser}.

Definition bearing (message : string) (records : list updateSummary) : list updateSummary :=
  filter (λ s, us_message s = message) (map normalizeSummary records).

Lemma bearing_app message l k : bearing message (l ++ k) = bearing message l ++ bearing message k.
Proof. unfold bearing. by rewrite map_app, filter_app. Qed.

(** The scan reads the whole history, or finds it too long. *)
Lemma scanHistory_exact w name size capability message handle records left k :
  (0 < size)%Z → (0 < left)%nat → (k * Z.to_nat size ≤ length records)%nat →
  ensures (scanHistory w name size capability message handle left (Z.of_nat k + 1)
             (bearing message (take (k * Z.to_nat size) records)))
    (λ log found, Forall (from_history records) log → ∀ o, found = inl o →
       o = if Nat.leb ((k + left) * Z.to_nat size) (length records) then uncorrelatedRecord
           else matched capability message handle (bearing message records)).
Proof.
  intros Hsize. set (n := Z.to_nat size). assert (0 < n)%nat as Hn by lia.
  revert k. induction left as [|left IH]; intros k Hleft Hk; [lia|]. cbn [scanHistory].
  unfold History, stackHistory. cbn [mbind auto_bind]. apply ensures_call. intros [h|];
    cbn [option_map]; [|by apply ensures_return].
  set (page := take n (drop (k * n) records)).
  assert (∀ log, Forall (from_history records) (Event (StackHistory w name size (Z.of_nat k + 1))
    (Some h) :: log) → h = page ∧ Forall (from_history records) log) as Hpage.
  { intros log [H Hlog]%Forall_cons. split; [|done]. rewrite (H h eq_refl). subst page.
    do 2 f_equal. lia. }
  assert (take (k * n) records ++ page = take (S k * n) records) as Hnext.
  { subst page. rewrite take_take_drop. f_equal. lia. }
  assert (length page = Nat.min n (length records - k * n)) as Hlen
    by (subst page; by rewrite length_take, length_drop).
  change (filter (λ s, us_message s = message) (map normalizeSummary h)) with (bearing message h).
  rewrite <-bearing_app, length_map. destruct (Z.ltb_spec (Z.of_nat (length h)) size).
  { apply ensures_return. intros [-> _]%Hpage o [= <-].
    assert ((k + S left) * n = k * n + n + left * n)%nat as Hmul by lia.
    destruct (Nat.leb_spec ((k + S left) * n) (length records)); [lia|].
    by rewrite Hnext, take_ge by lia. }
  destruct (bool_decide_reflect (left = 0%nat)) as [->|Hl].
  { apply ensures_return. intros [-> _]%Hpage o [= <-].
    destruct (Nat.leb_spec ((k + 1) * n) (length records)); [done|]. lia. }
  intros log found Hrun Hlog o Ho. 
  destruct (Hpage _ Hlog) as [-> Hlog']. rewrite Hnext in Hrun.
  replace (k + S left)%nat with (S k + left)%nat by lia.
  eapply (IH (S k)); [lia|lia| |exact Hlog'|exact Ho].
  by replace (Z.of_nat (S k) + 1)%Z with (Z.of_nat k + 1 + 1)%Z by lia.
Qed.

(** What a history says of a request: nothing if it is longer than the scan
    allows or if not exactly one record bears the message. *)
Definition history_verdict (p : PProvisioner) (request : ObservationRequest)
    (records : list updateSummary) : ExecutionObservation :=
  if Z.leb (pc_HistoryMaximumPages (pp_config p) * pc_HistoryPageSize (pp_config p))
       (Z.of_nat (length records)) then uncorrelatedRecord
  else matched (or_Capability request)
         (correlationMessage (or_OperationID request) (or_AttemptNumber request))
         (pulumiHandle p (or_OperationID request) (or_AttemptNumber request)
            (or_ResourceID request))
         (bearing (correlationMessage (or_OperationID request) (or_AttemptNumber request)) records).

Lemma history_verdict_correlation p request records :
  eo_Correlation (history_verdict p request records) ≠ RequestCorrelationNotFound.
Proof.
  unfold history_verdict, matched, observationFromSummary. repeat case_match; done.
Qed.

(** The answer of an observation that was not refused. *)
Definition observed_exactly (p : PProvisioner) (request : ObservationRequest)
    (records : list updateSummary) (log : list event) (answer : observation_result) : Prop :=
  launches log = [] ∧
  ∀ o, answer = Ok (o, None) → Forall (from_history records) log →
  (o = uncorrelatedRecord ∧ ∃ program name,
     lookupProgram (pp_programs p) (or_ResourceType request) = Some program ∧
     stackName p (prog_ProjectName program) (or_ResourceID request) = Ok name ∧
     existsb (absent name) log = true) ∨
  outputless o = history_verdict p request records.

Lemma observed_exactly_after p request records log log' answer :
  harmless log → observed_exactly p request records log' answer →
  observed_exactly p request records (log ++ log') answer.
Proof.
  intros (Hl & _) [Hl' Ho]. split; [by rewrite launches_app, Hl, Hl'|].
  intros o Hanswer [_ Hrecords]%Forall_app. destruct (Ho o Hanswer Hrecords) as
    [(-> & program & name & Hp & Hn & Ha)|Hv]; [left|by right].
  split; [done|]. exists program, name. split_and!; [done..|]. by rewrite existsb_app, Ha, orb_true_r.
Qed.

Definition observed_harmlessly (p : PProvisioner) (request : ObservationRequest)
    (records : list updateSummary) (log : list event) (answer : observation_result) : Prop :=
  harmless log ∧ observed_exactly p request records log answer.

Lemma observed_harmlessly_after p request records log log' answer :
  harmless log → observed_harmlessly p request records log' answer →
  observed_harmlessly p request records (log ++ log') answer.
Proof. intros Hlog [? ?]. split; [auto|by apply observed_exactly_after]. Qed.

Lemma observeIn_ensures p program request supplied iw records :
  sound p → lookupProgram (pp_programs p) (or_ResourceType request) = Some program →
  ensures (observeIn p program request supplied iw) (observed_harmlessly p request records).
Proof.
  intros (Hv & Hsize & Hpages & _) Hp.
  assert (∀ failure, ensures (unobservedPulumi failure) (observed_harmlessly p request records))
    as Hun by by intros failure; apply ensures_return.
  eapply ensures_after; [apply Open_harmless| |apply observed_harmlessly_after].
  intros opened. destruct opened; cbn [negb]; [|apply Hun].
  destruct (stackName p _ _) as [name| |] eqn:Hname; [|unfold stackName in Hname;
    rewrite bool_decide_true in Hname by done; done..].
  eapply ensures_bind; [apply SelectStack_ensures|]. intros log selected [Hlog Habsent].
  assert (∀ k, ensures k (observed_harmlessly p request records) →
    ensures k (λ log' answer, observed_harmlessly p request records (log ++ log') answer)) as Hthen.
  { intros k Hk. eapply ensures_weaken; [exact Hk|]. auto using observed_harmlessly_after. }
  destruct selected as [[]|]; [|by apply Hthen, Hun..|].
  { apply ensures_return. rewrite app_nil_r. split; [done|]. split; [apply Hlog|].
    intros o [= <-] _. left.
    split; [done|]. exists program, name. auto. }
  apply Hthen. set (message := correlationMessage _ _). set (handle := pulumiHandle _ _ _ _).
  assert (ensures (observeStack p (Build_localWorkspace (iw_workDir iw) (iw_homeDir iw)
      (adapterEnvironment (pp_config p) (inputPath iw) supplied)) name (or_Capability request)
      message handle) (λ log found, harmless log ∧ (Forall (from_history records) log →
        ∀ o, found = inl o → o = history_verdict p request records))) as Hscan.
  { intros l found Hrun. split; [eapply scanHistory_ensures; [constructor|exact Hrun]|].
    intros Hrecords o Ho. unfold history_verdict.
    unshelve epose proof (scanHistory_exact _ _ _ _ _ _ records _ 0 Hsize _ _ _ _ Hrun Hrecords
      o Ho) as ->; [lia|cbn; lia|].
    set (pages := pc_HistoryMaximumPages (pp_config p)) in *.
    set (size := pc_HistoryPageSize (pp_config p)) in *.
    assert (Z.of_nat ((0 + Z.to_nat pages) * Z.to_nat size) = pages * size)%Z
      by (rewrite Nat2Z.inj_mul, Nat.add_0_l, !Z2Nat.id; lia).
    destruct (Nat.leb_spec ((0 + Z.to_nat pages) * Z.to_nat size) (length records)),
      (Z.leb_spec (pages * size) (Z.of_nat (length records))); try done; lia. }
  eapply ensures_bind; [exact Hscan|]. intros l found [Hl Hfound].
  destruct found as [o|failure].
  - eapply ensures_bind; [apply pulumiOutputs_ensures|]. intros l2 [o' e] (Hl2 & Ho' & _).
    apply ensures_return. rewrite app_nil_r. split; [by apply harmless_app|].
    split; [rewrite launches_app, (proj1 Hl); apply Hl2|]. intros o2 [= <- He] [Hr _]%Forall_app. right. change (outputless o' = outputless o) in Ho'. rewrite Ho', (Hfound Hr o eq_refl).
    unfold history_verdict, matched. destruct (Z.leb _ _); [done|].
    destruct (bearing _ records) as [|s [|]]; [done| |done]. apply observationFromSummary_outputless.
  - apply ensures_return. rewrite app_nil_r. split; [done|]. split; [apply Hl|done].
Qed.

Lemma PObserve_ensures p request records :
  sound p → or_OperationID request ≠ "" →
  ensures (PObserve p request) (λ log answer,
    omap created log = omap removed log ∧ observed_exactly p request records log answer).
Proof.
  intros Hsound Hop. pose proof Hsound as (_ & _ & _ & Henc).
  assert (∀ failure, ensures (unobservedPulumi failure) (λ log answer,
    omap created log = omap removed log ∧ observed_exactly p request records log answer)) as Hun
    by by intros failure; apply ensures_return.
  unfold PObserve. destruct (negb _); [apply Hun|]. rewrite bool_decide_false by done.
  destruct (lookupProgram _ _) as [program|] eqn:Hp; [|apply Hun].
  destruct (programSupports _ _); cbn [negb]; [|apply Hun].
  eapply ensures_after; [apply provided_harmless| |].
  2: { intros log log' answer Hlog [Hcr Hs]. split; [|by apply observed_exactly_after].
       destruct Hlog as (_ & Hc & Hr). by rewrite !omap_app, Hc, Hr. }
  intros values. destruct (resolveProgramEnvironment _ _) as [supplied|[]]; [|apply Hun..].
  destruct (encodeInput _ _) as [encoded|e|m] eqn:Hm; [|apply Hun|by eapply Henc in Hm].
  unfold createWorkspace. cbn [mbind auto_bind]. apply ensures_call. intros iw. cbn in iw.
  destruct iw as [iw|]; [|by apply ensures_return].
  eapply ensures_bind; [by apply observeIn_ensures|]. intros log answer ((Hl & Hc & Hr) & Hs).
  unfold cleanup. cbn [mbind auto_bind]. apply ensures_call. intros []. apply ensures_return.
  set (first := Event (CreateWorkspace _ _ _ _) _). set (last := Event (CleanupWorkspace _) _).
  change (omap created (first :: log ++ [last])) with (iw :: omap created (log ++ [last])).
  change (omap removed (first :: log ++ [last])) with (omap removed (log ++ [last])).
  rewrite !omap_app, Hc, Hr. split; [done|]. split.
  - change (launches (first :: log ++ [last])) with (launches (log ++ [last])).
    by rewrite launches_app, Hl.
  - intros o Ho [_ [Hrecords _]%Forall_app]%Forall_cons. destruct Hs as [_ Hs].
    destruct (Hs o Ho Hrecords) as [(-> & pr & name & ? & ? & Ha)|Hv]; [left|by right].
    split; [done|]. exists pr, name. split_and!; [done..|]. cbn. by rewrite existsb_app, Ha.
Qed.
End observe.

(** ** Properties *)

Section properties.
Context {digest : Digest} {sdk : Sdk} {numbers : NumberParser}.
Context (host : Host) (config : PulumiConfig) (p : PProvisioner).
Hypothesis made : newPulumi host config = Ok p.
Hypothesis encoders : encodes config.

(** C21: Whatever the host answers, a submission launches at most one change: of
    the stack of its own resource, with its own message, by a program
    registered for the type and the capability.  A rejection is answered
    exactly if nothing was launched; after a launch the answer is the result
    of a record of the history that bears the request's message and kind, or
    says that the outcome is not known, or that its outputs cannot be read.
    The workspace, if one was made, is removed. *)
Theorem submit_launches request log answer :
  answered (PSubmit p request) log answer →
  omap created log = omap removed log ∧ (length (omap created log) ≤ 1)%nat ∧
  submission_told p request log answer.
Proof. apply PSubmit_ensures. by eapply newPulumi_sound. Qed.

(** C22: The adapter and the application agree on what a rejection is: when
    Liftr interprets an answer of the Pulumi adapter, it always reaches a
    verdict, and it marks the attempt as rejected exactly if nothing was
    launched.  It reads a success only from a record of the history that
    succeeded and bears the request's message, or from the deletion of a
    resource whose stack does not exist. *)
Theorem submit_interpreted Error request log s err e a now :
  answered (PSubmit p request) log (Ok (s, err)) →
  sa_State a ≠ SubmissionAttemptRejected →
  interpreted (launches log = [])
    ((launches log = [] ∧ pe_Capability e = CapabilityDelete ∧ stack_absent p request log) ∨
     ∃ record, record ∈ concat (map shown log) ∧ us_result record = "succeeded" ∧
       us_message record = requestMessage request)
    (InterpretSubmission Error e a s err now).
Proof.
  intros Hrun Ha.
  destruct (PSubmit_ensures p request (newPulumi_sound _ _ _ made encoders) _ _ Hrun)
    as (_ & _ & Hs).
  destruct Hs as [(Hl & kind & reason & [= -> ->] & Hk)|(program & name & _ & _ & _ & Hl & Hrep)].
  { destruct (interpreted_rejected Error e a kind reason now
      (pe_Capability e = CapabilityDelete ∧ stack_absent p request log))
      as (e' & a' & r & f & -> & [_ Hrej] & Hsucc); [by auto|].
    exists e', a', r, f. split; [done|]. split; [by split; auto|]. auto. }
  assert (launches log ≠ []) as Hne by by rewrite Hl.
  destruct Hrep as [(o & record & [= -> ->] & Hin & Hm & Hk & Ho)|[[= -> ->]|(x & [= -> ->] & _)]].
  - destruct (observationFromSummary_matched record _ _ (requestHandle p request) Hm Hk)
      as (Hcorr & Hex & Hfacts & _). rewrite <-Ho in Hcorr, Hex, Hfacts.
    edestruct (interpreted_found Error e a o) as (e' & a' & r & f & -> & [Hno _] & Hsucc);
      [exact Ha|exact Hcorr|exact Hex|exact Hfacts|apply summaryState_valid|
       apply summaryState_succeeded|].
    exists e', a', r, f. split; [done|]. split; [by split; [intros []%Hno|]|].
    intros Hr. right. exists record. auto.
  - apply interpreted_undetermined; [done|]. by right.
  - apply interpreted_undetermined; [done|]. by left.
Qed.

End properties.
