(* ===== verification/PulumiScenario.v ===== *)
(** * Concrete runs of the Pulumi adapter

    One program on a host that keeps the history of a stack: a resource is
    created and observed, with an output; a deletion finds no stack.  The
    theorems of [PulumiRuns] are applied to these runs, and a weakness of the
    source digest is shown. *)

From S2P Require Import Prelude Operation Values Resource Status Provisioning.
From S2P Require Import Records Submission.
From S2P Require Import Text Encoding JsonTokens Kube Crossplane Pulumi PulumiOutputs.
From S2P Require Import PulumiCalls PulumiRuns.
From Stdlib Require Import SpecFloat.
Open Scope string_scope.
Open Scope go_scope.
Open Scope list_scope.

(** ** The platform *)

#[local] Existing Instance sample_digest.

#[local] Instance pulumi_sdk : Sdk := {
  FullyQualifiedStackName organization project stack :=
    organization +:+ "/" +:+ project +:+ "/" +:+ stack;
  Unquote _ := None;
  time_Parse _ := Some 60%Z;
  url_Parse _ := Some {| url_Scheme := "file"; url_Host := ""; url_Path := "/state";
    url_User := false; url_RawQuery := ""; url_Fragment := "" |} }.

#[local] Instance pulumi_numbers : NumberParser := { Float64 _ := None }.

Definition pulumi_source : list sourceEntry :=
  [{| se_relative := "Pulumi.yaml"; se_kind := RegularFile; se_permissions := 420%N;
      se_contents := Some "name: bucket" |};
   {| se_relative := "program"; se_kind := RegularFile; se_permissions := 493%N;
      se_contents := Some "binary" |}].

Definition pulumi_program : Program :=
  {| prog_ResourceType := sample_type; prog_Capabilities := [CapabilityCreate; CapabilityDelete];
     prog_ProjectName := "bucket"; prog_SourceDir := "/programs/bucket";
     prog_SourceDigest := match SourceDigest (Ok pulumi_source) with Ok d => d | _ => "" end;
     prog_EncodeInput := Some (λ _, Ok "{}"); prog_RequiredEnvironment := ["REGION"];
     prog_SecretInputsUnsupported := true;
     prog_OutputMappings := [{| pm_Ref := "bucket-v1"; pm_ExportName := "liftr";
                                pm_CompatibleSourceMappingRef := "" |}];
     prog_CurrentOutputMappingRef := "bucket-v1" |}.

Definition pulumi_config : PulumiConfig :=
  {| pc_Identity := "platform"; pc_StackNamingVersion := "v1"; pc_PulumiRoot := "/pulumi";
     pc_GoExecutable := "/go/bin/go"; pc_BackendURL := "file:///state";
     pc_StackNamespace := "prod"; pc_WorkspaceRoot := "/work"; pc_Programs := [pulumi_program];
     pc_Environment := true; pc_HistoryPageSize := 10; pc_HistoryMaximumPages := 3;
     pc_StaleWorkspaceAge := 60 |}.

Definition pulumi_host : Host :=
  {| host_executable _ := true; host_directory _ := true;
     host_LoadProject _ := Some {| pf_Name := "bucket"; pf_Runtime := "go"; pf_Backend := false;
                                   pf_binary := Some "program" |};
     host_walk _ := Ok pulumi_source |}.

Definition pulumi_provisioner : PProvisioner :=
  {| pp_config := pulumi_config; pp_programs := [(sample_type, pulumi_program)] |}.

Lemma pulumi_made : newPulumi pulumi_host pulumi_config = Ok pulumi_provisioner.
Proof. vm_compute. reflexivity. Qed.

Lemma pulumi_encodes : encodes pulumi_config.
Proof.
  intros program encode input m Hp He. apply list_elem_of_singleton in Hp as ->.
  injection He as <-. done.
Qed.

Definition pulumi_stack : string := stackNameV1 "platform" "prod" "bucket" "r-1".

(** ** The host *)

Record hostState := { hs_stacks : list string; hs_records : list updateSummary }.

Definition pulumi_export : string := json_text
  "{'version':1,'mapping':'bucket-v1','resourceId':'r-1','targetGeneration':1,'values':{'arn':'a:1','size':20}}".

(** The record a command leaves, newest first. *)
Definition recorded (args : list string) (s : hostState) : hostState :=
  match args with
  | operation :: _ :: _ :: _ :: _ :: _ :: message :: _ =>
      {| hs_stacks := hs_stacks s;
         hs_records := {| us_kind := expectedCommandKind operation; us_message := message;
           us_result := "succeeded"; us_startTime := ""; us_endTime := Some "t" |}
           :: hs_records s |}
  | _ => s
  end.

Definition serve (s : hostState) (c : call) : reply c * hostState :=
  match c return reply c * hostState with
  | ProvideEnvironment => (inl {["REGION" := "eu"]}, s)
  | CreateWorkspace _ _ _ _ => (Some {| iw_workDir := "/work/1/program";
                                        iw_homeDir := "/work/1/home" |}, s)
  | CleanupWorkspace _ => (tt, s)
  | NewLocalWorkspace _ => (true, s)
  | ListStacks _ => (Some (hs_stacks s), s)
  | AutoSelectStack _ _ => (StackReady, s)
  | AutoNewStack _ name =>
      (StackReady, {| hs_stacks := name :: hs_stacks s; hs_records := hs_records s |})
  | RunCommand _ args =>
      if bool_decide (head args = Some "stack") then (Some (pulumi_export, 0%Z), s)
      else (Some ("", 0%Z), recorded args s)
  | StackHistory _ _ size page =>
      (Some (take (Z.to_nat size) (drop (Z.to_nat ((page - 1) * size)) (hs_records s))), s)
  end.

Fixpoint play {V} (s : hostState) (k : auto V) : list event * V * hostState :=
  match k with
  | Return v => ([], v, s)
  | Call c next =>
      let (r, s') := serve s c in
      let '(log, v, s'') := play s' (next r) in (Event c r :: log, v, s'')
  end.

Definition log_of {V} (s : hostState) (k : auto V) : list event := (play s k).1.1.
Definition answer_of {V} (s : hostState) (k : auto V) : V := (play s k).1.2.

Lemma play_answered {V} s (k : auto V) : answered k (log_of s k) (answer_of s k).
Proof.
  unfold log_of, answer_of. revert s. induction k as [v|c next IH]; intros s; cbn; [done|].
  destruct (serve s c) as [r s'] eqn:Hr. specialize (IH r s').
  destruct (play s' (next r)) as [[log v] s'']. by exists r, log.
Qed.

#[local] Instance hostState_fields : Fields hostState := λ s,
  {| hs_stacks := hs_stacks s; hs_records := hs_records s |}.

Definition nothing_there : hostState := {| hs_stacks := []; hs_records := [] |}.

(** Records of another operation, and of another attempt. *)
Definition foreign_records : list updateSummary :=
  [{| us_kind := "update"; us_message := correlationMessage "op-2" 1; us_result := "failed";
      us_startTime := ""; us_endTime := Some "t" |};
   {| us_kind := "update"; us_message := correlationMessage "op-1" 2; us_result := "failed";
      us_startTime := ""; us_endTime := Some "t" |}].

Definition pulumi_request (capability : Capability) : ExecutionRequest :=
  {| er_OperationID := "op-1"; er_AttemptNumber := 1%N; er_ResourceID := "r-1";
     er_ResourceType := sample_type; er_Spec := sample_spec; er_Capability := capability;
     er_TargetGeneration := 1%N; er_OutputMappingRef := "bucket-v1" |}.

Definition pulumi_observation : ObservationRequest :=
  observationRequestFromExecution (pulumi_request CapabilityCreate).

(** ** The properties at these runs *)

Definition create_run : auto submit_result :=
  PSubmit pulumi_provisioner (pulumi_request CapabilityCreate).
Definition delete_run : auto submit_result :=
  PSubmit pulumi_provisioner (pulumi_request CapabilityDelete).

(** The creation launches once, and its answer carries the outputs. *)
Lemma submit_launches_witness :
  launches (log_of nothing_there create_run) =
    [launchArgs "up" pulumi_stack (requestMessage (pulumi_request CapabilityCreate))] ∧
  (∃ s, answer_of nothing_there create_run = Ok (s, None) ∧
     eo_Outputs (sub_Observation s) = Some {| oe_State := OutputsAvailable;
       oe_Values := [("arn", VString "a:1"); ("size", VInt Int64 20)];
       oe_OutputMappingRef := "bucket-v1"; oe_Reason := "" |}) ∧
  submission_told pulumi_provisioner (pulumi_request CapabilityCreate)
    (log_of nothing_there create_run) (answer_of nothing_there create_run).
Proof.
  split_and!.
  - vm_compute. reflexivity.
  - eexists. split; vm_compute; reflexivity.
  - apply (submit_launches pulumi_host pulumi_config pulumi_provisioner pulumi_made pulumi_encodes
      (pulumi_request CapabilityCreate)), play_answered.
Defined.

Definition delete_answer : Submission :=
  rejectedSubmission FailureNotFound "ExecutionStateNotFound".

Definition delete_execution : ProvisioningExecutionRecord :=
  sample_execution <| pe_Capability := CapabilityDelete |>.

(** A deletion finds no stack: nothing is launched, the attempt is rejected, and
    the operation succeeds, since there is nothing to delete. *)
Lemma submit_interpreted_witness :
  launches (log_of nothing_there delete_run) = [] ∧
  interpreted (launches (log_of nothing_there delete_run) = [])
    ((launches (log_of nothing_there delete_run) = [] ∧
      pe_Capability delete_execution = CapabilityDelete ∧
      stack_absent pulumi_provisioner (pulumi_request CapabilityDelete)
        (log_of nothing_there delete_run)) ∨
     ∃ record, record ∈ concat (map shown (log_of nothing_there delete_run)) ∧
       us_result record = "succeeded" ∧
       us_message record = requestMessage (pulumi_request CapabilityDelete))
    (InterpretSubmission (λ _, "") delete_execution sample_attempt delete_answer None 100%Z).
Proof.
  split; [vm_compute; reflexivity|].
  apply (submit_interpreted pulumi_host pulumi_config pulumi_provisioner pulumi_made
    pulumi_encodes); [|discriminate].
  replace (Ok (delete_answer, None)) with (answer_of nothing_there delete_run)
    by (vm_compute; reflexivity).
  apply play_answered.
Defined.

Example absent_stack_deleted :
  match InterpretSubmission (λ _, "") delete_execution sample_attempt delete_answer None 100%Z with
  | Ok (_, a, result, _) => (sa_State a, result) =
      (SubmissionAttemptRejected, SubmissionOutcomeSucceeded)
  | _ => False
  end.
Proof. vm_compute. reflexivity. Qed.

#[local] Instance updateSummary_eq_dec : EqDecision updateSummary.
Proof. solve_decision. Defined.

Definition reads_history (records : list updateSummary) (e : event) : bool :=
  match e with
  | Event c r =>
      match c return reply c → bool with
      | StackHistory _ _ size page => λ r, match r with
          | Some h => h =? take (Z.to_nat size) (drop (Z.to_nat ((page - 1) * size)) records)
          | None => true
          end
      | _ => λ _, true
      end r
  end.

Lemma reads_history_spec records log :
  forallb (reads_history records) log = true → Forall (from_history records) log.
Proof.
  induction log as [|[c r] log IH]; [constructor|]. cbn [forallb]. intros [He Hlog]%andb_true_iff.
  constructor; [|by apply IH]. destruct c; try done. intros h ->.
  by apply bool_decide_eq_true in He.
Qed.

(** The history after the creation, with records of others. *)
Definition created_state : hostState :=
  {| hs_stacks := [pulumi_stack];
     hs_records := {| us_kind := "update"; us_message := correlationMessage "op-1" 1;
       us_result := "succeeded"; us_startTime := ""; us_endTime := Some "t" |}
       :: foreign_records |}.

Definition observe_run : auto observation_result :=
  PObserve pulumi_provisioner pulumi_observation.

Definition observed_creation : ExecutionObservation :=
  match answer_of created_state observe_run with
  | Ok (o, _) => o
  | _ => no_observation
  end.


(** A retried attempt whose message is in the history twice stays unknown. *)
Example duplicate_message_unknown :
  answer_of (created_state <| hs_records :=
      {| us_kind := "update"; us_message := correlationMessage "op-1" 1; us_result := "failed";
         us_startTime := ""; us_endTime := Some "t" |} :: hs_records created_state |>) observe_run
    = Ok (uncorrelatedRecord, None).
Proof. vm_compute. reflexivity. Qed.

(** ** The source digest does not frame the contents of files

    A tree of one file whose contents spell the end of one file and the start
    of another has the digest of the tree of the two. *)

Definition regular (relative contents : string) : sourceEntry :=
  {| se_relative := relative; se_kind := RegularFile; se_permissions := 384%N;
     se_contents := Some contents |}.

Definition spelled : string := "x" +:+ NUL +:+ "b" +:+ NUL +:+ ownerMode 384 +:+ NUL +:+ "y".

Example source_digest_not_injective :
  SourceDigest (Ok [regular "a" spelled]) = SourceDigest (Ok [regular "a" "x"; regular "b" "y"]) ∧
  sourceText [regular "a" spelled] = sourceText [regular "a" "x"; regular "b" "y"].
Proof. split; vm_compute; reflexivity. Qed.
