(* ===== verification/Work.v ===== *)
(** * Work items

    Models [src/internal/application/work.go]: the outbox messages that drive
    an operation, their identities, and the summary of an aggregate's work. *)

From S2P Require Import Prelude Text Operation Values Resource Status Provisioning Records.
Open Scope string_scope.
Open Scope go_scope.

Definition OutboxDrive : string := "Drive".
Definition OutboxDispatch : string := "Dispatch".
Definition OutboxObserve : string := "Observe".
Definition OutboxPassiveObserve : string := "PassiveObserve".
Definition OutboxWakeDependents : string := "WakeDependents".

Definition OutboxPending : string := "Pending".
Definition OutboxLeased : string := "Leased".
Definition OutboxCompleted : string := "Completed".
Definition OutboxDead : string := "Dead".

(** [PayloadVersion] and [Payload] are the constants [1] and [{}] of the
    constructors below; nothing reads them. *)
Record OutboxMessage := {
  om_ID : string;
  om_Kind : string;
  om_OperationID : OperationID;
  om_ResourceID : ResourceID;
  om_AttemptNumber : uint64;
  om_DedupeKey : string;
  om_ExpectedVersion : uint64;
  om_Sequence : uint64;
  om_State : string;
  om_Delay : Z;
  om_AvailableAt : Time;
  om_CreatedAt : Time;
  om_LeaseToken : string;
  om_LeasedUntil : Time;
  om_AttemptCount : Z;
  om_LastError : string;
  om_TerminalReason : string }.

#[export] Instance OutboxMessage_fields : Fields OutboxMessage := λ r,
  {| om_ID := om_ID r; om_Kind := om_Kind r; om_OperationID := om_OperationID r;
     om_ResourceID := om_ResourceID r; om_AttemptNumber := om_AttemptNumber r;
     om_DedupeKey := om_DedupeKey r; om_ExpectedVersion := om_ExpectedVersion r;
     om_Sequence := om_Sequence r; om_State := om_State r; om_Delay := om_Delay r;
     om_AvailableAt := om_AvailableAt r; om_CreatedAt := om_CreatedAt r;
     om_LeaseToken := om_LeaseToken r; om_LeasedUntil := om_LeasedUntil r;
     om_AttemptCount := om_AttemptCount r; om_LastError := om_LastError r;
     om_TerminalReason := om_TerminalReason r |}.

(** A fresh message: its key is its identity, and the other fields are zero. *)
Definition pendingMessage (key kind : string) (operationID : OperationID)
    (resourceID : ResourceID) (attemptNumber expectedVersion sequence : uint64)
    : OutboxMessage :=
  {| om_ID := key; om_Kind := kind; om_OperationID := operationID;
     om_ResourceID := resourceID; om_AttemptNumber := attemptNumber; om_DedupeKey := key;
     om_ExpectedVersion := expectedVersion; om_Sequence := sequence;
     om_State := OutboxPending; om_Delay := 0; om_AvailableAt := time_zero;
     om_CreatedAt := time_zero; om_LeaseToken := ""; om_LeasedUntil := time_zero;
     om_AttemptCount := 0; om_LastError := ""; om_TerminalReason := "" |}.

(** [fmt.Sprintf("<prefix>:%s:%d", id, n)]. *)
Definition workKey (prefix id : string) (n : uint64) : string :=
  prefix +:+ ":" +:+ id +:+ ":" +:+ decimal n.

Definition DriveMessage (operationID : OperationID) (expectedVersion : uint64) : OutboxMessage :=
  pendingMessage (workKey "drive" operationID expectedVersion) OutboxDrive operationID ""
    0 expectedVersion 0.

Definition DispatchMessage (operationID : OperationID) (attemptNumber expectedVersion : uint64)
    : OutboxMessage :=
  pendingMessage (workKey "dispatch" operationID attemptNumber) OutboxDispatch operationID ""
    attemptNumber expectedVersion 0.

Definition ObserveMessage (operationID : OperationID) (sequence expectedVersion : uint64)
    : OutboxMessage :=
  pendingMessage (workKey "observe" operationID sequence) OutboxObserve operationID ""
    0 expectedVersion sequence.

Definition PassiveObserveMessage (resourceID : ResourceID) (sequence expectedVersion : uint64)
    : OutboxMessage :=
  pendingMessage (workKey "passive-observe" resourceID sequence) OutboxPassiveObserve ""
    resourceID 0 expectedVersion sequence.

Definition WakeDependentsMessage (resourceID : ResourceID) (targetVersion : uint64)
    : OutboxMessage :=
  pendingMessage (workKey "wake-dependents" resourceID targetVersion) OutboxWakeDependents ""
    resourceID 0 targetVersion 0.

(** ** Summaries *)

Record WorkHistorySummary := {
  wh_Active : list OutboxMessage;
  wh_Counts : gmap string Z }.

Fixpoint activeID (active : list OutboxMessage) (kind : string) : string :=
  match active with
  | [] => ""
  | message :: rest => if om_Kind message =? kind then om_ID message else activeID rest kind
  end.

Definition ActiveID (s : WorkHistorySummary) (kind : string) : string :=
  activeID (wh_Active s) kind.

Definition HasActive (s : WorkHistorySummary) (kind : string) : bool := ActiveID s kind <>? "".

Definition isActive (message : OutboxMessage) : bool :=
  (om_State message =? OutboxPending) || (om_State message =? OutboxLeased).

(** ** Laws *)

Lemma workKey_inj prefix id id' n n' :
  workKey prefix id n = workKey prefix id' n' → id = id' ∧ n = n'.
Proof.
  unfold workKey. intros H%(inj (String.app prefix)). injection H as H.
  apply split_last in H as [-> Hn]; [|apply decimal_lacks; cbn; lia..].
  split; [done|]. by apply (inj decimal).
Qed.

(** The kinds use distinct prefixes, none of which contains the separator. *)
Lemma workKey_prefix p q id id' n n' :
  lacks ":" p → lacks ":" q → workKey p id n = workKey q id' n' → p = q.
Proof. unfold workKey. intros Hp Hq H. by apply split_first in H as [-> _]. Qed.

(** The messages the application can enqueue. *)
Inductive Work :=
  | Drive (operationID : OperationID) (expectedVersion : uint64)
  | Dispatch (operationID : OperationID) (attemptNumber expectedVersion : uint64)
  | Observe (operationID : OperationID) (sequence expectedVersion : uint64)
  | PassiveObserve (resourceID : ResourceID) (sequence expectedVersion : uint64)
  | WakeDependents (resourceID : ResourceID) (targetVersion : uint64).

Definition message_of (w : Work) : OutboxMessage :=
  match w with
  | Drive id v => DriveMessage id v
  | Dispatch id a v => DispatchMessage id a v
  | Observe id s v => ObserveMessage id s v
  | PassiveObserve id s v => PassiveObserveMessage id s v
  | WakeDependents id v => WakeDependentsMessage id v
  end.

(** Work identities are exact: two messages share a dedupe key only when
    they are of the same kind, for the same operation and resource, and of the
    same number (the expected version of a drive or wake, the attempt of a
    dispatch, the sequence of an observation), so deduplication never drops
    different work, whatever characters the identifiers contain. *)
Theorem work_identity w w' :
  om_DedupeKey (message_of w) = om_DedupeKey (message_of w') →
  let m := message_of w in let m' := message_of w' in
  om_Kind m = om_Kind m' ∧ om_OperationID m = om_OperationID m' ∧
  om_ResourceID m = om_ResourceID m' ∧ om_AttemptNumber m = om_AttemptNumber m' ∧
  om_Sequence m = om_Sequence m' ∧
  (om_Kind m = OutboxDrive ∨ om_Kind m = OutboxWakeDependents →
   om_ExpectedVersion m = om_ExpectedVersion m').
Proof.
  destruct w, w'; cbn; intros H;
    first [ apply workKey_prefix in H; [discriminate H|cbn; split_and!; done..]
          | apply workKey_inj in H as [-> ->]; split_and!; try done;
            intros [?|?]; (discriminate || done) ].
Qed.

Lemma work_identity_witness :
  om_OperationID (message_of (Dispatch "a:1" 2 7)) =
  om_OperationID (message_of (Dispatch "a:1" 2 9)).
Proof.
  by destruct (work_identity (Dispatch "a:1" 2 7) (Dispatch "a:1" 2 9) eq_refl) as (_ & ? & _).
Defined.
