(* ===== verification/Recovery.v ===== *)
(** * The recovery planner

    Models [src/internal/application/recovery_planner.go]: the pure planner
    that decides which recovery actions are safe, and from
    [operator_mutations.go] the work item a recovery schedules. *)

From S2P Require Import Prelude Text Operation Values Resource Status Provisioning.
From S2P Require Import Records Outputs Work.
Open Scope string_scope.
Open Scope go_scope.

Definition RecoveryNoActionNeeded : string := "no_action_needed".
Definition RecoverySafeObserve : string := "safe_observe".
Definition RecoverySafePassiveObserve : string := "safe_passive_observe".
Definition RecoverySafeRecoverDeadWork : string := "safe_recover_dead_work".
Definition RecoveryAmbiguousWaitingEvidence : string := "ambiguous_waiting_for_evidence".
Definition RecoveryManualInterventionNeeded : string := "manual_intervention_required".
Definition RecoveryUnsupportedRepair : string := "unsupported_repair".
Definition RecoveryTerminal : string := "terminal".
Definition RecoverySuperseded : string := "superseded".

Definition ReasonOperationTerminal : string := "OPERATION_TERMINAL".
Definition ReasonExecutionRecordMissing : string := "EXECUTION_RECORD_MISSING".
Definition ReasonExecutionNotObservable : string := "EXECUTION_NOT_OBSERVABLE".
Definition ReasonExecutionEvidencePending : string := "EXECUTION_TERMINAL_EVIDENCE_PENDING".
Definition ReasonAmbiguousExecution : string := "AMBIGUOUS_EXECUTION".
Definition ReasonObservationInFlight : string := "OBSERVATION_IN_FLIGHT".
Definition ReasonResourceDeleted : string := "RESOURCE_DELETED".
Definition ReasonActiveOperationPresent : string := "ACTIVE_OPERATION_PRESENT".
Definition ReasonDeadDispatchPreSubmit : string := "DEAD_DISPATCH_PRE_SUBMIT".
Definition ReasonDeadDispatchViaObserve : string := "DEAD_DISPATCH_RECOVERY_VIA_OBSERVE".
Definition ReasonRegistrationMissing : string := "HISTORICAL_REGISTRATION_MISSING".
Definition ReasonWorkAlreadyActive : string := "EQUIVALENT_WORK_ALREADY_ACTIVE".
Definition ReasonWorkNotDead : string := "WORK_NOT_DEAD".
Definition ReasonOutputRecoveryPending : string := "OUTPUT_RESOLUTION_PENDING".
Definition ReasonManualInterventionRequired : string := "MANUAL_INTERVENTION_REQUIRED".
Definition ReasonDependencyBlocked : string := "DEPENDENCY_BLOCKED".
Definition ReasonDeadWake : string := "DEPENDENCY_WAKE_DEAD".

Definition ActionKindTriggerObserve : string := "trigger_observe".
Definition ActionKindTriggerPassiveObserve : string := "trigger_passive_observe".
Definition ActionKindRecoverDeadWork : string := "recover_dead_work".

Record RecoveryAssessment := {
  ra_State : string;
  ra_Reasons : list string;
  ra_AllowedActions : list string }.

Definition assessment (state : string) (reasons actions : list string) : RecoveryAssessment :=
  {| ra_State := state; ra_Reasons := reasons; ra_AllowedActions := actions |}.

Definition assessmentAllows (a : RecoveryAssessment) (action : string) : bool :=
  bool_decide (action ∈ ra_AllowedActions a).

Record executionObservationSummary := {
  eos_State : string;
  eos_Correlation : string;
  eos_OutputResolution : string;
  eos_IsOutputRecovery : bool;
  eos_AcceptanceConfirmed : bool }.

Definition executionSummaryOf (execution : ProvisioningExecutionRecord)
    : executionObservationSummary :=
  {| eos_State := pe_State execution; eos_Correlation := pe_Correlation execution;
     eos_OutputResolution := pe_OutputResolution execution;
     eos_IsOutputRecovery := IsOutputRecovery execution;
     eos_AcceptanceConfirmed := pe_AcceptanceConfirmed execution |}.

Definition observableForObserve (s : executionObservationSummary) : bool :=
  if (eos_State s =? AttemptUnknown) || (eos_State s =? AttemptAccepted) then true
  else if eos_State s =? AttemptSucceeded
  then eos_OutputResolution s =? OutputResolutionPending
  else false.

Definition operationStateIsTerminal (state : string) : bool :=
  (state =? OperationStateSucceeded) || (state =? OperationStateFailed) ||
  (state =? OperationStateCanceled).

(** ** Observing an operation *)

Record OperationRecoverySnapshot := {
  ors_OperationState : string;
  ors_HasExecution : bool;
  ors_Execution : executionObservationSummary;
  ors_ActiveObserveWork : bool;
  ors_DependencyBlocked : bool;
  ors_RegistrationAvailable : bool }.

Definition PlanOperationObserve (s : OperationRecoverySnapshot) : RecoveryAssessment :=
  if operationStateIsTerminal (ors_OperationState s) then
    assessment RecoveryTerminal [ReasonOperationTerminal] []
  else if negb (ors_HasExecution s) then
    assessment RecoveryManualInterventionNeeded [ReasonExecutionRecordMissing] []
  else if negb (ors_RegistrationAvailable s) then
    assessment RecoveryManualInterventionNeeded [ReasonRegistrationMissing] []
  else
  let exec := ors_Execution s in
  if observableForObserve exec then
    let '(state, reasons) :=
      if eos_Correlation exec =? RequestCorrelationUnknown
      then (RecoveryAmbiguousWaitingEvidence, [ReasonAmbiguousExecution])
      else (RecoverySafeObserve, []) in
    let reasons := if eos_State exec =? AttemptSucceeded
                   then (reasons ++ [ReasonOutputRecoveryPending])%list else reasons in
    if ors_ActiveObserveWork s
    then assessment state (reasons ++ [ReasonObservationInFlight])%list []
    else assessment state reasons [ActionKindTriggerObserve]
  else if eos_State exec =? AttemptFailed then
    assessment RecoveryManualInterventionNeeded [ReasonExecutionEvidencePending] []
  else if ors_DependencyBlocked s then
    assessment RecoveryNoActionNeeded [ReasonDependencyBlocked] []
  else assessment RecoveryNoActionNeeded [ReasonExecutionNotObservable] [].

(** ** Observing a resource *)

Record ResourcePassiveObserveSnapshot := {
  rps_ResourceState : string;
  rps_ActiveOperation : bool;
  rps_ActivePassiveObserveWork : bool;
  rps_RegistrationAvailable : bool }.

Definition PlanResourcePassiveObserve (s : ResourcePassiveObserveSnapshot)
    : RecoveryAssessment :=
  if rps_ResourceState s =? ResourceStateDeleted then
    assessment RecoveryUnsupportedRepair [ReasonResourceDeleted] []
  else if negb (rps_RegistrationAvailable s) then
    assessment RecoveryManualInterventionNeeded [ReasonRegistrationMissing] []
  else if rps_ActiveOperation s then
    assessment RecoveryNoActionNeeded [ReasonActiveOperationPresent] []
  else if rps_ActivePassiveObserveWork s then
    assessment RecoveryNoActionNeeded [ReasonObservationInFlight] []
  else assessment RecoverySafePassiveObserve [] [ActionKindTriggerPassiveObserve].

(** ** Recovering dead work *)

Record DeadWorkKindSnapshot := {
  dws_Kind : string;
  dws_State : string;
  dws_OperationTarget : bool;
  dws_OperationState : string;
  dws_Execution : executionObservationSummary;
  dws_HasExecution : bool;
  dws_ResourceState : string;
  dws_ActiveEquivalentWork : bool;
  dws_ActiveOperation : bool;
  dws_Superseded : bool;
  dws_RegistrationAvailable : bool;
  dws_TargetVersion : uint64;
  dws_ExecutionVersion : uint64 }.

Definition alreadyActive : RecoveryAssessment :=
  assessment RecoveryNoActionNeeded [ReasonWorkAlreadyActive] [].
Definition recoverable (reasons : list string) : RecoveryAssessment :=
  assessment RecoverySafeRecoverDeadWork reasons [ActionKindRecoverDeadWork].

(** The [switch] on the kind of dead operation work. *)
Definition planDeadOperationKind (s : DeadWorkKindSnapshot) : RecoveryAssessment :=
  if dws_Kind s =? OutboxDispatch then
    if negb (observableForObserve (dws_Execution s)) then
      assessment RecoveryManualInterventionNeeded
        [ReasonDeadDispatchPreSubmit; ReasonManualInterventionRequired] []
    else
    let '(state, reasons) :=
      if eos_Correlation (dws_Execution s) =? RequestCorrelationUnknown
      then (RecoveryAmbiguousWaitingEvidence,
            [ReasonDeadDispatchViaObserve; ReasonAmbiguousExecution])
      else (RecoverySafeRecoverDeadWork, [ReasonDeadDispatchViaObserve]) in
    if dws_ActiveEquivalentWork s
    then assessment RecoveryNoActionNeeded (reasons ++ [ReasonObservationInFlight])%list []
    else assessment state reasons [ActionKindRecoverDeadWork]
  else if dws_Kind s =? OutboxObserve then
    if negb (observableForObserve (dws_Execution s)) then
      assessment RecoveryNoActionNeeded [ReasonExecutionNotObservable] []
    else if dws_ActiveEquivalentWork s then
      assessment RecoveryNoActionNeeded [ReasonObservationInFlight] []
    else recoverable []
  else if dws_Kind s =? OutboxDrive then
    if dws_ActiveEquivalentWork s then alreadyActive else recoverable []
  else assessment RecoveryUnsupportedRepair [ReasonManualInterventionRequired] [].

Definition planDeadOperationWork (s : DeadWorkKindSnapshot) : RecoveryAssessment :=
  if operationStateIsTerminal (dws_OperationState s) then
    assessment RecoverySuperseded [ReasonOperationTerminal] []
  else if dws_Superseded s then
    assessment RecoverySuperseded [ReasonManualInterventionRequired] []
  else if ((dws_Kind s =? OutboxDispatch) || (dws_Kind s =? OutboxObserve)) &&
          negb (dws_HasExecution s) then
    assessment RecoveryManualInterventionNeeded [ReasonExecutionRecordMissing] []
  else if negb (dws_RegistrationAvailable s) then
    assessment RecoveryManualInterventionNeeded [ReasonRegistrationMissing] []
  else if dws_ActiveEquivalentWork s && (dws_Kind s <>? OutboxDispatch) then alreadyActive
  else planDeadOperationKind s.

Definition planDeadResourceWork (s : DeadWorkKindSnapshot) : RecoveryAssessment :=
  if (dws_Kind s <>? OutboxPassiveObserve) && (dws_Kind s <>? OutboxWakeDependents) then
    assessment RecoveryUnsupportedRepair [ReasonManualInterventionRequired] []
  else if dws_ActiveOperation s then
    assessment RecoveryNoActionNeeded [ReasonActiveOperationPresent] []
  else if dws_ResourceState s =? ResourceStateDeleted then
    assessment RecoveryUnsupportedRepair [ReasonResourceDeleted] []
  else if dws_Kind s =? OutboxWakeDependents then
    if dws_ActiveEquivalentWork s then alreadyActive else recoverable [ReasonDeadWake]
  else if negb (dws_RegistrationAvailable s) then
    assessment RecoveryManualInterventionNeeded [ReasonRegistrationMissing] []
  else if dws_ActiveEquivalentWork s then alreadyActive
  else recoverable [].

Definition PlanDeadWorkRecovery (s : DeadWorkKindSnapshot) : RecoveryAssessment :=
  if dws_State s <>? OutboxDead then
    assessment RecoveryNoActionNeeded [ReasonWorkNotDead] []
  else if dws_OperationTarget s then planDeadOperationWork s
  else planDeadResourceWork s.

(** ** The work a recovery schedules *)

(** [nextObserveMessage] also advances the sequence of the execution. *)
Definition nextObserveMessage (execution : ProvisioningExecutionRecord)
    : OutboxMessage * ProvisioningExecutionRecord :=
  let sequence := if pe_NextObservation execution =? 0%N then 1%N
                  else pe_NextObservation execution in
  (ObserveMessage (pe_OperationID execution) sequence (u64_incr (pe_Version execution)),
   execution <| pe_NextObservation := u64_incr sequence |>).

Definition operatorMessageID (actionID suffix : string) : string :=
  "operator:" +:+ actionID +:+ ":" +:+ suffix.

Definition operatorPassiveObserveMessage (actionID : string) (resourceID : ResourceID)
    (expectedVersion : uint64) : OutboxMessage :=
  pendingMessage (operatorMessageID actionID "passive-observe") OutboxPassiveObserve ""
    resourceID 0 expectedVersion
    (if expectedVersion =? 0%N then 1%N else expectedVersion).

Definition operatorWakeDependentsMessage (actionID : string) (resourceID : ResourceID)
    (expectedVersion : uint64) : OutboxMessage :=
  pendingMessage (operatorMessageID actionID "wake-dependents") OutboxWakeDependents ""
    resourceID 0 expectedVersion 0.

Definition operatorDriveMessage (actionID : string) (operationID : OperationID)
    (expectedVersion : uint64) : OutboxMessage :=
  pendingMessage (operatorMessageID actionID "drive") OutboxDrive operationID ""
    0 expectedVersion 0.

Definition ErrDiagnosticStale : error := Sentinel "application.ErrDiagnosticStale".
Definition ErrActionNotApplicable : error := Sentinel "application.ErrActionNotApplicable".
Definition ErrRecoveryUnsafe : error := Sentinel "application.ErrRecoveryUnsafe".
Definition ErrRecoveryAlreadyActive : error :=
  Sentinel "application.ErrRecoveryAlreadyActive".

(** [RecoveryAlreadyActiveError], [NotApplicableError] and
    [UnsafeRecoveryError]: each unwraps to its sentinel. *)
Definition alreadyActiveError (existingWorkID : string) : error :=
  Wrapf ErrRecoveryAlreadyActive "%w: %s" [ArgS existingWorkID].
Definition notApplicable (reason : string) : error :=
  Wrapf ErrActionNotApplicable "%w: %s" [ArgS reason].
Definition unsafeRecovery (reason : string) : error :=
  Wrapf ErrRecoveryUnsafe "%w: %s" [ArgS reason].

(** The refusal the planner's assessment stands for. *)
Definition plannerError (a : RecoveryAssessment) (existingWorkID : string) : error :=
  if existingWorkID <>? "" then alreadyActiveError existingWorkID
  else
    let reason := default "" (head (ra_Reasons a)) in
    if (ra_State a =? RecoveryManualInterventionNeeded) ||
       (ra_State a =? RecoveryUnsupportedRepair)
    then unsafeRecovery reason
    else notApplicable reason.

(** The [switch] of [RecoverDeadWork]: the message to enqueue, and the
    execution to save first when its sequence advanced. *)
Definition recoveredWork (actionID : string) (dead : OutboxMessage)
    (execution : option ProvisioningExecutionRecord) (resource : option ResourceRecord)
    (operation : option OperationRecord)
    : outcome (OutboxMessage * option ProvisioningExecutionRecord) :=
  '(created, saved) ←
    (if (om_Kind dead =? OutboxDispatch) || (om_Kind dead =? OutboxObserve) then
       match execution with
       | None => Err (unsafeRecovery ReasonExecutionRecordMissing)
       | Some execution =>
           let '(message, execution) := nextObserveMessage execution in
           Ok (message, Some execution)
       end
     else if om_Kind dead =? OutboxPassiveObserve then
       match resource with
       | None => Err (unsafeRecovery ReasonManualInterventionRequired)
       | Some r => Ok (operatorPassiveObserveMessage actionID (res_id (rr_Resource r))
                         (rr_Version r), None)
       end
     else if om_Kind dead =? OutboxDrive then
       match operation with
       | None => Err (unsafeRecovery ReasonExecutionRecordMissing)
       | Some o => Ok (operatorDriveMessage actionID (op_id (opr_Operation o))
                         (opr_Version o), None)
       end
     else if om_Kind dead =? OutboxWakeDependents then
       match resource with
       | None => Err (unsafeRecovery ReasonManualInterventionRequired)
       | Some r => Ok (operatorWakeDependentsMessage actionID (res_id (rr_Resource r))
                         (rr_Version r), None)
       end
     else Err (unsafeRecovery ReasonManualInterventionRequired)) ;
  fail_if om_Kind created =? OutboxDispatch
    with Wrapf ErrInvalidApplicationCall
      "%w: dead work recovery must never create Dispatch" [] ;;
  Ok (created, saved).

(** ** Properties *)

(** Backend truth of the execution is outstanding. *)
Definition outstanding (e : executionObservationSummary) : Prop :=
  eos_State e = AttemptUnknown ∨ eos_State e = AttemptAccepted ∨
  (eos_State e = AttemptSucceeded ∧ eos_OutputResolution e = OutputResolutionPending).

Lemma observableForObserve_spec e : observableForObserve e = true ↔ outstanding e.
Proof.
  unfold observableForObserve, outstanding.
  repeat case_bool_decide; cbn; intuition congruence.
Qed.

Lemma allows_iff a action : assessmentAllows a action = true ↔ action ∈ ra_AllowedActions a.
Proof. apply bool_decide_eq_true. Qed.

(** Evaluate what an assessment allows. *)
Ltac allowed :=
  unfold assessmentAllows; cbn [assessment ra_AllowedActions recoverable alreadyActive];
  eval_decides.


Lemma dead_operation_work s :
  assessmentAllows (planDeadOperationWork s) ActionKindRecoverDeadWork = true ↔
  dws_ActiveEquivalentWork s = false ∧ operationStateIsTerminal (dws_OperationState s) = false ∧
  dws_Superseded s = false ∧ dws_RegistrationAvailable s = true ∧
  (dws_Kind s = OutboxDrive ∨
   ((dws_Kind s = OutboxDispatch ∨ dws_Kind s = OutboxObserve) ∧
    dws_HasExecution s = true ∧ outstanding (dws_Execution s))).
Proof.
  rewrite <- observableForObserve_spec. unfold planDeadOperationWork, planDeadOperationKind.
  destruct (operationStateIsTerminal _); [allowed; intuition discriminate|].
  destruct (dws_Superseded s); [allowed; intuition discriminate|].
  destruct (dws_RegistrationAvailable s);
    [|cbn [negb]; case_match; allowed; intuition discriminate].
  destruct (bool_decide_reflect (dws_Kind s = OutboxDispatch)) as [->|Hd];
    [|destruct (bool_decide_reflect (dws_Kind s = OutboxObserve)) as [->|Ho];
      [|destruct (bool_decide_reflect (dws_Kind s = OutboxDrive)) as [->|Hv]]];
    eval_decides; destruct (dws_ActiveEquivalentWork s); cbn;
    destruct (dws_HasExecution s); cbn; try (allowed; intuition discriminate);
    destruct (observableForObserve _); cbn; repeat case_match; simplify_eq/=;
    allowed; intuition discriminate.
Qed.

Lemma dead_resource_work s :
  assessmentAllows (planDeadResourceWork s) ActionKindRecoverDeadWork = true ↔
  dws_ActiveEquivalentWork s = false ∧ dws_ActiveOperation s = false ∧
  dws_ResourceState s ≠ ResourceStateDeleted ∧
  (dws_Kind s = OutboxWakeDependents ∨
   (dws_Kind s = OutboxPassiveObserve ∧ dws_RegistrationAvailable s = true)).
Proof.
  unfold planDeadResourceWork.
  destruct (bool_decide_reflect (dws_Kind s = OutboxPassiveObserve)) as [->|Hp];
    [|destruct (bool_decide_reflect (dws_Kind s = OutboxWakeDependents)) as [->|Hw]];
    eval_decides; try (allowed; intuition discriminate);
    (destruct (dws_ActiveOperation s); [allowed; intuition discriminate|]);
    (destruct (bool_decide_reflect (dws_ResourceState s = ResourceStateDeleted));
      [allowed; intuition discriminate|]);
    destruct (dws_RegistrationAvailable s), (dws_ActiveEquivalentWork s);
    allowed; intuition discriminate.
Qed.

(** What each kind of dead work is replaced by. *)
Lemma recoveredWork_cases actionID dead execution resource operation created saved :
  recoveredWork actionID dead execution resource operation = Ok (created, saved) →
  (∃ e, (om_Kind dead = OutboxDispatch ∨ om_Kind dead = OutboxObserve) ∧ execution = Some e ∧
     created = (nextObserveMessage e).1 ∧ saved = Some (nextObserveMessage e).2) ∨
  saved = None ∧
  ((∃ o, om_Kind dead = OutboxDrive ∧ operation = Some o ∧
      created = operatorDriveMessage actionID (op_id (opr_Operation o)) (opr_Version o)) ∨
   (∃ r, om_Kind dead = OutboxPassiveObserve ∧ resource = Some r ∧
      created = operatorPassiveObserveMessage actionID (res_id (rr_Resource r)) (rr_Version r)) ∨
   (∃ r, om_Kind dead = OutboxWakeDependents ∧ resource = Some r ∧
      created = operatorWakeDependentsMessage actionID (res_id (rr_Resource r)) (rr_Version r))).
Proof.
  unfold recoveredWork. intros H. apply bind_Ok in H as ([msg sv] & Hm & H). ok_inv. revert Hm.
  destruct (bool_decide_reflect (om_Kind dead = OutboxDispatch)) as [->|Hd];
    [|destruct (bool_decide_reflect (om_Kind dead = OutboxObserve)) as [->|Ho];
      [|destruct (bool_decide_reflect (om_Kind dead = OutboxPassiveObserve)) as [->|Hp];
        [|destruct (bool_decide_reflect (om_Kind dead = OutboxDrive)) as [->|Hv];
          [|destruct (bool_decide_reflect (om_Kind dead = OutboxWakeDependents)) as [->|Hw]]]]];
    cbn [orb]; destruct execution, resource, operation; intros [= <- <-]; eauto 10.
Qed.

(** Dead work is recovered exactly when it is really dead, no equivalent work is
    active, and either it belongs to an operation that is not terminal, was not
    superseded, has a registered provisioner, and is a drive or an execution
    whose backend truth is outstanding; or it belongs to a resource that is not
    deleted and has no active operation. *)
Lemma dead_work_allowed s :
  assessmentAllows (PlanDeadWorkRecovery s) ActionKindRecoverDeadWork = true ↔
  dws_State s = OutboxDead ∧ dws_ActiveEquivalentWork s = false ∧
  ((dws_OperationTarget s = true ∧ operationStateIsTerminal (dws_OperationState s) = false ∧
    dws_Superseded s = false ∧ dws_RegistrationAvailable s = true ∧
    (dws_Kind s = OutboxDrive ∨
     ((dws_Kind s = OutboxDispatch ∨ dws_Kind s = OutboxObserve) ∧
      dws_HasExecution s = true ∧ outstanding (dws_Execution s)))) ∨
   (dws_OperationTarget s = false ∧ dws_ActiveOperation s = false ∧
    dws_ResourceState s ≠ ResourceStateDeleted ∧
    (dws_Kind s = OutboxWakeDependents ∨
     (dws_Kind s = OutboxPassiveObserve ∧ dws_RegistrationAvailable s = true)))).
Proof.
  unfold PlanDeadWorkRecovery.
  destruct (bool_decide_reflect (dws_State s = OutboxDead)); cbn [negb];
    [|allowed; intuition discriminate].
  destruct (dws_OperationTarget s); [rewrite dead_operation_work|rewrite dead_resource_work];
    intuition discriminate.
Qed.

(** An operation is observed again exactly when it is not terminal, its
    provisioner is registered, backend truth about its execution is
    outstanding, and no observation is in flight. *)
Lemma observe_allowed s :
  assessmentAllows (PlanOperationObserve s) ActionKindTriggerObserve = true ↔
  operationStateIsTerminal (ors_OperationState s) = false ∧ ors_HasExecution s = true ∧
  ors_RegistrationAvailable s = true ∧ outstanding (ors_Execution s) ∧
  ors_ActiveObserveWork s = false.
Proof.
  rewrite <- observableForObserve_spec. unfold PlanOperationObserve.
  destruct (operationStateIsTerminal _), (ors_HasExecution s), (ors_RegistrationAvailable s),
    (observableForObserve _), (ors_ActiveObserveWork s); cbn; repeat case_match; simplify_eq/=;
    allowed; intuition discriminate.
Qed.

(** A resource exactly when it is not deleted, its provisioner is registered, and
    neither an operation nor an observation is active. *)
Lemma passive_allowed r :
  assessmentAllows (PlanResourcePassiveObserve r) ActionKindTriggerPassiveObserve = true ↔
  rps_ResourceState r ≠ ResourceStateDeleted ∧ rps_RegistrationAvailable r = true ∧
  rps_ActiveOperation r = false ∧ rps_ActivePassiveObserveWork r = false.
Proof.
  unfold PlanResourcePassiveObserve.
  destruct (bool_decide_reflect (rps_ResourceState r = ResourceStateDeleted)),
    (rps_RegistrationAvailable r), (rps_ActiveOperation r), (rps_ActivePassiveObserveWork r);
    allowed; intuition discriminate.
Qed.
