(* ===== verification/Policy.v ===== *)
(** * Admission policy

    Models the application's policy port ([src/internal/application/policy.go])
    and its implementation ([src/internal/policy/policy.go]): the parsing of a
    policy document, the plan an intent gets and the decision on it.  The model
    starts at the JSON values Go's decoder yields; the size limits on the raw
    bytes are not modelled, and the revision (a SHA-256 of the canonical
    document) is a parameter. *)

From S2P Require Import Prelude Text Operation Values Resource.
Open Scope string_scope.
Open Scope go_scope.

(** ** The policy port *)

Definition ErrPolicyDenied : error := Sentinel "application.ErrPolicyDenied".
Definition ErrQuotaExceeded : error := Sentinel "application.ErrQuotaExceeded".
Definition ErrPolicyEvaluation : error := Sentinel "application.ErrPolicyEvaluation".

Definition AdmissionCreate : string := "create".
Definition AdmissionUpdate : string := "update".

Definition mutation_valid (m : string) : bool := (m =? AdmissionCreate) || (m =? AdmissionUpdate).

Record AdmissionIntent := {
  ai_Mutation : string;
  ai_Owner : OwnerRef;
  ai_ResourceType : ResourceTypeRef }.

Definition QuotaOwnerResources : string := "owner_resources".
Definition QuotaOwnerTypeResources : string := "owner_type_resources".

Record ResourceCountConstraint := {
  rcc_RuleID : string;
  rcc_Dimension : string;
  rcc_Limit : uint64 }.

Definition PolicyDenialCapabilityDisabled : string := "capability_disabled".
Definition PolicyDenialQuotaExceeded : string := "quota_exceeded".

Record PolicyDenial := {
  pd_Kind : string;
  pd_RuleID : string;
  pd_Measure : string;
  pd_Current : uint64;
  pd_Requested : uint64;
  pd_Limit : uint64 }.

Record AdmissionPlan := {
  ap_Intent : AdmissionIntent;
  ap_Revision : string;
  ap_CapabilityDenial : option PolicyDenial;
  ap_CountConstraints : list ResourceCountConstraint }.

Definition RequiresResourceCounts (p : AdmissionPlan) : bool :=
  match ap_CountConstraints p with [] => false | _ => true end.

Record ResourceCountFacts := {
  rcf_Available : bool;
  rcf_Owner : OwnerRef;
  rcf_ResourceType : ResourceTypeRef;
  rcf_OwnerNonDeleted : uint64;
  rcf_TypeNonDeleted : uint64 }.

(** [AdmissionDecision]: allowed, or denied with its denial. *)
Inductive AdmissionOutcome :=
  | AdmissionAllowed
  | AdmissionDenied (denial : PolicyDenial).

Record AdmissionDecision := { ad_Outcome : AdmissionOutcome; ad_Revision : string }.

Definition validateAdmissionIntent (intent : AdmissionIntent) : outcome unit :=
  fail_if negb (mutation_valid (ai_Mutation intent)) ||
          (owner_Kind (ai_Owner intent) =? "") || (owner_ID (ai_Owner intent) =? "") ||
          (ref_Name (ai_ResourceType intent) =? "") || (ref_Version (ai_ResourceType intent) =? "")
    with Wrapf ErrPolicyEvaluation "%w: admission intent is incomplete" [] ;;
  Ok tt.

(** ** Policies *)

Definition APIVersion : string := "liftr.dev/admission-policy/v1".
Definition MaxRules : nat := 1024.
Definition MaxSelectorBytes : nat := 256.
Definition MaxQuotaLimit : uint64 := 1000000000.

Definition kindCapabilityDeny : string := "capability-deny".
Definition kindResourceQuota : string := "resource-count-quota".

Record compiledRule := {
  cr_ID : string;
  cr_Kind : string;
  cr_Owner : option OwnerRef;
  cr_ResourceType : option ResourceTypeRef;
  cr_Capabilities : list string;
  cr_Limit : uint64 }.

Record Policy := {
  pol_revision : string;
  pol_rules : list compiledRule }.

Definition matches (rule : compiledRule) (intent : AdmissionIntent) : bool :=
  if non_nil (cr_Owner rule) (λ o, o <>? ai_Owner intent) then false
  else if non_nil (cr_ResourceType rule) (λ t, t <>? ai_ResourceType intent) then false
  else true.

(** The loop state of [Plan]: the denial found, and the best constraint of
    each dimension. *)
Definition PlanState : Type := option PolicyDenial * gmap string ResourceCountConstraint.

Definition dimension_of (rule : compiledRule) : string :=
  match cr_ResourceType rule with
  | Some _ => QuotaOwnerTypeResources
  | None => QuotaOwnerResources
  end.

Definition planRule (intent : AdmissionIntent) (state : PlanState) (rule : compiledRule)
    : PlanState :=
  let '(denial, best) := state in
  if negb (matches rule intent) then state
  else if cr_Kind rule =? kindCapabilityDeny then
    (if bool_decide (ai_Mutation intent ∈ cr_Capabilities rule) &&
        bool_decide (denial = None)
     then Some {| pd_Kind := PolicyDenialCapabilityDisabled; pd_RuleID := cr_ID rule;
                  pd_Measure := ""; pd_Current := 0; pd_Requested := 0; pd_Limit := 0 |}
     else denial, best)
  else if cr_Kind rule =? kindResourceQuota then
    if ai_Mutation intent <>? AdmissionCreate then state else
    let dimension := dimension_of rule in
    let candidate := {| rcc_RuleID := cr_ID rule; rcc_Dimension := dimension;
                        rcc_Limit := cr_Limit rule |} in
    if match best !! dimension with
       | None => true
       | Some current =>
           N.ltb (rcc_Limit candidate) (rcc_Limit current) ||
           ((rcc_Limit candidate =? rcc_Limit current) &&
            String.ltb (rcc_RuleID candidate) (rcc_RuleID current))
       end
    then (denial, <[dimension := candidate]> best) else state
  else state.

Definition Plan (p : Policy) (intent : AdmissionIntent) : outcome AdmissionPlan :=
  fail_if (pol_revision p =? "") || negb (mutation_valid (ai_Mutation intent)) ||
          (owner_Kind (ai_Owner intent) =? "") || (owner_ID (ai_Owner intent) =? "") ||
          (ref_Name (ai_ResourceType intent) =? "") || (ref_Version (ai_ResourceType intent) =? "")
    with Wrapf ErrPolicyEvaluation "%w: invalid admission intent or policy" [] ;;
  let '(denial, best) := foldl (planRule intent) (None, ∅) (pol_rules p) in
  Ok {| ap_Intent := intent; ap_Revision := pol_revision p; ap_CapabilityDenial := denial;
        ap_CountConstraints :=
          omap (λ dimension, best !! dimension) [QuotaOwnerResources; QuotaOwnerTypeResources] |}.

Fixpoint decideConstraints (facts : ResourceCountFacts) (seen : list string)
    (constraints : list ResourceCountConstraint) : outcome AdmissionOutcome :=
  match constraints with
  | [] => Ok AdmissionAllowed
  | constraint :: rest =>
      fail_if (rcc_Limit constraint =? 0%N) || (rcc_RuleID constraint =? "")
        with Wrapf ErrPolicyEvaluation "%w: malformed count constraint" [] ;;
      fail_if bool_decide (rcc_Dimension constraint ∈ seen)
        with Wrapf ErrPolicyEvaluation "%w: duplicate count dimension" [] ;;
      current ← (if rcc_Dimension constraint =? QuotaOwnerResources
                 then Ok (rcf_OwnerNonDeleted facts)
                 else if rcc_Dimension constraint =? QuotaOwnerTypeResources
                 then Ok (rcf_TypeNonDeleted facts)
                 else Err (Wrapf ErrPolicyEvaluation "%w: unsupported quota dimension" [])) ;
      if N.leb (rcc_Limit constraint) current then
        Ok (AdmissionDenied {| pd_Kind := PolicyDenialQuotaExceeded;
              pd_RuleID := rcc_RuleID constraint; pd_Measure := "resource_count";
              pd_Current := current; pd_Requested := 1; pd_Limit := rcc_Limit constraint |})
      else decideConstraints facts (rcc_Dimension constraint :: seen) rest
  end.

Definition Decide (p : Policy) (plan : AdmissionPlan) (facts : ResourceCountFacts)
    : outcome AdmissionDecision :=
  fail_if (ap_Revision plan <>? pol_revision p) ||
          negb (mutation_valid (ai_Mutation (ap_Intent plan)))
    with Wrapf ErrPolicyEvaluation "%w: admission plan does not belong to this policy" [] ;;
  match ap_CapabilityDenial plan with
  | Some denial => Ok {| ad_Outcome := AdmissionDenied denial; ad_Revision := pol_revision p |}
  | None =>
      match ap_CountConstraints plan with
      | [] => Ok {| ad_Outcome := AdmissionAllowed; ad_Revision := pol_revision p |}
      | constraints =>
          fail_if negb (rcf_Available facts) ||
                  (rcf_Owner facts <>? ai_Owner (ap_Intent plan)) ||
                  (rcf_ResourceType facts <>? ai_ResourceType (ap_Intent plan))
            with Wrapf ErrPolicyEvaluation
              "%w: resource count facts are missing or dimensionally inconsistent" [] ;;
          outcome ← decideConstraints facts [] constraints ;
          Ok {| ad_Outcome := outcome; ad_Revision := pol_revision p |}
      end
  end.

(** ** Documents *)

(** The token tree of a JSON document; an object keeps its members in document
    order and a number its literal. *)
Inductive json :=
  | JNull
  | JBool (b : bool)
  | JNumber (literal : string)
  | JString (s : string)
  | JArray (elements : list json)
  | JObject (members : list (string * json)).

(** [scanJSONValue]: no duplicate members, at most 32 levels. *)
Definition scanMembers (scan : json → outcome unit) :=
  fix go (seen : list string) (members : list (string * json)) : outcome unit :=
    match members with
    | [] => Ok tt
    | (key, v) :: rest =>
        fail_if bool_decide (key ∈ seen)
          with Errorf "duplicate object member %q" [ArgS key] ;;
        scan v ≫= λ _, go (key :: seen) rest
    end.

Definition scanElements (scan : json → outcome unit) :=
  fix go (elements : list json) : outcome unit :=
    match elements with
    | [] => Ok tt
    | v :: rest => scan v ≫= λ _, go rest
    end.

Fixpoint scanJSONValue (depth : nat) (v : json) : outcome unit :=
  fail_if Nat.ltb 32 depth with Errorf "nesting exceeds 32 levels" [] ;;
  match v with
  | JObject members => scanMembers (scanJSONValue (S depth)) [] members
  | JArray elements => scanElements (scanJSONValue (S depth)) elements
  | _ => Ok tt
  end.

Fixpoint member (object : list (string * json)) (name : string) : option json :=
  match object with
  | [] => None
  | (key, v) :: rest => if key =? name then Some v else member rest name
  end.

Definition decodeObject (raw : json) (allowed : list string) : outcome (list (string * json)) :=
  match raw with
  | JObject object =>
      match filter (λ kv, kv.1 ∉ allowed) object with
      | [] => Ok object
      | (name, _) :: _ => Err (Errorf "unknown field %q" [ArgS name])
      end
  | _ => Err (Errorf "value must be a JSON object" [])
  end.

Definition requiredString (object : list (string * json)) (name : string) : outcome string :=
  match member object name with
  | None => Err (Errorf "%s is required" [ArgS name])
  | Some (JString s) =>
      fail_if s =? "" with Errorf "%s must be a non-empty string" [ArgS name] ;; Ok s
  | Some _ => Err (Errorf "%s must be a non-empty string" [ArgS name])
  end.

Definition canonicalSelectorString (object : list (string * json)) (name : string)
    : outcome string :=
  value ← requiredString object name ;
  fail_if (value <>? TrimSpace value) || Nat.ltb MaxSelectorBytes (String.length value)
    with Errorf "%s must be canonical and at most %d bytes"
      [ArgS name; ArgN (N.of_nat MaxSelectorBytes)] ;;
  Ok value.

(** [fmt.Errorf("<context>: %w", err)]. *)
Definition wrapping {A} (format : string) (args : list arg) (m : outcome A) : outcome A :=
  match m with Err e => Err (Wrapf e format args) | _ => m end.

Definition parseOwner (raw : json) : outcome OwnerRef :=
  wrapping "owner: %w" []
    (object ← decodeObject raw ["kind"; "id"] ;
     kind ← canonicalSelectorString object "kind" ;
     id ← canonicalSelectorString object "id" ;
     Ok {| owner_Kind := kind; owner_ID := id |}).

Definition parseResourceType (raw : json) : outcome ResourceTypeRef :=
  wrapping "resourceType: %w" []
    (object ← decodeObject raw ["name"; "version"] ;
     name ← canonicalSelectorString object "name" ;
     version ← canonicalSelectorString object "version" ;
     Ok {| ref_Name := name; ref_Version := version |}).

(** [strconv.ParseUint(text, 10, _)] on digits. *)
Fixpoint parseDigits (acc : N) (text : string) : option N :=
  match text with
  | EmptyString => Some acc
  | String c rest =>
      let n := N_of_ascii c in
      if (N.leb 48 n && N.leb n 57)%N then parseDigits (acc * 10 + (n - 48))%N rest else None
  end.

(** A literal with a sign, a fraction or an exponent has a character that is
    no digit.  Which of the two messages a value that is no number gets depends
    on its raw text, and is not modelled. *)
Definition parseLimit (raw : json) : outcome uint64 :=
  match raw with
  | JNumber text =>
      match parseDigits 0 text with
      | Some v =>
          fail_if (text =? "") || (v =? 0%N) || N.ltb MaxQuotaLimit v
            with Errorf "limit must be between 1 and %d" [ArgN MaxQuotaLimit] ;;
          Ok v
      | None => Err (Errorf "limit must be a positive bounded integer" [])
      end
  | _ => Err (Errorf "limit must be between 1 and %d" [ArgN MaxQuotaLimit])
  end.

Definition id_first (c : ascii) : bool :=
  let n := N_of_ascii c in (N.leb 97 n && N.leb n 122) || (N.leb 48 n && N.leb n 57).
Definition id_rest (c : ascii) : bool :=
  id_first c || bool_decide (c = "."%char) || bool_decide (c = "_"%char) ||
  bool_decide (c = "-"%char).

(** [^[a-z0-9][a-z0-9._-]{0,63}$]. *)
Definition ruleIDPattern (id : string) : bool :=
  match id with
  | EmptyString => false
  | String c rest =>
      id_first c && forallb id_rest (list_ascii_of_string rest) &&
      Nat.leb (String.length rest) 63
  end.

Fixpoint strings_of (elements : list json) : option (list string) :=
  match elements with
  | [] => Some []
  | JString s :: rest => cons s <$> strings_of rest
  | JNull :: rest => cons "" <$> strings_of rest
  | _ => None
  end.

Fixpoint parseCapabilities (seen caps : list string) : outcome (list string) :=
  match caps with
  | [] => Ok []
  | capability :: rest =>
      fail_if negb (mutation_valid capability)
        with Errorf "unsupported denied capability %q" [ArgS capability] ;;
      fail_if bool_decide (capability ∈ seen)
        with Errorf "capability %q is duplicated" [ArgS capability] ;;
      parsed ← parseCapabilities (capability :: seen) rest ;
      Ok (capability :: parsed)
  end.

Definition parseRule (raw : json) (registered : list ResourceTypeRef) : outcome compiledRule :=
  object ← decodeObject raw ["id"; "kind"; "owner"; "resourceType"; "capabilities"; "limit"] ;
  id ← requiredString object "id" ;
  fail_if negb (ruleIDPattern id)
    with Errorf "rule ID %q must match %s" [ArgS id] ;;
  kind ← requiredString object "kind" ;
  owner ← (match member object "owner" with
           | Some raw => owner ← parseOwner raw ; Ok (Some owner)
           | None => Ok None
           end) ;
  resourceType ← (match member object "resourceType" with
    | Some raw =>
        ref ← parseResourceType raw ;
        fail_if negb (bool_decide (ref ∈ registered))
          with Errorf "ResourceType %s/%s is not registered"
            [ArgS (ref_Name ref); ArgS (ref_Version ref)] ;;
        Ok (Some ref)
    | None => Ok None
    end) ;
  if kind =? kindCapabilityDeny then
    fail_if bool_decide (resourceType = None)
      with Errorf "capability-deny requires an exact resourceType" [] ;;
    fail_if match member object "limit" with Some _ => true | None => false end
      with Errorf "capability-deny does not accept limit" [] ;;
    match member object "capabilities" with
    | None => Err (Errorf "capabilities is required" [])
    | Some (JArray elements) =>
        match strings_of elements with
        | None | Some [] => Err (Errorf "capabilities must be a non-empty array" [])
        | Some caps =>
            capabilities ← parseCapabilities [] caps ;
            Ok {| cr_ID := id; cr_Kind := kind; cr_Owner := owner;
                  cr_ResourceType := resourceType;
                  cr_Capabilities := merge_sort string_le capabilities; cr_Limit := 0 |}
        end
    | Some _ => Err (Errorf "capabilities must be a non-empty array" [])
    end
  else if kind =? kindResourceQuota then
    fail_if match member object "capabilities" with Some _ => true | None => false end
      with Errorf "resource-count-quota does not accept capabilities" [] ;;
    match member object "limit" with
    | None => Err (Errorf "limit is required" [])
    | Some raw =>
        limit ← parseLimit raw ;
        Ok {| cr_ID := id; cr_Kind := kind; cr_Owner := owner; cr_ResourceType := resourceType;
              cr_Capabilities := []; cr_Limit := limit |}
    end
  else Err (Errorf "unsupported rule kind %q" [ArgS kind]).

(** [fmt.Fprintf("%d:%s", len(field), field)]. *)
Definition lengthPrefixed (field : string) : string :=
  decimal (N.of_nat (String.length field)) +:+ ":" +:+ field.

Definition selectorFields (owner : option OwnerRef) (ref : option ResourceTypeRef) : list string :=
  (["owner"] ++ match owner with Some o => [owner_Kind o; owner_ID o] | None => [] end ++
   ["type"] ++ match ref with Some r => [ref_Name r; ref_Version r] | None => [] end)%list.

Definition selectorKey (owner : option OwnerRef) (ref : option ResourceTypeRef) : string :=
  foldr (λ field key, lengthPrefixed field +:+ key) "" (selectorFields owner ref).

Definition semanticKeys (rule : compiledRule) : list string :=
  let selector := selectorKey (cr_Owner rule) (cr_ResourceType rule) in
  if cr_Kind rule =? kindResourceQuota then [cr_Kind rule +:+ NUL +:+ selector]
  else (λ capability, cr_Kind rule +:+ NUL +:+ selector +:+ NUL +:+ capability) <$>
       cr_Capabilities rule.

(** The duplicate checks of one rule; [semantics] maps a key to the rule that
    claimed it. *)
Fixpoint claimKeys (id : string) (semantics : gmap string string) (keys : list string)
    : outcome (gmap string string) :=
  match keys with
  | [] => Ok semantics
  | key :: rest =>
      match semantics !! key with
      | Some previous =>
          Err (Errorf "rules %q and %q duplicate the same semantic restriction"
            [ArgS previous; ArgS id])
      | None => claimKeys id (<[key := id]> semantics) rest
      end
  end.

Fixpoint parseRules (registered : list ResourceTypeRef) (index : N) (ids : list string)
    (semantics : gmap string string) (rawRules : list json) : outcome (list compiledRule) :=
  match rawRules with
  | [] => Ok []
  | rawRule :: rest =>
      rule ← wrapping "rule %d: %w" [ArgN index] (parseRule rawRule registered) ;
      fail_if bool_decide (cr_ID rule ∈ ids)
        with Errorf "rule ID %q is duplicated" [ArgS (cr_ID rule)] ;;
      semantics ← claimKeys (cr_ID rule) semantics (semanticKeys rule) ;
      rules ← parseRules registered (index + 1) (cr_ID rule :: ids) semantics rest ;
      Ok (rule :: rules)
  end.

Definition rule_key (r : compiledRule) : string * string := (cr_Kind r, cr_ID r).
Definition sortRules : list compiledRule → list compiledRule :=
  sort_by rule_key (pair_le string_le string_le).

Section parse.
(** [NewPolicyRevision] of the canonical document of the rules. *)
Context (revision : list compiledRule → string).

Definition Parse (raw : json) (registered : list ResourceTypeRef) : outcome Policy :=
  wrapping "invalid policy JSON: %w" [] (scanJSONValue 0 raw) ≫= λ _,
  root ← decodeObject raw ["apiVersion"; "rules"] ;
  version ← requiredString root "apiVersion" ;
  fail_if version <>? APIVersion with Errorf "apiVersion must be %q" [ArgS APIVersion] ;;
  match member root "rules" with
  | None => Err (Errorf "rules is required" [])
  | Some (JArray rawRules) =>
      fail_if Nat.ltb MaxRules (length rawRules)
        with Errorf "policy declares more than %d rules" [ArgN (N.of_nat MaxRules)] ;;
      rules ← parseRules registered 0 [] ∅ rawRules ;
      let rules := sortRules rules in
      Ok {| pol_revision := revision rules; pol_rules := rules |}
  | Some _ => Err (Errorf "rules must be an array" [])
  end.
End parse.


(** ** Decisions *)

(** What the parser guarantees about a rule. *)
Definition rule_ok (r : compiledRule) : Prop :=
  cr_ID r ≠ "" ∧
  (cr_Kind r = kindCapabilityDeny ∨ (cr_Kind r = kindResourceQuota ∧ cr_Limit r ≠ 0%N)).

Definition denies (intent : AdmissionIntent) (r : compiledRule) : Prop :=
  matches r intent = true ∧ cr_Kind r = kindCapabilityDeny ∧
  ai_Mutation intent ∈ cr_Capabilities r.

(** The rule limits a dimension of the intent. *)
Definition limits (intent : AdmissionIntent) (dimension : string) (r : compiledRule) : Prop :=
  matches r intent = true ∧ cr_Kind r = kindResourceQuota ∧
  ai_Mutation intent = AdmissionCreate ∧ dimension_of r = dimension.

(** The best constraint of a dimension admits this count. *)
Definition admits (best : gmap string ResourceCountConstraint) (dimension : string) (n : N)
    : Prop := ∀ c, best !! dimension = Some c → (n < rcc_Limit c)%N.

Definition best_ok (best : gmap string ResourceCountConstraint) : Prop :=
  ∀ dimension c, best !! dimension = Some c →
    rcc_Limit c ≠ 0%N ∧ rcc_RuleID c ≠ "" ∧ rcc_Dimension c = dimension.

(** Whether the candidate replaces the best constraint of its dimension. *)
Definition better (best : gmap string ResourceCountConstraint) (dimension : string)
    (candidate : ResourceCountConstraint) : bool :=
  match best !! dimension with
  | None => true
  | Some current =>
      N.ltb (rcc_Limit candidate) (rcc_Limit current) ||
      ((rcc_Limit candidate =? rcc_Limit current) &&
       String.ltb (rcc_RuleID candidate) (rcc_RuleID current))
  end.

Lemma admits_candidate best dimension c d n :
  admits (if better best dimension c then <[dimension := c]> best else best) d n ↔
  admits best d n ∧ (dimension = d → (n < rcc_Limit c)%N).
Proof.
  unfold admits, better. destruct (decide (dimension = d)) as [<-|Hne].
  - destruct (best !! dimension) as [c'|] eqn:Hc'.
    + match goal with |- context [if ?b then _ else _] => destruct b eqn:Hb end; bool_facts.
      * rewrite lookup_insert_eq. split; [|naive_solver].
        intros H. specialize (H c eq_refl). split; [|done]. intros ? [= <-]. lia.
      * rewrite Hc'. split; [|by intros [? _]]. intros H. split; [done|]. intros _.
        specialize (H c' eq_refl). lia.
    + rewrite lookup_insert_eq. naive_solver.
  - case_match; rewrite ?lookup_insert_ne by done; naive_solver.
Qed.

Lemma best_ok_candidate best dimension c :
  rcc_Limit c ≠ 0%N → rcc_RuleID c ≠ "" → rcc_Dimension c = dimension → best_ok best →
  best_ok (if better best dimension c then <[dimension := c]> best else best).
Proof.
  intros Hl Hi Hd Hok. case_match; [|done]. intros d c'.
  destruct (decide (dimension = d)) as [<-|Hne].
  - rewrite lookup_insert_eq. by intros [= <-].
  - rewrite lookup_insert_ne by done. apply Hok.
Qed.

Lemma planRule_spec intent denial best r :
  let '(denial', best') := planRule intent (denial, best) r in
  (denial' = None ↔ denial = None ∧ ¬ denies intent r) ∧
  (∀ dimension n, admits best' dimension n ↔
     admits best dimension n ∧ (limits intent dimension r → (n < cr_Limit r)%N)) ∧
  (rule_ok r → best_ok best → best_ok best').
Proof.
  unfold planRule, denies, limits. destruct (matches r intent); cbn [negb];
    [|split_and!; intros; intuition discriminate].
  destruct (bool_decide_reflect (cr_Kind r = kindCapabilityDeny)) as [->|Hd].
  { split_and!; [|intros; intuition discriminate|tauto]. destruct denial as [d|].
    - rewrite (bool_decide_false (Some d = None)), andb_false_r by done.
      split; [done|by intros [? _]].
    - rewrite (bool_decide_true (None = None)), andb_true_r by done.
      case_bool_decide; intuition discriminate. }
  destruct (bool_decide_reflect (cr_Kind r = kindResourceQuota)) as [Hq|Hq];
    [|split_and!; intros; tauto].
  destruct (bool_decide_reflect (ai_Mutation intent = AdmissionCreate)) as [Hc|Hc]; cbn [negb];
    [|split_and!; intros; tauto].
  set (c := {| rcc_RuleID := _ |}). fold (better best (dimension_of r) c).
  replace (if better best (dimension_of r) c then (denial, <[dimension_of r := c]> best)
           else (denial, best))
    with (denial, if better best (dimension_of r) c then <[dimension_of r := c]> best else best)
    by (by case_match).
  split_and!; [tauto| |].
  - intros dimension n. rewrite admits_candidate. cbn [c rcc_Limit]. tauto.
  - intros [Hid Hk]. apply best_ok_candidate; try done. by destruct Hk as [?|[_ ?]].
Qed.

Lemma plan_spec intent rules denial best :
  let '(denial', best') := foldl (planRule intent) (denial, best) rules in
  (denial' = None ↔ denial = None ∧ ∀ r, r ∈ rules → ¬ denies intent r) ∧
  (∀ dimension n, admits best' dimension n ↔
     admits best dimension n ∧ ∀ r, r ∈ rules → limits intent dimension r → (n < cr_Limit r)%N) ∧
  (Forall rule_ok rules → best_ok best → best_ok best').
Proof.
  revert denial best. induction rules as [|r rules IH]; intros denial best; cbn [foldl].
  { split_and!; [|intros; split; [|by intros [? _]]; intros ?|done].
    - split; [|by intros [? _]]. intros ->. split; [done|]. by intros r ?%not_elem_of_nil.
    - split; [done|]. by intros r ?%not_elem_of_nil. }
  pose proof (planRule_spec intent denial best r) as Hstep.
  destruct (planRule intent (denial, best) r) as [denial1 best1].
  destruct Hstep as (Hd & Ha & Hok). specialize (IH denial1 best1).
  destruct (foldl (planRule intent) (denial1, best1) rules) as [denial' best'].
  destruct IH as (Hd' & Ha' & Hok'). split_and!.
  - rewrite Hd', Hd. setoid_rewrite elem_of_cons. naive_solver.
  - intros dimension n. rewrite Ha', Ha. setoid_rewrite elem_of_cons. naive_solver.
  - rewrite Forall_cons. tauto.
Qed.

(** The resources the rule counts. *)
Definition counted (facts : ResourceCountFacts) (r : compiledRule) : N :=
  match cr_ResourceType r with
  | Some _ => rcf_TypeNonDeleted facts
  | None => rcf_OwnerNonDeleted facts
  end.

Record intent_complete (intent : AdmissionIntent) : Prop := {
  ic_mutation : mutation_valid (ai_Mutation intent) = true;
  ic_owner : owner_Kind (ai_Owner intent) ≠ "" ∧ owner_ID (ai_Owner intent) ≠ "";
  ic_type : ref_Name (ai_ResourceType intent) ≠ "" ∧ ref_Version (ai_ResourceType intent) ≠ "" }.

Record facts_match (facts : ResourceCountFacts) (intent : AdmissionIntent) : Prop := {
  fm_available : rcf_Available facts = true;
  fm_owner : rcf_Owner facts = ai_Owner intent;
  fm_type : rcf_ResourceType facts = ai_ResourceType intent }.

(** The constraints of a plan, decided. *)
Lemma decideConstraints_spec facts best :
  best_ok best →
  ∃ out, decideConstraints facts []
    (omap (λ dimension, best !! dimension) [QuotaOwnerResources; QuotaOwnerTypeResources]) = Ok out ∧
  (out = AdmissionAllowed ↔
   admits best QuotaOwnerResources (rcf_OwnerNonDeleted facts) ∧
   admits best QuotaOwnerTypeResources (rcf_TypeNonDeleted facts)).
Proof.
  intros Hok. unfold admits. cbn [omap list_omap].
  destruct (best !! QuotaOwnerResources) as [c|] eqn:Hc;
    [pose proof (Hok _ _ Hc) as (Hl & Hi & Hdim)|];
  (destruct (best !! QuotaOwnerTypeResources) as [c'|] eqn:Hc';
    [pose proof (Hok _ _ Hc') as (Hl' & Hi' & Hdim')|]); cbn [decideConstraints];
    rewrite ?Hdim, ?Hdim', ?(bool_decide_eq_false_2 _ Hl), ?(bool_decide_eq_false_2 _ Hi),
     ?(bool_decide_eq_false_2 _ Hl'), ?(bool_decide_eq_false_2 _ Hi'); eval_decides.
  all: repeat (match goal with |- context [N.leb ?a ?b] => destruct (N.leb_spec a b) end; cbn).
  all: eexists; split; [reflexivity|].
  all: split; [try discriminate; intros _; split; intros ? [= <-]; done|]; try done.
  all: intros [H1 H2]; exfalso.
  all: try (specialize (H1 _ eq_refl); lia); specialize (H2 _ eq_refl); lia.
Qed.

(** ** Parsing *)

Lemma wrapping_Ok {A} format args (m : outcome A) x : wrapping format args m = Ok x ↔ m = Ok x.
Proof. by destruct m. Qed.

Lemma parseLimit_ok raw limit : parseLimit raw = Ok limit → limit ≠ 0%N ∧ (limit ≤ MaxQuotaLimit)%N.
Proof.
  unfold parseLimit. intros H. destruct raw as [| |text| | |]; try done.
  destruct (parseDigits 0 text) as [v|]; [|done]. ok_inv. clear -H. bool_facts. destruct H as [[_ ?] ?]. by split; [|lia].
Qed.

Lemma parseRule_ok raw registered rule : parseRule raw registered = Ok rule → rule_ok rule.
Proof.
  unfold parseRule. intros H. ok_inv.
  assert (Hid : x0 ≠ "") by (intros ->; done).
  match goal with H : (if _ then _ else _) = Ok rule |- _ => rename H into Hrule end.
  destruct (bool_decide_reflect (x1 = kindCapabilityDeny)) as [->|_].
  { ok_inv. match goal with H : match ?m with Some _ => _ | None => _ end = Ok rule |- _ =>
      destruct m as [[| | | |elements|]|]; try done end.
    destruct (strings_of elements) as [[|cap caps]|]; try done. ok_inv.
    split; [done|by left]. }
  destruct (bool_decide_reflect (x1 = kindResourceQuota)) as [->|_]; [|done].
  ok_inv. match goal with H : match ?m with Some _ => _ | None => _ end = Ok rule |- _ =>
    destruct m; [|done] end.
  ok_inv. split; [done|]. right. split; [done|]. cbn.
  match goal with H : parseLimit _ = Ok _ |- _ => apply parseLimit_ok in H as [? _] end. done.
Qed.

Lemma claimKeys_ok id semantics keys semantics' :
  claimKeys id semantics keys = Ok semantics' →
  NoDup keys ∧ (∀ key, key ∈ keys → semantics !! key = None) ∧
  (∀ key, semantics' !! key = None ↔ semantics !! key = None ∧ key ∉ keys).
Proof.
  revert semantics. induction keys as [|k keys IH]; cbn; intros semantics.
  { intros [= <-]. split_and!; [constructor|by intros key ?%not_elem_of_nil|].
    intros key. split; [|by intros [? _]]. split; [done|apply not_elem_of_nil]. }
  destruct (semantics !! k) eqn:Hk; [done|]. intros (Hnd & Hfresh & Hiff)%IH.
  split_and!.
  - constructor; [|done]. intros Hin%Hfresh. by rewrite lookup_insert_eq in Hin.
  - intros key [->|Hin]%elem_of_cons; [done|]. apply Hfresh in Hin.
    destruct (decide (k = key)) as [->|?]; [done|]. by rewrite lookup_insert_ne in Hin.
  - intros key. rewrite Hiff, not_elem_of_cons. destruct (decide (k = key)) as [->|Hne].
    + rewrite lookup_insert_eq. naive_solver.
    + rewrite lookup_insert_ne by done. naive_solver.
Qed.

Lemma parseRules_ok registered index ids semantics raws rules :
  parseRules registered index ids semantics raws = Ok rules →
  Forall2 (λ raw rule, parseRule raw registered = Ok rule) raws rules ∧
  NoDup (cr_ID <$> rules) ∧ (∀ rule, rule ∈ rules → cr_ID rule ∉ ids) ∧
  NoDup (mjoin (semanticKeys <$> rules)) ∧
  (∀ key, key ∈ mjoin (semanticKeys <$> rules) → semantics !! key = None).
Proof.
  revert index ids semantics rules.
  induction raws as [|raw raws IH]; cbn; intros index ids semantics rules.
  { intros [= <-]. split_and!; try constructor; by intros ? ?%not_elem_of_nil. }
  intros H. ok_inv. rename x into rule.
  match goal with H : wrapping _ _ _ = _ |- _ => apply wrapping_Ok in H; rename H into Hrule end.
  match goal with H : claimKeys _ _ _ = _ |- _ =>
    apply claimKeys_ok in H as (Hnd & Hfresh & Hiff) end.
  match goal with H : parseRules _ _ _ _ _ = _ |- _ =>
    apply IH in H as (Hall & Hids & Hnew & Hkeys & Hsem) end.
  bool_facts. split_and!.
  - by constructor.
  - rewrite fmap_cons. constructor; [|done]. intros (r & Hr & Hin)%list_elem_of_fmap.
    apply (Hnew r Hin). rewrite <- Hr. by left.
  - intros r [->|Hin]%elem_of_cons; [done|]. intros ?. apply (Hnew r Hin). by right.
  - rewrite fmap_cons. cbn. apply NoDup_app. split_and!; [done| |done].
    intros key Hin Hin'. apply Hsem in Hin'. by apply Hiff in Hin' as [_ []].
  - intros key. rewrite fmap_cons. cbn. intros [Hin|Hin]%elem_of_app; [by apply Hfresh|].
    by apply Hsem, Hiff in Hin as [? _].
Qed.

(** The rules of a document, in its order. *)
Definition document_rules (raw : json) : list json :=
  match raw with
  | JObject root => match member root "rules" with Some (JArray rules) => rules | _ => [] end
  | _ => []
  end.

Lemma decodeObject_ok raw allowed object :
  decodeObject raw allowed = Ok object → raw = JObject object.
Proof.
  unfold decodeObject. destruct raw; try done.
  destruct (filter _ members) as [|[]]; [|done]. by intros [= ->].
Qed.

Lemma Parse_inv revision raw registered p :
  Parse revision raw registered = Ok p →
  ∃ rules, Forall2 (λ raw rule, parseRule raw registered = Ok rule) (document_rules raw) rules ∧
    NoDup (cr_ID <$> rules) ∧ NoDup (mjoin (semanticKeys <$> rules)) ∧
    p = {| pol_revision := revision (sortRules rules); pol_rules := sortRules rules |}.
Proof.
  unfold Parse. intros H. ok_inv.
  match goal with H : decodeObject _ _ = _ |- _ => apply decodeObject_ok in H as -> end.
  cbn [document_rules].
  match goal with H : match member ?o "rules" with Some _ => _ | None => _ end = _ |- _ =>
    destruct (member o "rules") as [[| | | |rawRules|]|]; try done end. ok_inv.
  match goal with H : parseRules _ _ _ _ _ = _ |- _ =>
    apply parseRules_ok in H as (Hall & Hids & _ & Hkeys & _) end.
  by eexists.
Qed.

Lemma rule_key_NoDup rules : NoDup (cr_ID <$> rules) → NoDup (rule_key <$> rules).
Proof.
  intros H. apply (NoDup_fmap_1 snd). rewrite <- list_fmap_compose. exact H.
Qed.

(** The parsed rules as a function of the raw ones. *)
Lemma parsed_rules registered raws rules :
  Forall2 (λ raw rule, parseRule raw registered = Ok rule) raws rules →
  rules = omap (λ raw, match parseRule raw registered with Ok r => Some r | _ => None end) raws.
Proof. induction 1 as [|? ? ? ? H _ IH]; cbn; [done|]. by rewrite H, <- IH. Qed.

Lemma sortRules_ok rules : Forall rule_ok rules → Forall rule_ok (sortRules rules).
Proof. unfold sortRules. by rewrite sort_by_Permutation. Qed.

Lemma Parse_rule_ok revision raw registered p :
  Parse revision raw registered = Ok p → Forall rule_ok (pol_rules p).
Proof.
  intros (rules & Hall & _ & _ & ->)%Parse_inv. cbn. apply sortRules_ok.
  induction Hall; constructor; [by eapply parseRule_ok|done].
Qed.

(** ** Properties *)

(** C35: Admission decides exactly as the document's rules read together. For a
    complete intent and facts about its owner and type, a parsed policy always
    reaches a decision, and allows the admission if and only if every rule
    that matches the intent neither denies its mutation nor, on a creation,
    limits the resources it counts to no more than there already are. *)
Theorem policy_decision_spec revision raw registered p intent facts :
  Parse revision raw registered = Ok p → pol_revision p ≠ "" →
  intent_complete intent → facts_match facts intent →
  ∃ decision, (plan ← Plan p intent; Decide p plan facts) = Ok decision ∧
    ad_Revision decision = pol_revision p ∧
    (ad_Outcome decision = AdmissionAllowed ↔
     ∀ rule, rule ∈ pol_rules p → matches rule intent = true →
       (cr_Kind rule = kindCapabilityDeny → ai_Mutation intent ∉ cr_Capabilities rule) ∧
       (cr_Kind rule = kindResourceQuota → ai_Mutation intent = AdmissionCreate →
        (counted facts rule < cr_Limit rule)%N)).
Proof.
  intros Hok%Parse_rule_ok Hrev [Hm [Hok1 Hok2] [Ht1 Ht2]] [Hav Hfo Hft].
  unfold Plan. rewrite Hm, (bool_decide_eq_false_2 _ Hrev), (bool_decide_eq_false_2 _ Hok1),
    (bool_decide_eq_false_2 _ Hok2), (bool_decide_eq_false_2 _ Ht1), (bool_decide_eq_false_2 _ Ht2).
  cbn [negb orb]. pose proof (plan_spec intent (pol_rules p) None ∅) as Hplan.
  destruct (foldl _ _ _) as [denial best]. destruct Hplan as (Hd & Ha & Hbest).
  assert (Hadm : ∀ dimension n, admits best dimension n ↔
    ∀ r, r ∈ pol_rules p → limits intent dimension r → (n < cr_Limit r)%N).
  { intros. rewrite Ha. split; [by intros [_ ?]|]. intros ?. split; [|done].
    intros c. by rewrite lookup_empty. }
  cbn [mbind outcome_bind]. unfold Decide. cbn [ap_Revision ap_Intent ap_CapabilityDenial].
  rewrite bool_decide_true, Hm by done. cbn [negb orb].
  destruct denial as [denial|].
  { eexists. split; [done|]. split; [done|]. split; [done|]. intros Hall. exfalso.
    assert (Some denial = None); [|done]. apply Hd. split; [done|].
    intros r Hr (Hmat & Hk & Hin). by apply (proj1 (Hall r Hr Hmat) Hk). }
  assert (Hnone : ∀ r, r ∈ pol_rules p → ¬ denies intent r) by by apply Hd.
  destruct (decideConstraints_spec facts best) as (out & Hout & Hiff).
  { apply Hbest; [done|]. intros d c. by rewrite lookup_empty. }
  assert (Hfinal : out = AdmissionAllowed ↔ ∀ rule, rule ∈ pol_rules p → matches rule intent = true →
    (cr_Kind rule = kindCapabilityDeny → ai_Mutation intent ∉ cr_Capabilities rule) ∧
    (cr_Kind rule = kindResourceQuota → ai_Mutation intent = AdmissionCreate →
     (counted facts rule < cr_Limit rule)%N)).
  { rewrite Hiff, !Hadm. unfold limits, dimension_of, counted. split.
    - intros [Ho Ht] r Hr Hmat. split; [intros Hk Hin; by apply (Hnone r Hr)|].
      intros Hk Hc. destruct (cr_ResourceType r) eqn:Hty;
        [apply (Ht r Hr)|apply (Ho r Hr)]; by rewrite Hty.
    - intros Hall. split; intros r Hr (Hmat & Hk & Hc & Hty);
        pose proof (proj2 (Hall r Hr Hmat) Hk Hc); by destruct (cr_ResourceType r). }
  cbn [ap_CountConstraints]. rewrite Hfo, Hft, !bool_decide_true, Hav by done. cbn [negb orb].
  revert Hout. destruct (omap _ _) as [|c cs]; cbn [decideConstraints].
  - intros [= <-]. eexists. split; [done|]. by split.
  - intros Hout. cbn [decideConstraints] in *. rewrite Hout. eexists. split; [done|]. by split.
Qed.

(** A parsed policy is canonical. Its rules have distinct identifiers, no
    restriction is stated twice, and they are ordered by kind and identifier;
    documents that list the same rules in another order give the same policy,
    with the same revision. *)
Theorem Parse_canonical revision raw raw' registered p p' :
  Parse revision raw registered = Ok p → Parse revision raw' registered = Ok p' →
  NoDup (cr_ID <$> pol_rules p) ∧ NoDup (mjoin (semanticKeys <$> pol_rules p)) ∧
  StronglySorted (by_key rule_key (pair_le string_le string_le)) (pol_rules p) ∧
  (document_rules raw ≡ₚ document_rules raw' → p = p').
Proof.
  intros (rules & Hall & Hids & Hkeys & ->)%Parse_inv (rules' & Hall' & _ & _ & ->)%Parse_inv.
  cbn [pol_rules]. split_and!.
  - unfold sortRules. by rewrite sort_by_Permutation.
  - unfold sortRules. by rewrite (sort_by_Permutation rule_key _ rules).
  - unfold sortRules. apply sort_by_sorted; apply _.
  - intros Hperm. assert (Heq : sortRules rules = sortRules rules'); [|by rewrite Heq].
    apply sort_by_unique; [apply _..|by apply rule_key_NoDup|].
    rewrite (parsed_rules _ _ _ Hall), (parsed_rules _ _ _ Hall'). by rewrite Hperm.
Qed.

(** ** Selector keys *)

Lemma fields_inj l k :
  foldr (λ field key, lengthPrefixed field +:+ key) "" l =
  foldr (λ field key, lengthPrefixed field +:+ key) "" k → l = k.
Proof.
  unfold lengthPrefixed. revert k.
  assert (Hne : ∀ n s t, "" ≠ (decimal n +:+ ":" +:+ s) +:+ t).
  { intros n s t H. assert (lacks ":" ((decimal n +:+ ":" +:+ s) +:+ t)) as Hl by by rewrite <- H.
    rewrite !lacks_app in Hl. by destruct Hl as [[_ [[[] _] _]] _]. }
  induction l as [|f l IH]; intros [|g k]; cbn [foldr]; [done| | |].
  - by intros []%Hne.
  - by intros []%symmetry%Hne.
  - rewrite !string_app_assoc. intros H.
    apply split_first in H as [Hlen H]; [|apply decimal_lacks; cbn; lia..].
    apply (inj decimal), (inj N.of_nat) in Hlen.
    apply app_length_inj in H as [-> H]; [|done]. f_equal. by apply IH.
Qed.

(** An owner of kind [type] and a type of version [type] with its name. *)
Definition collide (o : option OwnerRef) (t : option ResourceTypeRef)
    (o' : option OwnerRef) (t' : option ResourceTypeRef) : Prop :=
  ∃ name, o = Some {| owner_Kind := "type"; owner_ID := name |} ∧ t = None ∧
          o' = None ∧ t' = Some {| ref_Name := name; ref_Version := "type" |}.

(** The key that stands for a rule's selector in the duplicate check
    identifies the selector, whatever characters its strings contain, with one
    exception: the owner [type/X] without a type and the type [X/type] without
    an owner have the same key, so a document with both restrictions is
    refused as a duplicate. *)
Theorem selectorKey_exact o t o' t' :
  selectorKey o t = selectorKey o' t' ↔
  (o = o' ∧ t = t') ∨ collide o t o' t' ∨ collide o' t' o t.
Proof.
  unfold selectorKey, collide. split.
  - intros H%fields_inj. unfold selectorFields in H.
    destruct o as [[]|], t as [[]|], o' as [[]|], t' as [[]|]; cbn in H; simplify_eq/=;
      eauto 10.
  - intros [[-> ->]|[(name & -> & -> & -> & ->)|(name & -> & -> & -> & ->)]]; done.
Qed.

(** ** Concrete documents *)

Definition sample_deny : json :=
  JObject [("id", JString "no-update"); ("kind", JString "capability-deny");
    ("resourceType", JObject [("name", JString "ObjectStorage"); ("version", JString "v1")]);
    ("capabilities", JArray [JString "update"])].
Definition sample_quota : json :=
  JObject [("id", JString "team-quota"); ("kind", JString "resource-count-quota");
    ("owner", JObject [("kind", JString "team"); ("id", JString "payments")]);
    ("limit", JNumber "5")].
Definition sample_document (rules : list json) : json :=
  JObject [("apiVersion", JString "liftr.dev/admission-policy/v1"); ("rules", JArray rules)].

(** A stand-in for the digest of the canonical document. *)
Definition sample_revision (rules : list compiledRule) : string :=
  "pol_v1_" +:+ decimal (N.of_nat (length rules)).

Definition sample_policy : Policy :=
  ltac:(let r := eval vm_compute in
    (Parse sample_revision (sample_document [sample_deny; sample_quota]) [sample_type]) in
  lazymatch r with Ok ?p => exact p end).

Definition sample_intent : AdmissionIntent :=
  {| ai_Mutation := AdmissionCreate; ai_Owner := sample_owner; ai_ResourceType := sample_type |}.
Definition sample_facts (owner_count type_count : N) : ResourceCountFacts :=
  {| rcf_Available := true; rcf_Owner := sample_owner; rcf_ResourceType := sample_type;
     rcf_OwnerNonDeleted := owner_count; rcf_TypeNonDeleted := type_count |}.

Lemma policy_decision_spec_witness :
  ∃ decision,
    (plan ← Plan sample_policy sample_intent; Decide sample_policy plan (sample_facts 5 2)) =
      Ok decision ∧
    ad_Outcome decision ≠ AdmissionAllowed.
Proof.
  destruct (policy_decision_spec sample_revision (sample_document [sample_deny; sample_quota])
    [sample_type] sample_policy sample_intent (sample_facts 5 2)) as (d & Hd & _ & Hiff);
    [by vm_compute|done|by split|by split|].
  exists d. split; [done|]. intros Hall. pose proof (proj1 Hiff Hall) as Hrules.
  destruct (Hrules (nth 1 (pol_rules sample_policy)
    (nth 0 (pol_rules sample_policy) {| cr_ID := ""; cr_Kind := ""; cr_Owner := None;
       cr_ResourceType := None; cr_Capabilities := []; cr_Limit := 0 |}))) as [_ Hlt].
  - right. left.
  - done.
  - specialize (Hlt eq_refl eq_refl). vm_compute in Hlt. discriminate Hlt.
Defined.

Lemma Parse_canonical_witness :
  Parse sample_revision (sample_document [sample_quota; sample_deny]) [sample_type] =
  Ok sample_policy.
Proof.
  destruct (Parse sample_revision (sample_document [sample_quota; sample_deny]) [sample_type])
    as [p'| |] eqn:H; [|vm_compute in H; discriminate H..].
  destruct (Parse_canonical sample_revision (sample_document [sample_deny; sample_quota])
    (sample_document [sample_quota; sample_deny]) [sample_type] sample_policy p')
    as (_ & _ & _ & Heq); [by vm_compute|done|].
  rewrite Heq; [done|]. apply perm_swap.
Defined.
