(* ===== verification/Dependencies.v ===== *)
(** * The dependency gate

    Models [src/internal/application/dependencies.go]: the classification of a
    referenced target and the gate that a submission has to pass.  The
    repositories and the catalog the gate reads are an interface, [GateReads];
    the gate's theorems hold for every implementation. *)

From S2P Require Import Prelude Operation Values Resource Status Engine Contracts.
From S2P Require Import Provisioning Records References Outputs.
Open Scope string_scope.
Open Scope go_scope.

Definition DependencyReady : string := "READY".
Definition DependencyWaiting : string := "WAIT".
Definition DependencyTerminalFailure : string := "TERMINAL_DEPENDENCY_FAILURE".
Definition DependencyInvalid : string := "INVALID".

Record DependencyEvaluation := {
  de_Class : string;
  de_Blocking : list ResourceID;
  de_TargetVersions : gmap string uint64 }.

#[export] Instance DependencyEvaluation_fields : Fields DependencyEvaluation := λ r,
  {| de_Class := de_Class r; de_Blocking := de_Blocking r;
     de_TargetVersions := de_TargetVersions r |}.

(** What the gate asks of a resource contract. *)
Record GateContract := {
  gc_OutputContract : option OutputContract;
  gc_ReferenceContract : option ReferenceContract }.

(** What the gate reads: the catalog ([nil], or its [Get], which may return a
    [nil] contract) and the repositories of the unit of work. *)
Class GateReads := {
  types : option (ResourceTypeRef → outcome (option GateContract));
  DesiredReferences : ResourceID → outcome (list ReferenceEdge);
  LockResources : list ResourceID → outcome (list ResourceRecord);
  ActiveForResource : ResourceID → outcome (option OperationRecord);
  LatestResourceOutputs : ResourceID → outcome (option ResourceOutputRecord) }.

Section gate.
Context {reads : GateReads}.

(** Whether the target's type requires published outputs; an error of the
    catalog counts as no requirement. *)
Definition requiredOutputs (get : ResourceTypeRef → outcome (option GateContract))
    (target : ResourceRecord) : bool :=
  match get (res_type (rr_Resource target)) with
  | Ok (Some {| gc_OutputContract := Some c |}) => RequiresOutputs c
  | _ => false
  end.

Definition reconciledAt (target : ResourceRecord) : bool :=
  existsb (λ c, (cond_type c =? ConditionReconciled) &&
                (cond_status c =? ConditionStatusTrue) &&
                (cond_observedGeneration c =? res_generation (rr_Resource target)))
    (st_conditions (rr_Status target)).

Definition outputsPublished (target : ResourceRecord) : bool :=
  match LatestResourceOutputs (res_id (rr_Resource target)) with
  | Ok (Some record) =>
      ro_observedGeneration (ror_Values record) =? res_generation (rr_Resource target)
  | _ => false
  end.

Definition classifyDependency (get : ResourceTypeRef → outcome (option GateContract))
    (target : ResourceRecord) : string :=
  let state := st_state (rr_Status target) in
  if (state =? ResourceStateDeleting) || (state =? ResourceStateDeleted) then DependencyInvalid
  else if (state =? ResourceStatePending) || (state =? ResourceStateUnknown)
  then DependencyWaiting
  else if negb ((state =? ResourceStateFailed) || (state =? ResourceStateReady))
  then DependencyInvalid
  else
  match ActiveForResource (res_id (rr_Resource target)) with
  | Ok active =>
      let hasActive := non_nil active (λ o, negb (IsTerminal (opr_Operation o))) in
      if (state =? ResourceStateFailed) && negb hasActive then DependencyTerminalFailure
      else if state <>? ResourceStateReady then DependencyWaiting
      else if negb (reconciledAt target) || hasActive then DependencyWaiting
      else if requiredOutputs get target && negb (outputsPublished target)
      then DependencyWaiting
      else DependencyReady
  | _ => DependencyInvalid
  end.

(** One turn of the loop over the locked targets. *)
Definition evaluateTarget (get : ResourceTypeRef → outcome (option GateContract))
    (evaluation : DependencyEvaluation) (target : ResourceRecord) : DependencyEvaluation :=
  let class := classifyDependency get target in
  let id := res_id (rr_Resource target) in
  let evaluation := evaluation <| de_TargetVersions :=
    <[id := rr_Version target]> (de_TargetVersions evaluation) |> in
  let blocked (class : string) := evaluation <| de_Class := class |>
    <| de_Blocking := (de_Blocking evaluation ++ [id])%list |> in
  if class =? DependencyReady then evaluation
  else if class =? DependencyWaiting then blocked DependencyWaiting
  else if class =? DependencyTerminalFailure then
    blocked (if de_Class evaluation <>? DependencyInvalid
             then DependencyTerminalFailure else de_Class evaluation)
  else blocked DependencyInvalid.

Definition emptyEvaluation : DependencyEvaluation :=
  {| de_Class := ""; de_Blocking := []; de_TargetVersions := ∅ |}.

(** The evaluation, and whether the resource is gated at all. *)
Definition EvaluateDependencies (resource : ResourceRecord)
    : outcome (DependencyEvaluation * bool) :=
  match types with
  | None => Ok (emptyEvaluation, false)
  | Some get =>
      match get (res_type (rr_Resource resource)) with
      | Err e => Err (Notef ErrResourceTypeNotFound "%w: %v" e)
      | Panic s => Panic s
      | Ok None => Panic "nil pointer dereference"
      | Ok (Some contract) =>
          match gc_ReferenceContract contract with
          | None => Ok (emptyEvaluation, false)
          | Some _ =>
              desired ← DesiredReferences (res_id (rr_Resource resource)) ;
              match filter (λ edge, edge_Generation edge ≠ res_generation (rr_Resource resource))
                      desired with
              | edge :: _ =>
                  Err (Wrapf ErrReferenceInvariant
                    "%w: desired reference generation %d does not match resource generation %d"
                    [ArgN (edge_Generation edge); ArgN (res_generation (rr_Resource resource))])
              | [] =>
                  match desired with
                  | [] => Ok (emptyEvaluation, false)
                  | _ =>
                      lockedTargets ← LockResources (distinctEdgeTargets desired) ;
                      Ok (foldl (evaluateTarget get)
                            (emptyEvaluation <| de_Class := DependencyReady |>) lockedTargets,
                          true)
                  end
              end
          end
      end
  end.
End gate.


(** ** The gate *)

Section gate_laws.
Context {reads : GateReads} (get : ResourceTypeRef → outcome (option GateContract)).

(** The target has converged on its current generation. *)
Record converged (target : ResourceRecord) : Prop := {
  cv_state : st_state (rr_Status target) = ResourceStateReady;
  cv_inactive : ∃ active, ActiveForResource (res_id (rr_Resource target)) = Ok active ∧
    ∀ o, active = Some o → IsTerminal (opr_Operation o) = true;
  cv_reconciled : ∃ c, c ∈ st_conditions (rr_Status target) ∧
    cond_type c = ConditionReconciled ∧ cond_status c = ConditionStatusTrue ∧
    cond_observedGeneration c = res_generation (rr_Resource target);
  cv_outputs : requiredOutputs get target = true →
    ∃ record, LatestResourceOutputs (res_id (rr_Resource target)) = Ok (Some record) ∧
      ro_observedGeneration (ror_Values record) = res_generation (rr_Resource target) }.

Lemma reconciledAt_spec target :
  reconciledAt target = true ↔ ∃ c, c ∈ st_conditions (rr_Status target) ∧
    cond_type c = ConditionReconciled ∧ cond_status c = ConditionStatusTrue ∧
    cond_observedGeneration c = res_generation (rr_Resource target).
Proof.
  unfold reconciledAt. rewrite existsb_exists. setoid_rewrite <- list_elem_of_In.
  setoid_rewrite andb_true_iff. setoid_rewrite andb_true_iff.
  setoid_rewrite bool_decide_eq_true. naive_solver.
Qed.

Lemma outputsPublished_spec target :
  outputsPublished target = true ↔
    ∃ record, LatestResourceOutputs (res_id (rr_Resource target)) = Ok (Some record) ∧
      ro_observedGeneration (ror_Values record) = res_generation (rr_Resource target).
Proof.
  unfold outputsPublished. destruct (LatestResourceOutputs _) as [[record|]| |]; [|naive_solver..].
  rewrite bool_decide_eq_true. naive_solver.
Qed.

Lemma classify_ready target : classifyDependency get target = DependencyReady ↔ converged target.
Proof.
  unfold classifyDependency. split.
  - intros H. do 3 (case_if_in H; [discriminate H|]).
    destruct (ActiveForResource _) as [active| |] eqn:Ha; try discriminate H.
    do 4 (case_if_in H; [discriminate H|]).
    split.
    + match goal with H : (st_state _ <>? ResourceStateReady) = false |- _ => by bool_facts end.
    + exists active. split; [done|]. intros o ->.
      match goal with H : negb _ || _ = false |- _ => apply orb_false_iff in H as [_ H]; cbn in H;
        by apply negb_false_iff in H end.
    + apply reconciledAt_spec.
      match goal with H : negb _ || _ = false |- _ => apply orb_false_iff in H as [H _];
        by apply negb_false_iff in H end.
    + intros Hr. apply outputsPublished_spec.
      match goal with H : requiredOutputs _ _ && _ = false |- _ => rewrite Hr in H; cbn in H;
        by apply negb_false_iff in H end.
  - intros [Hs (active & Ha & Hterm) Hr Ho]. rewrite Hs, Ha. eval_decides.
    apply reconciledAt_spec in Hr. rewrite Hr. cbn.
    assert (non_nil active (λ o, negb (IsTerminal (opr_Operation o))) = false) as ->.
    { destruct active as [o|]; [|done]. cbn. by rewrite (Hterm o). }
    destruct (requiredOutputs get target); [|done]. cbn.
    by rewrite (proj2 (outputsPublished_spec target)) by auto.
Qed.

#[export] Instance converged_dec target : Decision (converged target).
Proof.
  destruct (decide (classifyDependency get target = DependencyReady)) as [H|H].
  - left. by apply classify_ready.
  - right. by rewrite <- classify_ready.
Defined.

Lemma evaluateTarget_spec ev target :
  let ev' := evaluateTarget get ev target in
  (de_Class ev' = DependencyReady ↔ de_Class ev = DependencyReady ∧ converged target) ∧
  de_Blocking ev' =
    (de_Blocking ev ++ if decide (converged target) then [] else [res_id (rr_Resource target)])%list.
Proof.
  cbn zeta. pose proof (classify_ready target) as Hready. unfold evaluateTarget.
  destruct (bool_decide_reflect (classifyDependency get target = DependencyReady)) as [H|H].
  - rewrite decide_True by tauto. rewrite app_nil_r. cbn. tauto.
  - rewrite decide_False by tauto. split; [|by repeat case_match].
    split; [|tauto]. repeat case_match; cbn; try discriminate.
    match goal with H : (de_Class _ <>? DependencyInvalid) = false |- _ =>
      bool_facts; cbn in H; rewrite H end.
    discriminate.
Qed.

Lemma foldl_evaluate targets ev :
  let ev' := foldl (evaluateTarget get) ev targets in
  (de_Class ev' = DependencyReady ↔
   de_Class ev = DependencyReady ∧ ∀ target, target ∈ targets → converged target) ∧
  de_Blocking ev' = (de_Blocking ev ++
    ((λ target, res_id (rr_Resource target)) <$> filter (λ target, ¬ converged target) targets))%list.
Proof.
  revert ev. induction targets as [|target targets IH]; intros ev; cbn [foldl].
  { rewrite app_nil_r. split; [|done]. split; [|by intros [? _]]. intros ?. split; [done|].
    by intros t ?%not_elem_of_nil. }
  destruct (evaluateTarget_spec ev target) as [Hc Hb], (IH (evaluateTarget get ev target)) as [Hc' Hb'].
  split.
  - cbn zeta in *. rewrite Hc', Hc. setoid_rewrite elem_of_cons. naive_solver.
  - cbn zeta in *. rewrite Hb', Hb, filter_cons. destruct (decide (converged target)).
    + rewrite decide_False by tauto. by rewrite app_nil_r.
    + rewrite decide_True by done. by rewrite <- app_assoc.
Qed.
End gate_laws.

(** C31: The gate opens only on convergence. When a resource is gated, its
    desired references are of its current generation, and for the targets the
    repository locked: the gate is ready exactly when every one of them is
    Ready, without an active operation, reconciled at its own current
    generation, and has published the outputs its type requires for that
    generation; the blocking targets are exactly the others, in their order. *)
Theorem EvaluateDependencies_spec `{GateReads} resource ev :
  EvaluateDependencies resource = Ok (ev, true) →
  ∃ get desired targets,
    types = Some get ∧ DesiredReferences (res_id (rr_Resource resource)) = Ok desired ∧
    (∀ edge, edge ∈ desired → edge_Generation edge = res_generation (rr_Resource resource)) ∧
    LockResources (distinctEdgeTargets desired) = Ok targets ∧
    (de_Class ev = DependencyReady ↔ ∀ target, target ∈ targets → converged get target) ∧
    de_Blocking ev = (λ target, res_id (rr_Resource target)) <$>
      filter (λ target, ¬ converged get target) targets.
Proof.
  unfold EvaluateDependencies. destruct types as [get|] eqn:Hg; [|done].
  destruct (get _) as [[contract|]| |]; try done. destruct (gc_ReferenceContract contract); [|done].
  intros (desired & Hd & H1)%bind_Ok.
  destruct (filter _ desired) eqn:Hf; [|done]. destruct desired as [|edge desired]; [done|].
  apply bind_Ok in H1 as (targets & Ht & [= <-]).
  destruct (foldl_evaluate get targets (emptyEvaluation <| de_Class := DependencyReady |>))
    as [Hc Hb].
  exists get, (edge :: desired), targets. split_and!; try done.
  - intros e He. destruct (decide (edge_Generation e = res_generation (rr_Resource resource)))
      as [|Hne]; [done|]. exfalso.
    assert (e ∈ filter (λ edge, edge_Generation edge ≠ res_generation (rr_Resource resource))
      (edge :: desired)) as Hin by by apply list_elem_of_filter.
    rewrite Hf in Hin. by apply not_elem_of_nil in Hin.
  - rewrite Hc. cbn. naive_solver.
Qed.

(** ** A concrete gate *)

Definition target_resource (id : ResourceID) : Resource :=
  {| res_id := id; res_type := sample_type; res_owner := sample_owner; res_generation := 1;
     res_spec := sample_spec; res_createdAt := 10; res_updatedAt := 10 |}.
Definition target_record (id : ResourceID) (state : string) : ResourceRecord :=
  {| rr_Resource := target_resource id;
     rr_Status := {| st_resourceID := id; st_observedGeneration := 1; st_state := state;
       st_conditions := [{| cond_type := ConditionReconciled; cond_status := ConditionStatusTrue;
         cond_reason := "Reconciled"; cond_message := ""; cond_observedGeneration := 1;
         cond_lastTransitionAt := 12 |}];
       st_updatedAt := 12 |};
     rr_ProvisionerRef := "provisioner"; rr_Version := 2 |}.
Definition gated_record : ResourceRecord :=
  {| rr_Resource := sample_resource; rr_Status := sample_status;
     rr_ProvisionerRef := "provisioner"; rr_Version := 1 |}.

(** A catalog whose types take references and declare no outputs, and targets
    in the given states. *)
Definition gate_of (targets : list (ResourceID * string)) : GateReads :=
  {| types := Some (λ _, Ok (Some {| gc_OutputContract := None;
                                     gc_ReferenceContract := Some sample_reference_contract |}));
     DesiredReferences := λ _, Ok ((λ t, {| edge_Slot := "store"; edge_TargetID := t.1;
                                            edge_Generation := 1 |}) <$> targets);
     LockResources := λ _, Ok ((λ t, target_record t.1 t.2) <$> targets);
     ActiveForResource := λ _, Ok None;
     LatestResourceOutputs := λ _, Ok None |}.

Lemma EvaluateDependencies_spec_witness :
  ∃ ev, @EvaluateDependencies (gate_of [("a", "Ready"); ("b", "Pending")]) gated_record =
    Ok (ev, true) ∧ de_Class ev ≠ DependencyReady ∧ de_Blocking ev = ["b"].
Proof.
  set (reads := gate_of [("a", "Ready"); ("b", "Pending")]).
  destruct (@EvaluateDependencies reads gated_record) as [[ev gated]| |] eqn:H;
    [|vm_compute in H; discriminate H..].
  assert (gated = true) as -> by (vm_compute in H; by injection H).
  destruct (@EvaluateDependencies_spec reads gated_record ev H)
    as (get & desired & targets & [= <-] & _ & _ & [= <-] & Hc & Hb).
  exists ev. split; [done|]. split; [|by rewrite Hb].
  intros Hr. pose proof (proj1 Hc Hr (target_record "b" "Pending")) as [Hs _ _ _].
  { right. left. }
  discriminate Hs.
Defined.

(** The class of a blocked gate depends on the order of the targets: a target
    that can never converge makes the gate invalid, unless one that is still
    waiting follows it. *)
Lemma gate_class_order :
  (let gate := gate_of [("a", "Deleted"); ("b", "Pending")] in
   de_Class <$> (fst <$> match @EvaluateDependencies gate gated_record with
                         | Ok r => Some r | _ => None end) = Some DependencyWaiting) ∧
  (let gate := gate_of [("a", "Pending"); ("b", "Deleted")] in
   de_Class <$> (fst <$> match @EvaluateDependencies gate gated_record with
                         | Ok r => Some r | _ => None end) = Some DependencyInvalid).
Proof. split; vm_compute; reflexivity. Qed.
