(* ===== verification/Outbox.v ===== *)
(** * The outbox

    Models the outbox of the in-memory store
    ([src/internal/application/fake/store.go], from [Enqueue] to [DeadOutbox]),
    which mirrors the durable one: enqueueing, claiming with a lease, and every
    way a lease ends.  A clock reading of the code is an argument [now]; Go's
    map iteration is an argument [iteration], some order of the messages. *)

From S2P Require Import Prelude Text Operation Values Resource Status Provisioning Records Work.
Open Scope string_scope.
Open Scope go_scope.

Abbreviation outbox := (gmap string OutboxMessage) (only parsing).

(** ** Enqueueing *)

(** The loop of [Enqueue]: [Some r] when it returns [r]. *)
Fixpoint enqueueConflict (message : OutboxMessage) (iteration : list OutboxMessage)
    : option (option error) :=
  match iteration with
  | [] => None
  | existing :: rest =>
      if om_DedupeKey existing =? om_DedupeKey message then Some None
      else if (om_Kind existing <>? om_Kind message) ||
              ((om_State existing <>? OutboxPending) && (om_State existing <>? OutboxLeased))
      then enqueueConflict message rest
      else if ((om_OperationID message <>? "") &&
               (om_OperationID existing =? om_OperationID message)) ||
              ((om_ResourceID message <>? "") &&
               (om_ResourceID existing =? om_ResourceID message))
      then Some (Some ErrConcurrencyConflict)
      else enqueueConflict message rest
  end.

(** The times a stored message gets by default. *)
Definition stamped (message : OutboxMessage) (now now' : Time) : OutboxMessage :=
  let message := if IsZero (om_AvailableAt message)
                 then message <| om_AvailableAt := (now + om_Delay message)%Z |> else message in
  if IsZero (om_CreatedAt message) then message <| om_CreatedAt := now' |> else message.

Definition Enqueue (o : outbox) (iteration : list OutboxMessage) (message : OutboxMessage)
    (now now' : Time) : outcome outbox :=
  match enqueueConflict message iteration with
  | Some None => Ok o
  | Some (Some e) => Err e
  | None =>
      let message := if om_State message =? "" then message <| om_State := OutboxPending |>
                     else message in
      Ok (<[om_ID message := stamped message now now']> o)
  end.

(** The loop of [EnqueueWakeDependents]: whether it returns. *)
Fixpoint wakeCoalesced (message : OutboxMessage) (iteration : list OutboxMessage) : bool :=
  match iteration with
  | [] => false
  | existing :: rest =>
      if om_DedupeKey existing =? om_DedupeKey message then true
      else if (om_Kind existing <>? OutboxWakeDependents) ||
              ((om_State existing <>? OutboxPending) && (om_State existing <>? OutboxLeased))
      then wakeCoalesced message rest
      else if om_ResourceID existing =? om_ResourceID message then true
      else wakeCoalesced message rest
  end.

Definition EnqueueWakeDependents (o : outbox) (iteration : list OutboxMessage)
    (message : OutboxMessage) (now now' : Time) : outcome outbox :=
  if wakeCoalesced message iteration then Ok o
  else let message := message <| om_State := OutboxPending |> in
       Ok (<[om_ID message := stamped message now now']> o).

(** ** Claiming *)

Definition claimable (message : OutboxMessage) (now : Time) : bool :=
  negb ((om_State message <>? OutboxPending) ||
        (negb (IsZero (om_AvailableAt message)) && After (om_AvailableAt message) now)).

Definition ClaimOutbox (o : outbox) (iteration : list (string * OutboxMessage))
    (token : string) (lease : Z) (now : Time) : outbox * option OutboxMessage :=
  match filter (λ kv, claimable kv.2 now = true) iteration with
  | [] => (o, None)
  | (id, message) :: _ =>
      let message := message <| om_State := OutboxLeased |> <| om_LeaseToken := token |>
        <| om_LeasedUntil := (now + lease)%Z |>
        <| om_AttemptCount := (om_AttemptCount message + 1)%Z |> in
      (<[id := message]> o, Some message)
  end.

Definition FindExpiredDispatch (iteration : list OutboxMessage) (now : Time)
    : option OutboxMessage :=
  head (filter (λ m, (om_Kind m =? OutboxDispatch) && (om_State m =? OutboxLeased) &&
                     negb (After (om_LeasedUntil m) now) = true) iteration).

(** ** The end of a lease *)

(** The message of a live lease of the token, and of an expired one. *)
Definition leasedLive (message : OutboxMessage) (token : string) (now : Time) : bool :=
  negb ((om_State message <>? OutboxLeased) || (om_LeaseToken message <>? token) ||
        negb (After (om_LeasedUntil message) now)).
Definition leasedExpired (message : OutboxMessage) (token : string) (now : Time) : bool :=
  negb ((om_State message <>? OutboxLeased) || (om_LeaseToken message <>? token) ||
        After (om_LeasedUntil message) now).

(** Look the message up, check it, and store its update. *)
Definition updateWhen (o : outbox) (id : string) (check : OutboxMessage → bool)
    (update : OutboxMessage → OutboxMessage) : outcome outbox :=
  match o !! id with
  | None => Err ErrConcurrencyConflict
  | Some message =>
      fail_if negb (check message) with ErrConcurrencyConflict ;;
      Ok (<[id := update message]> o)
  end.

Definition released (message : OutboxMessage) (state : string) : OutboxMessage :=
  message <| om_State := state |> <| om_LeaseToken := "" |> <| om_LeasedUntil := time_zero |>.

Definition RenewOutbox (o : outbox) (id token : string) (lease : Z) (now : Time)
    : outcome outbox :=
  updateWhen o id (λ m, leasedLive m token now)
    (λ m, m <| om_LeasedUntil := (now + lease)%Z |>).

Definition RequeueExpiredOutbox (o : outbox) (id token : string) (now now' : Time)
    : outcome outbox :=
  updateWhen o id (λ m, leasedExpired m token now)
    (λ m, (released m OutboxPending) <| om_AvailableAt := now' |>).

Definition CompleteOutbox (o : outbox) (id token reason : string) (now : Time)
    : outcome outbox :=
  updateWhen o id (λ m, leasedLive m token now)
    (λ m, (released m OutboxCompleted) <| om_TerminalReason := reason |>).

Definition CompleteExpiredOutbox (o : outbox) (id token reason : string) (now : Time)
    : outcome outbox :=
  updateWhen o id (λ m, leasedExpired m token now)
    (λ m, (released m OutboxCompleted) <| om_TerminalReason := reason |>).

Definition retried (message : OutboxMessage) (messageText : string) (availableAt : Time)
    : OutboxMessage :=
  (released message OutboxPending) <| om_LastError := messageText |>
    <| om_AvailableAt := availableAt |>.

Definition RetryOutbox (o : outbox) (id token : string) (delay : Z) (messageText : string)
    (now now' : Time) : outcome outbox :=
  updateWhen o id (λ m, leasedLive m token now)
    (λ m, retried m messageText (now' + delay)%Z).

(** The execution of a dispatch must still be at the expected version. *)
Definition versionHolds (executions : gmap OperationID ProvisioningExecutionRecord)
    (m : OutboxMessage) (expectedVersion : uint64) : bool :=
  non_nil (executions !! om_OperationID m) (λ e, pe_Version e =? expectedVersion).

Definition RetryDispatchOutbox (executions : gmap OperationID ProvisioningExecutionRecord)
    (o : outbox) (id token : string) (expectedVersion : uint64) (delay : Z)
    (messageText : string) (now now' : Time) : outcome outbox :=
  updateWhen o id
    (λ m, (om_Kind m =? OutboxDispatch) && leasedLive m token now &&
          versionHolds executions m expectedVersion)
    (λ m, (retried m messageText (now' + delay)%Z) <| om_ExpectedVersion := expectedVersion |>).

Definition RetryExpiredDispatchOutbox
    (executions : gmap OperationID ProvisioningExecutionRecord)
    (o : outbox) (id token : string) (expectedVersion : uint64) (delay : Z)
    (messageText : string) (now now' : Time) : outcome outbox :=
  updateWhen o id
    (λ m, (om_Kind m =? OutboxDispatch) && leasedExpired m token now &&
          versionHolds executions m expectedVersion)
    (λ m, (retried m messageText (now' + delay)%Z) <| om_ExpectedVersion := expectedVersion |>).

Definition DeadOutbox (o : outbox) (id token reason : string) (now : Time) : outcome outbox :=
  updateWhen o id (λ m, leasedLive m token now)
    (λ m, (released m OutboxDead) <| om_TerminalReason := reason |>).

(** ** Summaries *)

Definition created_key (m : OutboxMessage) : Time * string := (om_CreatedAt m, om_ID m).

Definition summarizeWork (include : OutboxMessage → bool) (iteration : list OutboxMessage)
    : WorkHistorySummary :=
  let included := filter (λ m, include m = true) iteration in
  {| wh_Active := sort_by created_key (pair_le Z.le string_le)
       (filter (λ m, isActive m = true) included);
     wh_Counts := foldr (λ m counts,
       <[om_State m := (default 0 (counts !! om_State m) + 1)%Z]> counts) ∅ included |}.

Definition SummarizeWorkByOperation (iteration : list OutboxMessage) (operationID : OperationID)
    : WorkHistorySummary := summarizeWork (λ m, om_OperationID m =? operationID) iteration.
Definition SummarizeWorkByResource (iteration : list OutboxMessage) (resourceID : ResourceID)
    : WorkHistorySummary := summarizeWork (λ m, om_ResourceID m =? resourceID) iteration.


(** ** Steps *)

(** A message as the application builds it. *)
Record fresh (m : OutboxMessage) : Prop := {
  fr_key : om_DedupeKey m = om_ID m;
  fr_named : om_ID m ≠ "";
  fr_state : om_State m = OutboxPending ∨ om_State m = "";
  fr_token : om_LeaseToken m = "";
  fr_until : om_LeasedUntil m = time_zero }.

(** One operation of the actor with this token, whose lease check reads the
    clock at [now]. *)
Inductive outbox_step (token : string) (now : Time) : relation outbox :=
  | os_enqueue o o' iteration message now' :
      iteration ≡ₚ (map_to_list o).*2 → fresh message →
      Enqueue o iteration message now now' = Ok o' → outbox_step token now o o'
  | os_wake o o' iteration message now' :
      iteration ≡ₚ (map_to_list o).*2 → fresh message →
      om_Kind message = OutboxWakeDependents → om_OperationID message = "" →
      EnqueueWakeDependents o iteration message now now' = Ok o' → outbox_step token now o o'
  | os_claim o iteration lease :
      iteration ≡ₚ map_to_list o →
      outbox_step token now o (fst (ClaimOutbox o iteration token lease now))
  | os_renew o o' id lease :
      RenewOutbox o id token lease now = Ok o' → outbox_step token now o o'
  | os_requeue o o' id now' :
      RequeueExpiredOutbox o id token now now' = Ok o' → outbox_step token now o o'
  | os_complete o o' id reason :
      CompleteOutbox o id token reason now = Ok o' → outbox_step token now o o'
  | os_complete_expired o o' id reason :
      CompleteExpiredOutbox o id token reason now = Ok o' → outbox_step token now o o'
  | os_retry o o' id delay text now' :
      RetryOutbox o id token delay text now now' = Ok o' → outbox_step token now o o'
  | os_retry_dispatch executions o o' id version delay text now' :
      RetryDispatchOutbox executions o id token version delay text now now' = Ok o' →
      outbox_step token now o o'
  | os_retry_expired executions o o' id version delay text now' :
      RetryExpiredDispatchOutbox executions o id token version delay text now now' = Ok o' →
      outbox_step token now o o'
  | os_dead o o' id reason :
      DeadOutbox o id token reason now = Ok o' → outbox_step token now o o'.

Inductive outbox_reachable : outbox → Prop :=
  | or_empty : outbox_reachable ∅
  | or_step token now o o' :
      outbox_reachable o → outbox_step token now o o' → outbox_reachable o'.

(** ** What a step does to the messages *)

(** The message keeps what identifies it. *)
Definition same_work (m m' : OutboxMessage) : Prop :=
  om_ID m' = om_ID m ∧ om_DedupeKey m' = om_DedupeKey m ∧ om_Kind m' = om_Kind m ∧
  om_OperationID m' = om_OperationID m ∧ om_ResourceID m' = om_ResourceID m.

(** The lease of the message ends, or is renewed, at the hands of its holder. *)
Record lease_move (token : string) (now : Time) (m m' : OutboxMessage) : Prop := {
  lm_from : om_State m = OutboxLeased ∧ om_LeaseToken m = token;
  lm_to : om_State m' ∈ [OutboxLeased; OutboxPending; OutboxCompleted; OutboxDead];
  lm_live : om_State m' = OutboxLeased ∨ om_State m' = OutboxDead →
            (now < om_LeasedUntil m)%Z;
  lm_token : om_LeaseToken m' = if om_State m' =? OutboxLeased then token else "" }.

Definition claim_move (token : string) (m m' : OutboxMessage) : Prop :=
  om_State m = OutboxPending ∧ om_State m' = OutboxLeased ∧ om_LeaseToken m' = token.

(** The two messages compete for the same aggregate. *)
Definition competes (m n : OutboxMessage) : Prop :=
  om_Kind n = om_Kind m ∧
  ((om_OperationID m ≠ "" ∧ om_OperationID n = om_OperationID m) ∨
   (om_ResourceID m ≠ "" ∧ om_ResourceID n = om_ResourceID m)).

(** A step adds one message, or moves one, or changes nothing. *)
Inductive outbox_effect (token : string) (now : Time) (o : outbox) : outbox → Prop :=
  | oe_none : outbox_effect token now o o
  | oe_add m :
      om_DedupeKey m = om_ID m → om_ID m ≠ "" → om_State m = OutboxPending →
      om_LeaseToken m = "" → (∀ id n, o !! id = Some n → om_DedupeKey n ≠ om_ID m) →
      (∀ id n, o !! id = Some n → isActive n = true → ¬ competes m n) →
      outbox_effect token now o (<[om_ID m := m]> o)
  | oe_move id m m' :
      o !! id = Some m → same_work m m' → lease_move token now m m' ∨ claim_move token m m' →
      outbox_effect token now o (<[id := m']> o).

Lemma leasedLive_spec m token now :
  leasedLive m token now = true ↔
  om_State m = OutboxLeased ∧ om_LeaseToken m = token ∧ (now < om_LeasedUntil m)%Z.
Proof.
  unfold leasedLive, After. rewrite negb_true_iff, !orb_false_iff, !negb_false_iff,
    !bool_decide_eq_true, Z.ltb_lt. tauto.
Qed.

Lemma leasedExpired_spec m token now :
  leasedExpired m token now = true ↔
  om_State m = OutboxLeased ∧ om_LeaseToken m = token ∧ (om_LeasedUntil m ≤ now)%Z.
Proof.
  unfold leasedExpired, After. rewrite negb_true_iff, !orb_false_iff, !negb_false_iff,
    !bool_decide_eq_true, Z.ltb_ge. tauto.
Qed.

Lemma updateWhen_effect token now o id check update o' :
  updateWhen o id check update = Ok o' →
  (∀ m, check m = true → same_work m (update m) ∧ lease_move token now m (update m)) →
  outbox_effect token now o o'.
Proof.
  unfold updateWhen. destruct (o !! id) as [m|] eqn:Hm; [|done]. intros H Hu. ok_inv.
  apply negb_false_iff in H. destruct (Hu m H) as [Hs Hl]. eapply oe_move; eauto.
Qed.

(** Prove the effect of an update under a lease check. *)
Ltac lease_update :=
  let m := fresh "m" in let Hm := fresh in
  intros m Hm; cbv beta in *; rewrite ?andb_true_iff in Hm; destruct_and?;
  repeat match goal with
  | H : leasedLive _ _ _ = true |- _ => apply leasedLive_spec in H as (? & ? & ?)
  | H : leasedExpired _ _ _ = true |- _ => apply leasedExpired_spec in H as (? & ? & ?)
  end;
  split; [by repeat split|]; split; cbn;
  [ done
  | rewrite !elem_of_cons; tauto
  | intros [?|?]; done
  | repeat match goal with H : om_State m = _ |- _ => rewrite H end; by eval_decides ].

Lemma active_spec n :
  (om_State n <>? OutboxPending) && (om_State n <>? OutboxLeased) = negb (isActive n).
Proof. unfold isActive. by rewrite negb_orb. Qed.

Lemma enqueueConflict_None message iteration :
  enqueueConflict message iteration = None →
  ∀ n, n ∈ iteration → om_DedupeKey n ≠ om_DedupeKey message ∧
    (isActive n = true → ¬ competes message n).
Proof.
  induction iteration as [|e rest IH]; cbn [enqueueConflict]; [by intros _ n ?%not_elem_of_nil|].
  rewrite active_spec. intros H. case_bool_decide as Hd; [done|].
  assert (Hrest : ∀ n, n ∈ rest → om_DedupeKey n ≠ om_DedupeKey message ∧
    (isActive n = true → ¬ competes message n)).
  { apply IH. by repeat case_match. }
  intros n [->|Hn]%elem_of_cons; [|by apply Hrest]. split; [done|].
  intros Hact [Hk Hc]. rewrite Hact, Hk in H. rewrite (bool_decide_true (_ = _)) in H by done.
  cbn in H. case_if_in H; [done|]. bool_facts. tauto.
Qed.

Lemma enqueueConflict_same message iteration :
  enqueueConflict message iteration = Some None →
  ∃ n, n ∈ iteration ∧ om_DedupeKey n = om_DedupeKey message.
Proof.
  induction iteration as [|e l IH]; cbn; intros Hc; [done|].
  case_bool_decide as He; [exists e; split; [by left|done]|].
  destruct IH as (n & Hn & Hd); [by repeat case_match|]. exists n. split; [by right|done].
Qed.

Lemma wakeCoalesced_false message iteration :
  wakeCoalesced message iteration = false →
  om_Kind message = OutboxWakeDependents → om_OperationID message = "" →
  ∀ n, n ∈ iteration → om_DedupeKey n ≠ om_DedupeKey message ∧
    (isActive n = true → ¬ competes message n).
Proof.
  intros H Hk Ho. revert H.
  induction iteration as [|e rest IH]; cbn [wakeCoalesced]; [by intros _ n ?%not_elem_of_nil|].
  rewrite active_spec. intros H. case_bool_decide as Hd; [done|].
  assert (Hrest : ∀ n, n ∈ rest → om_DedupeKey n ≠ om_DedupeKey message ∧
    (isActive n = true → ¬ competes message n)).
  { apply IH. by repeat case_match. }
  intros n [->|Hn]%elem_of_cons; [|by apply Hrest]. split; [done|].
  intros Hact [Hk' Hc]. rewrite Hact, Hk', Hk in H. rewrite (bool_decide_true (_ = _)) in H by done.
  cbn in H. case_if_in H; [done|]. bool_facts. rewrite Ho in Hc. tauto.
Qed.

Lemma stamped_same m now now' :
  same_work m (stamped m now now') ∧ om_State (stamped m now now') = om_State m ∧
  om_LeaseToken (stamped m now now') = om_LeaseToken m.
Proof. unfold stamped. by repeat case_match. Qed.

(** Storing a fresh message under its own identity. *)
Lemma add_effect token now o iteration message m' :
  iteration ≡ₚ (map_to_list o).*2 → fresh message →
  (∀ n, n ∈ iteration → om_DedupeKey n ≠ om_DedupeKey message ∧
    (isActive n = true → ¬ competes message n)) →
  same_work message m' → om_State m' = OutboxPending → om_LeaseToken m' = "" →
  outbox_effect token now o (<[om_ID message := m']> o).
Proof.
  intros Hiter Hfresh Hnew (Hid & Hd & Hk & Ho & Hr) Hs Ht.
  assert (Hin : ∀ id n, o !! id = Some n → n ∈ iteration).
  { intros id n Hn. rewrite Hiter. apply list_elem_of_fmap. exists (id, n).
    split; [done|]. by apply elem_of_map_to_list. }
  rewrite <- Hid. apply oe_add; try done.
  - by rewrite Hd, Hid, (fr_key _ Hfresh).
  - rewrite Hid. apply (fr_named _ Hfresh).
  - intros id n Hn. rewrite Hid, <- (fr_key _ Hfresh). by apply (Hnew n), (Hin id).
  - intros id n Hn Ha. unfold competes. rewrite Hk, Ho, Hr. apply (Hnew n); [by apply (Hin id)|done].
Qed.

Lemma step_effect token now o o' : outbox_step token now o o' → outbox_effect token now o o'.
Proof.
  destruct 1 as [o o' iteration message now' Hiter Hfresh H
    |o o' iteration message now' Hiter Hfresh Hkind Hop H
    |o iteration lease Hiter|? ? ? ? H|? ? ? ? H|? ? ? ? H|? ? ? ? H|? ? ? ? ? ? H
    |? ? ? ? ? ? ? ? H|? ? ? ? ? ? ? ? H|? ? ? ? H].
  - unfold Enqueue in H. destruct (enqueueConflict message iteration) as [[]|] eqn:Hc; try done.
    { injection H as <-. apply oe_none. }
    set (m := if om_State message =? "" then _ else _) in H. injection H as <-.
    assert (Hm : same_work message m ∧ om_State m = OutboxPending ∧ om_LeaseToken m = "").
    { unfold m. case_bool_decide as Hs; cbn; (split; [done|]); split; try apply Hfresh; [done|].
      by destruct (fr_state _ Hfresh). }
    destruct Hm as (Hsame & Hs & Ht), (stamped_same m now now') as (Hsame' & Hs' & Ht').
    replace (om_ID m) with (om_ID message) by (symmetry; apply Hsame).
    eapply add_effect; eauto using enqueueConflict_None; [|congruence..].
    unfold same_work in *. destruct_and!. split_and!; congruence.
  - unfold EnqueueWakeDependents in H. destruct (wakeCoalesced message iteration) eqn:Hc.
    { injection H as <-. apply oe_none. }
    set (m := message <| om_State := OutboxPending |>) in H. injection H as <-.
    destruct (stamped_same m now now') as (Hsame & Hs & Ht).
    replace (om_ID m) with (om_ID message) by done.
    eapply add_effect; eauto using wakeCoalesced_false. rewrite Ht. apply Hfresh.
  - unfold ClaimOutbox. destruct (filter _ iteration) as [|[id m] rest] eqn:Hf; [apply oe_none|].
    assert (Hin : (id, m) ∈ filter (λ kv, claimable kv.2 now = true) iteration)
      by (rewrite Hf; by left).
    apply list_elem_of_filter in Hin as [Hcl Hin]. rewrite Hiter in Hin.
    apply elem_of_map_to_list in Hin. cbn [fst]. eapply oe_move; [done|by split_and!|].
    right. split_and!; [|done..]. unfold claimable in Hcl. cbn in Hcl. bool_facts. tauto.
  - eapply updateWhen_effect; [exact H|]. lease_update.
  - eapply updateWhen_effect; [exact H|]. lease_update.
  - eapply updateWhen_effect; [exact H|]. lease_update.
  - eapply updateWhen_effect; [exact H|]. lease_update.
  - eapply updateWhen_effect; [exact H|]. lease_update.
  - eapply updateWhen_effect; [exact H|]. lease_update.
  - eapply updateWhen_effect; [exact H|]. lease_update.
  - eapply updateWhen_effect; [exact H|]. lease_update.
Qed.

(** ** The invariant *)

Record outbox_inv (o : outbox) : Prop := {
  iv_keyed id m : o !! id = Some m → om_ID m = id ∧ om_DedupeKey m = id;
  iv_named id m : o !! id = Some m → id ≠ "";
  iv_state id m : o !! id = Some m →
    om_State m ∈ [OutboxPending; OutboxLeased; OutboxCompleted; OutboxDead];
  iv_token id m : o !! id = Some m → om_State m ≠ OutboxLeased → om_LeaseToken m = "";
  iv_single i j m n : o !! i = Some m → o !! j = Some n → isActive m = true →
    isActive n = true → competes m n → i = j }.

Lemma competes_sym m n : competes m n → competes n m.
Proof. unfold competes. intros [Hk [[? Ho]|[? Hr]]]; rewrite Hk; [rewrite Ho|rewrite Hr]; auto. Qed.

Lemma move_active token now m m' :
  lease_move token now m m' ∨ claim_move token m m' → isActive m = true.
Proof.
  unfold isActive. intros [[[Hs _] _ _ _]|[Hs _]]; by rewrite Hs.
Qed.

Lemma effect_inv token now o o' :
  outbox_effect token now o o' → outbox_inv o → outbox_inv o'.
Proof.
  intros Heff [Hkey Hnam Hst Htok Hsing]. destruct Heff as [|m Hd Hne Hs Ht Hnew Hfree|id m m' Hm Hsame Hmove];
    [done|..].
  - split.
    + intros id n [[<- <-]|[_ Hn]]%lookup_insert_Some; [done|by apply Hkey].
    + intros id n [[<- <-]|[_ Hn]]%lookup_insert_Some; [done|by eapply Hnam].
    + intros id n [[<- <-]|[_ Hn]]%lookup_insert_Some; [rewrite Hs; by left|by eapply Hst].
    + intros id n [[<- <-]|[_ Hn]]%lookup_insert_Some; [done|by eapply Htok].
    + intros i j n n' [[<- <-]|[_ Hn]]%lookup_insert_Some [[<- <-]|[_ Hn']]%lookup_insert_Some
        Ha Ha' Hc; [done|..].
      * by destruct (Hfree _ _ Hn' Ha').
      * by destruct (Hfree _ _ Hn Ha); apply competes_sym.
      * by eapply Hsing.
  - pose proof (move_active _ _ _ _ Hmove) as Hact.
    pose proof (Hkey _ _ Hm) as [Hid Hdd]. destruct Hsame as (Hi & Hd & Hk & Ho & Hr).
    assert (Hcl : om_State m' ∈ [OutboxPending; OutboxLeased; OutboxCompleted; OutboxDead] ∧
      (om_State m' ≠ OutboxLeased → om_LeaseToken m' = "")).
    { destruct Hmove as [[_ Hto _ Htk]|(_ & Hto & _)].
      - split; [rewrite !elem_of_cons in *; tauto|]. intros Hne. rewrite Htk.
        by rewrite bool_decide_false.
      - rewrite Hto. split; [right; by left|done]. }
    destruct Hcl as [Hst' Htok'].
    assert (Hcm : ∀ n, competes m' n → competes m n) by (unfold competes; by rewrite Hk, Ho, Hr).
    split.
    + intros i n [[<- <-]|[_ Hn]]%lookup_insert_Some; [by rewrite Hi, Hd|by apply Hkey].
    + intros i n [[<- <-]|[_ Hn]]%lookup_insert_Some; by eapply Hnam.
    + intros i n [[<- <-]|[_ Hn]]%lookup_insert_Some; [done|by eapply Hst].
    + intros i n [[<- <-]|[_ Hn]]%lookup_insert_Some; [done|by eapply Htok].
    + intros i j n n' [[<- <-]|[_ Hn]]%lookup_insert_Some [[<- <-]|[_ Hn']]%lookup_insert_Some
        Ha Ha' Hc; [done|..].
      * by apply (Hsing _ _ m n'); auto.
      * apply (Hsing _ _ n m); auto. by apply competes_sym, Hcm, competes_sym.
      * by eapply Hsing.
Qed.

Lemma reachable_inv o : outbox_reachable o → outbox_inv o.
Proof.
  induction 1 as [|token now o o' _ IH Hstep%step_effect]; [|by eapply effect_inv].
  split; intros *; by rewrite lookup_empty.
Qed.

(** ** Properties *)

(** In every outbox the operations can build, whatever the interleaving of
    actors, clocks and map iterations: a message is stored under its own
    dedupe key in one of the four states, only a leased message carries a lease
    token, and no two active messages of the same kind are for the same
    operation or the same resource. *)
Theorem outbox_single_active o :
  outbox_reachable o →
  (∀ id m, o !! id = Some m →
     om_ID m = id ∧ om_DedupeKey m = id ∧
     om_State m ∈ [OutboxPending; OutboxLeased; OutboxCompleted; OutboxDead] ∧
     (om_State m ≠ OutboxLeased → om_LeaseToken m = "")) ∧
  (∀ i j m n, o !! i = Some m → o !! j = Some n → isActive m = true → isActive n = true →
     competes m n → i = j).
Proof.
  intros [Hkey _ Hst Htok Hsing]%reachable_inv. split; [|done].
  intros id m Hm. destruct (Hkey _ _ Hm). split_and!; [done..|by eapply Hst|].
  by eapply Htok.
Qed.

(** C30: A lease fences its message. No operation removes a message or changes
    what it is for; whatever an actor does with its token, a message leased
    under another token, and one that is completed or dead, stays as it is; a
    message changes only when it is claimed while pending, or by the holder of
    its lease, and only a holder whose lease has not expired can renew it or
    quarantine the message. *)
Theorem lease_fencing token now o o' id m :
  outbox_reachable o → outbox_step token now o o' → o !! id = Some m →
  ∃ m', o' !! id = Some m' ∧
    (m' = m ∨ (same_work m m' ∧ (lease_move token now m m' ∨ claim_move token m m'))) ∧
    (om_State m = OutboxLeased ∧ om_LeaseToken m ≠ token → m' = m) ∧
    (om_State m = OutboxCompleted ∨ om_State m = OutboxDead → m' = m).
Proof.
  intros Hinv%reachable_inv Heff%step_effect Hm.
  destruct Heff as [|a Hd _ Hs Ht Hnew Hfree|i n n' Hn Hsame Hmove].
  - exists m. auto.
  - exists m. rewrite lookup_insert_ne; [auto|].
    intros Heq. apply (Hnew id m Hm). rewrite Heq. by apply (iv_keyed _ Hinv).
  - destruct (decide (i = id)) as [->|Hne]; [|exists m; rewrite lookup_insert_ne by done; auto].
    rewrite lookup_insert_eq. simplify_eq. exists n'. split_and!; [done|by right|..];
      destruct Hmove as [[[Hst Htk] _ _ _]|[Hst _]]; rewrite Hst;
      [by intros [_ []]|by intros [? _]|by intros [?|?]..].
Qed.

(** ** A concrete outbox *)

Definition sample_outbox : outbox :=
  let message := stamped (DispatchMessage "op-1" 1 1) 10 10 in
  {[om_ID message := message]}.

(** Worker [a] claims the dispatch at 20 for 30. *)
Definition sample_claimed : outbox :=
  fst (ClaimOutbox sample_outbox (map_to_list sample_outbox) "a" 30 20).

Lemma sample_outbox_reachable : outbox_reachable sample_outbox.
Proof.
  apply (or_step "a" 10 ∅); [constructor|].
  apply (os_enqueue _ _ _ _ [] (DispatchMessage "op-1" 1 1) 10); [done| |reflexivity].
  by repeat split; try left.
Qed.

Lemma sample_claimed_reachable : outbox_reachable sample_claimed.
Proof. apply (or_step "a" 20 sample_outbox); [apply sample_outbox_reachable|by constructor]. Qed.

Lemma outbox_single_active_witness :
  om_DedupeKey <$> sample_claimed !! "dispatch:op-1:1" = Some "dispatch:op-1:1".
Proof.
  destruct (outbox_single_active sample_claimed sample_claimed_reachable) as [Hkeyed _].
  destruct (sample_claimed !! "dispatch:op-1:1") as [m|] eqn:Hm; [|by vm_compute in Hm].
  destruct (Hkeyed _ _ Hm) as (_ & Hkey & _). simpl. by rewrite Hkey.
Defined.

(** Worker [b] cannot complete it; worker [a] can, until 50. *)
Lemma lease_fencing_witness :
  CompleteOutbox sample_claimed "dispatch:op-1:1" "b" "stale" 30 = Err ErrConcurrencyConflict ∧
  ∃ o' m', CompleteOutbox sample_claimed "dispatch:op-1:1" "a" "done" 30 = Ok o' ∧
    o' !! "dispatch:op-1:1" = Some m' ∧ om_ID m' = "dispatch:op-1:1".
Proof.
  split; [by vm_compute|].
  assert (is_ok (CompleteOutbox sample_claimed "dispatch:op-1:1" "a" "done" 30) = true)
    as [o' Ho]%is_ok_spec by by vm_compute.
  assert (om_ID <$> sample_claimed !! "dispatch:op-1:1" = Some "dispatch:op-1:1")
    as (m & Hid & Hm)%fmap_Some by by vm_compute.
  destruct (lease_fencing "a" 30 sample_claimed o' "dispatch:op-1:1" m)
    as (m' & Hm' & Hchange & _); [apply sample_claimed_reachable|by eapply os_complete|done|].
  exists o', m'. split_and!; [done..|].
  destruct Hchange as [->|[(Hs & _) _]]; [done|by rewrite Hs].
Defined.

(** [Enqueue] scans the messages in map order, so a redelivered message may be
    ignored or refused when another one for the same operation is active. *)
Lemma enqueue_order_dependent :
  let completed := (DriveMessage "op-1" 1) <| om_State := OutboxCompleted |> in
  let active := DriveMessage "op-1" 2 in
  let o : outbox := <["drive:op-1:1" := completed]> {["drive:op-1:2" := active]} in
  Enqueue o [completed; active] (DriveMessage "op-1" 1) 5 5 = Ok o ∧
  Enqueue o [active; completed] (DriveMessage "op-1" 1) 5 5 = Err ErrConcurrencyConflict.
Proof. by split. Qed.
