(* ===== verification/Store.v ===== *)
(** * The store and its transactions

    Models the in-memory store of [src/internal/application/fake/store.go] and
    [fake/references.go], the executable twin of the durable store: its tables,
    its repositories, and [Within], which runs a unit of work on a copy and
    keeps it only when it succeeds.  A unit of work is a computation [tx A] over
    a [Store].  What the clock reads and the order in which Go ranges over a map
    are inputs of the model: times are arguments, the order is [MapOrder]. *)

From S2P Require Import Prelude Operation Values Resource Status Provisioning Records.
From S2P Require Import Outputs References Policy Text Work Outbox.
Open Scope string_scope.
Open Scope go_scope.

(** ** Records and errors *)

Definition ErrOperatorIdempotencyNotFound : error :=
  Sentinel "application.ErrOperatorIdempotencyNotFound".
Definition ErrQuotaInvariant : error := Sentinel "application.ErrQuotaInvariant".

Record OperatorActionRecord := {
  oa_ID : string;
  oa_ActorPrincipalID : string;
  oa_ActorKind : string;
  oa_Action : string;
  oa_TargetKind : string;
  oa_TargetID : string;
  oa_SourceWorkID : string;
  oa_CreatedWorkID : string;
  oa_IdempotencyDigest : string;
  oa_RequestID : string;
  oa_CreatedAt : Time }.

Record OperatorIdempotencyRecord := {
  oi_Scope : string;
  oi_Key : string;
  oi_Fingerprint : string;
  oi_OperatorActionID : string }.

Record Store := {
  resources : gmap string ResourceRecord;
  resourceSequences : gmap string uint64;
  nextResourceSequence : uint64;
  operations : gmap string OperationRecord;
  nextOperationSequence : uint64;
  events : gmap string Event;
  executions : gmap string ProvisioningExecutionRecord;
  idempotency : gmap string IdempotencyRecord;
  attempts : gmap string SubmissionAttemptRecord;
  messages : outbox;
  outputs : gmap string (gmap N ResourceOutputRecord);
  operatorActions : gmap string OperatorActionRecord;
  operatorIdempotency : gmap string OperatorIdempotencyRecord;
  desiredReferences : gmap string (list ReferenceEdge);
  appliedReferences : gmap string (list ReferenceEdge);
  dependencyWaits : gmap string DependencyWait;
  nextWaitSequence : uint64 }.

#[export] Instance Store_fields : Fields Store := λ r,
  {| resources := resources r; resourceSequences := resourceSequences r;
     nextResourceSequence := nextResourceSequence r; operations := operations r;
     nextOperationSequence := nextOperationSequence r; events := events r;
     executions := executions r; idempotency := idempotency r; attempts := attempts r;
     messages := messages r; outputs := outputs r; operatorActions := operatorActions r;
     operatorIdempotency := operatorIdempotency r;
     desiredReferences := desiredReferences r; appliedReferences := appliedReferences r;
     dependencyWaits := dependencyWaits r; nextWaitSequence := nextWaitSequence r |}.

Definition NewStore : Store :=
  {| resources := ∅; resourceSequences := ∅; nextResourceSequence := 0; operations := ∅;
     nextOperationSequence := 0; events := ∅; executions := ∅; idempotency := ∅;
     attempts := ∅; messages := ∅; outputs := ∅; operatorActions := ∅;
     operatorIdempotency := ∅; desiredReferences := ∅; appliedReferences := ∅;
     dependencyWaits := ∅; nextWaitSequence := 0 |}.

(** ** Units of work *)

Definition tx (A : Type) : Type := Store → Store * outcome A.

#[export] Instance tx_ret : MRet tx := λ A x s, (s, Ok x).
#[export] Instance tx_bind : MBind tx := λ A B f m s,
  match m s with
  | (s', Ok x) => f x s'
  | (s', Err e) => (s', Err e)
  | (s', Panic p) => (s', Panic p)
  end.

(** A computation on no table, one that only reads, and one that writes unless
    it fails. *)
Definition lift {A} (m : outcome A) : tx A := λ s, (s, m).
Definition reading {A} (f : Store → outcome A) : tx A := λ s, (s, f s).
Definition writing (f : Store → outcome Store) : tx unit := λ s,
  match f s with
  | Ok s' => (s', Ok tt)
  | Err e => (s, Err e)
  | Panic p => (s, Panic p)
  end.

(** Handle what a computation returns; what it wrote stays. *)
Definition handled {A B} (g : outcome A → outcome B) (m : tx A) : tx B := λ s,
  let '(s', r) := m s in (s', g r).

(** Run a unit of work on a copy.  An error rolls the tables back, but not the
    identity sequences; a panic unlocks the store and unwinds past both. *)
Definition Within {A} (fn : tx A) : tx A := λ s,
  match fn s with
  | (t, Ok x) => (t, Ok x)
  | (t, Err e) =>
      (s <| nextOperationSequence := nextOperationSequence t |>
         <| nextResourceSequence := nextResourceSequence t |>
         <| nextWaitSequence := nextWaitSequence t |>, Err e)
  | (_, Panic p) => (s, Panic p)
  end.

(** The order in which Go ranges over a map: some order of its entries. *)
Class MapOrder := {
  ranged : ∀ {A}, gmap string A → list (string * A);
  ranged_perm : ∀ {A} (m : gmap string A), ranged m ≡ₚ map_to_list m }.

(** ** Resources *)

Definition tx_GetResource (id : ResourceID) : tx ResourceRecord :=
  reading (λ s, from_option Ok (Err ErrResourceNotFound) (resources s !! id)).

Definition tx_LookupResource (id : ResourceID) : tx ResourceRecord := tx_GetResource id.

Definition tx_LockResourceID (id : ResourceID) : tx bool :=
  reading (λ s, Ok (bool_decide (is_Some (resources s !! id)))).

Definition tx_LockOwnerQuota (owner : OwnerRef) : tx unit := mret tt.

Definition tx_CreateResource (record : ResourceRecord) : tx unit := writing (λ s,
  let id := res_id (rr_Resource record) in
  fail_if bool_decide (is_Some (resources s !! id))
    with Wrapf ErrConcurrencyConflict "%w: resource already exists" [] ;;
  let record := if rr_Version record =? 0%N then record <| rr_Version := 1%N |> else record in
  let sequence := u64_incr (nextResourceSequence s) in
  Ok (s <| nextResourceSequence := sequence |>
        <| resourceSequences := <[id := sequence]> (resourceSequences s) |>
        <| resources := <[id := record]> (resources s) |>)).

Definition tx_SaveResource (record : ResourceRecord) (expectedVersion : uint64) : tx unit :=
  writing (λ s,
  let id := res_id (rr_Resource record) in
  match resources s !! id with
  | None => Err ErrConcurrencyConflict
  | Some current =>
      fail_if rr_Version current <>? expectedVersion with ErrConcurrencyConflict ;;
      fail_if res_owner (rr_Resource current) <>? res_owner (rr_Resource record)
        with Wrapf ErrInvalidApplicationCall "%w: resource owner is immutable" [] ;;
      Ok (s <| resources :=
            <[id := record <| rr_Version := u64_incr expectedVersion |>]> (resources s) |>)
  end).

Definition tx_LockResources (ids : list ResourceID) : tx (list ResourceRecord) :=
  mapM tx_GetResource (sort_by id string_le ids).

Fixpoint countFacts (facts : ResourceCountFacts) (records : list ResourceRecord)
    : outcome ResourceCountFacts :=
  match records with
  | [] => Ok facts
  | record :: rest =>
      if res_owner (rr_Resource record) <>? rcf_Owner facts then countFacts facts rest else
      let state := st_state (rr_Status record) in
      fail_if state =? "" with ErrQuotaInvariant ;;
      if state =? ResourceStateDeleted then countFacts facts rest else
      countFacts
        {| rcf_Available := rcf_Available facts;
           rcf_Owner := rcf_Owner facts; rcf_ResourceType := rcf_ResourceType facts;
           rcf_OwnerNonDeleted := u64_incr (rcf_OwnerNonDeleted facts);
           rcf_TypeNonDeleted :=
             if res_type (rr_Resource record) =? rcf_ResourceType facts
             then u64_incr (rcf_TypeNonDeleted facts) else rcf_TypeNonDeleted facts |} rest
  end.

(** ** Operations *)

(** The guard of a retry: its source failed with the same intent. *)
Definition retrySourceMatches (source : option OperationRecord) (operation : Operation) : bool :=
  non_nil source (λ s, let o := opr_Operation s in
    (op_state o =? OperationStateFailed) &&
    (op_resourceID o =? op_resourceID operation) &&
    (op_capability o =? op_capability operation) &&
    (op_targetGeneration o =? op_targetGeneration operation)).

(** The sequence is allocated before the checks. *)
Definition tx_CreateOperation (record : OperationRecord) : tx unit := λ s,
  let s := s <| nextOperationSequence := u64_incr (nextOperationSequence s) |> in
  writing (λ s,
    let operation := opr_Operation record in
    let record := record <| opr_Sequence := nextOperationSequence s |> in
    fail_if bool_decide (is_Some (operations s !! op_id operation))
      with Errorf "operation already exists" [] ;;
    let record := if opr_Version record =? 0%N then record <| opr_Version := 1%N |>
                  else record in
    fail_if (op_retryOf operation <>? "") &&
            negb (retrySourceMatches (operations s !! op_retryOf operation) operation)
      with Wrapf ErrInvalidApplicationCall
        "%w: retry source must be a failed operation with matching intent" [] ;;
    Ok (s <| operations := <[op_id operation := record]> (operations s) |>)) s.

Definition sameIntent (a b : Operation) : bool :=
  (op_resourceID a =? op_resourceID b) && (op_capability a =? op_capability b) &&
  (op_targetGeneration a =? op_targetGeneration b) &&
  (op_requestedAt a =? op_requestedAt b) && (op_retryOf a =? op_retryOf b).

Definition tx_SaveOperation (record : OperationRecord) (expectedVersion : uint64) : tx unit :=
  writing (λ s,
  let id := op_id (opr_Operation record) in
  match operations s !! id with
  | None => Err ErrConcurrencyConflict
  | Some current =>
      fail_if opr_Version current <>? expectedVersion with ErrConcurrencyConflict ;;
      fail_if IsTerminal (opr_Operation current)
        with Wrapf ErrInvalidApplicationCall "%w: terminal operation is immutable" [] ;;
      fail_if negb (sameIntent (opr_Operation current) (opr_Operation record))
        with Wrapf ErrInvalidApplicationCall "%w: operation intent is immutable" [] ;;
      Ok (s <| operations := <[id := record <| opr_Sequence := opr_Sequence current |>
              <| opr_Version := u64_incr expectedVersion |>]> (operations s) |>)
  end).

Definition tx_GetOperation (id : OperationID) : tx OperationRecord :=
  reading (λ s, from_option Ok (Err ErrOperationNotFound) (operations s !! id)).

Definition tx_LookupOperation (id : OperationID) : tx OperationRecord := tx_GetOperation id.

Definition of_resource (id : ResourceID) (record : OperationRecord) : bool :=
  op_resourceID (opr_Operation record) =? id.

(** One turn of the loop of [LatestForResource]. *)
Definition latestTurn (id : ResourceID) (latest : option OperationRecord)
    (record : OperationRecord) : option OperationRecord :=
  if negb (of_resource id record) then latest
  else match latest with
       | None => Some record
       | Some l => if N.ltb (opr_Sequence l) (opr_Sequence record) then Some record else latest
       end.

Record OperationPage := {
  op_Records : list OperationRecord;
  op_NextSequence : uint64 }.

Definition tx_PageForResource (id : ResourceID) (beforeSequence : uint64) (limit : Z)
    : tx OperationPage := reading (λ s,
  fail_if bool_decide (limit ≤ 0)%Z
    with Wrapf ErrInvalidApplicationCall
      "%w: operation page limit must be greater than zero" [] ;;
  let records := sort_by opr_Sequence (flip N.le)
    (filter (λ r, of_resource id r &&
                  ((beforeSequence =? 0%N) || N.ltb (opr_Sequence r) beforeSequence) = true)
       (map_to_list (operations s)).*2) in
  Ok (if bool_decide (limit < Z.of_nat (length records))%Z
      then let page := take (Z.to_nat limit) records in
           {| op_Records := page; op_NextSequence := from_option opr_Sequence 0%N (last page) |}
      else {| op_Records := records; op_NextSequence := 0 |})).

Section ranging.
Context {order : MapOrder}.

Definition tx_ResourceCountFacts (owner : OwnerRef) (ref : ResourceTypeRef)
    : tx ResourceCountFacts := reading (λ s,
  countFacts {| rcf_Available := true; rcf_Owner := owner; rcf_ResourceType := ref;
                rcf_OwnerNonDeleted := 0; rcf_TypeNonDeleted := 0 |}
    (ranged (resources s)).*2).

Definition tx_ActiveForResource (id : ResourceID) : tx (option OperationRecord) :=
  reading (λ s, Ok (head (filter
    (λ r, of_resource id r && negb (IsTerminal (opr_Operation r)) = true)
    (ranged (operations s)).*2))).

Definition tx_LatestForResource (id : ResourceID) : tx (option OperationRecord) :=
  reading (λ s, Ok (foldl (latestTurn id) None (ranged (operations s)).*2)).
End ranging.

(** ** Events, executions and submission attempts *)

Definition tx_Append (event : Event) : tx unit := writing (λ s,
  fail_if bool_decide (is_Some (events s !! ev_id event))
    with Errorf "event already exists" [] ;;
  Ok (s <| events := <[ev_id event := event]> (events s) |>)).

Definition tx_GetExecution (id : OperationID) : tx ProvisioningExecutionRecord :=
  reading (λ s, from_option Ok (Err ErrResourceNotFound) (executions s !! id)).

Definition tx_LookupExecution (id : OperationID) : tx ProvisioningExecutionRecord :=
  tx_GetExecution id.

Definition attemptKey (operationID : OperationID) (attempt : uint64) : string :=
  operationID +:+ ":" +:+ decimal attempt.

Definition tx_CreateExecution (record : ProvisioningExecutionRecord) : tx unit :=
  writing (λ s,
  let id := pe_OperationID record in
  fail_if bool_decide (is_Some (executions s !! id))
    with Errorf "execution already exists" [] ;;
  let record := if pe_Version record =? 0%N then record <| pe_Version := 1%N |> else record in
  fail_if negb (Bool.eqb (pe_RecoverySourceOperationID record =? "")
                         (pe_RecoverySourceAttempt record =? 0%N)) ||
          (pe_RecoverySourceOperationID record =? id)
    with Wrapf ErrInvalidApplicationCall "%w: invalid output recovery provenance" [] ;;
  fail_if IsOutputRecovery record &&
          bool_decide (attempts s !! attemptKey (pe_RecoverySourceOperationID record)
                                                (pe_RecoverySourceAttempt record) = None)
    with Wrapf ErrInvalidApplicationCall
      "%w: output recovery source attempt does not exist" [] ;;
  Ok (s <| executions := <[id := record]> (executions s) |>)).

(** Some execution recovers outputs from one of the operation's attempts, or
    from the given one. *)
Definition recovers (id : OperationID) (child : ProvisioningExecutionRecord) : bool :=
  pe_RecoverySourceOperationID child =? id.
Definition recoversAttempt (id : OperationID) (attempt : uint64)
    (child : ProvisioningExecutionRecord) : bool :=
  recovers id child && (pe_RecoverySourceAttempt child =? attempt).

Definition tx_SaveExecution (record : ProvisioningExecutionRecord) (expectedVersion : uint64)
    : tx unit := writing (λ s,
  let id := pe_OperationID record in
  match executions s !! id with
  | None => Err ErrConcurrencyConflict
  | Some current =>
      fail_if pe_Version current <>? expectedVersion with ErrConcurrencyConflict ;;
      fail_if existsb (recovers id) (map_to_list (executions s)).*2
        with Wrapf ErrInvalidApplicationCall
          "%w: referenced recovery source execution is immutable" [] ;;
      fail_if (pe_RecoverySourceOperationID current <>? pe_RecoverySourceOperationID record) ||
              (pe_RecoverySourceAttempt current <>? pe_RecoverySourceAttempt record)
        with Wrapf ErrInvalidApplicationCall
          "%w: output recovery provenance is immutable" [] ;;
      fail_if (pe_OutputMappingRef current <>? "") &&
              (pe_OutputMappingRef current <>? pe_OutputMappingRef record)
        with ErrConcurrencyConflict ;;
      let record := if pe_OutputMappingRef current <>? ""
        then record <| pe_OutputMappingRef := pe_OutputMappingRef current |> else record in
      Ok (s <| executions :=
            <[id := record <| pe_Version := u64_incr expectedVersion |>]> (executions s) |>)
  end).

Definition tx_GetSubmissionAttempt (operationID : OperationID) (attempt : uint64)
    : tx SubmissionAttemptRecord :=
  reading (λ s, from_option Ok (Err ErrResourceNotFound)
                  (attempts s !! attemptKey operationID attempt)).

Definition tx_CreateSubmissionAttempt (record : SubmissionAttemptRecord) : tx unit :=
  writing (λ s,
  let key := attemptKey (sa_OperationID record) (sa_AttemptNumber record) in
  fail_if bool_decide (is_Some (attempts s !! key))
    with Errorf "submission attempt already exists" [] ;;
  Ok (s <| attempts := <[key := record]> (attempts s) |>)).

Definition tx_SaveSubmissionAttempt (record : SubmissionAttemptRecord) (expected : string)
    : tx unit := writing (λ s,
  let key := attemptKey (sa_OperationID record) (sa_AttemptNumber record) in
  match attempts s !! key with
  | None => Err ErrConcurrencyConflict
  | Some current =>
      fail_if sa_State current <>? expected with ErrConcurrencyConflict ;;
      fail_if existsb (recoversAttempt (sa_OperationID record) (sa_AttemptNumber record))
                (map_to_list (executions s)).*2
        with Wrapf ErrInvalidApplicationCall
          "%w: referenced recovery source submission attempt is immutable" [] ;;
      Ok (s <| attempts := <[key := record]> (attempts s) |>)
  end).

(** ** Idempotency and operator records *)

Definition idempotencyMapKey (scope key : string) : string := scope +:+ NUL +:+ key.

Definition tx_GetIdempotency (scope key : string) : tx IdempotencyRecord :=
  reading (λ s, from_option Ok (Err ErrIdempotencyNotFound)
                  (idempotency s !! idempotencyMapKey scope key)).

Definition tx_PutIdempotency (record : IdempotencyRecord) : tx unit := writing (λ s,
  let mapKey := idempotencyMapKey (ir_Scope record) (ir_Key record) in
  fail_if bool_decide (is_Some (idempotency s !! mapKey))
    with Errorf "idempotency key already exists" [] ;;
  Ok (s <| idempotency := <[mapKey := record]> (idempotency s) |>)).

Definition tx_GetOperatorAction (id : string) : tx OperatorActionRecord :=
  reading (λ s, from_option Ok (Err ErrResourceNotFound) (operatorActions s !! id)).

Definition tx_InsertOperatorAction (record : OperatorActionRecord) : tx unit :=
  writing (λ s,
  fail_if bool_decide (is_Some (operatorActions s !! oa_ID record))
    with ErrConcurrencyConflict ;;
  fail_if bool_decide (messages s !! oa_CreatedWorkID record = None)
    with Wrapf ErrInvalidApplicationCall "%w: created operator work does not exist" [] ;;
  fail_if (oa_SourceWorkID record <>? "") &&
          bool_decide (messages s !! oa_SourceWorkID record = None)
    with Wrapf ErrInvalidApplicationCall "%w: source operator work does not exist" [] ;;
  Ok (s <| operatorActions := <[oa_ID record := record]> (operatorActions s) |>)).

Definition tx_GetOperatorIdempotency (scope key : string) : tx OperatorIdempotencyRecord :=
  reading (λ s, from_option Ok (Err ErrOperatorIdempotencyNotFound)
                  (operatorIdempotency s !! idempotencyMapKey scope key)).

Definition tx_PutOperatorIdempotency (record : OperatorIdempotencyRecord) : tx unit :=
  writing (λ s,
  let mapKey := idempotencyMapKey (oi_Scope record) (oi_Key record) in
  fail_if bool_decide (is_Some (operatorIdempotency s !! mapKey))
    with ErrConcurrencyConflict ;;
  fail_if bool_decide (operatorActions s !! oi_OperatorActionID record = None)
    with Wrapf ErrInvalidApplicationCall "%w: operator action does not exist" [] ;;
  Ok (s <| operatorIdempotency := <[mapKey := record]> (operatorIdempotency s) |>)).

(** ** Published outputs *)

Definition sameEvidence (a b : ResourceOutputRecord) : bool :=
  (ror_OperationID a =? ror_OperationID b) && (ror_Capability a =? ror_Capability b) &&
  (ror_OutputMappingRef a =? ror_OutputMappingRef b) &&
  (ror_OutputContractDigest a =? ror_OutputContractDigest b) &&
  (ror_ValuesDigest a =? ror_ValuesDigest b).

Definition tx_SaveResourceOutputs (record : ResourceOutputRecord) : tx unit := writing (λ s,
  let id := ror_ResourceID record in
  let generation := ror_ObservedGeneration record in
  let generations := default ∅ (outputs s !! id) in
  match generations !! generation with
  | Some existing =>
      fail_if negb (sameEvidence existing record)
        with Wrapf ErrInvalidApplicationCall
          "%w: contradictory output evidence for generation %d" [ArgN generation] ;;
      Ok s
  | None => Ok (s <| outputs := <[id := <[generation := record]> generations]> (outputs s) |>)
  end).

(** The record of the highest generation. *)
Definition tx_LatestResourceOutputs (id : ResourceID) : tx (option ResourceOutputRecord) :=
  reading (λ s,
    let generations := default ∅ (outputs s !! id) in
    Ok (generations !! foldr N.max 0%N (map_to_list generations).*1)).

(** ** References *)

Definition tx_DesiredReferences (source : ResourceID) : tx (list ReferenceEdge) :=
  reading (λ s, Ok (default [] (desiredReferences s !! source))).
Definition tx_AppliedReferences (source : ResourceID) : tx (list ReferenceEdge) :=
  reading (λ s, Ok (default [] (appliedReferences s !! source))).

Definition at_generation (generation : uint64) (edges : list ReferenceEdge)
    : list ReferenceEdge :=
  map (λ e, {| edge_Slot := edge_Slot e; edge_TargetID := edge_TargetID e;
               edge_Generation := generation |}) edges.

(** Store the edges of a source; no edge, no row. *)
Definition replaceEdges (source : ResourceID) (edges : list ReferenceEdge)
    (table : gmap string (list ReferenceEdge)) : gmap string (list ReferenceEdge) :=
  match edges with
  | [] => delete source table
  | _ => <[source := edges]> table
  end.

Definition tx_ReplaceDesiredReferences (source : ResourceID) (generation : uint64)
    (edges : list ReferenceEdge) : tx unit := writing (λ s,
  Ok (s <| desiredReferences :=
        replaceEdges source (at_generation generation edges) (desiredReferences s) |>)).

Definition tx_AdvanceAppliedReferences (source : ResourceID) (generation : uint64)
    (edges : list ReferenceEdge) : tx unit := writing (λ s,
  Ok (s <| appliedReferences :=
        replaceEdges source (at_generation generation edges) (appliedReferences s) |>)).

Definition tx_DeleteReferencesForSource (source : ResourceID) : tx unit := writing (λ s,
  Ok (s <| desiredReferences := delete source (desiredReferences s) |>
        <| appliedReferences := delete source (appliedReferences s) |>)).

Definition inboundSources (table : gmap string (list ReferenceEdge)) (target : ResourceID)
    : list ResourceID :=
  sort_by id string_le (map_to_list (filter
    (λ kv, existsb (λ e, edge_TargetID e =? target) kv.2 = true) table)).*1.

(** Every source of a row must exist and not be deleted. *)
Fixpoint checkSources (s : Store) (format : string) (sources : list ResourceID)
    : outcome unit :=
  match sources with
  | [] => Ok tt
  | source :: rest =>
      fail_if negb (non_nil (resources s !! source)
                      (λ r, st_state (rr_Status r) <>? ResourceStateDeleted))
        with Wrapf ErrReferenceInvariant format [] ;;
      checkSources s format rest
  end.

Definition tx_HasInboundProtectiveReference (target : ResourceID) : tx bool :=
  reading (λ s,
  let desired := inboundSources (desiredReferences s) target in
  let applied := inboundSources (appliedReferences s) target in
  checkSources s "%w: desired reference row belongs to a Deleted or missing source" desired
    ≫= λ _,
  checkSources s "%w: applied reference row belongs to a Deleted or missing source" applied
    ≫= λ _,
  Ok (bool_decide (0 < length desired + length applied)%nat)).

Definition tx_OutgoingReferenceTargets (source : ResourceID) : tx (list ResourceID) :=
  reading (λ s, Ok (sort_by id string_le
    (remove_dups (edge_TargetID <$> default [] (desiredReferences s !! source))))).

(** ** Dependency waits *)

Definition waitKey (operationID : OperationID) (target : ResourceID) : string :=
  operationID +:+ NUL +:+ target.

(** One turn of the loop of [RegisterDependencyWaits]. *)
Definition registerWait (operationID : OperationID) (operationVersion : uint64) (s : Store)
    (entry : ResourceID * uint64) : Store :=
  let '(target, targetVersion) := entry in
  let key := waitKey operationID target in
  let wait (sequence : uint64) :=
    {| dw_OperationID := operationID; dw_TargetID := target; dw_WaitSequence := sequence;
       dw_OperationVersion := operationVersion;
       dw_RegisteredTargetVersion := targetVersion |} in
  match dependencyWaits s !! key with
  | Some existing =>
      s <| dependencyWaits := <[key := wait (dw_WaitSequence existing)]> (dependencyWaits s) |>
  | None =>
      let sequence := u64_incr (nextWaitSequence s) in
      s <| nextWaitSequence := sequence |>
        <| dependencyWaits := <[key := wait sequence]> (dependencyWaits s) |>
  end.

Definition tx_RegisterDependencyWaits `{MapOrder} (operationID : OperationID)
    (operationVersion : uint64) (targets : gmap string uint64) : tx unit := writing (λ s,
  Ok (foldl (registerWait operationID operationVersion) s (ranged targets))).

(** [len(key) > len(prefix) && key[:len(prefix)] == prefix]. *)
Definition waitOf (operationID : OperationID) (key : string) : bool :=
  let prefix := operationID +:+ NUL in
  bool_decide (String.length prefix < String.length key)%nat && String.prefix prefix key.

Definition tx_DeleteDependencyWaitsForOperation (operationID : OperationID) : tx unit :=
  writing (λ s, Ok (s <| dependencyWaits :=
    filter (λ kv, waitOf operationID kv.1 = false) (dependencyWaits s) |>)).

Definition tx_HasDependencyWaiterForTarget (target : ResourceID) : tx bool :=
  reading (λ s, Ok (existsb (λ w, dw_TargetID w =? target)
                      (map_to_list (dependencyWaits s)).*2)).

Definition tx_HasDependencyWaitsForOperation (operationID : OperationID) : tx bool :=
  reading (λ s, Ok (existsb (waitOf operationID) (map_to_list (dependencyWaits s)).*1)).

(** A page of waiters, and the cursor of the next one: 0 when the page reaches
    the highest sequence of the target. *)
Definition tx_PageDependencyWaitersByTarget (target : ResourceID) (afterSequence : uint64)
    (limit : nat) : tx (list DependencyWait * uint64) := reading (λ s,
  let ofTarget := filter (λ w, dw_TargetID w = target)
                    (map_to_list (dependencyWaits s)).*2 in
  let waits := take limit (sort_by dw_WaitSequence N.le
    (filter (λ w, (afterSequence < dw_WaitSequence w)%N) ofTarget)) in
  Ok (waits,
      match last waits with
      | None => 0%N
      | Some w =>
          let next := dw_WaitSequence w in
          let highest := foldr N.max 0%N (dw_WaitSequence <$> ofTarget) in
          if bool_decide (highest ≤ next)%N then 0%N else next
      end)).

(** ** The outbox

    The operations of [Outbox], as operations of a unit of work.  [now] is the
    reading of the clock a lease is checked against, [now'] a later one. *)

Definition on_messages (f : outbox → outcome outbox) : tx unit :=
  writing (λ s, o ← f (messages s); Ok (s <| messages := o |>)).

Definition tx_GetOutbox (id : string) : tx OutboxMessage :=
  reading (λ s, from_option Ok (Err ErrResourceNotFound) (messages s !! id)).

Section outbox_operations.
Context {order : MapOrder} (now now' : Time).

Definition tx_Enqueue (message : OutboxMessage) : tx unit :=
  on_messages (λ o, Enqueue o (ranged o).*2 message now now').

Definition tx_EnqueueWakeDependents (message : OutboxMessage) : tx unit :=
  on_messages (λ o, EnqueueWakeDependents o (ranged o).*2 message now now').

Definition tx_ClaimOutbox (token : string) (lease : Z) : tx (option OutboxMessage) := λ s,
  let '(o, claimed) := ClaimOutbox (messages s) (ranged (messages s)) token lease now in
  (s <| messages := o |>, Ok claimed).

Definition tx_FindExpiredDispatch : tx (option OutboxMessage) :=
  reading (λ s, Ok (FindExpiredDispatch (ranged (messages s)).*2 now)).

Definition tx_RenewOutbox (id token : string) (lease : Z) : tx unit :=
  on_messages (λ o, RenewOutbox o id token lease now).
Definition tx_RequeueExpiredOutbox (id token : string) : tx unit :=
  on_messages (λ o, RequeueExpiredOutbox o id token now now').
Definition tx_CompleteOutbox (id token reason : string) : tx unit :=
  on_messages (λ o, CompleteOutbox o id token reason now).
Definition tx_CompleteExpiredOutbox (id token reason : string) : tx unit :=
  on_messages (λ o, CompleteExpiredOutbox o id token reason now).
Definition tx_RetryOutbox (id token : string) (delay : Z) (messageText : string) : tx unit :=
  on_messages (λ o, RetryOutbox o id token delay messageText now now').
Definition tx_RetryDispatchOutbox (id token : string) (expectedVersion : uint64)
    (delay : Z) (messageText : string) : tx unit := writing (λ s,
  o ← RetryDispatchOutbox (executions s) (messages s) id token expectedVersion delay
        messageText now now'; Ok (s <| messages := o |>)).
Definition tx_RetryExpiredDispatchOutbox (id token : string) (expectedVersion : uint64)
    (delay : Z) (messageText : string) : tx unit := writing (λ s,
  o ← RetryExpiredDispatchOutbox (executions s) (messages s) id token expectedVersion delay
        messageText now now'; Ok (s <| messages := o |>)).
Definition tx_DeadOutbox (id token reason : string) : tx unit :=
  on_messages (λ o, DeadOutbox o id token reason now).
End outbox_operations.

(** ** Successful runs *)

Section runs.
Context {A B : Type}.
Implicit Types (m : tx A) (s : Store).

Lemma bind_run m (f : A → tx B) s s' y :
  (m ≫= f) s = (s', Ok y) ↔ ∃ t x, m s = (t, Ok x) ∧ f x t = (s', Ok y).
Proof. unfold mbind, tx_bind. destruct (m s) as [t []]; naive_solver. Qed.

Lemma ret_run (x y : A) s s' : (mret x : tx A) s = (s', Ok y) ↔ s' = s ∧ y = x.
Proof. unfold mret, tx_ret. split; [by intros [= <- <-]|by intros [-> ->]]. Qed.

Lemma lift_run (o : outcome A) s s' x : lift o s = (s', Ok x) ↔ s' = s ∧ o = Ok x.
Proof. unfold lift. split; [by intros [= <- ->]|by intros [-> ->]]. Qed.

Lemma reading_run (f : Store → outcome A) s s' x :
  reading f s = (s', Ok x) ↔ s' = s ∧ f s = Ok x.
Proof. unfold reading. split; [by intros [= <- ->]|by intros [-> ->]]. Qed.

Lemma writing_run f s s' u : writing f s = (s', Ok u) ↔ f s = Ok s'.
Proof. unfold writing. destruct u, (f s); split; intros [=]; by subst. Qed.

Lemma Within_run m s s' x : Within m s = (s', Ok x) ↔ m s = (s', Ok x).
Proof. unfold Within. destruct (m s) as [t []]; split; intros [=]; by subst. Qed.
End runs.
