(* ===== verification/History.v ===== *)
(** * What the store guarantees

    Whatever a unit of work does with the repositories of [Store], the records
    keep their identity and their history ([history]) and the tables refer to
    each other consistently ([integrity]).  A unit of work is any composition of
    the repository operations ([scripted]). *)

From S2P Require Import Prelude Operation Values Resource Status Provisioning Records.
From S2P Require Import Outputs References Policy Text Work Outbox Store.
Open Scope string_scope.
Open Scope go_scope.

(** ** Tables whose rows are kept *)

Definition kept {A} (P : relation A) (m m' : gmap string A) : Prop :=
  ∀ k x, m !! k = Some x → ∃ x', m' !! k = Some x' ∧ P x x'.

Section kept.
Context {A : Type} (P : relation A).

#[export] Instance kept_refl `{!Reflexive P} : Reflexive (kept P).
Proof. intros m k x Hx. by exists x. Qed.

#[export] Instance kept_trans `{!Transitive P} : Transitive (kept P).
Proof.
  intros m1 m2 m3 H12 H23 k x (x' & Hx' & Hp)%H12.
  destruct (H23 _ _ Hx') as (x'' & Hx'' & Hp'). exists x''. split; [done|]. by etrans.
Qed.

Lemma kept_insert `{!Reflexive P} m k y :
  (∀ x, m !! k = Some x → P x y) → kept P m (<[k := y]> m).
Proof.
  intros Hy j x Hx. destruct (decide (k = j)) as [<-|Hn].
  - exists y. rewrite lookup_insert_eq. auto.
  - exists x. by rewrite lookup_insert_ne.
Qed.
End kept.

(** A record that was saved: its version counts the saves. *)
Definition saved (v v' : uint64) (same : Prop) : Prop :=
  ∃ k, v' = Nat.iter k u64_incr v ∧ (k = 0 → same).

Lemma saved_refl v (P : Prop) : P → saved v v P.
Proof. by exists 0. Qed.

Lemma saved_incr v P : saved v (u64_incr v) P.
Proof. by exists 1. Qed.

Lemma saved_trans v1 v2 v3 (P Q R : Prop) :
  saved v1 v2 P → saved v2 v3 Q → (P → Q → R) → saved v1 v3 R.
Proof.
  intros (k & -> & Hp) (l & -> & Hq) HR. exists (l + k).
  split; [by rewrite Nat.iter_add|]. intros [-> ->]%Nat.eq_add_0. auto.
Qed.

(** ** The history of a row *)

Definition resource_kept (r r' : ResourceRecord) : Prop :=
  res_owner (rr_Resource r') = res_owner (rr_Resource r) ∧
  saved (rr_Version r) (rr_Version r') (r' = r).

Definition operation_kept (o o' : OperationRecord) : Prop :=
  sameIntent (opr_Operation o) (opr_Operation o') = true ∧
  opr_Sequence o' = opr_Sequence o ∧
  saved (opr_Version o) (opr_Version o') (o' = o) ∧
  (IsTerminal (opr_Operation o) = true → o' = o).

Definition execution_kept (e e' : ProvisioningExecutionRecord) : Prop :=
  pe_RecoverySourceOperationID e' = pe_RecoverySourceOperationID e ∧
  pe_RecoverySourceAttempt e' = pe_RecoverySourceAttempt e ∧
  (pe_OutputMappingRef e ≠ "" → pe_OutputMappingRef e' = pe_OutputMappingRef e) ∧
  saved (pe_Version e) (pe_Version e') (e' = e).

Definition message_kept (m m' : OutboxMessage) : Prop :=
  same_work m m' ∧ (om_State m = OutboxCompleted ∨ om_State m = OutboxDead → m' = m).

(** Some execution recovers the outputs of the operation, or of its attempt. *)
Definition referenced (s : Store) (id : OperationID) : Prop :=
  ∃ k child, executions s !! k = Some child ∧ recovers id child = true.
Definition attemptReferenced (s : Store) (id : OperationID) (n : uint64) : Prop :=
  ∃ k child, executions s !! k = Some child ∧ recoversAttempt id n child = true.

Record history (s s' : Store) : Prop := {
  hs_resources : kept resource_kept (resources s) (resources s');
  hs_sequences : resourceSequences s ⊆ resourceSequences s';
  hs_operations : kept operation_kept (operations s) (operations s');
  hs_events : events s ⊆ events s';
  hs_executions : kept execution_kept (executions s) (executions s');
  hs_sources id e : executions s !! id = Some e → referenced s id →
    executions s' !! id = Some e;
  hs_attempts : kept (λ _ _, True) (attempts s) (attempts s');
  hs_sourceAttempts id n a : attempts s !! attemptKey id n = Some a →
    attemptReferenced s id n → attempts s' !! attemptKey id n = Some a;
  hs_idempotency : idempotency s ⊆ idempotency s';
  hs_actions : operatorActions s ⊆ operatorActions s';
  hs_operatorKeys : operatorIdempotency s ⊆ operatorIdempotency s';
  hs_outputs : kept (⊆) (outputs s) (outputs s');
  hs_messages : kept message_kept (messages s) (messages s') }.

(** ** Consistency of the tables *)

Record integrity (s : Store) : Prop := {
  in_resources id r : resources s !! id = Some r → res_id (rr_Resource r) = id;
  in_sequences : dom (resourceSequences s) = dom (resources s);
  in_operations id o : operations s !! id = Some o → op_id (opr_Operation o) = id;
  in_retries id o : operations s !! id = Some o → op_retryOf (opr_Operation o) ≠ "" →
    retrySourceMatches (operations s !! op_retryOf (opr_Operation o)) (opr_Operation o) = true;
  in_events id e : events s !! id = Some e → ev_id e = id;
  in_executions id e : executions s !! id = Some e →
    pe_OperationID e = id ∧ pe_RecoverySourceOperationID e ≠ id;
  in_recovery id e : executions s !! id = Some e → IsOutputRecovery e = true →
    is_Some (attempts s !! attemptKey (pe_RecoverySourceOperationID e)
                                      (pe_RecoverySourceAttempt e));
  in_attempts k a : attempts s !! k = Some a →
    k = attemptKey (sa_OperationID a) (sa_AttemptNumber a);
  in_idempotency k r : idempotency s !! k = Some r →
    k = idempotencyMapKey (ir_Scope r) (ir_Key r);
  in_actions id a : operatorActions s !! id = Some a →
    oa_ID a = id ∧ is_Some (messages s !! oa_CreatedWorkID a) ∧
    (oa_SourceWorkID a ≠ "" → is_Some (messages s !! oa_SourceWorkID a));
  in_operatorKeys k r : operatorIdempotency s !! k = Some r →
    is_Some (operatorActions s !! oi_OperatorActionID r);
  in_outputs id gs n r : outputs s !! id = Some gs → gs !! n = Some r →
    ror_ResourceID r = id ∧ ror_ObservedGeneration r = n;
  in_messages : outbox_reachable (messages s) }.

(** A step that keeps both. *)
Definition sound_step (s s' : Store) : Prop :=
  integrity s → integrity s' ∧ history s s'.

(** ** The relations are preorders *)

#[export] Instance resource_kept_preorder : PreOrder resource_kept.
Proof.
  split; [by intros r; split; [|apply saved_refl]|].
  intros r1 r2 r3 [Ho H] [Ho' H']. split; [congruence|].
  eapply saved_trans; [done..|congruence].
Qed.

Lemma sameIntent_spec a b :
  sameIntent a b = true ↔
  op_resourceID a = op_resourceID b ∧ op_capability a = op_capability b ∧
  op_targetGeneration a = op_targetGeneration b ∧ op_requestedAt a = op_requestedAt b ∧
  op_retryOf a = op_retryOf b.
Proof. unfold sameIntent. rewrite !andb_true_iff, !bool_decide_eq_true. tauto. Qed.

#[export] Instance operation_kept_preorder : PreOrder operation_kept.
Proof.
  split.
  - intros o. split_and!; [by apply sameIntent_spec|done|by apply saved_refl|done].
  - intros o1 o2 o3 ((? & ? & ? & ? & ?)%sameIntent_spec & Hq & Hv & Ht)
      ((? & ? & ? & ? & ?)%sameIntent_spec & Hq' & Hv' & Ht').
    split_and!; [by apply sameIntent_spec; split_and!; etrans|congruence| |].
    + eapply saved_trans; [done..|congruence].
    + intros H12. rewrite (Ht H12) in *. auto.
Qed.

#[export] Instance execution_kept_preorder : PreOrder execution_kept.
Proof.
  split.
  - intros e. split_and!; try done. by apply saved_refl.
  - intros e1 e2 e3 (Hs & Ha & Hm & Hv) (Hs' & Ha' & Hm' & Hv').
    split_and!; [congruence..| |].
    + intros Hne. rewrite Hm' by (by rewrite Hm). auto.
    + eapply saved_trans; [done..|congruence].
Qed.

#[export] Instance message_kept_preorder : PreOrder message_kept.
Proof.
  split; [by intros m|].
  intros m1 m2 m3 [(? & ? & ? & ? & ?) Ht] [(? & ? & ? & ? & ?) Ht']. split.
  - split_and!; etrans; done.
  - intros Hd. rewrite (Ht Hd) in *. auto.
Qed.

#[export] Instance any_preorder {A} : PreOrder (λ _ _ : A, True).
Proof. by split. Qed.

Lemma referenced_kept s s' id :
  kept execution_kept (executions s) (executions s') → referenced s id → referenced s' id.
Proof.
  intros Hk (k & c & (c' & Hc' & Hs & _)%Hk & Hr). exists k, c'. split; [done|].
  unfold recovers in *. by rewrite Hs.
Qed.

Lemma attemptReferenced_kept s s' id n :
  kept execution_kept (executions s) (executions s') →
  attemptReferenced s id n → attemptReferenced s' id n.
Proof.
  intros Hk (k & c & (c' & Hc' & Hs & Ha & _)%Hk & Hr). exists k, c'. split; [done|].
  unfold recoversAttempt, recovers in *. by rewrite Hs, Ha.
Qed.

#[export] Instance history_preorder : PreOrder history.
Proof.
  split; [by intros s; split|].
  intros s1 s2 s3 H12 H23. destruct H12, H23.
  split; try (etrans; done).
  - intros id e He Hr. eauto using referenced_kept.
  - intros id n a Ha Hr. eauto using attemptReferenced_kept.
Qed.

#[export] Instance sound_step_preorder : PreOrder sound_step.
Proof.
  split; [by intros s Hi|].
  intros s1 s2 s3 H12 H23 Hi. destruct (H12 Hi) as [Hi2 Hh]. destruct (H23 Hi2) as [Hi3 Hh'].
  split; [done|]. by etrans.
Qed.

(** ** Each operation is sound *)

Definition respects {A} (m : tx A) : Prop := ∀ s, sound_step s (m s).1.

Lemma writing_respects f :
  (∀ s s', f s = Ok s' → sound_step s s') → respects (writing f).
Proof. intros H s. unfold writing. destruct (f s) eqn:E; cbn; [by apply H|reflexivity..]. Qed.

(** Leave the parts of [sound_step] that speak of the changed tables. *)
Ltac sound_parts :=
  let Hi := fresh "Hi" in
  intros Hi; pose proof Hi as []; split; [split|split]; cbn;
  try first [assumption | reflexivity | done].

Ltac open_write :=
  apply writing_respects; intros s s' H; cbv beta zeta in H; ok_inv.

(** A property of every row holds of the new one and of the others. *)
Ltac new_row_of :=
  let i := fresh "i" in let y := fresh "y" in let Hy := fresh "Hy" in
  intros i y [[<- <-]|[_ Hy]]%lookup_insert_Some; [|by eauto].

Lemma absent {A} (m : gmap string A) k :
  bool_decide (is_Some (m !! k)) = false → m !! k = None.
Proof. intros H%bool_decide_eq_false. by apply eq_None_not_Some. Qed.

Lemma kept_new {A} (P : relation A) `{!Reflexive P} (m : gmap string A) k y :
  m !! k = None → kept P m (<[k := y]> m).
Proof. intros Hk. apply kept_insert; [done|]. by rewrite Hk. Qed.

Ltac new_row := apply kept_new; [apply _|done].

Lemma CreateResource_respects record : respects (tx_CreateResource record).
Proof.
  open_write. apply absent in H. set (r := if rr_Version _ =? _ then _ else _) in *.
  assert (Hr : res_id (rr_Resource r) = res_id (rr_Resource record))
    by (unfold r; by case_bool_decide).
  sound_parts.
  - by new_row_of.
  - rewrite !dom_insert_L. congruence.
  - new_row.
  - apply insert_subseteq, not_elem_of_dom. rewrite in_sequences0. by apply not_elem_of_dom.
Qed.

Lemma SaveResource_respects record version : respects (tx_SaveResource record version).
Proof.
  open_write. destruct (resources s !! _) as [current|] eqn:Hc; [|done]. ok_inv.
  apply negb_false_iff, bool_decide_eq_true in H, H0. sound_parts.
  - by new_row_of.
  - rewrite dom_insert_L. rewrite in_sequences0.
    assert (res_id (rr_Resource record) ∈ dom (resources s)) by by eapply elem_of_dom_2.
    set_solver.
  - apply kept_insert; [apply _|]. rewrite Hc. intros ? [= <-]. split; [done|]. cbn.
    rewrite <- H. apply saved_incr.
Qed.

Lemma sequence_sound s n : sound_step s (s <| nextOperationSequence := n |>).
Proof. sound_parts. Qed.

Lemma retrySourceMatches_spec source operation :
  retrySourceMatches source operation = true ↔
  ∃ s, source = Some s ∧ op_state (opr_Operation s) = OperationStateFailed ∧
    op_resourceID (opr_Operation s) = op_resourceID operation ∧
    op_capability (opr_Operation s) = op_capability operation ∧
    op_targetGeneration (opr_Operation s) = op_targetGeneration operation.
Proof.
  unfold retrySourceMatches. rewrite non_nil_true. apply exist_proper. intros s.
  rewrite !andb_true_iff, !bool_decide_eq_true. tauto.
Qed.

(** A source of a retry is terminal, so it stays what it is. *)
Lemma retries_kept (m m' : gmap string OperationRecord) source o o' :
  kept operation_kept m m' → op_resourceID o' = op_resourceID o →
  op_capability o' = op_capability o → op_targetGeneration o' = op_targetGeneration o →
  retrySourceMatches (m !! source) o = true → retrySourceMatches (m' !! source) o' = true.
Proof.
  intros Hk Hr Hc Hg (x & (x' & Hx' & _ & _ & _ & Ht)%Hk & Hs & Hr' & Hc' & Hg')%retrySourceMatches_spec.
  apply retrySourceMatches_spec. exists x'. rewrite Hx', (Ht (ltac:(unfold IsTerminal; by rewrite Hs))).
  split_and!; congruence.
Qed.

Lemma CreateOperation_respects record : respects (tx_CreateOperation record).
Proof.
  intros s. unfold tx_CreateOperation.
  etrans; [apply (sequence_sound s (u64_incr (nextOperationSequence s)))|].
  generalize (s <| nextOperationSequence := u64_incr (nextOperationSequence s) |>).
  clear s. open_write. apply absent in H.
  set (r := if opr_Version _ =? _ then _ else _) in *.
  assert (Hr : opr_Operation r = opr_Operation record) by (unfold r; by case_match).
  assert (Hk : kept operation_kept (operations s)
    (<[op_id (opr_Operation record) := r]> (operations s))) by new_row.
  sound_parts.
  - new_row_of. by rewrite Hr.
  - intros i o [[<- <-]|[_ Ho]]%lookup_insert_Some.
    + rewrite Hr. intros Hne. apply andb_false_iff in H0 as [Hf|Hf].
      * by apply negb_false_iff, bool_decide_eq_true in Hf.
      * apply negb_false_iff in Hf. by eapply retries_kept.
    + intros Hne. eapply retries_kept; eauto.
Qed.

Lemma SaveOperation_respects record version : respects (tx_SaveOperation record version).
Proof.
  open_write. destruct (operations s !! _) as [current|] eqn:Hc; [|done]. ok_inv.
  apply negb_false_iff in H, H1. apply bool_decide_eq_true in H.
  assert (Hk : kept operation_kept (operations s)
    (<[op_id (opr_Operation record) := record <| opr_Sequence := opr_Sequence current |>
         <| opr_Version := u64_incr version |>]> (operations s))).
  { apply kept_insert; [apply _|]. rewrite Hc. intros ? [= <-]. split_and!; try done.
    - cbn. rewrite <- H. apply saved_incr.
    - by rewrite H0. }
  apply sameIntent_spec in H1 as (? & ? & ? & ? & ?).
  sound_parts.
  - by new_row_of.
  - intros i o [[<- <-]|[_ Ho]]%lookup_insert_Some.
    + cbn. rewrite <- H5. intros Hne.
      eapply retries_kept; [done|..|by apply (in_retries0 _ _ Hc)]; congruence.
    + intros Hne. eapply retries_kept; eauto.
Qed.

Lemma Append_respects event : respects (tx_Append event).
Proof.
  open_write. apply absent in H. sound_parts.
  - by new_row_of.
  - by apply insert_subseteq.
Qed.

(** *** Executions and attempts *)

Lemma attemptKey_inj id id' n n' :
  attemptKey id n = attemptKey id' n' → id = id' ∧ n = n'.
Proof.
  unfold attemptKey. intros H. apply split_last in H as [-> Hn]; [|apply decimal_lacks; cbn; lia..].
  split; [done|]. by apply (inj decimal).
Qed.

Lemma existsb_values {A} (f : A → bool) (m : gmap string A) :
  existsb f (map_to_list m).*2 = false → ∀ k x, m !! k = Some x → f x = false.
Proof.
  intros H k x Hx. destruct (f x) eqn:Hf; [|done]. rewrite <- H. symmetry. apply existsb_exists.
  exists x. split; [|done]. apply list_elem_of_In, list_elem_of_fmap. exists (k, x).
  split; [done|]. by apply elem_of_map_to_list.
Qed.

Lemma CreateExecution_respects record : respects (tx_CreateExecution record).
Proof.
  open_write. apply absent in H. set (r := if pe_Version record =? _ then _ else _) in *.
  assert (Hr : pe_OperationID r = pe_OperationID record ∧
    pe_RecoverySourceOperationID r = pe_RecoverySourceOperationID record ∧
    pe_RecoverySourceAttempt r = pe_RecoverySourceAttempt record)
    by (unfold r; by case_match).
  destruct Hr as (Hid & Hsrc & Hatt).
  sound_parts.
  - new_row_of. split; [done|].
    rewrite Hsrc. rewrite orb_false_iff in H0. destruct H0 as [_ H0].
    rewrite Hsrc in H0. by apply bool_decide_eq_false in H0.
  - new_row_of. intros Hrec. rewrite Hrec in H1. cbn in H1.
    apply bool_decide_eq_false in H1. by apply not_eq_None_Some.
  - new_row.
  - intros id e He _. rewrite lookup_insert_ne by congruence. done.
Qed.

Lemma SaveExecution_respects record version : respects (tx_SaveExecution record version).
Proof.
  open_write. destruct (executions s !! _) as [current|] eqn:Hc; [|done]. ok_inv.
  apply negb_false_iff, bool_decide_eq_true in H.
  pose proof (existsb_values _ _ H0) as Hfree.
  rewrite orb_false_iff, !negb_false_iff, !bool_decide_eq_true in H1. destruct H1 as [Hsrc Hatt].
  set (r := if pe_OutputMappingRef current <>? "" then _ else _) in *.
  assert (Hr : pe_OperationID r = pe_OperationID record ∧
    pe_RecoverySourceOperationID r = pe_RecoverySourceOperationID current ∧
    pe_RecoverySourceAttempt r = pe_RecoverySourceAttempt current ∧
    (pe_OutputMappingRef current ≠ "" → pe_OutputMappingRef r = pe_OutputMappingRef current)).
  { unfold r. case_match eqn:Hm; cbn; split_and!; try done.
    apply negb_false_iff, bool_decide_eq_true in Hm. done. }
  destruct Hr as (Hid & Hsrc' & Hatt' & Hmap). clearbody r.
  sound_parts.
  - new_row_of. cbn. rewrite Hsrc'.
    split; [done|]. apply (in_executions0 _ _ Hc).
  - new_row_of. unfold IsOutputRecovery. cbn. rewrite Hsrc', Hatt'.
    apply (in_recovery0 _ _ Hc).
  - apply kept_insert; [apply _|]. rewrite Hc. intros ? [= <-].
    split_and!; [done..|]. cbn. rewrite <- H. apply saved_incr.
  - intros id e He (k & c & Hk & Hrec). rewrite lookup_insert_ne; [done|].
    intros <-. specialize (Hfree _ _ Hk). congruence.
Qed.

Lemma CreateSubmissionAttempt_respects record : respects (tx_CreateSubmissionAttempt record).
Proof.
  open_write. apply absent in H. sound_parts.
  - intros id e He Hrec. destruct (in_recovery0 _ _ He Hrec) as [a Ha].
    rewrite lookup_insert_ne; [by exists a|congruence].
  - by new_row_of.
  - new_row.
  - intros id n a Ha _. rewrite lookup_insert_ne; [done|congruence].
Qed.

Lemma SaveSubmissionAttempt_respects record expected :
  respects (tx_SaveSubmissionAttempt record expected).
Proof.
  open_write. destruct (attempts s !! _) as [current|] eqn:Hc; [|done]. ok_inv.
  pose proof (existsb_values _ _ H0) as Hfree. sound_parts.
  - intros id e He Hrec. rewrite lookup_insert_is_Some'. right. by apply (in_recovery0 id).
  - by new_row_of.
  - by apply kept_insert.
  - intros id n a Ha (k & c & Hk & Hrec). rewrite lookup_insert_ne; [done|].
    intros [<- <-]%attemptKey_inj. specialize (Hfree _ _ Hk). congruence.
Qed.

(** *** Idempotency, operator records and outputs *)

Lemma PutIdempotency_respects record : respects (tx_PutIdempotency record).
Proof.
  open_write. apply absent in H. sound_parts; [by new_row_of|by apply insert_subseteq].
Qed.

Lemma PutOperatorIdempotency_respects record : respects (tx_PutOperatorIdempotency record).
Proof.
  open_write. apply absent in H. apply bool_decide_eq_false, not_eq_None_Some in H0.
  sound_parts; [by new_row_of|by apply insert_subseteq].
Qed.

Lemma InsertOperatorAction_respects record : respects (tx_InsertOperatorAction record).
Proof.
  open_write. apply absent in H. apply bool_decide_eq_false, not_eq_None_Some in H0.
  sound_parts.
  - new_row_of. split_and!; [done..|]. intros Hne. rewrite bool_decide_false in H1 by done.
    cbn in H1. by apply bool_decide_eq_false, not_eq_None_Some in H1.
  - intros k r Hr. rewrite lookup_insert_is_Some'. right. by eapply in_operatorKeys0.
  - by apply insert_subseteq.
Qed.

Lemma SaveResourceOutputs_respects record : respects (tx_SaveResourceOutputs record).
Proof.
  open_write. set (gs := default ∅ (outputs s !! ror_ResourceID record)) in *.
  destruct (gs !! _) as [existing|] eqn:Hex; ok_inv; [reflexivity|]. sound_parts.
  - intros id gs' n r [[<- <-]|[_ Hg]]%lookup_insert_Some; [|by eapply in_outputs0].
    intros [[<- <-]|[_ Hn]]%lookup_insert_Some; [done|].
    unfold gs in Hn. destruct (outputs s !! _) eqn:Ho; [by eapply in_outputs0|done].
  - apply kept_insert; [apply _|]. intros x Hx. unfold gs in *. rewrite Hx in *. cbn in *.
    by apply insert_subseteq.
Qed.

(** *** References and waits *)

Lemma unobserved_sound s s' :
  resources s' = resources s → resourceSequences s' = resourceSequences s →
  operations s' = operations s → events s' = events s → executions s' = executions s →
  idempotency s' = idempotency s → attempts s' = attempts s → messages s' = messages s →
  outputs s' = outputs s → operatorActions s' = operatorActions s →
  operatorIdempotency s' = operatorIdempotency s → sound_step s s'.
Proof.
  destruct s, s'. cbn. intros -> -> -> -> -> -> -> -> -> -> ->. by sound_parts.
Qed.

Lemma ReplaceDesiredReferences_respects source generation edges :
  respects (tx_ReplaceDesiredReferences source generation edges).
Proof. open_write. by apply unobserved_sound. Qed.

Lemma AdvanceAppliedReferences_respects source generation edges :
  respects (tx_AdvanceAppliedReferences source generation edges).
Proof. open_write. by apply unobserved_sound. Qed.

Lemma DeleteReferencesForSource_respects source :
  respects (tx_DeleteReferencesForSource source).
Proof. open_write. by apply unobserved_sound. Qed.

Lemma registerWait_sound id version s entry : sound_step s (registerWait id version s entry).
Proof. unfold registerWait. destruct entry. case_match; by apply unobserved_sound. Qed.

Lemma RegisterDependencyWaits_respects `{order : MapOrder} id version targets :
  respects (tx_RegisterDependencyWaits id version targets).
Proof.
  open_write. revert s. induction (ranged targets) as [|e l IH]; intros s; [reflexivity|].
  cbn. etrans; [apply registerWait_sound|apply IH].
Qed.

Lemma DeleteDependencyWaitsForOperation_respects id :
  respects (tx_DeleteDependencyWaitsForOperation id).
Proof. open_write. by apply unobserved_sound. Qed.

(** *** The outbox *)

Lemma move_kept token now m m' :
  same_work m m' → lease_move token now m m' ∨ claim_move token m m' → message_kept m m'.
Proof.
  intros Hs Hm. split; [done|]. intros Ht.
  destruct Hm as [[[Hf _] _ _ _]|[Hf _]]; rewrite Hf in Ht; by destruct Ht.
Qed.

Lemma messages_kept token now o o' :
  outbox_reachable o → outbox_step token now o o' → kept message_kept o o'.
Proof.
  intros Ho%reachable_inv Hs%step_effect.
  destruct Hs as [|m Hd _ _ _ Hnew _|id m m' Hm Hs Hmove]; [reflexivity|..].
  - apply kept_new; [apply _|]. destruct (o !! om_ID m) as [n|] eqn:Hn; [|done].
    destruct (Hnew _ _ Hn). apply (iv_keyed _ Ho _ _ Hn).
  - apply kept_insert; [apply _|]. intros n Hn. replace n with m by congruence.
    by eapply move_kept.
Qed.

Lemma step_sound token now s o' :
  outbox_step token now (messages s) o' → sound_step s (s <| messages := o' |>).
Proof.
  intros Hstep. sound_parts.
  - intros id a Ha. destruct (in_actions0 _ _ Ha) as (Hid & [m Hm] & Hsrc).
    pose proof (messages_kept _ _ _ _ in_messages0 Hstep) as Hk. split_and!; [done|..].
    + destruct (Hk _ _ Hm) as (m' & Hm' & _). by exists m'.
    + intros [n Hn]%Hsrc. destruct (Hk _ _ Hn) as (m' & Hm' & _). by exists m'.
  - by eapply or_step.
  - by eapply messages_kept.
Qed.

Lemma on_messages_respects token now f :
  (∀ o o', f o = Ok o' → outbox_step token now o o') → respects (on_messages f).
Proof. intros Hf. open_write. by eapply step_sound, Hf. Qed.

Lemma ranged_values `{order : MapOrder} {A} (m : gmap string A) : (ranged m).*2 ≡ₚ (map_to_list m).*2.
Proof. by rewrite ranged_perm. Qed.

(** ** Units of work *)

(** What a unit of work is entitled to: create resources and operations, save
    them, and, since that repeats work at a provider, save a submission attempt
    over one of the expected state. *)
Record rights := {
  may_create : Prop;
  may_settle : Prop;
  may_move : SubmissionAttemptRecord → string → Prop }.

Definition all_rights : rights :=
  {| may_create := True; may_settle := True; may_move := λ _ _, True |}.

Section scripted.
Context {order : MapOrder} (may : rights).

(** The computations a unit of work can be: what the repositories offer, glued
    together by pure code.  Messages are enqueued as the application builds
    them. *)
Inductive scripted : ∀ {A}, tx A → Prop :=
  | sc_pure {A} (m : outcome A) : scripted (lift m)
  | sc_ret {A} (x : A) : scripted (mret x : tx A)
  | sc_read {A} (f : Store → outcome A) : scripted (reading f)
  | sc_bind {A B} (m : tx A) (f : A → tx B) :
      scripted m → (∀ s s' x, m s = (s', Ok x) → scripted (f x)) → scripted (m ≫= f)
  | sc_handled {A B} (g : outcome A → outcome B) (m : tx A) :
      scripted m → scripted (handled g m)
  | sc_CreateResource record : may_create may → scripted (tx_CreateResource record)
  | sc_SaveResource record version :
      may_settle may → scripted (tx_SaveResource record version)
  | sc_CreateOperation record :
      may_create may → scripted (tx_CreateOperation record)
  | sc_SaveOperation record version :
      may_settle may → scripted (tx_SaveOperation record version)
  | sc_Append event : scripted (tx_Append event)
  | sc_CreateExecution record : scripted (tx_CreateExecution record)
  | sc_SaveExecution record version : scripted (tx_SaveExecution record version)
  | sc_CreateSubmissionAttempt record : scripted (tx_CreateSubmissionAttempt record)
  | sc_SaveSubmissionAttempt record expected :
      may_move may record expected → scripted (tx_SaveSubmissionAttempt record expected)
  | sc_PutIdempotency record : scripted (tx_PutIdempotency record)
  | sc_InsertOperatorAction record : scripted (tx_InsertOperatorAction record)
  | sc_PutOperatorIdempotency record : scripted (tx_PutOperatorIdempotency record)
  | sc_SaveResourceOutputs record : scripted (tx_SaveResourceOutputs record)
  | sc_ReplaceDesiredReferences source generation edges :
      scripted (tx_ReplaceDesiredReferences source generation edges)
  | sc_AdvanceAppliedReferences source generation edges :
      scripted (tx_AdvanceAppliedReferences source generation edges)
  | sc_DeleteReferencesForSource source : scripted (tx_DeleteReferencesForSource source)
  | sc_RegisterDependencyWaits id version targets :
      scripted (tx_RegisterDependencyWaits id version targets)
  | sc_DeleteDependencyWaits id : scripted (tx_DeleteDependencyWaitsForOperation id)
  | sc_Enqueue now now' message :
      fresh message → scripted (tx_Enqueue now now' message)
  | sc_EnqueueWakeDependents now now' message :
      fresh message → om_Kind message = OutboxWakeDependents → om_OperationID message = "" →
      scripted (tx_EnqueueWakeDependents now now' message)
  | sc_ClaimOutbox now token lease : scripted (tx_ClaimOutbox now token lease)
  | sc_RenewOutbox now id token lease : scripted (tx_RenewOutbox now id token lease)
  | sc_RequeueExpired now now' id token : scripted (tx_RequeueExpiredOutbox now now' id token)
  | sc_CompleteOutbox now id token reason : scripted (tx_CompleteOutbox now id token reason)
  | sc_CompleteExpired now id token reason :
      scripted (tx_CompleteExpiredOutbox now id token reason)
  | sc_RetryOutbox now now' id token delay text :
      scripted (tx_RetryOutbox now now' id token delay text)
  | sc_RetryDispatch now now' id token version delay text :
      scripted (tx_RetryDispatchOutbox now now' id token version delay text)
  | sc_RetryExpiredDispatch now now' id token version delay text :
      scripted (tx_RetryExpiredDispatchOutbox now now' id token version delay text)
  | sc_DeadOutbox now id token reason : scripted (tx_DeadOutbox now id token reason).

Lemma bind_respects {A B} (m : tx A) (f : A → tx B) :
  respects m → (∀ s s' x, m s = (s', Ok x) → respects (f x)) → respects (m ≫= f).
Proof.
  intros Hm Hf s. specialize (Hm s). unfold mbind, tx_bind.
  destruct (m s) as [t [x| |]] eqn:E; cbn in *; [|done..]. etrans; [done|]. by eapply Hf.
Qed.

Lemma handled_respects {A B} (g : outcome A → outcome B) (m : tx A) :
  respects m → respects (handled g m).
Proof. intros Hm s. specialize (Hm s). unfold handled. by destruct (m s). Qed.

Lemma ClaimOutbox_respects now token lease : respects (tx_ClaimOutbox now token lease).
Proof.
  intros s. unfold tx_ClaimOutbox.
  pose proof (os_claim token now (messages s) (ranged (messages s)) lease (ranged_perm _)) as H.
  destruct (ClaimOutbox _ _ _ _ _) as [o claimed]. cbn in *. by eapply step_sound.
Qed.

Lemma dispatch_respects token now (f : Store → outcome outbox) :
  (∀ s o, f s = Ok o → outbox_step token now (messages s) o) →
  respects (writing (λ s, o ← f s; Ok (s <| messages := o |>))).
Proof. intros Hf. open_write. by eapply step_sound, Hf. Qed.

#[local] Hint Resolve CreateResource_respects SaveResource_respects CreateOperation_respects
  SaveOperation_respects Append_respects CreateExecution_respects SaveExecution_respects
  CreateSubmissionAttempt_respects SaveSubmissionAttempt_respects PutIdempotency_respects
  InsertOperatorAction_respects PutOperatorIdempotency_respects
  SaveResourceOutputs_respects ReplaceDesiredReferences_respects
  AdvanceAppliedReferences_respects DeleteReferencesForSource_respects
  RegisterDependencyWaits_respects DeleteDependencyWaitsForOperation_respects
  ClaimOutbox_respects bind_respects handled_respects : core.
#[local] Hint Constructors outbox_step : core.

Lemma scripted_respects {A} (m : tx A) : scripted m → respects m.
Proof.
  induction 1; try solve [auto | intros s; reflexivity]; unshelve
    (first [apply (on_messages_respects token now) | apply (on_messages_respects "" now)
           |apply (dispatch_respects token now)]; eauto using ranged_values).
Qed.

End scripted.

Section transactions.
Context {order : MapOrder}.

(** A unit of work that is entitled to more. *)
Lemma scripted_weaken {A} may may' (m : tx A) :
  (may_create may → may_create may') → (may_settle may → may_settle may') →
  (∀ record expected, may_move may record expected → may_move may' record expected) →
  scripted may m → scripted may' m.
Proof. intros Hc Hs Hm. induction 1; econstructor; eauto. Qed.

Lemma scripted_all {A} may (m : tx A) : scripted may m → scripted all_rights m.
Proof. by apply scripted_weaken. Qed.

Definition rolled_back (s s' : Store) : Prop :=
  s' = s <| nextOperationSequence := nextOperationSequence s' |>
         <| nextResourceSequence := nextResourceSequence s' |>
         <| nextWaitSequence := nextWaitSequence s' |>.

Inductive store_reachable : Store → Prop :=
  | sr_new : store_reachable NewStore
  | sr_within {A} (fn : tx A) s :
      store_reachable s → scripted all_rights fn → store_reachable (Within fn s).1.

Lemma rolled_back_sound s s' : rolled_back s s' → sound_step s s'.
Proof. unfold rolled_back. intros ->. by apply unobserved_sound. Qed.

Lemma Within_rolled_back {A} (fn : tx A) s :
  is_ok (Within fn s).2 = false → rolled_back s (Within fn s).1.
Proof. unfold Within. by destruct (fn s) as [t []], s. Qed.

Lemma Within_respects {A} may (fn : tx A) : scripted may fn → respects (Within fn).
Proof.
  intros Hfn s. destruct (is_ok (Within fn s).2) eqn:Hok.
  - pose proof (scripted_respects _ _ Hfn s) as H. unfold Within in *. by destruct (fn s) as [t []].
  - by apply rolled_back_sound, Within_rolled_back.
Qed.

Lemma reachable_integrity s : store_reachable s → integrity s.
Proof.
  induction 1 as [|A fn s _ IH Hfn]; [|by apply (Within_respects all_rights fn Hfn s)].
  split; cbn; try (intros *; by rewrite lookup_empty); [done|constructor].
Qed.

(** C24: Transactions keep history.  From every store that units of work can
    build, any further one leaves the tables referring to each other
    consistently: retries to a failed operation of the same intent, output
    recoveries to an existing attempt, operator actions to existing work.
    Records never disappear, resources keep their owner and their insertion
    sequence, operations their intent, and terminal operations, events,
    idempotency keys, published outputs and every source of an output recovery
    never change.  A unit of work that fails leaves every table as it was: only
    sequence numbers stay consumed. *)
Theorem transaction_history {A} (fn : tx A) s :
  store_reachable s → scripted all_rights fn →
  let s' := (Within fn s).1 in
  integrity s' ∧ history s s' ∧ (is_ok (Within fn s).2 = false → rolled_back s s').
Proof.
  intros Hs%reachable_integrity Hfn. cbn. destruct (Within_respects all_rights fn Hfn s Hs).
  auto using Within_rolled_back.
Qed.
End transactions.

(** ** A concrete unit of work *)

#[local] Instance sample_order : MapOrder :=
  {| ranged A m := map_to_list m; ranged_perm A m := reflexivity _ |}.

Definition sample_key : IdempotencyRecord :=
  {| ir_Scope := "user"; ir_Key := "k"; ir_Fingerprint := "f"; ir_CommandKind := "create";
     ir_ResourceID := "res-1"; ir_OperationID := "op-1" |}.

(** It records a key twice, so it fails after having allocated a sequence. *)
Definition sample_unit : tx unit :=
  tx_CreateOperation {| opr_Operation := sample_created; opr_Sequence := 0; opr_Version := 1 |} ≫= λ _,
  tx_PutIdempotency sample_key ≫= λ _, tx_PutIdempotency sample_key.

Lemma sample_unit_scripted : scripted all_rights sample_unit.
Proof. repeat (constructor; intros). Qed.

Lemma transaction_history_witness :
  operations (Within sample_unit NewStore).1 = ∅ ∧
  idempotency (Within sample_unit NewStore).1 = ∅ ∧
  nextOperationSequence (Within sample_unit NewStore).1 = 1%N.
Proof.
  destruct (transaction_history sample_unit NewStore sr_new sample_unit_scripted)
    as (_ & _ & Hback).
  rewrite Hback by reflexivity. by split_and!.
Defined.
