(* ===== verification/Rights.v ===== *)
(** * What a unit of work may change

    The units of work of [History.scripted] carry the [rights] they need.  A
    unit that may not create operations leaves their identities alone, and a
    unit moves a submission attempt only as it is entitled to.  The flows of the
    service and of the worker differ in exactly these rights. *)

From S2P Require Import Prelude Operation Values Resource Status Provisioning Records.
From S2P Require Import Outputs References Policy Text Work Outbox Store History.
Open Scope string_scope.
Open Scope go_scope.

(** ** Computations that relate the stores before and after *)

Definition relates {A} (R : relation Store) (m : tx A) : Prop := ∀ s, R s (m s).1.

Section relates.
Context (R : relation Store) `{!PreOrder R}.

Lemma relates_writing f : (∀ s s', f s = Ok s' → R s s') → relates R (writing f).
Proof. intros H s. unfold writing. destruct (f s) eqn:E; cbn; [by apply H|reflexivity..]. Qed.

Lemma relates_bind {A B} (m : tx A) (f : A → tx B) :
  relates R m → (∀ s s' x, m s = (s', Ok x) → relates R (f x)) → relates R (m ≫= f).
Proof.
  intros Hm Hf s. specialize (Hm s). unfold mbind, tx_bind.
  destruct (m s) as [t []] eqn:E; cbn in *; [etrans; [done|by eapply Hf]|done..].
Qed.

Lemma relates_handled {A B} (g : outcome A → outcome B) (m : tx A) :
  relates R m → relates R (handled g m).
Proof. intros Hm s. specialize (Hm s). unfold handled. by destruct (m s). Qed.
End relates.

(** A relation that only looks at operations and attempts. *)
Definition on_rows (R : relation Store) : Prop :=
  ∀ s s', operations s' = operations s → attempts s' = attempts s → R s s'.

Section rights.
Context {order : MapOrder}.
Implicit Types (may : rights) (R : relation Store).

Lemma register_rows s id version entries :
  let s' := foldl (registerWait id version) s entries in
  operations s' = operations s ∧ attempts s' = attempts s.
Proof.
  revert s. induction entries as [|[target v] entries IH]; intros s; cbn; [done|].
  destruct (IH (registerWait id version s (target, v))) as [Ho Ha]. cbn in Ho, Ha.
  rewrite Ho, Ha. by case_match.
Qed.

(** What the operations that write the two tables do, every unit does. *)
Lemma scripted_relates {A} R `{!PreOrder R} may (m : tx A) :
  on_rows R →
  (may_create may → ∀ record, relates R (tx_CreateOperation record)) →
  (∀ record version, relates R (tx_SaveOperation record version)) →
  (∀ record, relates R (tx_CreateSubmissionAttempt record)) →
  (∀ record expected, may_move may record expected →
     relates R (tx_SaveSubmissionAttempt record expected)) →
  scripted may m → relates R m.
Proof.
  intros Hrows Hcreate Hsave Hattempt Hmove.
  assert (∀ f, (∀ s s', f s = Ok s' → operations s' = operations s ∧ attempts s' = attempts s) →
          relates R (writing f)) as Hwriting.
  { intros f Hf. apply relates_writing; [done|]. intros s s' [? ?]%Hf. by apply Hrows. }
  induction 1; auto using @relates_bind, @relates_handled.
  all: try (intros s; reflexivity).
  all: try (apply Hwriting; intros s s' Hf; cbn in Hf; repeat (ok_inv; case_match); ok_inv; done).
  - apply Hwriting. intros s s' [= <-]. apply register_rows.
  - intros s. unfold tx_ClaimOutbox. destruct (ClaimOutbox _ _ _ _ _). by apply Hrows.
Qed.

Lemma relates_Within {A} R (m : tx A) : on_rows R → relates R m → relates R (Within m).
Proof.
  intros Hrows Hm s. specialize (Hm s). unfold Within.
  destruct (m s) as [t []]; cbn in *; [done|by apply Hrows..].
Qed.

(** ** Operations *)

Definition same_operations (s s' : Store) : Prop := dom (operations s') = dom (operations s).

#[export] Instance same_operations_preorder : PreOrder same_operations.
Proof. unfold same_operations. split; [done|]. intros s1 s2 s3. congruence. Qed.

(** A unit that may not create operations leaves their identities alone. *)
Lemma scripted_operations {A} may (m : tx A) :
  ¬ may_create may → scripted may m → relates same_operations (Within m).
Proof.
  intros Hno Hm. apply relates_Within; [by intros s s' Ho _; unfold same_operations; rewrite Ho|].
  revert Hm. apply scripted_relates; try done.
  - apply _.
  - intros s s' Ho _. unfold same_operations. by rewrite Ho.
  - intros record version. apply relates_writing; [apply _|]. intros s s' H. cbv zeta in H.
    case_match eqn:Ho; [|done]. ok_inv. unfold same_operations. cbn.
    apply elem_of_dom_2 in Ho. set_solver.
  - intros record. apply relates_writing; [apply _|]. intros s s' H. cbv zeta in H. by ok_inv.
  - intros record expected _. apply relates_writing; [apply _|]. intros s s' H. cbv zeta in H.
    case_match; [|done]. by ok_inv.
Qed.

(** ** Resources and operations *)

Definition same_lifecycle (s s' : Store) : Prop :=
  resources s' = resources s ∧ operations s' = operations s.

#[export] Instance same_lifecycle_preorder : PreOrder same_lifecycle.
Proof.
  unfold same_lifecycle. split; [done|]. intros s1 s2 s3 [? ?] [? ?]. split; congruence.
Qed.

(** A unit that may neither create nor settle leaves both alone. *)
Lemma scripted_lifecycle {A} may (m : tx A) :
  ¬ may_create may → ¬ may_settle may → scripted may m → relates same_lifecycle m.
Proof.
  intros Hcreate Hsettle. induction 1; try (by destruct Hcreate); try (by destruct Hsettle);
    auto using @relates_bind, @relates_handled, same_lifecycle_preorder.
  all: try (intros s; reflexivity).
  all: try (apply relates_writing; [apply _|]; intros s s' Hf; cbn in Hf;
    repeat (ok_inv; case_match); ok_inv; done).
  - apply relates_writing; [apply _|]. intros s s' [= <-]. generalize (ranged targets) as l.
    intros l. revert s. induction l as [|[t tv] l IH]; intros s; [done|]. cbn [foldl].
    etrans; [|apply IH]. unfold registerWait. by case_match.
  - intros s. unfold tx_ClaimOutbox. by destruct (ClaimOutbox _ _ _ _ _).
Qed.

(** ** Submission attempts *)

(** A row of the table is saved over as the rights allow; new rows appear in
    any state, and rows stay. *)
Definition attempt_moved may (a a' : SubmissionAttemptRecord) : Prop :=
  may_move may a' (sa_State a).

Definition attempts_moved may (s s' : Store) : Prop :=
  ∀ k, match attempts s !! k, attempts s' !! k with
       | Some a, Some a' => rtc (attempt_moved may) a a'
       | Some _, None => False
       | None, _ => True
       end.

#[export] Instance attempts_moved_preorder may : PreOrder (attempts_moved may).
Proof.
  split; [intros s k; by case_match|]. intros s1 s2 s3 H12 H23 k.
  specialize (H12 k). specialize (H23 k).
  destruct (attempts s1 !! k), (attempts s2 !! k), (attempts s3 !! k); try done. by etrans.
Qed.

Lemma scripted_attempts {A} may (m : tx A) :
  scripted may m → relates (attempts_moved may) (Within m).
Proof.
  assert (on_rows (attempts_moved may)) as Hrows.
  { intros s s' _ Ha k. rewrite Ha. by destruct (attempts s !! k). }
  intros Hm. apply relates_Within; [done|]. revert Hm. apply scripted_relates; try done.
  - apply _.
  - intros _ record s. unfold tx_CreateOperation. set (s0 := s <| nextOperationSequence := _ |>).
    assert (attempts s = attempts s0) as Hs0 by done. clearbody s0.
    unfold writing. case_match eqn:H; cbn; [ok_inv|..]; intros k; cbn; rewrite Hs0;
      by destruct (attempts s0 !! k).
  - intros record version. apply relates_writing; [apply _|]. intros s s' H. cbv zeta in H.
    case_match; [|done]. ok_inv. intros k. cbn. by destruct (attempts s !! k).
  - intros record. apply relates_writing; [apply _|]. intros s s' H. cbv zeta in H. ok_inv.
    apply absent in H. intros k. cbn. destruct (attempts s !! k) eqn:Ha; [|done].
    rewrite lookup_insert_ne by congruence. by rewrite Ha.
  - intros record expected Hmay. apply relates_writing; [apply _|]. intros s s' H. cbv zeta in H.
    destruct (attempts s !! _) as [current|] eqn:Ha; [|done]. ok_inv.
    apply negb_false_iff, bool_decide_eq_true in H. intros k. cbn.
    destruct (decide (k = attemptKey (sa_OperationID record) (sa_AttemptNumber record))) as [->|Hne].
    + rewrite Ha, lookup_insert_eq. apply rtc_once. by rewrite <- H in Hmay.
    + rewrite lookup_insert_ne by done. by destruct (attempts s !! k).
Qed.
End rights.
