(* ===== verification/Evidence.v ===== *)
(** * What a persisted execution has to agree with

    Models the checks of [src/internal/application/application.go] that compare
    an execution record with its resource and operation: its context, the
    evidence of a terminal attempt, and the provenance of a retry and of an
    output recovery. *)

From S2P Require Import Prelude Operation Values Resource Status Provisioning Records.
From S2P Require Import Engine Submission Outputs.
From Stdlib Require Import SpecFloat.
Open Scope string_scope.
Open Scope go_scope.

(** ** reflect.DeepEqual on the values of a spec

    Maps are equal when they have the same keys with equal values; floats
    compare with [==], so NaN differs from itself. *)

Definition deepEqualList (eq : value → value → bool) : list value → list value → bool :=
  fix go l k :=
    match l, k with
    | [], [] => true
    | v :: l', w :: k' => eq v w && go l' k'
    | _, _ => false
    end.

Fixpoint map_find (key : string) (m : list (string * value)) : option value :=
  match m with
  | [] => None
  | (k, v) :: m' => if k =? key then Some v else map_find key m'
  end.

Definition deepEqualEntries (eq : value → value → bool) (n : list (string * value))
    : list (string * value) → bool :=
  fix go m :=
    match m with
    | [] => true
    | (k, v) :: m' => non_nil (map_find k n) (eq v) && go m'
    end.

Fixpoint deepEqual (v w : value) : bool :=
  match v, w with
  | VNil, VNil => true
  | VBool a, VBool b => Bool.eqb a b
  | VString a, VString b => a =? b
  | VInt k a, VInt j b => (k =? j) && (a =? b)
  | VFloat32 a, VFloat32 b | VFloat64 a, VFloat64 b => SFeqb a b
  | VMap m, VMap n => Nat.eqb (length m) (length n) && deepEqualEntries deepEqual n m
  | VList l, VList k => deepEqualList deepEqual l k
  | _, _ => false
  end.

Definition specsEqual (a b : ResourceSpec) : bool :=
  deepEqual (VMap (spec_values a)) (VMap (spec_values b)).

(** ** Persisted evidence *)

Definition validFailureKind (kind : string) : bool :=
  (kind =? FailureInvalidRequest) || (kind =? FailureUnsupported) ||
  (kind =? FailureUnavailable) || (kind =? FailureTimeout) || (kind =? FailureNotFound) ||
  (kind =? FailureExecution) || (kind =? FailureUnknown).

Definition normalizeExecutionFailure (failure : option ExecutionFailure) : ExecutionFailure :=
  match failure with
  | None => {| ef_Kind := FailureUnknown; ef_Reason := "MalformedExecutionFailure";
               ef_Message := "provider reported failure without details" |}
  | Some failure =>
      let failure := if negb (validFailureKind (ef_Kind failure))
                     then failure <| ef_Kind := FailureUnknown |> else failure in
      if blank (ef_Reason failure) then
        let failure := failure <| ef_Reason := "MalformedExecutionFailure" |> in
        if ef_Message failure =? ""
        then failure <| ef_Message := "provider reported failure without details" |>
        else failure
      else failure
  end.

(** The observation that carries the execution's evidence. *)
Definition persistedObservation (execution : ProvisioningExecutionRecord)
    : option ExecutionObservation :=
  match pe_LastObservation execution with
  | Some {| eo_Execution := Some _ |} => pe_LastObservation execution
  | _ => match pe_Submission execution with
         | Some {| sub_Observation := {| eo_Execution := Some _ |} as observation |} =>
             Some observation
         | _ => None
         end
  end.

Definition persistedTerminalExecution (execution : ProvisioningExecutionRecord)
    : option Execution :=
  persistedObservation execution ≫= eo_Execution.

Definition persistedTerminalObservedAt (execution : ProvisioningExecutionRecord) : Time :=
  from_option eo_ObservedAt time_zero (persistedObservation execution).

Definition absenceCompletedDelete (execution : ProvisioningExecutionRecord)
    (operation : Operation) (evidence : option Execution) : bool :=
  (op_capability operation =? CapabilityDelete) &&
  (op_state operation =? OperationStateSucceeded) &&
  (pe_State execution =? AttemptSucceeded) &&
  (pe_Correlation execution =? RequestCorrelationNotFound) &&
  negb (pe_AcceptanceConfirmed execution) &&
  non_nil evidence (λ e, (ex_State e =? ExecutionStateFailed) &&
    non_nil (ex_Failure e) (λ f, ef_Kind f =? FailureNotFound)).

Definition validateExecutionContext (resource : ResourceRecord) (operation : Operation)
    (execution : ProvisioningExecutionRecord) : outcome unit :=
  fail_if (op_resourceID operation <>? res_id (rr_Resource resource)) ||
          (pe_OperationID execution <>? op_id operation) ||
          (pe_ResourceID execution <>? res_id (rr_Resource resource)) ||
          (pe_ResourceType execution <>? res_type (rr_Resource resource)) ||
          (pe_Capability execution <>? op_capability operation) ||
          (pe_TargetGeneration execution <>? op_targetGeneration operation) ||
          (pe_ProvisionerRef execution <>? rr_ProvisionerRef resource)
    with Wrapf ErrInvalidApplicationCall
      "%w: provisioning execution associations are inconsistent" [] ;;
  fail_if (res_generation (rr_Resource resource) =? pe_TargetGeneration execution) &&
          negb (specsEqual (pe_Spec execution) (res_spec (rr_Resource resource)))
    with Wrapf ErrInvalidApplicationCall
      "%w: provisioning execution intent does not match the target generation" [] ;;
  Ok tt.

Definition outputRejected (execution : ProvisioningExecutionRecord) : bool :=
  (pe_State execution =? AttemptSucceeded) &&
  (pe_OutputResolution execution =? OutputResolutionRejected).

(** What a failed operation may record about its execution. *)
Definition validateFailureDetails (execution : ProvisioningExecutionRecord)
    (evidence : Execution) (operation : Operation) : outcome unit :=
  match op_failure operation with
  | None => Err (Wrapf ErrInvalidApplicationCall
      "%w: failed operation carries no failure details" [])
  | Some operationFailure =>
      if outputRejected execution then
        fail_if (failure_reason operationFailure <>? pe_OutputFailureReason execution) ||
                (failure_message operationFailure <>? pe_OutputFailureMessage execution) ||
                (pe_OutputFailureReason execution =? "")
          with Wrapf ErrInvalidApplicationCall
            "%w: failed operation details contradict output postcondition rejection" [] ;;
        Ok tt
      else
        let failure := normalizeExecutionFailure (ex_Failure evidence) in
        fail_if (failure_reason operationFailure <>? ef_Reason failure) ||
                (failure_message operationFailure <>? ef_Message failure)
          with Wrapf ErrInvalidApplicationCall
            "%w: failed operation details contradict execution evidence" [] ;;
        Ok tt
  end.

Definition validatePersistedTerminalEvidence (execution : ProvisioningExecutionRecord)
    (resource : Resource) (status : ResourceStatus) (operation : Operation) : outcome unit :=
  match persistedTerminalExecution execution with
  | None => Err (Wrapf ErrInvalidApplicationCall
      "%w: terminal attempt has no terminal execution evidence" [])
  | Some evidence =>
      let absenceCompletion := absenceCompletedDelete execution operation (Some evidence) in
      let expected := if pe_State execution =? AttemptSucceeded
                      then ExecutionStateSucceeded else ExecutionStateFailed in
      let at_ := pe_LastObservedAt execution in
      fail_if negb absenceCompletion && (ex_State evidence <>? expected)
        with Wrapf ErrInvalidApplicationCall
          "%w: terminal attempt contradicts persisted execution evidence" [] ;;
      fail_if IsZero at_
        with Wrapf ErrInvalidApplicationCall
          "%w: terminal attempt has no effective observation timestamp" [] ;;
      fail_if negb (IsTerminal operation) &&
              (Before at_ (res_updatedAt resource) || Before at_ (st_updatedAt status))
        with Wrapf ErrInvalidApplicationCall
          "%w: terminal evidence predates current resource state" [] ;;
      let sourceObservedAt := persistedTerminalObservedAt execution in
      fail_if negb (IsZero sourceObservedAt) &&
              negb (IsZero (pe_LastProviderObservedAt execution)) &&
              (sourceObservedAt <>? pe_LastProviderObservedAt execution)
        with Wrapf ErrInvalidApplicationCall
          "%w: terminal source timestamp differs from backend evidence time" [] ;;
      fail_if IsTerminal operation && (op_completedAt operation <>? at_)
        with Wrapf ErrInvalidApplicationCall
          "%w: terminal operation and execution timestamps differ" [] ;;
      fail_if (ex_State evidence =? ExecutionStateFailed) && negb absenceCompletion &&
              (let failure := normalizeExecutionFailure (ex_Failure evidence) in
               negb (non_nil (pe_LastFailure execution) (λ last,
                 (ef_Kind last =? ef_Kind failure) && (ef_Reason last =? ef_Reason failure) &&
                 (ef_Message last =? ef_Message failure))))
        with Wrapf ErrInvalidApplicationCall
          "%w: terminal failure evidence is inconsistent" [] ;;
      fail_if (op_state operation =? OperationStateSucceeded) &&
              (pe_State execution <>? AttemptSucceeded)
        with Wrapf ErrInvalidApplicationCall
          "%w: succeeded operation contradicts execution attempt" [] ;;
      fail_if (op_state operation =? OperationStateFailed) &&
              (pe_State execution <>? AttemptFailed) && negb (outputRejected execution)
        with Wrapf ErrInvalidApplicationCall
          "%w: failed operation contradicts execution attempt" [] ;;
      if op_state operation =? OperationStateFailed
      then validateFailureDetails execution evidence operation else Ok tt
  end.

(** ** Retries and output recoveries *)

Definition retryStateCompatible (capability : Capability) (state : string) : bool :=
  if capability =? CapabilityCreate then state =? ResourceStateFailed
  else if capability =? CapabilityUpdate then state =? ResourceStateReady
  else if capability =? CapabilityDelete then
    (state =? ResourceStateReady) || (state =? ResourceStateFailed)
  else false.

Definition validateRetryProvenance (resource : ResourceRecord) (operation : Operation)
    (execution : ProvisioningExecutionRecord) : outcome unit :=
  fail_if (pe_OperationID execution <>? op_id operation) ||
          (pe_ResourceID execution <>? res_id (rr_Resource resource)) ||
          (pe_ResourceType execution <>? res_type (rr_Resource resource)) ||
          (pe_Capability execution <>? op_capability operation) ||
          (pe_TargetGeneration execution <>? op_targetGeneration operation) ||
          (pe_ProvisionerRef execution <>? rr_ProvisionerRef resource) ||
          negb (specsEqual (pe_Spec execution) (res_spec (rr_Resource resource)))
    with Wrapf ErrOperationNotRetryable
      "%w: source execution provenance does not match current resource intent" [] ;;
  Ok tt.

Definition outputRecoveryFailure (operation : Operation) : bool :=
  non_nil (op_failure operation) (λ f, failure_reason f =? ReasonOutputPostconditionRejected).

Definition safeOutputRecoveryAttempt (execution : ProvisioningExecutionRecord)
    (attempt : SubmissionAttemptRecord) : bool :=
  if sa_State attempt =? SubmissionAttemptAccepted then true
  else if sa_State attempt =? SubmissionAttemptUnknown then
    pe_AcceptanceConfirmed execution &&
    (pe_Correlation execution =? RequestCorrelationFound) &&
    non_nil (persistedTerminalExecution execution)
      (λ evidence, ex_State evidence =? ExecutionStateSucceeded)
  else false.

(** The failure of the operation, or the zero value. *)
Definition failureOf (operation : Operation) : OperationFailure :=
  default {| failure_reason := ""; failure_message := "" |} (op_failure operation).

Definition validateOutputRecoveryAdmission (operation : Operation)
    (execution : ProvisioningExecutionRecord) (attempt : SubmissionAttemptRecord)
    : outcome unit :=
  let failure := failureOf operation in
  fail_if (pe_State execution <>? AttemptSucceeded) ||
          (pe_OutputResolution execution <>? OutputResolutionRejected) ||
          (pe_OutputFailureReason execution <>? failure_reason failure) ||
          (pe_OutputFailureMessage execution <>? failure_message failure) ||
          ((op_capability operation <>? CapabilityCreate) &&
           (op_capability operation <>? CapabilityUpdate)) ||
          (pe_CurrentAttempt execution =? 0%N) || (pe_ProvisionerRef execution =? "") ||
          blank (pe_OutputMappingRef execution) ||
          (sa_OperationID attempt <>? pe_OperationID execution) ||
          (sa_AttemptNumber attempt <>? pe_CurrentAttempt execution)
    with Wrapf ErrOperationNotRetryable
      "%w: source output-recovery provenance is inconsistent" [] ;;
  fail_if negb (safeOutputRecoveryAttempt execution attempt)
    with Wrapf ErrOperationNotRetryable
      "%w: source submission attempt has unsafe terminal correlation state %s"
      [ArgS (sa_State attempt)] ;;
  Ok tt.

Definition ValidateOutputRecoverySource (child source : ProvisioningExecutionRecord)
    (operation : Operation) (attempt : SubmissionAttemptRecord) : outcome unit :=
  let failure := failureOf operation in
  fail_if negb (IsOutputRecovery child) ||
          (pe_OperationID source <>? pe_RecoverySourceOperationID child) ||
          (pe_CurrentAttempt source <>? pe_RecoverySourceAttempt child) ||
          (pe_ProvisionerRef source <>? pe_ProvisionerRef child) ||
          (pe_ResourceID source <>? pe_ResourceID child) ||
          (pe_ResourceType source <>? pe_ResourceType child) ||
          (pe_Capability source <>? pe_Capability child) ||
          (pe_TargetGeneration source <>? pe_TargetGeneration child) ||
          negb (specsEqual (pe_Spec source) (pe_Spec child)) ||
          (pe_State source <>? AttemptSucceeded) ||
          (pe_OutputResolution source <>? OutputResolutionRejected) ||
          blank (pe_OutputMappingRef source) || blank (pe_OutputMappingRef child) ||
          (pe_OutputMappingRef child =? pe_OutputMappingRef source) ||
          (op_id operation <>? pe_OperationID source) ||
          (op_resourceID operation <>? pe_ResourceID source) ||
          (op_capability operation <>? pe_Capability source) ||
          (op_targetGeneration operation <>? pe_TargetGeneration source) ||
          (op_state operation <>? OperationStateFailed) ||
          bool_decide (op_failure operation = None) ||
          (failure_reason failure <>? ReasonOutputPostconditionRejected) ||
          (pe_OutputFailureReason source <>? failure_reason failure) ||
          (pe_OutputFailureMessage source <>? failure_message failure) ||
          (sa_OperationID attempt <>? pe_OperationID source) ||
          (sa_AttemptNumber attempt <>? pe_RecoverySourceAttempt child) ||
          negb (safeOutputRecoveryAttempt source attempt)
    with Wrapf ErrInvalidApplicationCall "%w: output recovery source provenance changed" [] ;;
  Ok tt.
