(* ===== verification/Admission.v ===== *)
(** * Admission of create, update, delete and retry requests

    Models the admission flows of [src/internal/application/application.go]:
    [persistCreateRequest], [persistExistingRequest] and [persistRetryRequest],
    with the replay of an idempotency key ([replayWithin]) and
    [persistExistingTransitionWithExecution], and [authorize] of
    [authorization.go].  Each runs as one unit of work on [Store].  What the
    service is composed with (the catalog, the selector, the resolver, the
    authorizer, the policy, SHA-256 and the clock) is an interface,
    [Ports]. *)

From S2P Require Import Prelude Operation Values Resource Status Provisioning Records.
From S2P Require Import Engine Submission Outputs Contracts References Policy Text Work.
From S2P Require Import Encoding Identity Fingerprint Outbox Store History Evidence.
Open Scope string_scope.
Open Scope go_scope.

(** ** Commands and ports *)

Definition ErrNotAuthorized : error := Sentinel "application.ErrNotAuthorized".
Definition ErrPersistenceUnavailable : error :=
  Sentinel "application.ErrPersistenceUnavailable".

Definition resourceTargetOf (record : ResourceRecord) : ResourceTarget :=
  let resource := rr_Resource record in
  {| rt_Type := res_type resource; rt_Owner := res_owner resource;
     rt_ResourceID := res_id resource |}.

(** [idempotencyScope]. *)
Definition idempotencyScope (principal : Principal) : string := pr_ID principal.

(** What a contract says of a spec: nothing, a rejection
    ([resourcecontract.ValidationError]), or an unexpected error. *)
Inductive SpecVerdict :=
  | SpecValid
  | SpecRejected (rejection : ValidationError)
  | SpecFailed (e : error).

(** [resourcecontract.Contract]. *)
Record Contract := {
  ct_Domain : ResourceType;
  ct_OutputContract : option OutputContract;
  ct_ReferenceContract : option ReferenceContract;
  ct_ValidateSpec : ResourceSpec → SpecVerdict;
  ct_ValidateUpdate : ResourceSpec → ResourceSpec → SpecVerdict }.

(** A provisioner, as far as admission asks: [SelectOutputRecoveryMapping], if
    it offers that method. *)
Record Provider := {
  pv_SelectOutputRecoveryMapping :
    option (ResourceTypeRef → Capability → string → option string) }.

(** What the service is composed with.  [nil] pointers are [None]. *)
Class Ports := {
  Types_Get : ResourceTypeRef → outcome (option Contract);
  Selector_Select : ResourceTypeRef → Capability → outcome string;
  Resolver_Resolve : string → outcome (option Provider);
  Authorizer_ : option (Principal → string → ResourceTarget → outcome unit);
  Policy_Plan : AdmissionIntent → outcome AdmissionPlan;
  Policy_Decide : AdmissionPlan → ResourceCountFacts → outcome AdmissionDecision;
  Ports_Digest : Digest;
  clock : Time;
  clock' : Time }.

#[export] Existing Instance Ports_Digest.

(** [application.Result]. *)
Record AdmissionResult := {
  ar_Resource : ResourceRecord;
  ar_Operation : Operation;
  ar_Execution : ProvisioningExecutionRecord;
  ar_Event : option Event;
  ar_Replay : bool }.

(** ** Units of work that fail *)

(** [return err]; an error reported as [fmt.Errorf("%w: %v", e, err)]; and a
    call whose error the code inspects. *)
Definition throw {A} (e : error) : tx A := lift (Err e).
Definition reported_as {A} (format : string) (e : error) : tx A → tx A :=
  handled (λ r, match r with Err cause => Err (Notef e format cause) | r => r end).
Definition reported {A} : error → tx A → tx A := reported_as "%w: %v".
Definition attempted {A} : tx A → tx (A + error) :=
  handled (λ r, match r with
                | Ok x => Ok (inl x)
                | Err e => Ok (inr e)
                | Panic p => Panic p
                end).

(** A method call on what a port returned: a [nil] interface panics. *)
Definition deref {A} (p : option A) : tx A :=
  lift (from_option Ok (Panic "invalid memory address or nil pointer dereference") p).

Notation "'guard_tx' b 'with' e ';;' k" := (if b then throw e else k)
  (at level 100, b at level 99, e at level 99, k at level 200,
   right associativity,
   format "'[v' 'guard_tx'  b  'with'  e ';;' '/' k ']'") : go_scope.

Section admission.
Context {order : MapOrder} {ports : Ports}.

(** ** Authorization, contracts and policy *)

Definition authorize (principal : Principal) (action : string) (target : ResourceTarget)
    : outcome unit :=
  fail_if (pr_ID principal =? "") || (pr_Kind principal =? "") with ErrNotAuthorized ;;
  match Authorizer_ with
  | None => Err ErrNotAuthorized
  | Some decide =>
      match decide principal action target with
      | Ok _ => Ok tt
      | Err _ => Err (Wrapf ErrNotAuthorized "%w" [])
      | Panic p => Panic p
      end
  end.

Definition MaxSpecViolations : nat := 10.

(** [invalidSpecFromContract]: the violations of [InvalidSpecError]. *)
Definition invalidSpecFromContract (rejection : ValidationError) : error :=
  Rejection "application.InvalidSpecError"
    (map (λ v, {| sv_Path := v_Path v; sv_Keyword := v_Keyword v;
                  sv_Message := v_Message v; sv_Args := [] |})
       (take MaxSpecViolations
          (SortViolations (uniqueViolations [] (ve_Violations rejection))))).

Definition validateVerdict (format : string) (verdict : SpecVerdict) : outcome unit :=
  match verdict with
  | SpecValid => Ok tt
  | SpecRejected rejection => Err (invalidSpecFromContract rejection)
  | SpecFailed e => Err (Wrapf e format [])
  end.

Definition validateCommandSpec (contract : Contract) (spec : ResourceSpec) : outcome unit :=
  validateVerdict "resource type spec validation failed unexpectedly: %w"
    (ct_ValidateSpec contract spec).

Definition validateCommandTransition (contract : Contract) (oldSpec newSpec : ResourceSpec)
    : outcome unit :=
  validateVerdict "resource type transition validation failed unexpectedly: %w"
    (ct_ValidateUpdate contract oldSpec newSpec).

(** [PolicyAdmissionError], which unwraps to one of two sentinels. *)
Definition PolicyAdmissionError (revision : string) (denial : PolicyDenial) : error :=
  Wrapf (if pd_Kind denial =? PolicyDenialQuotaExceeded then ErrQuotaExceeded
         else ErrPolicyDenied)
    "PolicyAdmissionError" [ArgS revision; ArgS (pd_Kind denial); ArgS (pd_RuleID denial);
      ArgS (pd_Measure denial); ArgN (pd_Current denial); ArgN (pd_Requested denial);
      ArgN (pd_Limit denial)].

(** The decision of the policy on the facts: its revision, or the refusal.  A
    denial of the model carries its reason. *)
Definition decidePolicy (plan : AdmissionPlan) (facts : ResourceCountFacts) : tx string :=
  decision ← reported ErrPolicyEvaluation (lift (Policy_Decide plan facts));
  match ad_Outcome decision with
  | AdmissionAllowed => mret (ad_Revision decision)
  | AdmissionDenied denial => throw (PolicyAdmissionError (ad_Revision decision) denial)
  end.

(** [validateReferenceTargets] and [DetectDependencyCycle] on the repositories
    of the unit of work. *)
Definition tx_validateReferenceTargets (actor : Principal) (sourceOwner : OwnerRef)
    (contract : option ReferenceContract) (edges : list ReferenceEdge) : tx unit :=
  reading (λ s, validateReferenceTargets (λ ids, (tx_LockResources ids s).2)
    (λ record, authorize actor ActionResourceRead (resourceTargetOf record))
    sourceOwner contract edges).

Definition tx_DetectDependencyCycle (source : ResourceID) (targets : list ResourceID)
    : tx unit :=
  reading (λ s, DetectDependencyCycle (λ id, (tx_OutgoingReferenceTargets id s).2)
    source targets).

Definition stampedAdmissionEvent (transition : Result) (principal : Principal)
    (policyRevision : string) : outcome Event :=
  event ← WithActor (r_Event transition)
    {| actor_ID := pr_ID principal; actor_Kind := pr_Kind principal |};
  if policyRevision =? "" then Ok event
  else WithAdmissionPolicyRevision event policyRevision.

(** ** Persisting an admitted request *)

Definition persistExistingTransitionWithExecution (record : ResourceRecord)
    (transition : Result) (execution : ProvisioningExecutionRecord)
    (scope key fingerprint commandKind : string) : tx AdmissionResult :=
  let operation := r_Operation transition in
  tx_CreateOperation {| opr_Operation := operation; opr_Sequence := 0; opr_Version := 1 |}
    ≫= λ _,
  tx_Append (r_Event transition) ≫= λ _,
  tx_CreateExecution execution ≫= λ _,
  (if key <>? "" then
     tx_PutIdempotency {| ir_Scope := scope; ir_Key := key; ir_Fingerprint := fingerprint;
       ir_CommandKind := commandKind; ir_ResourceID := res_id (rr_Resource record);
       ir_OperationID := op_id operation |}
   else mret tt) ≫= λ _,
  tx_Enqueue clock clock' (DriveMessage (op_id operation) 1) ≫= λ _,
  mret {| ar_Resource := record; ar_Operation := operation; ar_Execution := execution;
          ar_Event := Some (r_Event transition); ar_Replay := false |}.

(** The execution record a request starts with. *)
Definition pendingExecution (record : ResourceRecord) (operation : Operation)
    : ProvisioningExecutionRecord :=
  {| pe_OperationID := op_id operation; pe_ProvisionerRef := rr_ProvisionerRef record;
     pe_ResourceID := res_id (rr_Resource record);
     pe_ResourceType := res_type (rr_Resource record);
     pe_Capability := op_capability operation;
     pe_TargetGeneration := op_targetGeneration operation;
     pe_Spec := res_spec (rr_Resource record); pe_OutputMappingRef := "";
     pe_OutputResolution := ""; pe_OutputFailureReason := ""; pe_OutputFailureMessage := "";
     pe_RecoverySourceOperationID := ""; pe_RecoverySourceAttempt := 0; pe_Handle := None;
     pe_State := AttemptPending; pe_Submission := None; pe_AcceptanceConfirmed := false;
     pe_LastObservation := None; pe_LastObservedAt := time_zero;
     pe_LastProviderObservedAt := time_zero; pe_LastFailure := None;
     pe_Correlation := RequestCorrelationUnknown; pe_CurrentAttempt := 0;
     pe_NextObservation := 1; pe_Version := 1 |}.

Definition persistExistingTransition (record : ResourceRecord) (transition : Result)
    (scope key fingerprint commandKind : string) : tx AdmissionResult :=
  persistExistingTransitionWithExecution record transition
    (pendingExecution record (r_Operation transition)) scope key fingerprint commandKind.

Definition persistNewRequest (record : ResourceRecord) (transition : Result)
    (scope key fingerprint : string) (edges : list ReferenceEdge) : tx AdmissionResult :=
  tx_CreateResource record ≫= λ _,
  tx_ReplaceDesiredReferences (res_id (rr_Resource record))
    (res_generation (rr_Resource record)) edges ≫= λ _,
  persistExistingTransition record transition scope key fingerprint
    (op_capability (r_Operation transition)).

(** ** Replays *)

(** The terminal evidence of a replayed result is checked when the operation
    ended, or when its execution did. *)
Definition replayNeedsEvidence (operation : Operation)
    (execution : ProvisioningExecutionRecord) : bool :=
  IsTerminal operation ||
  (negb (IsOutputRecovery execution) &&
   ((pe_State execution =? AttemptSucceeded) || (pe_State execution =? AttemptFailed))).

(** The recorded result of a bound key. *)
Definition replayRecorded (existing : IdempotencyRecord) (key : string) : tx AdmissionResult :=
  resource ← tx_GetResource (ir_ResourceID existing);
  op ← tx_GetOperation (ir_OperationID existing);
  let operation := opr_Operation op in
  guard_tx (ir_Key existing <>? key) || (ir_OperationID existing <>? op_id operation) ||
           (ir_ResourceID existing <>? res_id (rr_Resource resource)) ||
           (op_resourceID operation <>? res_id (rr_Resource resource))
    with Wrapf ErrInvalidApplicationCall
      "%w: idempotency record associations are inconsistent" [] ;;
  execution ← tx_GetExecution (ir_OperationID existing);
  lift (validateExecutionContext resource operation execution) ≫= λ _,
  (if replayNeedsEvidence operation execution
   then lift (validatePersistedTerminalEvidence execution (rr_Resource resource)
                (rr_Status resource) operation)
   else mret tt) ≫= λ _,
  mret {| ar_Resource := resource; ar_Operation := operation; ar_Execution := execution;
          ar_Event := None; ar_Replay := true |}.

Definition replayWithin (scope key fingerprint commandKind : string)
    : tx (option AdmissionResult) :=
  if key =? "" then mret None else
  found ← attempted (tx_GetIdempotency scope key);
  match found with
  | inr e => if errors_is e ErrIdempotencyNotFound then mret None else throw e
  | inl existing =>
      guard_tx (ir_Fingerprint existing <>? fingerprint) ||
               (ir_CommandKind existing <>? commandKind)
        with ErrIdempotencyConflict ;;
      result ← replayRecorded existing key;
      mret (Some result)
  end.

(** The rest of a request that the key does not answer. *)
Definition unless_replayed (scope key fingerprint commandKind : string)
    (fresh : tx AdmissionResult) : tx AdmissionResult :=
  replay ← replayWithin scope key fingerprint commandKind;
  match replay with
  | Some result => mret result
  | None => fresh
  end.

(** ** Create *)

Definition initialTransition (cmd : CreateResourceCommand) (contract : Contract)
    : outcome (Resource * Result) :=
  resource ← NewResource (cc_ID cmd) (cc_Type cmd) (cc_Owner cmd) (cc_Spec cmd)
    (cc_RequestedAt cmd);
  status ← NewResourceStatus (res_id resource) 0 ResourceStateUnknown [] (cc_RequestedAt cmd);
  transition ← Engine_Request resource (ct_Domain contract) status None CapabilityCreate
    (cc_OperationID cmd) (cc_EventID cmd) (cc_RequestedAt cmd);
  Ok (resource, transition).

(** The zero [ResourceCountFacts]. *)
Definition noFacts : ResourceCountFacts :=
  {| rcf_Available := false; rcf_Owner := {| owner_Kind := ""; owner_ID := "" |};
     rcf_ResourceType := {| ref_Name := ""; ref_Version := "" |};
     rcf_OwnerNonDeleted := 0; rcf_TypeNonDeleted := 0 |}.

(** The facts of a plan that needs them. *)
Definition quotaFacts (cmd : CreateResourceCommand) (plan : AdmissionPlan)
    : tx ResourceCountFacts :=
  if RequiresResourceCounts plan then
    found ← attempted (tx_ResourceCountFacts (cc_Owner cmd) (cc_Type cmd));
    match found with
    | inl facts => mret facts
    | inr e =>
        if errors_is e ErrQuotaInvariant then throw e
        else throw (Notef ErrPersistenceUnavailable "%w: quota fact query failed: %v" e)
    end
  else mret noFacts.

(** The resource must be new. *)
Definition requireAbsent (cmd : CreateResourceCommand) : tx unit :=
  exists_ ← tx_LockResourceID (cc_ID cmd);
  active ← tx_ActiveForResource (cc_ID cmd);
  match active with
  | Some active => throw (Wrapf ErrOperationActive "%w: resource %q has operation %q"
      [ArgS (cc_ID cmd); ArgS (op_id (opr_Operation active))])
  | None =>
      guard_tx (exists_ : bool)
        with Wrapf ErrConcurrencyConflict "%w: resource already exists" [] ;;
      mret tt
  end.

Definition admitCreate (cmd : CreateResourceCommand) (scope fingerprint : string)
    : tx AdmissionResult :=
  contract ← reported ErrResourceTypeNotFound (lift (Types_Get (cc_Type cmd)));
  contract ← deref contract;
  lift (validateCommandSpec contract (cc_Spec cmd)) ≫= λ _,
  edges ← lift (CanonicalizeReferences (cc_References cmd));
  lift (ValidateReferenceShape (λ m, ranged m) (ct_ReferenceContract contract) (cc_ID cmd) edges) ≫= λ _,
  '(resource, transition) ← lift (initialTransition cmd contract);
  plan ← reported ErrPolicyEvaluation (lift (Policy_Plan
    {| ai_Mutation := AdmissionCreate; ai_Owner := cc_Owner cmd;
       ai_ResourceType := cc_Type cmd |}));
  (if RequiresResourceCounts plan || bool_decide (0 < length edges)%nat ||
      non_nil (ct_ReferenceContract contract) (λ _, true)
   then reported_as "%w: quota owner lock failed: %v" ErrPersistenceUnavailable
          (tx_LockOwnerQuota (cc_Owner cmd))
   else mret tt) ≫= λ _,
  requireAbsent cmd ≫= λ _,
  (if bool_decide (0 < length edges)%nat then
     tx_validateReferenceTargets (cc_Actor cmd) (cc_Owner cmd)
       (ct_ReferenceContract contract) edges ≫= λ _,
     tx_DetectDependencyCycle (cc_ID cmd) (distinctEdgeTargets edges)
   else mret tt) ≫= λ _,
  facts ← quotaFacts cmd plan;
  revision ← decidePolicy plan facts;
  ref ← reported ErrProvisionerNotFound (lift (Selector_Select (cc_Type cmd) CapabilityCreate));
  guard_tx blank ref
    with Notef ErrProvisionerNotFound "%w: %v"
           (Errorf "provisioner reference is required" []) ;;
  event ← lift (stampedAdmissionEvent transition (cc_Actor cmd) revision);
  persistNewRequest
    {| rr_Resource := resource; rr_Status := r_Status transition; rr_ProvisionerRef := ref;
       rr_Version := 1 |}
    (transition <| r_Event := event |>) scope (cc_IdempotencyKey cmd) fingerprint edges.

Definition createUnit (cmd : CreateResourceCommand) : tx AdmissionResult :=
  lift (authorize (cc_Actor cmd) ActionResourceCreate
    {| rt_Type := cc_Type cmd; rt_Owner := cc_Owner cmd; rt_ResourceID := "" |}) ≫= λ _,
  fingerprint ← lift (createCommandFingerprint cmd);
  let scope := idempotencyScope (cc_Actor cmd) in
  unless_replayed scope (cc_IdempotencyKey cmd) fingerprint CapabilityCreate
    (admitCreate cmd scope fingerprint).

Definition persistCreateRequest (cmd : CreateResourceCommand) : tx AdmissionResult :=
  Within (createUnit cmd).

(** ** Update and delete *)

Definition actionForCapability (capability : Capability) : string :=
  if capability =? CapabilityCreate then ActionResourceCreate
  else if capability =? CapabilityDelete then ActionResourceDelete
  else ActionResourceUpdate.

(** No inbound row may protect the target of a deletion. *)
Definition requireUnprotected (request : existingRequest) (id : ResourceID) : tx unit :=
  if er_capability request =? CapabilityDelete then
    protected ← tx_HasInboundProtectiveReference id;
    guard_tx (protected : bool) with ErrResourceInUse ;; mret tt
  else mret tt.

(** The desired set after the request; only the edges it adds are checked. *)
Definition effectiveDesired (request : existingRequest) (contract : Contract)
    (resource : Resource) : tx (list ReferenceEdge) :=
  if ((er_capability request =? CapabilityUpdate) &&
      non_nil (ct_ReferenceContract contract) (λ _, true)) || er_referencesPresent request then
    oldEdges ← tx_DesiredReferences (res_id resource);
    if er_referencesPresent request then
      desired ← lift (CanonicalizeReferences (er_references request));
      lift (ValidateReferenceShape (λ m, ranged m) (ct_ReferenceContract contract) (res_id resource) desired)
        ≫= λ _,
      let added := (ReferenceDifference oldEdges desired).1 in
      (if bool_decide (0 < length added)%nat then
         tx_validateReferenceTargets (er_actor request) (res_owner resource)
           (ct_ReferenceContract contract) added ≫= λ _,
         tx_DetectDependencyCycle (res_id resource) (distinctEdgeTargets added)
       else mret tt) ≫= λ _,
      mret desired
    else mret oldEdges
  else mret [].

(** The resource with the requested spec. *)
Definition updatedResource (request : existingRequest) (contract : Contract)
    (resource : Resource) : outcome Resource :=
  match er_spec request with
  | None => Ok resource
  | Some spec =>
      validateCommandSpec contract spec ≫= λ _,
      (if er_capability request =? CapabilityUpdate
       then validateCommandTransition contract (res_spec resource) spec else Ok tt) ≫= λ _,
      UpdateSpec resource spec (er_requestedAt request)
  end.

(** Updates pass the policy; deletions do not ask it. *)
Definition updateRevision (request : existingRequest) (resource : Resource) : tx string :=
  if er_capability request =? CapabilityUpdate then
    plan ← reported ErrPolicyEvaluation (lift (Policy_Plan
      {| ai_Mutation := AdmissionUpdate; ai_Owner := res_owner resource;
         ai_ResourceType := res_type resource |}));
    decidePolicy plan noFacts
  else mret "".

Definition admitExisting (request : existingRequest) (preflight : ResourceRecord)
    (scope fingerprint : string) : tx AdmissionResult :=
  (if (er_capability request =? CapabilityDelete) || er_referencesPresent request
   then reported_as "%w: owner admission lock failed: %v" ErrPersistenceUnavailable
          (tx_LockOwnerQuota (res_owner (rr_Resource preflight)))
   else mret tt) ≫= λ _,
  stored ← reported ErrResourceNotFound (tx_GetResource (er_id request));
  guard_tx resourceTargetOf stored <>? resourceTargetOf preflight
    with ErrConcurrencyConflict ;;
  guard_tx res_generation (rr_Resource stored) <>? er_expectedGeneration request
    with Wrapf ErrConcurrencyConflict "%w: expected generation %d, got %d"
      [ArgN (er_expectedGeneration request); ArgN (res_generation (rr_Resource stored))] ;;
  active ← tx_ActiveForResource (er_id request);
  contract ← reported ErrResourceTypeNotFound (lift (Types_Get (res_type (rr_Resource stored))));
  contract ← deref contract;
  requireUnprotected request (res_id (rr_Resource stored)) ≫= λ _,
  desired ← effectiveDesired request contract (rr_Resource stored);
  resource ← lift (updatedResource request contract (rr_Resource stored));
  transition ← lift (Engine_Request resource (ct_Domain contract) (rr_Status stored)
    (opr_Operation <$> active) (er_capability request) (er_operationID request)
    (er_eventID request) (er_requestedAt request));
  revision ← updateRevision request resource;
  event ← lift (stampedAdmissionEvent transition (er_actor request) revision);
  let stored := stored <| rr_Resource := resource |> <| rr_Status := r_Status transition |> in
  tx_SaveResource stored (rr_Version stored) ≫= λ _,
  let stored := stored <| rr_Version := u64_incr (rr_Version stored) |> in
  (if (er_capability request =? CapabilityUpdate) &&
      (er_referencesPresent request || bool_decide (0 < length desired)%nat)
   then tx_ReplaceDesiredReferences (res_id resource) (res_generation resource) desired
   else mret tt) ≫= λ _,
  persistExistingTransition stored (transition <| r_Event := event |>) scope
    (er_idempotencyKey request) fingerprint (er_capability request).

Definition existingUnit (request : existingRequest) : tx AdmissionResult :=
  preflight ← reported ErrResourceNotFound (tx_LookupResource (er_id request));
  lift (authorize (er_actor request) (actionForCapability (er_capability request))
    (resourceTargetOf preflight)) ≫= λ _,
  fingerprint ← lift (fingerprintForExistingRequest request);
  let scope := idempotencyScope (er_actor request) in
  unless_replayed scope (er_idempotencyKey request) fingerprint (er_capability request)
    (admitExisting request preflight scope fingerprint).

Definition persistExistingRequest (request : existingRequest) : tx AdmissionResult :=
  guard_tx er_expectedGeneration request =? 0%N
    with Wrapf ErrInvalidApplicationCall "%w: expected generation is required" [] ;;
  Within (existingUnit request).

(** ** Retry *)

(** The source must be the failed, latest operation of the current generation. *)
Definition requireRetryable (cmd : RetryOperationCommand) (record : ResourceRecord)
    (failed : OperationRecord) : tx unit :=
  let operation := opr_Operation failed in
  let resource := rr_Resource record in
  guard_tx op_resourceID operation <>? res_id resource with ErrConcurrencyConflict ;;
  guard_tx res_generation resource <>? rc_ExpectedGeneration cmd
    with Wrapf ErrConcurrencyConflict "%w: expected generation %d, got %d"
      [ArgN (rc_ExpectedGeneration cmd); ArgN (res_generation resource)] ;;
  guard_tx op_state operation <>? OperationStateFailed
    with Wrapf ErrOperationNotRetryable "%w: source operation is not failed" [] ;;
  active ← tx_ActiveForResource (res_id resource);
  match active with
  | Some active => throw (Wrapf ErrOperationActive "%w: resource %q has operation %q"
      [ArgS (res_id resource); ArgS (op_id (opr_Operation active))])
  | None =>
      latest ← tx_LatestForResource (res_id resource);
      guard_tx negb (non_nil latest (λ latest,
                 (opr_Sequence latest =? opr_Sequence failed) &&
                 (op_id (opr_Operation latest) =? op_id operation)))
        with Wrapf ErrOperationNotRetryable "%w: source operation is not latest" [] ;;
      guard_tx op_targetGeneration operation <>? res_generation resource
        with Wrapf ErrOperationNotRetryable
          "%w: source operation does not target the current generation" [] ;;
      guard_tx negb (retryStateCompatible (op_capability operation)
                       (st_state (rr_Status record)))
        with Wrapf ErrOperationNotRetryable "%w: %s cannot be retried from resource state %s"
          [ArgS (op_capability operation); ArgS (st_state (rr_Status record))] ;;
      mret tt
  end.

(** The execution of the retry, before its operation is known. *)
Definition childExecution (source : ProvisioningExecutionRecord)
    : ProvisioningExecutionRecord :=
  {| pe_OperationID := ""; pe_ProvisionerRef := pe_ProvisionerRef source;
     pe_ResourceID := pe_ResourceID source; pe_ResourceType := pe_ResourceType source;
     pe_Capability := pe_Capability source;
     pe_TargetGeneration := pe_TargetGeneration source; pe_Spec := pe_Spec source;
     pe_OutputMappingRef := ""; pe_OutputResolution := ""; pe_OutputFailureReason := "";
     pe_OutputFailureMessage := ""; pe_RecoverySourceOperationID := "";
     pe_RecoverySourceAttempt := 0; pe_Handle := None; pe_State := AttemptPending;
     pe_Submission := None; pe_AcceptanceConfirmed := false; pe_LastObservation := None;
     pe_LastObservedAt := time_zero; pe_LastProviderObservedAt := time_zero;
     pe_LastFailure := None; pe_Correlation := RequestCorrelationUnknown;
     pe_CurrentAttempt := 0; pe_NextObservation := 1; pe_Version := 1 |}.

(** The mapping an output recovery uses. *)
Definition recoveryMapping (source : ProvisioningExecutionRecord) : tx string :=
  resolved ← attempted (lift (Resolver_Resolve (pe_ProvisionerRef source)));
  match resolved with
  | inl (Some provider) =>
      match pv_SelectOutputRecoveryMapping provider with
      | None => throw (Wrapf ErrProvisionerNotFound
          "%w: provisioner does not support output recovery" [])
      | Some select =>
          match select (pe_ResourceType source) (pe_Capability source)
                  (pe_OutputMappingRef source) with
          | Some mapping =>
              guard_tx blank mapping || (mapping =? pe_OutputMappingRef source)
                with Wrapf ErrProvisionerNotFound
                  "%w: no compatible output recovery mapping" [] ;;
              mret mapping
          | None => throw (Wrapf ErrProvisionerNotFound
              "%w: no compatible output recovery mapping" [])
          end
      end
  | inl None => throw (Wrapf ErrProvisionerNotFound "%w: %v" [])
  | inr e => throw (Notef ErrProvisionerNotFound "%w: %v" e)
  end.

(** A retry after rejected outputs recovers them from the source's attempt. *)
Definition recoveryExecution (record : ResourceRecord) (operation : Operation)
    (source : ProvisioningExecutionRecord) : tx ProvisioningExecutionRecord :=
  if outputRecoveryFailure operation then
    reported_as "%w: malformed source terminal evidence: %v" ErrOperationNotRetryable
      (lift (validatePersistedTerminalEvidence source (rr_Resource record)
               (rr_Status record) operation)) ≫= λ _,
    found ← attempted (tx_GetSubmissionAttempt (pe_OperationID source)
                         (pe_CurrentAttempt source));
    match found with
    | inr _ => throw (Wrapf ErrOperationNotRetryable
        "%w: source submission attempt is unavailable" [])
    | inl sourceAttempt =>
        lift (validateOutputRecoveryAdmission operation source sourceAttempt) ≫= λ _,
        mapping ← recoveryMapping source;
        mret ((childExecution source) <| pe_OutputMappingRef := mapping |>
          <| pe_OutputResolution := OutputResolutionPending |>
          <| pe_State := AttemptSucceeded |>
          <| pe_RecoverySourceOperationID := pe_OperationID source |>
          <| pe_RecoverySourceAttempt := pe_CurrentAttempt source |>)
    end
  else mret (childExecution source).

Definition admitRetry (cmd : RetryOperationCommand) (preflight : OperationRecord)
    (preflightResource : ResourceRecord) (scope fingerprint : string) : tx AdmissionResult :=
  record ← reported ErrResourceNotFound (tx_GetResource (op_resourceID (opr_Operation preflight)));
  guard_tx resourceTargetOf record <>? resourceTargetOf preflightResource
    with ErrConcurrencyConflict ;;
  failed ← reported ErrOperationNotFound (tx_GetOperation (rc_OperationID cmd));
  requireRetryable cmd record failed ≫= λ _,
  let operation := opr_Operation failed in
  contract ← reported ErrResourceTypeNotFound (lift (Types_Get (res_type (rr_Resource record))));
  contract ← deref contract;
  guard_tx negb (Supports (ct_Domain contract) (op_capability operation))
    with Wrapf ErrOperationNotRetryable
      "%w: resource type no longer supports source capability" [] ;;
  found ← attempted (tx_GetExecution (op_id operation));
  match found with
  | inr _ => throw (Wrapf ErrOperationNotRetryable "%w: source execution is unavailable" [])
  | inl source =>
      lift (validateRetryProvenance record operation source) ≫= λ _,
      child ← recoveryExecution record operation source;
      transition ← lift (Engine_Request (rr_Resource record) (ct_Domain contract)
        (rr_Status record) (Some operation) (op_capability operation)
        (rc_NewOperationID cmd) (rc_EventID cmd) (rc_RequestedAt cmd));
      event ← lift (stampedAdmissionEvent transition (rc_Actor cmd) "");
      let record := record <| rr_Status := r_Status transition |> in
      tx_SaveResource record (rr_Version record) ≫= λ _,
      let record := record <| rr_Version := u64_incr (rr_Version record) |> in
      persistExistingTransitionWithExecution record (transition <| r_Event := event |>)
        (child <| pe_OperationID := op_id (r_Operation transition) |>)
        scope (rc_IdempotencyKey cmd) fingerprint "retry"
  end.

Definition retryUnit (cmd : RetryOperationCommand) : tx AdmissionResult :=
  preflight ← reported ErrOperationNotFound (tx_LookupOperation (rc_OperationID cmd));
  preflightResource ← reported ErrResourceNotFound
    (tx_LookupResource (op_resourceID (opr_Operation preflight)));
  lift (authorize (rc_Actor cmd) ActionResourceRetry (resourceTargetOf preflightResource))
    ≫= λ _,
  guard_tx rc_ExpectedGeneration cmd =? 0%N
    with Wrapf ErrInvalidApplicationCall "%w: expected generation is required" [] ;;
  let scope := idempotencyScope (rc_Actor cmd) in
  let fingerprint := retryCommandFingerprint cmd in
  unless_replayed scope (rc_IdempotencyKey cmd) fingerprint "retry"
    (admitRetry cmd preflight preflightResource scope fingerprint).

Definition persistRetryRequest (cmd : RetryOperationCommand) : tx AdmissionResult :=
  Within (retryUnit cmd).

(** ** The admission entry points *)

(** [HasPrefix(eventID, internalEventPrefix)]. *)
Definition validateExternalEventID (eventID : string) : outcome unit :=
  fail_if String.prefix "liftr-internal-" eventID
    with Wrapf ErrInvalidApplicationCall "%w: event ID uses reserved internal prefix" [] ;;
  Ok tt.

Definition AdmitCreateResource (cmd : CreateResourceCommand) : tx AdmissionResult :=
  lift (authorize (cc_Actor cmd) ActionResourceCreate
    {| rt_Type := cc_Type cmd; rt_Owner := cc_Owner cmd; rt_ResourceID := "" |}) ≫= λ _,
  lift (validateExternalEventID (cc_EventID cmd)) ≫= λ _,
  persistCreateRequest cmd.

(** What [AdmitUpdateResource] and [AdmitDeleteResource] share. *)
Definition AdmitExistingResource (request : existingRequest) : tx AdmissionResult :=
  lift (validateExternalEventID (er_eventID request)) ≫= λ _,
  persistExistingRequest request.

Definition AdmitUpdateResource (cmd : UpdateResourceCommand) : tx AdmissionResult :=
  AdmitExistingResource
    {| er_id := uc_ID cmd; er_expectedGeneration := uc_ExpectedGeneration cmd;
       er_spec := Some (uc_Spec cmd); er_referencesPresent := uc_ReferencesPresent cmd;
       er_references := uc_References cmd; er_capability := CapabilityUpdate;
       er_operationID := uc_OperationID cmd; er_eventID := uc_EventID cmd;
       er_requestedAt := uc_RequestedAt cmd; er_idempotencyKey := uc_IdempotencyKey cmd;
       er_actor := uc_Actor cmd |}.

Definition AdmitDeleteResource (cmd : DeleteResourceCommand) : tx AdmissionResult :=
  AdmitExistingResource
    {| er_id := dc_ID cmd; er_expectedGeneration := dc_ExpectedGeneration cmd;
       er_spec := None; er_referencesPresent := false; er_references := [];
       er_capability := CapabilityDelete; er_operationID := dc_OperationID cmd;
       er_eventID := dc_EventID cmd; er_requestedAt := dc_RequestedAt cmd;
       er_idempotencyKey := dc_IdempotencyKey cmd; er_actor := dc_Actor cmd |}.

Definition AdmitRetryOperation (cmd : RetryOperationCommand) : tx AdmissionResult :=
  lift (validateExternalEventID (rc_EventID cmd)) ≫= λ _,
  persistRetryRequest cmd.
End admission.
