(* ===== verification/Inventory.v ===== *)
(** * The resource inventory: listing, cursors and traversals

    Models [ListResources] of [src/internal/application/inventory.go] and of
    [fake/store.go]: the filters, the visibility, the opaque cursors and the
    keyset pages.  Following the cursors enumerates the inventory: the theorem
    compares the traversal with a reference that knows no pages. *)

From S2P Require Import Prelude Operation Values Resource Status Provisioning Records.
From S2P Require Import Engine Submission Outputs Contracts References Policy Text Encoding Work.
From S2P Require Import Identity Outbox Store History Rights Evidence Admission.
Open Scope string_scope.
Open Scope go_scope.

(** ** The query of the store *)

Definition MaxResourcePageSize : Z := 100.
Definition DefaultResourcePageSize : Z := 20.

Record ResourceListQuery := {
  lq_AllowedOwners : list OwnerRef;
  lq_Unrestricted : bool;
  lq_OwnerFilter : option OwnerRef;
  lq_TypeName : string;
  lq_TypeVersion : string;
  lq_StateFilter : option string;
  lq_IncludeDeleted : bool;
  lq_AfterSequence : uint64;
  lq_Limit : Z }.

Record ResourceInventoryStatus := {
  is_State : string;
  is_ObservedGeneration : uint64;
  is_UpdatedAt : Time }.

Record ResourceInventoryLatestOperation := {
  il_ID : OperationID;
  il_Capability : Capability;
  il_State : string;
  il_TargetGeneration : uint64 }.

Record ResourceInventoryItem := {
  ii_ID : ResourceID;
  ii_Type : ResourceTypeRef;
  ii_Owner : OwnerRef;
  ii_Generation : uint64;
  ii_CreatedAt : Time;
  ii_UpdatedAt : Time;
  ii_Status : ResourceInventoryStatus;
  ii_Sequence : uint64;
  ii_Latest : option ResourceInventoryLatestOperation }.

Record ResourceInventoryPage := {
  ip_Items : list ResourceInventoryItem;
  ip_NextSequence : uint64 }.

(** The filters, apart from the position. *)
Definition selects (query : ResourceListQuery) (record : ResourceRecord) : bool :=
  let resource := rr_Resource record in
  let state := st_state (rr_Status record) in
  (lq_Unrestricted query || bool_decide (res_owner resource ∈ lq_AllowedOwners query)) &&
  match lq_OwnerFilter query with Some owner => res_owner resource =? owner | None => true end &&
  negb ((lq_TypeName query <>? "") && (ref_Name (res_type resource) <>? lq_TypeName query)) &&
  negb ((lq_TypeVersion query <>? "") &&
        (ref_Version (res_type resource) <>? lq_TypeVersion query)) &&
  negb ((state =? ResourceStateDeleted) && negb (lq_IncludeDeleted query)) &&
  match lq_StateFilter query with Some s => state =? s | None => true end.

Definition beyond (query : ResourceListQuery) (sequence : uint64) : bool :=
  (lq_AfterSequence query <>? 0%N) && N.leb (lq_AfterSequence query) sequence.

Definition operationSequenceOf (s : Store) (operation : Operation) : uint64 :=
  from_option opr_Sequence 0%N (operations s !! op_id operation).

(** The page takes rows until it is full. *)
Fixpoint fillPage (limit : nat) (page rows : list ResourceInventoryItem)
    : ResourceInventoryPage :=
  match rows with
  | [] => {| ip_Items := page; ip_NextSequence := 0 |}
  | candidate :: rest =>
      if bool_decide (length page = limit)
      then {| ip_Items := page; ip_NextSequence := from_option ii_Sequence 0%N (last page) |}
      else fillPage limit (page ++ [candidate])%list rest
  end.

Section listing.
Context {order : MapOrder}.

Definition latestOperationOf (s : Store) (id : ResourceID) : option Operation :=
  foldl (λ latest record,
    if negb (of_resource id record) then latest
    else match latest with
         | None => Some (opr_Operation record)
         | Some l => if N.ltb (operationSequenceOf s l) (opr_Sequence record)
                     then Some (opr_Operation record) else latest
         end) None (ranged (operations s)).*2.

Definition item_of (s : Store) (id : ResourceID) (record : ResourceRecord)
    : ResourceInventoryItem :=
  let resource := rr_Resource record in
  let status := rr_Status record in
  {| ii_ID := res_id resource; ii_Type := res_type resource; ii_Owner := res_owner resource;
     ii_Generation := res_generation resource; ii_CreatedAt := res_createdAt resource;
     ii_UpdatedAt := res_updatedAt resource;
     ii_Status := {| is_State := st_state status;
                     is_ObservedGeneration := st_observedGeneration status;
                     is_UpdatedAt := st_updatedAt status |};
     ii_Sequence := default 0%N (resourceSequences s !! id);
     ii_Latest := (λ latest, {| il_ID := op_id latest; il_Capability := op_capability latest;
       il_State := op_state latest; il_TargetGeneration := op_targetGeneration latest |})
       <$> latestOperationOf s id |}.

(** The rows of the query, in the order of the map. *)
Definition matching (s : Store) (query : ResourceListQuery) : list ResourceInventoryItem :=
  map (λ entry, item_of s entry.1 entry.2)
    (filter (λ entry, selects query entry.2 &&
               negb (beyond query (default 0%N (resourceSequences s !! entry.1))) = true)
       (ranged (resources s))).

Definition newestFirst : list ResourceInventoryItem → list ResourceInventoryItem :=
  sort_by ii_Sequence (flip N.le).

Definition tx_ListResources (query : ResourceListQuery) : tx ResourceInventoryPage :=
  reading (λ s,
  fail_if bool_decide (lq_Limit query ≤ 0)%Z
    with Wrapf ErrInvalidApplicationCall
      "%w: resource page limit must be greater than zero" [] ;;
  if negb (lq_Unrestricted query) && bool_decide (lq_AllowedOwners query = [])
  then Ok {| ip_Items := []; ip_NextSequence := 0 |}
  else Ok (fillPage (Z.to_nat (lq_Limit query)) [] (newestFirst (matching s query)))).
End listing.

(** ** Requests and their cursors *)

Record ListResourcesRequest := {
  lr_Principal : Principal;
  lr_OwnerFilter : option OwnerRef;
  lr_TypeName : string;
  lr_TypeVersion : string;
  lr_StateFilter : option string;
  lr_IncludeDeleted : bool;
  lr_Limit : Z;
  lr_Cursor : string }.

#[export] Instance ListResourcesRequest_fields : Fields ListResourcesRequest := λ r,
  {| lr_Principal := lr_Principal r; lr_OwnerFilter := lr_OwnerFilter r;
     lr_TypeName := lr_TypeName r; lr_TypeVersion := lr_TypeVersion r;
     lr_StateFilter := lr_StateFilter r; lr_IncludeDeleted := lr_IncludeDeleted r;
     lr_Limit := lr_Limit r; lr_Cursor := lr_Cursor r |}.

Record ResourceInventoryPageView := {
  pv_Items : list ResourceInventoryItem;
  pv_NextCursor : string }.

Definition maxListFilterLength : nat := 512.

Definition validResourceState (state : string) : bool :=
  (state =? ResourceStateUnknown) || (state =? ResourceStatePending) ||
  (state =? ResourceStateReady) || (state =? ResourceStateDeleting) ||
  (state =? ResourceStateDeleted) || (state =? ResourceStateFailed).

Fixpoint boundFilters (values : list string) : outcome unit :=
  match values with
  | [] => Ok tt
  | value :: rest =>
      fail_if bool_decide (maxListFilterLength < String.length value)%nat
        with Wrapf ErrInvalidApplicationCall "%w: filter values are bounded to %d characters"
          [ArgN (N.of_nat maxListFilterLength)] ;;
      boundFilters rest
  end.

Definition validateListFilters (req : ListResourcesRequest) : outcome unit :=
  (match lr_OwnerFilter req with
   | Some owner =>
       fail_if negb (validMembership owner) with Wrapf ErrInvalidApplicationCall
         "%w: owner filter kind and ID must be canonical non-empty strings" [] ;; Ok tt
   | None => Ok tt
   end) ≫= λ _,
  fail_if (lr_TypeVersion req <>? "") && (lr_TypeName req =? "")
    with Wrapf ErrInvalidApplicationCall
      "%w: filtering by type version requires a type name" [] ;;
  boundFilters [lr_TypeName req; lr_TypeVersion req] ≫= λ _,
  (match lr_OwnerFilter req with
   | Some owner => boundFilters [owner_Kind owner; owner_ID owner]
   | None => Ok tt
   end) ≫= λ _,
  match lr_StateFilter req with
  | None => Ok tt
  | Some state =>
      fail_if negb (validResourceState state)
        with Wrapf ErrInvalidApplicationCall "%w: unknown resource state filter" [] ;;
      fail_if (state =? ResourceStateDeleted) && negb (lr_IncludeDeleted req)
        with Wrapf ErrInvalidApplicationCall "%w: state Deleted requires includeDeleted" [] ;;
      Ok tt
  end.

(** [appendPrefixed], part by part: the length is a 32-bit integer. *)
Definition prefixed (value : string) : string :=
  of_bytes (big_endian 4 (N.of_nat (String.length value))) +:+ value.

Definition resourceCursorPrefix : string := "r1_".
Definition resourceCursorKind : N := 2.
Definition resourceCursorBytes : nat := 73.
Definition maxResourceCursorEncoded : nat := 128.

Definition invalidCursor : error :=
  Notef ErrInvalidApplicationCall "%w: %v" (Sentinel "errInvalidResourceCursor").

(** What [resourceListFilterDigest] hashes. *)
Definition filterEncoding (req : ListResourcesRequest) : string :=
  prefixed "liftr-resource-list-filters-v1" +:+
  prefixed (from_option owner_Kind "" (lr_OwnerFilter req)) +:+
  prefixed (from_option owner_ID "" (lr_OwnerFilter req)) +:+
  prefixed (lr_TypeName req) +:+ prefixed (lr_TypeVersion req) +:+
  prefixed (default "" (lr_StateFilter req)) +:+
  of_bytes [if lr_IncludeDeleted req then 1%N else 0%N].

Fixpoint ownersEncoding (owners : list OwnerRef) : string :=
  match owners with
  | [] => ""
  | owner :: rest =>
      prefixed (owner_Kind owner) +:+ prefixed (owner_ID owner) +:+ ownersEncoding rest
  end.

(** What [resourceListVisibilityDigest] hashes. *)
Definition visibilityEncoding (visibility : ResourceVisibility) : string :=
  let canonical := Canonical visibility in
  prefixed "liftr-resource-list-visibility-v1" +:+
  (if rv_AllOwners canonical then of_bytes (1%N :: big_endian 4 0)
   else of_bytes (0%N :: big_endian 4 (N.of_nat (length (rv_Owners canonical)))) +:+
        ownersEncoding (rv_Owners canonical)).

Section cursors.
Context {digest : Digest}.

Definition resourceListFilterDigest (req : ListResourcesRequest) : list N :=
  bytes_of (sha256 (filterEncoding req)).
Definition resourceListVisibilityDigest (visibility : ResourceVisibility) : list N :=
  bytes_of (sha256 (visibilityEncoding visibility)).

Definition encodeResourceListCursor (req : ListResourcesRequest)
    (visibility : ResourceVisibility) (next : uint64) : string :=
  resourceCursorPrefix +:+ RawURL_EncodeToString
    (resourceCursorKind :: resourceListFilterDigest req ++
     resourceListVisibilityDigest visibility ++ big_endian 8 next)%list.

Definition decodeResourceListCursor (cursor : string) (req : ListResourcesRequest)
    (visibility : ResourceVisibility) : outcome uint64 :=
  fail_if bool_decide (maxResourceCursorEncoded < String.length cursor)%nat ||
          negb (String.prefix resourceCursorPrefix cursor) with invalidCursor ;;
  match RawURL_DecodeString (TrimPrefix cursor resourceCursorPrefix) with
  | None => Err invalidCursor
  | Some payload =>
      fail_if bool_decide (length payload ≠ resourceCursorBytes) ||
              bool_decide (head payload ≠ Some resourceCursorKind) with invalidCursor ;;
      let filterMatch := bool_decide (take 32 (drop 1 payload) = resourceListFilterDigest req) in
      let visibilityMatch :=
        bool_decide (take 32 (drop 33 payload) = resourceListVisibilityDigest visibility) in
      let position := from_big_endian (drop 65 payload) in
      fail_if negb filterMatch || negb visibilityMatch with invalidCursor ;;
      fail_if (position =? 0%N) || Z.ltb MaxInt64 (Z.of_N position) with invalidCursor ;;
      Ok position
  end.
End cursors.

(** ** The use case *)

Section service.
Context {order : MapOrder} {digest : Digest}.
(** [Authorizer.AuthorizeResourceList], when there is an authorizer. *)
Context (authorizer : option (Principal → outcome ResourceVisibility)).

Definition authorizeResourceList (principal : Principal) : outcome ResourceVisibility :=
  fail_if (pr_ID principal =? "") || (pr_Kind principal =? "") with ErrNotAuthorized ;;
  match authorizer with
  | None => Err ErrNotAuthorized
  | Some decide =>
      match decide principal with
      | Ok visibility => Ok (Canonical visibility)
      | Err _ => Err (Wrapf ErrNotAuthorized "%w" [])
      | Panic p => Panic p
      end
  end.

Definition listQuery (req : ListResourcesRequest) (visibility : ResourceVisibility)
    (after : uint64) (limit : Z) : ResourceListQuery :=
  {| lq_AllowedOwners := rv_Owners visibility; lq_Unrestricted := rv_AllOwners visibility;
     lq_OwnerFilter := lr_OwnerFilter req; lq_TypeName := lr_TypeName req;
     lq_TypeVersion := lr_TypeVersion req; lq_StateFilter := lr_StateFilter req;
     lq_IncludeDeleted := lr_IncludeDeleted req; lq_AfterSequence := after;
     lq_Limit := limit |}.

Definition listUnit (req : ListResourcesRequest) (limit : Z)
    : tx (ResourceVisibility * ResourceInventoryPage) :=
  visibility ← lift (authorizeResourceList (lr_Principal req));
  after ← (if lr_Cursor req =? "" then mret 0%N
           else lift (decodeResourceListCursor (lr_Cursor req) req visibility));
  page ← tx_ListResources (listQuery req visibility after limit);
  mret (visibility, page).

Definition ListResources (req : ListResourcesRequest) : tx ResourceInventoryPageView :=
  let limit := if Z.eqb (lr_Limit req) 0 then DefaultResourcePageSize else lr_Limit req in
  guard_tx Z.ltb limit 1 || Z.ltb MaxResourcePageSize limit
    with Wrapf ErrInvalidApplicationCall "%w: resource page limit must be between 1 and %d"
      [ArgZ MaxResourcePageSize] ;;
  lift (validateListFilters req) ≫= λ _,
  '(visibility, page) ← Within (listUnit req limit);
  mret {| pv_Items := ip_Items page;
          pv_NextCursor := if ip_NextSequence page =? 0%N then ""
            else encodeResourceListCursor req visibility (ip_NextSequence page) |}.
End service.

(** ** Cursors *)

Lemma bytes_of_length s : length (bytes_of s) = String.length s.
Proof. unfold bytes_of. rewrite length_map. induction s as [|c s IH]; [done|]. cbn. by rewrite IH. Qed.

Lemma b64_encode_length bytes : (3 * length (b64_encode bytes) ≤ 4 * length bytes + 2)%nat.
Proof.
  revert bytes. fix IH 1. intros [|a [|b [|c rest]]]; [cbn; lia..|].
  specialize (IH rest). cbn [b64_encode length]. lia.
Qed.

Lemma TrimPrefix_cursor text : TrimPrefix (resourceCursorPrefix +:+ text) resourceCursorPrefix = text.
Proof. by destruct text. Qed.

Lemma prefix_cursor text : String.prefix resourceCursorPrefix (resourceCursorPrefix +:+ text) = true.
Proof. by destruct text. Qed.

Section cursor_theorems.
Context {digest : Digest}.

Definition payload_of (req : ListResourcesRequest) (visibility : ResourceVisibility)
    (next : uint64) : list N :=
  (resourceCursorKind :: resourceListFilterDigest req ++
   resourceListVisibilityDigest visibility ++ big_endian 8 next)%list.

Lemma digest_length (s : string) : length (bytes_of (sha256 s)) = 32%nat.
Proof. by rewrite bytes_of_length, sha256_length. Qed.

Lemma payload_length req visibility next :
  length (payload_of req visibility next) = resourceCursorBytes.
Proof.
  unfold payload_of, resourceListFilterDigest, resourceListVisibilityDigest. cbn [length].
  by rewrite !length_app, !digest_length, big_endian_length.
Qed.

Lemma payload_bounded req visibility next :
  Forall (λ b, b < 256)%N (payload_of req visibility next).
Proof.
  unfold payload_of. constructor; [done|]. rewrite !Forall_app.
  split_and!; [apply bytes_of_bounded..|apply big_endian_bounded].
Qed.

(** A cursor presented with other filters or another visibility. *)
Lemma decode_encoded req visibility req' visibility' next :
  (0 < next)%N → (Z.of_N next ≤ MaxInt64)%Z →
  decodeResourceListCursor (encodeResourceListCursor req visibility next) req' visibility' =
    if bool_decide (resourceListFilterDigest req = resourceListFilterDigest req') &&
       bool_decide (resourceListVisibilityDigest visibility =
                    resourceListVisibilityDigest visibility')
    then Ok next else Err invalidCursor.
Proof.
  intros Hpos Hmax. unfold decodeResourceListCursor, encodeResourceListCursor.
  fold (payload_of req visibility next).
  rewrite prefix_cursor, TrimPrefix_cursor, RawURL_roundtrip by apply payload_bounded.
  rewrite (bool_decide_false (_ < _)%nat); cycle 1.
  { unfold RawURL_EncodeToString. rewrite string_length_app, string_of_list_length, length_map.
    pose proof (b64_encode_length (payload_of req visibility next)) as Hl.
    rewrite payload_length in Hl. unfold maxResourceCursorEncoded, resourceCursorBytes in *.
    cbn [String.length resourceCursorPrefix]. lia. }
  rewrite payload_length, (bool_decide_false (resourceCursorBytes ≠ _)) by (intros []; done).
  rewrite (bool_decide_false (head _ ≠ _)) by (intros []; done). cbn [negb orb].
  assert (drop 1 (payload_of req visibility next) = resourceListFilterDigest req ++
    (resourceListVisibilityDigest visibility ++ big_endian 8 next))%list as Hfilter by done.
  assert (drop 33 (payload_of req visibility next) =
    resourceListVisibilityDigest visibility ++ big_endian 8 next)%list as Hvisible.
  { change 33%nat with (1 + 32)%nat. rewrite <- drop_drop, Hfilter. apply drop_app_length'. symmetry. apply digest_length. }
  assert (drop 65 (payload_of req visibility next) = big_endian 8 next) as Hposition.
  { change 65%nat with (33 + 32)%nat. rewrite <- drop_drop, Hvisible. apply drop_app_length'. symmetry. apply digest_length. }
  rewrite Hfilter, Hvisible, Hposition, !take_app_length' by (symmetry; apply digest_length).
  rewrite big_endian_roundtrip by (unfold MaxInt64 in Hmax; cbn; lia).
  destruct (bool_decide _); [|done]. destruct (bool_decide _); [|done]. cbn [negb orb andb].
  rewrite bool_decide_false by lia. destruct (Z.ltb_spec MaxInt64 (Z.of_N next)); [lia|done].
Qed.

Lemma digest_decides x y :
  (x ≠ y → sha256 x ≠ sha256 y) →
  bool_decide (bytes_of (sha256 x) = bytes_of (sha256 y)) = bool_decide (x = y).
Proof.
  intros H. apply bool_decide_ext. split; [|by intros ->]. intros Hb%bytes_of_inj.
  destruct (decide (x = y)); [done|]. by destruct (H n).
Qed.

End cursor_theorems.

(** *** What the encodings tell apart *)

Lemma big_endian_inj k n m :
  (n < 256 ^ N.of_nat k)%N → (m < 256 ^ N.of_nat k)%N →
  of_bytes (big_endian k n) = of_bytes (big_endian k m) → n = m.
Proof.
  intros Hn Hm H. apply (f_equal bytes_of) in H.
  rewrite !bytes_of_of_bytes in H by apply big_endian_bounded.
  apply (f_equal from_big_endian) in H. by rewrite !big_endian_roundtrip in H.
Qed.

Lemma of_bytes_length l : String.length (of_bytes l) = length l.
Proof. unfold of_bytes. by rewrite string_of_list_length, length_map. Qed.

Lemma prefixed_inj p q x y :
  framable p → framable q → prefixed p +:+ x = prefixed q +:+ y → p = q ∧ x = y.
Proof.
  unfold prefixed. rewrite !string_app_assoc. intros Hp Hq H.
  apply app_length_inj in H as [Hl H]; [|by rewrite !of_bytes_length, !big_endian_length].
  apply big_endian_inj, Nat2N.inj in Hl; [|done..]. by apply app_length_inj in H.
Qed.

Definition framable_owner (owner : OwnerRef) : Prop :=
  framable (owner_Kind owner) ∧ framable (owner_ID owner).

Lemma ownersEncoding_inj owners owners' :
  Forall framable_owner owners → Forall framable_owner owners' →
  length owners = length owners' → ownersEncoding owners = ownersEncoding owners' →
  owners = owners'.
Proof.
  intros Ho. revert owners'. induction Ho as [|o owners [Hk Hi] _ IH];
    intros [|o' owners'] Ho' Hl H; [done..|].
  apply Forall_cons_1 in Ho' as [[Hk' Hi'] Ho']. cbn [ownersEncoding] in H.
  apply prefixed_inj in H as [Hkind H]; [|done..].
  apply prefixed_inj in H as [Hid H]; [|done..].
  f_equal; [by destruct o, o'; f_equal|]. apply IH; [done| |done]. by injection Hl.
Qed.

(** What two requests have in common when they filter alike. *)
Definition filters_of (req : ListResourcesRequest) :=
  (lr_OwnerFilter req, lr_TypeName req, lr_TypeVersion req, lr_StateFilter req,
   lr_IncludeDeleted req).

Lemma boundFilters_framable values : boundFilters values = Ok tt → Forall framable values.
Proof.
  induction values as [|v values IH]; [by constructor|]. cbn. destruct (bool_decide _) eqn:Hb; [done|].
  intros H. constructor; [|by apply IH]. bool_facts. unfold framable, maxListFilterLength in *.
  assert (512 < 2 ^ 32)%N by done. lia.
Qed.

(** An absent filter is encoded as an empty one, which no valid request has. *)
Lemma valid_filters req :
  validateListFilters req = Ok tt →
  framable (lr_TypeName req) ∧ framable (lr_TypeVersion req) ∧
  match lr_OwnerFilter req with
  | Some owner => framable_owner owner ∧ owner_Kind owner ≠ ""
  | None => True
  end ∧
  match lr_StateFilter req with Some s => framable s ∧ s ≠ "" | None => True end.
Proof.
  unfold validateListFilters. intros H.
  apply bind_Ok in H as ([] & Howner & H).
  destruct (_ && _) in H; [done|].
  apply bind_Ok in H as ([] & Htype & H). apply boundFilters_framable in Htype.
  apply Forall_cons_1 in Htype as [Hname Htype]. apply Forall_cons_1 in Htype as [Hversion _].
  apply bind_Ok in H as ([] & Hbound & H). split_and!; [done..| |].
  - destruct (lr_OwnerFilter req) as [o|]; [|done]. apply boundFilters_framable in Hbound.
    apply Forall_cons_1 in Hbound as [Hk Hbound]. apply Forall_cons_1 in Hbound as [Hi _].
    split; [done|]. intros He. destruct (validMembership o) eqn:Hv; [|done].
    unfold validMembership in Hv. rewrite He in Hv. done.
  - destruct (lr_StateFilter req) as [s|]; [|done]. destruct (validResourceState s) eqn:Hs; [|done].
    unfold validResourceState in Hs. repeat (apply orb_true_iff in Hs as [Hs|Hs]);
      bool_facts; subst s; done.
Qed.

Lemma filterEncoding_exact req req' :
  validateListFilters req = Ok tt → validateListFilters req' = Ok tt →
  filterEncoding req = filterEncoding req' → filters_of req = filters_of req'.
Proof.
  intros (Hn & Hv & Ho & Hs)%valid_filters (Hn' & Hv' & Ho' & Hs')%valid_filters H.
  unfold filterEncoding in H.
  assert (∀ r, match lr_OwnerFilter r with
    | Some owner => framable_owner owner ∧ owner_Kind owner ≠ "" | None => True end →
    framable (from_option owner_Kind "" (lr_OwnerFilter r)) ∧
    framable (from_option owner_ID "" (lr_OwnerFilter r))) as Hfo.
  { intros r. destruct (lr_OwnerFilter r) as [o|]; [by intros [[??] _]|by intros _]. }
  assert (∀ r, match lr_StateFilter r with Some s => framable s ∧ s ≠ "" | None => True end →
    framable (default "" (lr_StateFilter r))) as Hfs.
  { intros r. destruct (lr_StateFilter r) as [o|]; [by intros [? _]|by intros _]. }
  destruct (Hfo _ Ho), (Hfo _ Ho').
  do 6 (apply prefixed_inj in H as [? H]; [|by try (apply Hfs)..]).
  unfold filters_of. f_equal; [f_equal; [f_equal; [f_equal|]|]|]; try done.
  - destruct (lr_OwnerFilter req) as [[]|], (lr_OwnerFilter req') as [[]|]; cbn in *; naive_solver.
  - destruct (lr_StateFilter req), (lr_StateFilter req'); cbn in *; naive_solver.
  - by destruct (lr_IncludeDeleted req), (lr_IncludeDeleted req').
Qed.

(** What a visibility admits: everyone, or the owners it names. *)
Definition admitted_owners (v : ResourceVisibility) : option (list OwnerRef) :=
  if rv_AllOwners v then None else Some (rv_Owners (Canonical v)).

Definition framable_visibility (v : ResourceVisibility) : Prop :=
  Forall framable_owner (rv_Owners (Canonical v)) ∧
  (N.of_nat (length (rv_Owners (Canonical v))) < 2 ^ 32)%N.

Lemma visibilityEncoding_exact v v' :
  framable_visibility v → framable_visibility v' →
  visibilityEncoding v = visibilityEncoding v' → admitted_owners v = admitted_owners v'.
Proof.
  intros [Hf Hl] [Hf' Hl'] H. unfold visibilityEncoding in H.
  apply prefixed_inj in H as [_ H]; [|done..]. unfold admitted_owners.
  assert (rv_AllOwners (Canonical v) = rv_AllOwners v) as Hv by done.
  assert (rv_AllOwners (Canonical v') = rv_AllOwners v') as Hv' by done.
  rewrite Hv, Hv' in H. destruct (rv_AllOwners v), (rv_AllOwners v'); [done|done|done|].
  apply app_length_inj in H as [Hcount H]; [|by rewrite !of_bytes_length; cbn [length]; rewrite !big_endian_length].
  f_equal. apply ownersEncoding_inj; [done..| |done].
  apply (f_equal bytes_of) in Hcount.
  rewrite !bytes_of_of_bytes in Hcount by (constructor; [done|apply big_endian_bounded]).
  apply (f_equal tail) in Hcount. cbn [tail] in Hcount.
  apply (f_equal from_big_endian) in Hcount.
  rewrite !big_endian_roundtrip in Hcount by done. by apply Nat2N.inj.
Qed.

Lemma visibilityEncoding_of v v' :
  admitted_owners v = admitted_owners v' → visibilityEncoding v = visibilityEncoding v'.
Proof.
  unfold admitted_owners, visibilityEncoding. intros H.
  assert (rv_AllOwners (Canonical v) = rv_AllOwners v) as -> by done.
  assert (rv_AllOwners (Canonical v') = rv_AllOwners v') as -> by done.
  destruct (rv_AllOwners v), (rv_AllOwners v'); [done..|].
  assert (rv_Owners (Canonical v) = rv_Owners (Canonical v')) as Ho by by apply (inj Some).
  by rewrite Ho.
Qed.

(** C32: A cursor continues the listing that issued it, and no other.  Presented
    by a valid request it yields the position it was issued for exactly when
    the owner, type, version, state and deletion filters are those of the
    request that obtained it and the caller's visibility admits the same
    owners; otherwise it is refused as invalid.  The owners that the visibility
    names are bounded as the 32-bit framing requires, and SHA-256 is assumed
    not to collide on the two pairs of encodings that are compared. *)
Theorem cursor_roundtrip `{digest : Digest} req visibility req' visibility' next :
  validateListFilters req = Ok tt → validateListFilters req' = Ok tt →
  framable_visibility visibility → framable_visibility visibility' →
  (sha256 (filterEncoding req) = sha256 (filterEncoding req') →
   filterEncoding req = filterEncoding req') →
  (sha256 (visibilityEncoding visibility) = sha256 (visibilityEncoding visibility') →
   visibilityEncoding visibility = visibilityEncoding visibility') →
  (0 < next)%N → (Z.of_N next ≤ MaxInt64)%Z →
  decodeResourceListCursor (encodeResourceListCursor req visibility next) req' visibility' =
    if bool_decide (filters_of req = filters_of req' ∧
                    admitted_owners visibility = admitted_owners visibility')
    then Ok next else Err invalidCursor.
Proof.
  intros Hr Hr' Hv Hv' Hf Hs Hpos Hmax. rewrite decode_encoded by done.
  rewrite bool_decide_and. unfold resourceListFilterDigest, resourceListVisibilityDigest.
  assert (∀ a b c d : bool, a = c → b = d →
    (if a && b then Ok next else Err invalidCursor) = if c && d then Ok next else Err invalidCursor)
    as Hif by by intros ???? -> ->.
  apply Hif; apply bool_decide_ext; (split; [intros H%bytes_of_inj|intros H]).
  - apply filterEncoding_exact; auto.
  - injection H as Howner Hname Hversion Hstate Hdeleted. unfold filterEncoding.
    by rewrite Howner, Hname, Hversion, Hstate, Hdeleted.
  - apply visibilityEncoding_exact; auto.
  - by rewrite (visibilityEncoding_of _ _ H).
Qed.

(** ** Pages *)

(** A page is a prefix of its rows, and says where the next one starts. *)
Lemma fillPage_spec limit page rows :
  (length page ≤ limit)%nat →
  fillPage limit page rows =
    {| ip_Items := page ++ take (limit - length page) rows;
       ip_NextSequence := if bool_decide (length page + length rows ≤ limit)%nat then 0%N
         else from_option ii_Sequence 0%N (last (page ++ take (limit - length page) rows)) |}.
Proof.
  revert page. induction rows as [|row rows IH]; intros page Hp; cbn [fillPage].
  { rewrite take_nil, app_nil_r, bool_decide_true by (cbn; lia). done. }
  destruct (bool_decide_reflect (length page = limit)) as [He|He].
  - rewrite He, Nat.sub_diag, take_0, app_nil_r, bool_decide_false by (cbn; lia). done.
  - rewrite IH by (rewrite length_app; cbn; lia). rewrite length_app. cbn [length].
    replace (limit - length page)%nat with (S (limit - (length page + 1)))%nat by lia.
    cbn [take]. rewrite <- app_assoc. cbn [app].
    by replace (length page + 1 + length rows)%nat with (length page + S (length rows))%nat by lia.
Qed.

Definition descending : list ResourceInventoryItem → Prop :=
  StronglySorted (λ x y, ii_Sequence y < ii_Sequence x)%N.

#[local] Instance flip_le_total : Total (flip N.le).
Proof. intros x y. unfold flip. lia. Qed.
#[local] Instance flip_le_trans : Transitive (flip N.le).
Proof. intros x y z. unfold flip. lia. Qed.

Lemma newestFirst_perm l : newestFirst l ≡ₚ l.
Proof. apply sort_by_Permutation. Qed.

Lemma newestFirst_descending l : NoDup (ii_Sequence <$> l) → descending (newestFirst l).
Proof.
  intros Hnd. assert (NoDup (ii_Sequence <$> newestFirst l)) as H by by rewrite newestFirst_perm.
  pose proof (sort_by_sorted ii_Sequence (flip N.le) l) as Hs. unfold newestFirst in *.
  revert Hs H. generalize (sort_by ii_Sequence (flip N.le) l) as k. unfold descending.
  induction 1 as [|x k Hk IH Hx]; intros H; constructor.
  - apply IH. by apply NoDup_cons in H as [_ ?].
  - apply NoDup_cons in H as [H _]. rewrite Forall_forall in Hx |- *. intros y Hy.
    specialize (Hx y Hy). unfold by_key, flip in Hx.
    assert (ii_Sequence x ≠ ii_Sequence y); [|lia].
    intros He. apply H. rewrite He. by apply list_elem_of_fmap_2.
Qed.

Lemma descending_filter (P : ResourceInventoryItem → Prop) `{!∀ x, Decision (P x)} l :
  descending l → descending (filter P l).
Proof.
  unfold descending. induction 1 as [|x l Hl IH Hx]; [constructor|]. rewrite filter_cons.
  case_decide; [|done]. constructor; [done|].
  rewrite Forall_forall in Hx |- *. intros y [_ Hy]%list_elem_of_filter. by apply Hx.
Qed.

Lemma descending_unique l k : descending l → descending k → l ≡ₚ k → l = k.
Proof.
  intros Hl Hk. eapply StronglySorted_unique_strong; [|done|done].
  cbn. intros x y _ _ Hx Hy. lia.
Qed.

(** What lies beyond the last row of a prefix is the rest. *)
Lemma descending_drop l n x :
  descending l → l !! n = Some x →
  filter (λ i, (ii_Sequence i < ii_Sequence x)%N) l = drop (S n) l.
Proof.
  unfold descending. intros Hl. revert n. induction Hl as [|y l Hl IH Hy]; intros n Hn; [done|].
  rewrite filter_cons. destruct n as [|n].
  - injection Hn as ->. rewrite decide_False by lia. cbn [drop]. rewrite drop_0. clear IH Hl.
    induction Hy as [|z l Hz Hy IH]; [done|]. by rewrite filter_cons_True, IH.
  - cbn in Hn. rewrite decide_False; [by apply IH|].
    rewrite Forall_forall in Hy. apply list_elem_of_lookup_2 in Hn. specialize (Hy _ Hn). lia.
Qed.

(** ** Traversals *)

Lemma filter_id {A} (P : A → Prop) `{!∀ x, Decision (P x)} (l : list A) : (∀ x, P x) → filter P l = l.
Proof. intros Hall. induction l as [|x l IH]; [done|]. by rewrite filter_cons_True, IH. Qed.

(** Resources are stored under their identifiers, each with a sequence of its
    own that a database can hold. *)
Record inventoried (s : Store) : Prop := {
  inv_identified id record : resources s !! id = Some record → res_id (rr_Resource record) = id;
  inv_sequenced id record : resources s !! id = Some record →
    ∃ n, resourceSequences s !! id = Some n ∧ (0 < n ≤ nextResourceSequence s)%N;
  inv_distinct id id' n : resourceSequences s !! id = Some n →
    resourceSequences s !! id' = Some n → id = id';
  inv_issued id n : resourceSequences s !! id = Some n → (n ≤ nextResourceSequence s)%N;
  inv_bounded : (Z.of_N (nextResourceSequence s) ≤ MaxInt64)%Z }.

Lemma inventoried_new : inventoried NewStore.
Proof. split; cbn; intros; try by rewrite lookup_empty in *. done. Qed.

(** A creation numbers its resource past all the others. *)
Lemma inventoried_created record s s' :
  inventoried s → integrity s → (Z.of_N (nextResourceSequence s) < MaxInt64)%Z →
  tx_CreateResource record s = (s', Ok tt) → inventoried s'.
Proof.
  intros [Hid Hseq Hdist Hiss Hb] Hi Hmax Hrun.
  unfold tx_CreateResource in Hrun. apply writing_run in Hrun. cbv zeta in Hrun.
  destruct (bool_decide _) eqn:Hfree in Hrun; [done|]. injection Hrun as <-.
  assert (u64_incr (nextResourceSequence s) = nextResourceSequence s + 1)%N as Hincr.
  { unfold u64_incr. apply N.mod_small. unfold two64. unfold MaxInt64 in Hmax. lia. }
  set (id := res_id (rr_Resource record)) in *. bool_facts.
  assert (resourceSequences s !! id = None) as Hunnumbered.
  { apply not_elem_of_dom. rewrite (in_sequences _ Hi). apply not_elem_of_dom.
    by apply eq_None_not_Some. }
  split; cbn; rewrite ?Hincr.
  - intros i r. rewrite lookup_insert_Some. intros [[<- <-]|[_ Hr]]; [by case_match|by apply Hid].
  - intros i r. rewrite !lookup_insert_Some. intros [[<- <-]|[Hne Hr]].
    + exists (nextResourceSequence s + 1)%N. rewrite lookup_insert_eq. split; [done|lia].
    + destruct (Hseq i r Hr) as (n & Hn & ?). exists n. rewrite lookup_insert_ne by done.
      split; [done|lia].
  - intros i j n. rewrite !lookup_insert_Some. intros [[<- <-]|[_ Hx]] [[<- Hy]|[_ Hy]]; [done| | |].
    + apply Hiss in Hy. lia.
    + subst n. apply Hiss in Hx. lia.
    + by eapply Hdist.
  - intros i n. rewrite lookup_insert_Some. intros [[<- <-]|[_ Hx]]; [lia|]. apply Hiss in Hx. lia.
  - lia.
Qed.

Definition same_numbers (s s' : Store) : Prop :=
  resourceSequences s' = resourceSequences s ∧ nextResourceSequence s' = nextResourceSequence s.

#[export] Instance same_numbers_preorder : PreOrder same_numbers.
Proof. unfold same_numbers. split; [done|]. intros s1 s2 s3 [? ?] [? ?]. split; congruence. Qed.

(** A unit that may not create numbers nothing. *)
Lemma scripted_numbers `{order : MapOrder} {A} may (m : tx A) :
  ¬ may_create may → scripted may m → relates same_numbers m.
Proof.
  intros Hcreate. induction 1; try (by destruct Hcreate);
    auto using @relates_bind, @relates_handled, same_numbers_preorder.
  all: try (intros s; reflexivity).
  all: try (apply relates_writing; [apply _|]; intros s s' Hf; cbn in Hf;
    repeat (ok_inv; case_match); ok_inv; done).
  - apply relates_writing; [apply _|]. intros s s' [= <-]. generalize (ranged targets) as l.
    intros l. revert s. induction l as [|[t tv] l IH]; intros s; [done|]. cbn [foldl].
    etrans; [|apply IH]. unfold registerWait. by case_match.
  - intros s. unfold tx_ClaimOutbox. by destruct (ClaimOutbox _ _ _ _ _).
Qed.

Lemma inventoried_kept `{order : MapOrder} {A} may (fn : tx A) s :
  integrity s → inventoried s → ¬ may_create may → scripted may fn → inventoried (Within fn s).1.
Proof.
  intros Hi [Hid Hseq Hdist Hiss Hb] Hno Hfn.
  assert (same_numbers s (Within fn s).1) as [Hs Hn].
  { pose proof (scripted_numbers may fn Hno Hfn s) as [Hs Hn]. unfold Within.
    destruct (fn s) as [t []]; cbn in *; done. }
  pose proof (Within_respects may fn Hfn s Hi) as [Hi' _].
  split; rewrite ?Hs, ?Hn; [by apply in_resources| |done..].
  intros id record Hr. assert (is_Some (resourceSequences s !! id)) as [n Hnum].
  { rewrite <- Hs. apply elem_of_dom. rewrite in_sequences by done. by apply elem_of_dom. }
  assert (is_Some (resources s !! id)) as [r Hold].
  { apply elem_of_dom. rewrite <- in_sequences by done. by apply elem_of_dom. }
  by eapply Hseq.
Qed.

Section traversals.
Context {order : MapOrder} {digest : Digest}.
Context (authorizer : option (Principal → outcome ResourceVisibility)).

(** The reference: every resource that the request selects, in one list. *)
Definition visibleItems (s : Store) (req : ListResourcesRequest) (visibility : ResourceVisibility)
    : list ResourceInventoryItem :=
  (λ entry, item_of s entry.1 entry.2) <$>
    filter (λ entry, selects (listQuery req visibility 0 0) entry.2 = true) (ranged (resources s)).

Definition inventory (s : Store) (req : ListResourcesRequest) (visibility : ResourceVisibility)
    : list ResourceInventoryItem := newestFirst (visibleItems s req visibility).

(** A client that follows the cursors. *)
Fixpoint traverse (fuel : nat) (req : ListResourcesRequest) (s : Store)
    : outcome (list ResourceInventoryItem) :=
  match fuel with
  | O => Err (Errorf "out of fuel" [])
  | S fuel =>
      page ← (ListResources authorizer req s).2;
      if pv_NextCursor page =? "" then Ok (pv_Items page)
      else rest ← traverse fuel (req <| lr_Cursor := pv_NextCursor page |>) s;
           Ok (pv_Items page ++ rest)%list
  end.

Lemma visibleItems_cursor s req visibility cursor :
  visibleItems s (req <| lr_Cursor := cursor |>) visibility = visibleItems s req visibility.
Proof. done. Qed.

Lemma ranged_lookup {A} (m : gmap string A) id x : (id, x) ∈ ranged m ↔ m !! id = Some x.
Proof. by rewrite ranged_perm, elem_of_map_to_list. Qed.

Lemma visibleItems_in s req visibility item :
  item ∈ visibleItems s req visibility ↔ ∃ id record, resources s !! id = Some record ∧
    selects (listQuery req visibility 0 0) record = true ∧ item = item_of s id record.
Proof.
  unfold visibleItems. rewrite list_elem_of_fmap. split.
  - intros ([id record] & -> & Hin). apply list_elem_of_filter in Hin as [Hs Hin].
    apply ranged_lookup in Hin. by exists id, record.
  - intros (id & record & Hr & Hs & ->). exists (id, record). split; [done|].
    apply list_elem_of_filter. split; [done|]. by apply ranged_lookup.
Qed.

Lemma visibleItems_NoDup s req visibility :
  inventoried s → NoDup (ii_Sequence <$> visibleItems s req visibility).
Proof.
  intros Hinv. unfold visibleItems. rewrite <- list_fmap_compose.
  apply NoDup_fmap_2_strong.
  - intros [id r] [id' r'] Hx Hy He.
    apply list_elem_of_filter in Hx as [_ Hx], Hy as [_ Hy].
    apply ranged_lookup in Hx, Hy. cbn in He.
    destruct (inv_sequenced _ Hinv _ _ Hx) as (n & Hn & _), (inv_sequenced _ Hinv _ _ Hy) as (m & Hm & _).
    rewrite Hn, Hm in He. cbn in He. subst m. pose proof (inv_distinct _ Hinv _ _ _ Hn Hm) as <-.
    by simplify_eq.
  - apply NoDup_filter. rewrite ranged_perm. apply NoDup_map_to_list.
Qed.

Lemma inventory_descending s req visibility :
  inventoried s → descending (inventory s req visibility).
Proof. intros H. by apply newestFirst_descending, visibleItems_NoDup. Qed.

Lemma not_beyond query n :
  negb (beyond query n) = true ↔ lq_AfterSequence query = 0%N ∨ (n < lq_AfterSequence query)%N.
Proof.
  unfold beyond. rewrite negb_true_iff, andb_false_iff, N.leb_gt, negb_false_iff.
  by rewrite bool_decide_eq_true.
Qed.

Lemma matching_after s req visibility after limit :
  matching s (listQuery req visibility after limit) =
    filter (λ i, after = 0%N ∨ (ii_Sequence i < after)%N) (visibleItems s req visibility).
Proof.
  unfold matching, visibleItems. induction (ranged (resources s)) as [|[id r] l IH]; [done|].
  cbn [filter]. rewrite !filter_cons. cbn [fst snd].
  change (selects (listQuery req visibility after limit) r)
    with (selects (listQuery req visibility 0 0) r).
  destruct (selects (listQuery req visibility 0 0) r) eqn:Hs; cbn [andb].
  - rewrite (decide_True (P := true = true)) by done. rewrite fmap_cons, filter_cons.
    pose proof (not_beyond (listQuery req visibility after limit)
      (default 0%N (resourceSequences s !! id))) as Hiff.
    destruct (negb (beyond (listQuery req visibility after limit) _)) eqn:Hb.
    + rewrite (decide_True (P := true = true)) by done.
      rewrite decide_True by exact (proj1 Hiff eq_refl). cbn [map]. by f_equal.
    + rewrite (decide_False (P := false = true)) by done.
      rewrite decide_False; [done|]. intros He. by apply Hiff in He.
  - rewrite !decide_False by done. done.
Qed.

(** The rows that remain after a position. *)
Definition remaining (s : Store) req visibility (after : uint64) : list ResourceInventoryItem :=
  filter (λ i, after = 0%N ∨ (ii_Sequence i < after)%N) (inventory s req visibility).

Definition pageLimit (req : ListResourcesRequest) : Z :=
  if Z.eqb (lr_Limit req) 0 then DefaultResourcePageSize else lr_Limit req.

Lemma newestFirst_filter s req visibility (P : ResourceInventoryItem → Prop) `{!∀ x, Decision (P x)} :
  inventoried s →
  newestFirst (filter P (visibleItems s req visibility)) = filter P (inventory s req visibility).
Proof.
  intros Hinv. apply descending_unique.
  - apply newestFirst_descending.
    eapply sublist_NoDup; [by apply (visibleItems_NoDup s req visibility)|].
    apply fmap_sublist, sublist_filter.
  - by apply descending_filter, inventory_descending.
  - rewrite newestFirst_perm. unfold inventory. by rewrite newestFirst_perm.
Qed.

Lemma nobody_sees s req visibility :
  rv_AllOwners visibility = false → rv_Owners visibility = [] → inventory s req visibility = [].
Proof.
  intros Ha Ho. unfold inventory. assert (visibleItems s req visibility = []) as ->; [|done].
  destruct (visibleItems s req visibility) as [|i l] eqn:He; [done|].
  assert (i ∈ visibleItems s req visibility) as (id & r & _ & Hs & _)%visibleItems_in
    by (rewrite He; by left).
  unfold selects in Hs. cbn [lq_Unrestricted lq_AllowedOwners listQuery] in Hs.
  rewrite Ha, Ho, bool_decide_false in Hs by (by intros ?%not_elem_of_nil). done.
Qed.

Lemma tx_ListResources_run s req visibility after limit :
  inventoried s → (0 < limit)%Z →
  let rest := remaining s req visibility after in
  let n := Z.to_nat limit in
  tx_ListResources (listQuery req visibility after limit) s =
    (s, Ok {| ip_Items := take n rest;
              ip_NextSequence := if bool_decide (length rest ≤ n)%nat then 0%N
                else from_option ii_Sequence 0%N (last (take n rest)) |}).
Proof.
  intros Hinv Hl. unfold tx_ListResources, reading. cbn [lq_Limit listQuery].
  rewrite (bool_decide_false (limit ≤ 0)%Z) by lia. cbn [lq_Unrestricted lq_AllowedOwners listQuery].
  assert (newestFirst (matching s (listQuery req visibility after limit)) =
    remaining s req visibility after) as Hrows.
  { rewrite matching_after. by apply newestFirst_filter. }
  destruct (negb (rv_AllOwners visibility) && bool_decide (rv_Owners visibility = [])) eqn:Hn.
  - apply andb_true_iff in Hn as [Ha Ho]. apply negb_true_iff in Ha. bool_facts.
    unfold remaining. rewrite nobody_sees by done. by rewrite filter_nil, take_nil.
  - rewrite Hrows, fillPage_spec by (cbn; lia). cbn [length app]. by rewrite Nat.sub_0_r, Nat.add_0_l.
Qed.
(** The position that a request resumes at. *)
Definition resumes (req : ListResourcesRequest) visibility (after : uint64) : Prop :=
  lr_Cursor req = "" ∧ after = 0%N ∨
  lr_Cursor req = encodeResourceListCursor req visibility after ∧
  (0 < after)%N ∧ (Z.of_N after ≤ MaxInt64)%Z.

Lemma ListResources_run s req visibility after :
  inventoried s → authorizeResourceList authorizer (lr_Principal req) = Ok visibility →
  validateListFilters req = Ok tt → (1 ≤ pageLimit req ≤ MaxResourcePageSize)%Z →
  resumes req visibility after →
  let rest := remaining s req visibility after in
  let n := Z.to_nat (pageLimit req) in
  let next := if bool_decide (length rest ≤ n)%nat then 0%N
              else from_option ii_Sequence 0%N (last (take n rest)) in
  ListResources authorizer req s =
    (s, Ok {| pv_Items := take n rest;
              pv_NextCursor := if next =? 0%N then ""
                else encodeResourceListCursor req visibility next |}).
Proof.
  intros Hinv Hauth Hvalid [Hlow Hhigh] Hres. cbn zeta. unfold ListResources.
  fold (pageLimit req).
  destruct (Z.ltb_spec (pageLimit req) 1); [lia|].
  destruct (Z.ltb_spec MaxResourcePageSize (pageLimit req)); [lia|]. cbn [orb].
  assert (listUnit authorizer req (pageLimit req) s = (s, Ok (visibility,
    {| ip_Items := take (Z.to_nat (pageLimit req)) (remaining s req visibility after);
       ip_NextSequence := if bool_decide (length (remaining s req visibility after) ≤
                             Z.to_nat (pageLimit req))%nat then 0%N
         else from_option ii_Sequence 0%N
           (last (take (Z.to_nat (pageLimit req)) (remaining s req visibility after))) |})))
    as Hunit.
  { unfold listUnit. apply bind_run. exists s, visibility.
    split; [by unfold lift; rewrite Hauth|]. apply bind_run. exists s, after. split.
    - destruct Hres as [[-> ->]|(Hc & Hpos & Hmax)]; [done|].
      rewrite bool_decide_false by (rewrite Hc; done). unfold lift. f_equal.
      rewrite Hc. rewrite decode_encoded by done. by rewrite !bool_decide_true.
    - apply bind_run. rewrite tx_ListResources_run by (done || lia). eauto. }
  unfold lift, mbind, tx_bind. rewrite Hvalid. unfold Within. rewrite Hunit. done.
Qed.
Lemma inventory_sequenced s req visibility item :
  inventoried s → item ∈ inventory s req visibility →
  (0 < ii_Sequence item)%N ∧ (Z.of_N (ii_Sequence item) ≤ MaxInt64)%Z.
Proof.
  intros Hinv Hin. unfold inventory in Hin. rewrite newestFirst_perm in Hin.
  apply visibleItems_in in Hin as (id & r & Hr & _ & ->).
  destruct (inv_sequenced _ Hinv _ _ Hr) as (n & Hn & Hb).
  pose proof (inv_bounded _ Hinv). cbn [ii_Sequence item_of]. rewrite Hn. unfold default, from_option. cbn. lia.
Qed.

Lemma remaining_after s req visibility k item :
  inventoried s → inventory s req visibility !! k = Some item →
  remaining s req visibility (ii_Sequence item) = drop (S k) (inventory s req visibility).
Proof.
  intros Hinv Hk. rewrite <- (descending_drop _ _ _ (inventory_descending _ _ _ Hinv) Hk).
  unfold remaining. apply list_filter_iff. intros i.
  apply list_elem_of_lookup_2, inventory_sequenced in Hk as [? _]; [|done]. lia.
Qed.

Lemma traverse_from fuel s req visibility after k :
  inventoried s → authorizeResourceList authorizer (lr_Principal req) = Ok visibility →
  validateListFilters req = Ok tt → (1 ≤ pageLimit req ≤ MaxResourcePageSize)%Z →
  resumes req visibility after →
  remaining s req visibility after = drop k (inventory s req visibility) →
  (length (drop k (inventory s req visibility)) < fuel)%nat →
  traverse fuel req s = Ok (drop k (inventory s req visibility)).
Proof.
  intros Hinv Hauth Hvalid Hlimit. revert req Hauth Hvalid Hlimit after k.
  induction fuel as [|fuel IH]; intros req Hauth Hvalid Hlimit after k Hres Hrem Hfuel; [lia|].
  cbn [traverse]. rewrite (ListResources_run s req visibility after) by done. cbn [snd].
  rewrite Hrem. set (all := inventory s req visibility) in *.
  set (n := Z.to_nat (pageLimit req)) in *. unfold mbind, outcome_bind.
  destruct (bool_decide_reflect (length (drop k all) ≤ n)%nat) as [Hl|Hl].
  { cbn [pv_NextCursor pv_Items]. by rewrite take_ge. }
  assert (0 < n)%nat as Hn by lia.
  destruct (all !! (k + (n - 1))) as [item|] eqn:Hitem; cycle 1.
  { apply lookup_ge_None in Hitem. rewrite length_drop in Hl. lia. }
  assert (last (take n (drop k all)) = Some item) as Hlast.
  { rewrite last_lookup, length_take_le by lia.
    rewrite lookup_take_lt by lia. rewrite lookup_drop. by replace (pred n) with (n - 1)%nat by lia. }
  rewrite Hlast. cbn [from_option].
  destruct (inventory_sequenced s req visibility item) as [Hpos Hmax]; [done|by eapply list_elem_of_lookup_2|].
  rewrite (bool_decide_false (ii_Sequence item = 0%N)) by lia. cbn [pv_NextCursor pv_Items].
  rewrite bool_decide_false by done.
  set (next := encodeResourceListCursor req visibility (ii_Sequence item)).
  assert (drop (S (k + (n - 1))) all = drop n (drop k all)) as Hdrop
    by (rewrite drop_drop; f_equal; lia).
  assert (traverse fuel (req <| lr_Cursor := next |>) s = Ok (drop n (drop k all))) as Hrest.
  { assert (inventory s (req <| lr_Cursor := next |>) visibility = all) as Hall by done.
    specialize (IH (req <| lr_Cursor := next |>) Hauth Hvalid Hlimit (ii_Sequence item)
      (S (k + (n - 1)))).
    rewrite Hall, Hdrop in IH. apply IH.
    - right. split; [done|]. done.
    - rewrite <- Hdrop. by apply remaining_after.
    - rewrite length_drop. lia. }
  rewrite Hrest. by rewrite take_drop.
Qed.
(** C25: Following the cursors of the resource list enumerates the inventory.  The
    pages that a client gets until no cursor is left, joined, are the reference
    list that knows no pages: newest first, every resource that the filters
    and the caller's visibility select exactly once, and nothing else.  The
    traversal ends: no more pages are fetched than resources are visible, and
    one. *)
Theorem traversal_enumerates fuel s req visibility :
  inventoried s → authorizeResourceList authorizer (lr_Principal req) = Ok visibility →
  validateListFilters req = Ok tt → (1 ≤ pageLimit req ≤ MaxResourcePageSize)%Z →
  lr_Cursor req = "" → (length (inventory s req visibility) < fuel)%nat →
  traverse fuel req s = Ok (inventory s req visibility) ∧
  NoDup (ii_ID <$> inventory s req visibility) ∧
  descending (inventory s req visibility) ∧
  ∀ id, id ∈ ii_ID <$> inventory s req visibility ↔
    ∃ record, resources s !! id = Some record ∧
      selects (listQuery req visibility 0 0) record = true.
Proof.
  intros Hinv Hauth Hvalid Hlimit Hcursor Hfuel. split_and!.
  - apply (traverse_from fuel s req visibility 0 0); try done; [by left|].
    unfold remaining. rewrite drop_0. apply filter_id. intros i. by left.
  - unfold inventory. rewrite newestFirst_perm. unfold visibleItems.
    rewrite <- list_fmap_compose. apply NoDup_fmap_2_strong.
    + intros [i r] [j q] [_ Hx%ranged_lookup]%list_elem_of_filter
        [_ Hy%ranged_lookup]%list_elem_of_filter He. cbn in He.
      apply (inv_identified _ Hinv) in Hx as Hi. apply (inv_identified _ Hinv) in Hy as Hj.
      assert (i = j) as <- by congruence. by simplify_eq.
    + apply NoDup_filter. rewrite ranged_perm. apply NoDup_map_to_list.
  - by apply inventory_descending.
  - intros id. rewrite list_elem_of_fmap. setoid_rewrite newestFirst_perm.
    setoid_rewrite visibleItems_in. split.
    + intros (item & -> & i & r & Hr & Hs & ->). exists r. cbn.
      by rewrite (inv_identified _ Hinv _ _ Hr).
    + intros (r & Hr & Hs). exists (item_of s id r). split; [|by exists id, r].
      cbn. by rewrite (inv_identified _ Hinv _ _ Hr).
Qed.
End traversals.

(** ** A concrete inventory *)

#[local] Instance sample_order : MapOrder :=
  {| ranged A m := map_to_list m; ranged_perm A m := reflexivity _ |}.
#[local] Existing Instance sample_digest.

Definition sample_row (id : ResourceID) : ResourceRecord :=
  {| rr_Resource := {| res_id := id; res_type := sample_type; res_owner := sample_owner;
       res_generation := 1; res_spec := sample_spec; res_createdAt := 10; res_updatedAt := 10 |};
     rr_Status := {| st_resourceID := id; st_observedGeneration := 1; st_state := ResourceStateReady;
       st_conditions := []; st_updatedAt := 12 |};
     rr_ProvisionerRef := "provisioner"; rr_Version := 1 |}.

Definition sample_first : Store := (tx_CreateResource (sample_row "r-1") NewStore).1.
Definition sample_second : Store := (tx_CreateResource (sample_row "r-2") sample_first).1.
Definition sample_listed : Store := (tx_CreateResource (sample_row "r-3") sample_second).1.

Lemma sample_inventoried : inventoried sample_listed.
Proof.
  assert (store_reachable sample_first ∧ store_reachable sample_second) as [H1 H2].
  { assert (store_reachable sample_first) as H.
    { apply (sr_within (tx_CreateResource (sample_row "r-1")) NewStore); repeat constructor. }
    split; [done|].
    apply (sr_within (tx_CreateResource (sample_row "r-2")) sample_first); [done|repeat constructor]. }
  apply (inventoried_created (sample_row "r-3") sample_second); [|by apply reachable_integrity|done..].
  apply (inventoried_created (sample_row "r-2") sample_first); [|by apply reachable_integrity|done..].
  apply (inventoried_created (sample_row "r-1") NewStore);
    [apply inventoried_new|apply reachable_integrity; constructor|done..].
Qed.

Definition sample_reader : Principal :=
  {| pr_ID := "alice"; pr_Kind := KindUser; pr_Issuer := "iss"; pr_Subject := "alice";
     pr_Memberships := [sample_owner]; pr_Method := "oidc" |}.

Definition sample_owners : option (Principal → outcome ResourceVisibility) :=
  Some OwnerAuthorizer_AuthorizeResourceList.

Definition sample_list (limit : Z) : ListResourcesRequest :=
  {| lr_Principal := sample_reader; lr_OwnerFilter := None; lr_TypeName := "";
     lr_TypeVersion := ""; lr_StateFilter := Some ResourceStateReady; lr_IncludeDeleted := false;
     lr_Limit := limit; lr_Cursor := "" |}.

Definition sample_visibility : ResourceVisibility :=
  ltac:(run (authorizeResourceList sample_owners sample_reader)).

(** Pages of two rows: the three resources, newest first. *)
Example sample_traversal :
  map ii_ID <$> match traverse sample_owners 4 (sample_list 2) sample_listed with
                | Ok items => Some items | _ => None end = Some ["r-3"; "r-2"; "r-1"].
Proof. vm_compute. reflexivity. Qed.

Lemma traversal_enumerates_witness :
  traverse sample_owners 4 (sample_list 2) sample_listed =
    Ok (inventory sample_listed (sample_list 2) sample_visibility).
Proof.
  refine (proj1 (traversal_enumerates sample_owners 4 sample_listed (sample_list 2)
    sample_visibility sample_inventoried _ _ _ _ _)).
  - vm_compute. reflexivity.
  - vm_compute. reflexivity.
  - split; vm_compute; discriminate.
  - reflexivity.
  - vm_compute. repeat constructor.
Defined.

Lemma cursor_roundtrip_witness :
  decodeResourceListCursor (encodeResourceListCursor (sample_list 2) sample_visibility 2)
    (sample_list 2) sample_visibility = Ok 2%N.
Proof.
  refine (cursor_roundtrip (sample_list 2) sample_visibility (sample_list 2) sample_visibility 2
    _ _ _ _ _ _ _ _).
  - reflexivity.
  - reflexivity.
  - split; [repeat constructor; reflexivity|reflexivity].
  - split; [repeat constructor; reflexivity|reflexivity].
  - reflexivity.
  - reflexivity.
  - reflexivity.
  - vm_compute. discriminate.
Defined.
