(* ===== verification/Idempotency.v ===== *)
(** * Admission is atomic, exactly once, and one operation at a time

    The guarantees of the flows of [Admission]: they are units of work the
    store keeps consistent; a bound idempotency key never creates anything
    again, and answers with the operation it recorded; an admitted request has
    everything a worker needs; and a resource never has two operations that
    have not ended. *)

From S2P Require Import Prelude Operation Values Resource Status Provisioning Records.
From S2P Require Import Engine Submission Outputs Contracts References Policy Text Work.
From S2P Require Import Encoding Identity Fingerprint Outbox Lifecycle Store History Rights Evidence Admission.
Open Scope string_scope.
Open Scope go_scope.

(** ** Requests *)

Inductive request :=
  | ReqCreate (cmd : CreateResourceCommand)
  | ReqExisting (r : existingRequest)
  | ReqRetry (cmd : RetryOperationCommand).

Definition request_actor (r : request) : Principal :=
  match r with
  | ReqCreate cmd => cc_Actor cmd
  | ReqExisting r => er_actor r
  | ReqRetry cmd => rc_Actor cmd
  end.

Definition request_key (r : request) : string :=
  match r with
  | ReqCreate cmd => cc_IdempotencyKey cmd
  | ReqExisting r => er_idempotencyKey r
  | ReqRetry cmd => rc_IdempotencyKey cmd
  end.

(** The key of the request's idempotency record. *)
Definition request_slot (r : request) : string :=
  idempotencyMapKey (idempotencyScope (request_actor r)) (request_key r).

Definition request_kind (r : request) : string :=
  match r with
  | ReqCreate _ => CapabilityCreate
  | ReqExisting r => er_capability r
  | ReqRetry _ => "retry"
  end.

Section requests.
Context {order : MapOrder} {ports : Ports}.

Definition serve (r : request) : tx AdmissionResult :=
  match r with
  | ReqCreate cmd => AdmitCreateResource cmd
  | ReqExisting r => AdmitExistingResource r
  | ReqRetry cmd => AdmitRetryOperation cmd
  end.

(** The unit of work of the request. *)
Definition request_unit (r : request) : tx AdmissionResult :=
  match r with
  | ReqCreate cmd => createUnit cmd
  | ReqExisting r => existingUnit r
  | ReqRetry cmd => retryUnit cmd
  end.

(** What its key is bound to. *)
Definition request_fingerprint (r : request) : outcome string :=
  match r with
  | ReqCreate cmd => createCommandFingerprint cmd
  | ReqExisting r => fingerprintForExistingRequest r
  | ReqRetry cmd => Ok (retryCommandFingerprint cmd)
  end.

(** ** They are scripted *)

(** Requests create operations, and never touch a submission attempt. *)
Definition request_rights : rights :=
  {| may_create := True; may_settle := True; may_move := λ _ _, False |}.

Lemma request_may_create : may_create request_rights.
Proof. done. Qed.

Lemma request_may_settle : may_settle request_rights.
Proof. done. Qed.

Lemma message_fresh w : fresh (message_of w).
Proof. destruct w; by split; [| |left|..]. Qed.

Lemma throw_scripted {A} may e : scripted may (throw e : tx A).
Proof. apply sc_pure. Qed.

Lemma deref_scripted {A} may (p : option A) : scripted may (deref p).
Proof. apply sc_pure. Qed.

Lemma Enqueue_scripted may w : scripted may (tx_Enqueue clock clock' (message_of w)).
Proof. apply sc_Enqueue, message_fresh. Qed.

Lemma Drive_scripted may id v : scripted may (tx_Enqueue clock clock' (DriveMessage id v)).
Proof. apply (Enqueue_scripted may (Drive id v)). Qed.
End requests.

Create HintDb scripted discriminated.
#[export] Hint Resolve throw_scripted deref_scripted Drive_scripted request_may_create
  request_may_settle : scripted.
#[export] Hint Constructors scripted : scripted.

(** Walk through a unit of work, case by case. *)
Ltac script :=
  repeat first
    [ progress cbv zeta
    | solve [eauto 2 with scripted nocore]
    | simple apply sc_bind; [|intros ? ? ? ?]
    | simple apply sc_handled
    | apply sc_ret
    | apply sc_read
    | apply sc_pure
    | case_match ].

Section scripted_requests.
Context {order : MapOrder} {ports : Ports}.

Lemma replayRecorded_scripted existing key : scripted request_rights (replayRecorded existing key).
Proof. unfold replayRecorded. script. Qed.
#[local] Hint Resolve replayRecorded_scripted : scripted.

Lemma unless_replayed_scripted scope key fingerprint kind m :
  scripted request_rights m →
  scripted request_rights (unless_replayed scope key fingerprint kind m).
Proof. intros Hm. unfold unless_replayed, replayWithin, attempted. by script. Qed.

Lemma persistWithExecution_scripted record transition execution scope key fingerprint kind :
  scripted request_rights (persistExistingTransitionWithExecution record transition execution scope key
              fingerprint kind).
Proof. unfold persistExistingTransitionWithExecution. script. Qed.
#[local] Hint Resolve persistWithExecution_scripted : scripted.

Lemma decidePolicy_scripted plan facts : scripted request_rights (decidePolicy plan facts).
Proof. unfold decidePolicy, reported, reported_as. script. Qed.
#[local] Hint Resolve decidePolicy_scripted : scripted.

Lemma createUnit_scripted cmd : scripted request_rights (createUnit cmd).
Proof.
  unfold createUnit. script. apply unless_replayed_scripted.
  unfold admitCreate, reported, reported_as, requireAbsent, quotaFacts, attempted,
    persistNewRequest, persistExistingTransition. script.
Qed.

Lemma existingUnit_scripted r : scripted request_rights (existingUnit r).
Proof.
  unfold existingUnit, reported, reported_as. script. apply unless_replayed_scripted.
  unfold admitExisting, requireUnprotected, effectiveDesired, updateRevision, reported,
    reported_as, persistExistingTransition. script.
Qed.

Lemma retryUnit_scripted cmd : scripted request_rights (retryUnit cmd).
Proof.
  unfold retryUnit, reported, reported_as. script. apply unless_replayed_scripted.
  unfold admitRetry, requireRetryable, recoveryExecution, recoveryMapping, reported,
    reported_as, attempted. script.
Qed.
End scripted_requests.

(** ** Successful runs *)

Lemma guard_run {A} (b : bool) e (k : tx A) s s' x :
  (if b then throw e else k) s = (s', Ok x) ↔ b = false ∧ k s = (s', Ok x).
Proof. destruct b; cbn; naive_solver. Qed.

Lemma reported_run {A} format e (m : tx A) s s' x :
  reported_as format e m s = (s', Ok x) ↔ m s = (s', Ok x).
Proof. unfold reported_as, handled. destruct (m s) as [t []]; naive_solver. Qed.

Lemma deref_run {A} (p : option A) s s' x : deref p s = (s', Ok x) ↔ s' = s ∧ p = Some x.
Proof. unfold deref. rewrite lift_run. destruct p; naive_solver. Qed.

Lemma attempted_run {A} (f : Store → outcome A) s s' x :
  attempted (reading f) s = (s', Ok x) →
  s' = s ∧ match x with inl y => f s = Ok y | inr e => f s = Err e end.
Proof. unfold attempted, handled, reading. destruct (f s); naive_solver. Qed.

(** Open the runs of the hypotheses, in the style of [ok_inv]. *)
Ltac tx_inv :=
  unfold reported in *;
  repeat match goal with
  | H : (_ ≫= _) _ = (_, Ok _) |- _ => apply bind_run in H as (? & ? & ? & H)
  | H : (if _ then throw _ else _) _ = (_, Ok _) |- _ => apply guard_run in H as [? H]
  | H : mret _ _ = (_, Ok _) |- _ => apply ret_run in H as [? ?]; subst
  | H : lift _ _ = (_, Ok _) |- _ => apply lift_run in H as [? ?]; subst
  | H : reading _ _ = (_, Ok _) |- _ => apply reading_run in H as [? ?]; subst
  | H : deref _ _ = (_, Ok _) |- _ => apply deref_run in H as [? ?]; subst
  | H : reported_as _ _ _ _ = (_, Ok _) |- _ => apply reported_run in H
  | H : throw _ _ = (_, Ok _) |- _ => apply lift_run in H as [_ H]; discriminate H
  | H : context [match ?x with pair _ _ => _ end] |- _ => is_var x; destruct x
  end.

Lemma found_run {A} e (o : option A) x : from_option Ok (Err e) o = Ok x ↔ o = Some x.
Proof. destruct o; cbn; naive_solver. Qed.

Lemma CreateOperation_run record s s' u :
  tx_CreateOperation record s = (s', Ok u) →
  let n := u64_incr (nextOperationSequence s) in
  let o := opr_Operation record in
  operations s !! op_id o = None ∧
  (op_retryOf o ≠ "" → retrySourceMatches (operations s !! op_retryOf o) o = true) ∧
  s' = s <| nextOperationSequence := n |>
         <| operations := <[op_id o :=
              {| opr_Operation := o; opr_Sequence := n;
                 opr_Version := if opr_Version record =? 0%N then 1%N
                                else opr_Version record |}]> (operations s) |>.
Proof.
  intros H. unfold tx_CreateOperation in H. cbv zeta in H. apply writing_run in H. cbn in H.
  ok_inv. split_and!.
  - by apply absent.
  - intros Hne. rewrite bool_decide_false in H0 by done. by apply negb_false_iff in H0.
  - by destruct (bool_decide (opr_Version record = 0%N)).
Qed.

Lemma Append_run event s s' u :
  tx_Append event s = (s', Ok u) →
  events s !! ev_id event = None ∧
  s' = s <| events := <[ev_id event := event]> (events s) |>.
Proof. unfold tx_Append. intros H%writing_run. ok_inv. by apply absent in H. Qed.

Lemma CreateExecution_run record s s' u :
  tx_CreateExecution record s = (s', Ok u) → pe_Version record ≠ 0%N →
  (pe_RecoverySourceOperationID record = "" → pe_RecoverySourceAttempt record = 0%N) ∧
  s' = s <| executions := <[pe_OperationID record := record]> (executions s) |>.
Proof.
  unfold tx_CreateExecution. intros H%writing_run Hv. cbv zeta in H. ok_inv.
  rewrite (bool_decide_false (pe_Version record = 0%N)) in * by done. split; [|done].
  intros Hid. bool_facts. destruct H0 as [He _]. rewrite Hid in He.
  by destruct (decide (pe_RecoverySourceAttempt record = 0%N)) as [|Hn];
    [|rewrite (bool_decide_false _ Hn) in He].
Qed.

Lemma PutIdempotency_run record s s' u :
  tx_PutIdempotency record s = (s', Ok u) →
  let k := idempotencyMapKey (ir_Scope record) (ir_Key record) in
  idempotency s !! k = None ∧ s' = s <| idempotency := <[k := record]> (idempotency s) |>.
Proof. unfold tx_PutIdempotency. intros H%writing_run. cbn in *. ok_inv. by apply absent in H. Qed.

Lemma on_messages_run f s s' u :
  on_messages f s = (s', Ok u) → ∃ o, f (messages s) = Ok o ∧ s' = s <| messages := o |>.
Proof. unfold on_messages. intros H%writing_run. ok_inv. eauto. Qed.

(** ** Computations that only read *)

Definition quiet {A} (m : tx A) : Prop := ∀ s, (m s).1 = s.

Lemma quiet_run {A} (m : tx A) s s' x : quiet m → m s = (s', x) → s' = s.
Proof. intros Hm H. specialize (Hm s). by rewrite H in Hm. Qed.

Lemma quiet_bind {A B} (m : tx A) (f : A → tx B) :
  quiet m → (∀ x, quiet (f x)) → quiet (m ≫= f).
Proof.
  intros Hm Hf s. specialize (Hm s). unfold mbind, tx_bind.
  destruct (m s) as [t []]; cbn in *; subst; [apply Hf|done..].
Qed.

Lemma quiet_handled {A B} (g : outcome A → outcome B) (m : tx A) : quiet m → quiet (handled g m).
Proof. intros Hm s. specialize (Hm s). unfold handled. by destruct (m s). Qed.

Lemma quiet_lift {A} (o : outcome A) : quiet (lift o).
Proof. by intros s. Qed.
Lemma quiet_ret {A} (x : A) : quiet (mret x).
Proof. by intros s. Qed.
Lemma quiet_reading {A} (f : Store → outcome A) : quiet (reading f).
Proof. by intros s. Qed.

Ltac quiet :=
  repeat first
    [ progress cbv zeta
    | simple apply quiet_bind; [|intros ?]
    | simple apply quiet_handled
    | apply quiet_ret
    | apply quiet_reading
    | apply quiet_lift
    | case_match ].

(** ** What an admitted request leaves behind *)

Section admitted.
Context {order : MapOrder} {ports : Ports}.

Definition key_record (record : ResourceRecord) (o : Operation)
    (scope key fingerprint kind : string) : IdempotencyRecord :=
  {| ir_Scope := scope; ir_Key := key; ir_Fingerprint := fingerprint; ir_CommandKind := kind;
     ir_ResourceID := res_id (rr_Resource record); ir_OperationID := op_id o |}.

Record persisted (record : ResourceRecord) (transition : Result)
    (execution : ProvisioningExecutionRecord) (scope key fingerprint kind : string)
    (s s' : Store) (res : AdmissionResult) : Prop := {
  ps_result : res = {| ar_Resource := record; ar_Operation := r_Operation transition;
    ar_Execution := execution; ar_Event := Some (r_Event transition); ar_Replay := false |};
  ps_new : operations s !! op_id (r_Operation transition) = None;
  ps_retry : op_retryOf (r_Operation transition) ≠ "" →
    retrySourceMatches (operations s !! op_retryOf (r_Operation transition))
      (r_Operation transition) = true;
  ps_operations : operations s' = <[op_id (r_Operation transition) :=
    {| opr_Operation := r_Operation transition;
       opr_Sequence := u64_incr (nextOperationSequence s); opr_Version := 1 |}]> (operations s);
  ps_sequence : nextOperationSequence s' = u64_incr (nextOperationSequence s);
  ps_events : events s' = <[ev_id (r_Event transition) := r_Event transition]> (events s);
  ps_provenance : pe_RecoverySourceOperationID execution = "" →
    pe_RecoverySourceAttempt execution = 0%N;
  ps_executions : executions s' = <[pe_OperationID execution := execution]> (executions s);
  ps_idempotency : idempotency s' =
    if key =? "" then idempotency s
    else <[idempotencyMapKey scope key :=
             key_record record (r_Operation transition) scope key fingerprint kind]>
           (idempotency s);
  ps_resources : resources s' = resources s;
  ps_attempts : attempts s' = attempts s;
  ps_drive : is_Some (messages s' !! om_ID (DriveMessage (op_id (r_Operation transition)) 1)) }.

Lemma Enqueue_stored o message now now' o' :
  outbox_inv o → om_DedupeKey message = om_ID message →
  Enqueue o (ranged o).*2 message now now' = Ok o' → is_Some (o' !! om_ID message).
Proof.
  unfold Enqueue. intros Hinv Hkey H.
  destruct (enqueueConflict message (ranged o).*2) as [[]|] eqn:Hc; [done|..].
  - injection H as <-.
    apply enqueueConflict_same in Hc as (n & Hn & Hd).
    rewrite ranged_values in Hn. apply list_elem_of_fmap in Hn as ([i n'] & -> & Hn').
    apply elem_of_map_to_list in Hn'. cbn in Hd. pose proof (iv_keyed _ Hinv _ _ Hn') as [_ Hi].
    exists n'. congruence.
  - injection H as <-. case_match; apply lookup_insert_is_Some'; by left.
Qed.

Lemma persist_run record transition execution scope key fingerprint kind s s' res :
  outbox_inv (messages s) → pe_Version execution ≠ 0%N →
  persistExistingTransitionWithExecution record transition execution scope key fingerprint
    kind s = (s', Ok res) →
  persisted record transition execution scope key fingerprint kind s s' res.
Proof.
  intros Hinv Hv H. unfold persistExistingTransitionWithExecution in H. tx_inv.
  match goal with H : tx_CreateOperation _ _ = _ |- _ =>
    apply CreateOperation_run in H as (Hnew & Hretry & ->) end.
  match goal with H : tx_Append _ _ = _ |- _ => apply Append_run in H as [_ ->] end.
  match goal with H : tx_CreateExecution _ _ = _ |- _ =>
    apply CreateExecution_run in H as [Hprov ->]; [|done] end.
  match goal with H : tx_Enqueue _ _ _ _ = _ |- _ =>
    apply on_messages_run in H as (o & Ho & ->) end.
  destruct (bool_decide_reflect (key = "")) as [->|Hk]; cbn in *; tx_inv.
  - apply Enqueue_stored in Ho; [|done..]. by split.
  - match goal with H : tx_PutIdempotency _ _ = _ |- _ =>
      apply PutIdempotency_run in H as [_ ->] end.
    apply Enqueue_stored in Ho; [|done..]. split; cbn; try done.
    by rewrite bool_decide_false.
Qed.

(** What the flows write before: rows of the request's resource and of its
    references. *)
Record prepared (id : ResourceID) (s s' : Store) : Prop := {
  pp_operations : operations s' = operations s;
  pp_sequence : nextOperationSequence s' = nextOperationSequence s;
  pp_events : events s' = events s;
  pp_executions : executions s' = executions s;
  pp_idempotency : idempotency s' = idempotency s;
  pp_attempts : attempts s' = attempts s;
  pp_messages : messages s' = messages s;
  pp_resources i : i ≠ id → resources s' !! i = resources s !! i }.

Lemma CreateResource_run record s s' u :
  tx_CreateResource record s = (s', Ok u) → rr_Version record ≠ 0%N →
  let id := res_id (rr_Resource record) in
  resources s !! id = None ∧ resources s' !! id = Some record ∧ prepared id s s'.
Proof.
  unfold tx_CreateResource. intros H%writing_run Hv. cbn in *. ok_inv. apply absent in H.
  rewrite bool_decide_false by done. cbn. split_and!; [done|by rewrite lookup_insert_eq|].
  split; try done. intros i Hi. cbn. by rewrite lookup_insert_ne.
Qed.

Lemma SaveResource_run record version s s' u :
  tx_SaveResource record version s = (s', Ok u) →
  let id := res_id (rr_Resource record) in
  (∃ current, resources s !! id = Some current ∧ rr_Version current = version) ∧
  resources s' !! id = Some (record <| rr_Version := u64_incr version |>) ∧ prepared id s s'.
Proof.
  unfold tx_SaveResource. intros H%writing_run. cbv zeta in *.
  destruct (resources s !! _) as [current|] eqn:Hc; [|done]. ok_inv.
  apply negb_false_iff, bool_decide_eq_true in H. cbn. split_and!; [eauto| |].
  - by rewrite lookup_insert_eq.
  - split; try done. intros i Hi. cbn. by rewrite lookup_insert_ne.
Qed.

Lemma ReplaceDesired_run source generation edges s s' u :
  tx_ReplaceDesiredReferences source generation edges s = (s', Ok u) →
  resources s' = resources s ∧ ∀ id, prepared id s s'.
Proof.
  unfold tx_ReplaceDesiredReferences. intros H%writing_run. ok_inv. by split.
Qed.

(** No operation of the resource has yet to end. *)
Definition idle (s : Store) (id : ResourceID) : Prop :=
  ∀ i p, operations s !! i = Some p → op_resourceID (opr_Operation p) = id →
    IsTerminal (opr_Operation p) = true.

Lemma ActiveForResource_run id s s' active :
  tx_ActiveForResource id s = (s', Ok active) →
  s' = s ∧ match active with
           | None => idle s id
           | Some a => IsTerminal (opr_Operation a) = false
           end.
Proof.
  unfold tx_ActiveForResource. intros H. apply reading_run in H as [-> H]. split; [done|].
  injection H as <-. set (active := λ r, of_resource id r && negb (IsTerminal (opr_Operation r)) = true).
  destruct (filter active (ranged (operations s)).*2) as [|a l] eqn:Hf; cbn.
  - intros i p Hp Hid. apply not_false_iff_true. intros Ht.
    assert (p ∈ filter active (ranged (operations s)).*2) as Hin.
    { apply list_elem_of_filter. split; [unfold active, of_resource; by rewrite Ht, bool_decide_true|].
      rewrite ranged_values. apply list_elem_of_fmap. exists (i, p). split; [done|].
      by apply elem_of_map_to_list. }
    rewrite Hf in Hin. by apply not_elem_of_nil in Hin.
  - assert (a ∈ filter active (ranged (operations s)).*2) as [Ha _]%list_elem_of_filter
      by (rewrite Hf; by left).
    unfold active in Ha. by apply andb_true_iff in Ha as [_ ?%negb_true_iff].
Qed.

(** The operation was the last one created for the resource. *)
Definition last_created (s : Store) (id : ResourceID) (last : OperationRecord) : Prop :=
  operations s !! op_id (opr_Operation last) = Some last ∧
  op_resourceID (opr_Operation last) = id ∧
  ∀ k o, operations s !! k = Some o → op_resourceID (opr_Operation o) = id →
    (opr_Sequence o ≤ opr_Sequence last)%N.

Lemma latestTurn_spec id l latest :
  (∀ x, latest = Some x → of_resource id x = true) →
  match foldl (latestTurn id) latest l with
  | None => latest = None ∧ ∀ r, r ∈ l → of_resource id r = false
  | Some last => (last ∈ l ∨ latest = Some last) ∧ of_resource id last = true ∧
      ∀ r, r ∈ l ∨ latest = Some r → of_resource id r = true →
        (opr_Sequence r ≤ opr_Sequence last)%N
  end.
Proof.
  revert latest. induction l as [|r l IH]; intros latest Hof; cbn [foldl].
  - destruct latest as [x|]; [|by split; [|intros ? ?%not_elem_of_nil]].
    split_and!; [by right|by apply Hof|]. by intros y [?%not_elem_of_nil|[= ->]] _.
  - assert (latestTurn id latest r = latest ∧
        (of_resource id r = true → ∃ x, latest = Some x ∧ (opr_Sequence r ≤ opr_Sequence x)%N) ∨
      latestTurn id latest r = Some r ∧ of_resource id r = true ∧
        ∀ x, latest = Some x → (opr_Sequence x ≤ opr_Sequence r)%N) as Hturn.
    { unfold latestTurn. destruct (of_resource id r); cbn; [|by left].
      destruct latest as [x|]; [|by right]. destruct (N.ltb_spec (opr_Sequence x) (opr_Sequence r)).
      - right. split_and!; [done..|]. intros ? [= <-]. lia.
      - left. split; [done|]. by exists x. }
    destruct Hturn as [[-> Hr]|(-> & Hr & Hle)].
    + specialize (IH latest Hof). destruct (foldl _ _ _) as [last|].
      * destruct IH as (Hin & Hl & Hmax). split_and!; [set_solver|done|].
        intros y [[->|?]%elem_of_cons|?] Hy; [|by apply Hmax; [left|]|by apply Hmax; [right|]].
        destruct (Hr Hy) as (x & Hx & ?). specialize (Hmax x (or_intror Hx) (Hof _ Hx)). lia.
      * destruct IH as [-> Hnone]. split; [done|]. intros y [->|?]%elem_of_cons; [|by apply Hnone].
        apply not_true_iff_false. by intros (? & [=] & _)%Hr.
    + specialize (IH (Some r)). destruct (foldl _ _ _) as [last|].
      * destruct IH as (Hin & Hl & Hmax); [by intros ? [= <-]|]. split_and!; [set_solver|done|].
        intros y [[->|?]%elem_of_cons|Hy] Hofy; [by apply Hmax; [right|]|by apply Hmax; [left|]|].
        specialize (Hle _ Hy). specialize (Hmax r (or_intror eq_refl) Hr). lia.
      * by destruct IH as [? _]; [intros ? [= <-]|].
Qed.

Lemma LatestForResource_run id s s' latest :
  (∀ k o, operations s !! k = Some o → op_id (opr_Operation o) = k) →
  tx_LatestForResource id s = (s', Ok latest) →
  s' = s ∧ ∀ last, latest = Some last → last_created s id last.
Proof.
  intros Hkeys H. apply reading_run in H as [-> [= <-]]. split; [done|]. intros last Hlast.
  pose proof (latestTurn_spec id (ranged (operations s)).*2 None) as Hspec. rewrite Hlast in Hspec.
  destruct Hspec as ([Hin|] & Hof & Hmax); [done| |done].
  rewrite ranged_values in Hin. apply list_elem_of_fmap in Hin as ([k last'] & -> & Hin).
  apply elem_of_map_to_list in Hin. cbn in *. rewrite <- (Hkeys _ _ Hin) in Hin.
  apply bool_decide_eq_true in Hof. split_and!; [done..|]. intros i o Ho Hid. apply Hmax.
  - left. rewrite ranged_values. apply list_elem_of_fmap. exists (i, o). split; [done|].
    by apply elem_of_map_to_list.
  - by apply bool_decide_eq_true.
Qed.

(** ** What the engine and the stamp contribute *)

Lemma NewEvent_fields id rid oid gen T reason message at_ e :
  NewEvent id rid oid gen T reason message at_ = Ok e → ev_id e = id ∧ ev_operationID e = oid.
Proof. unfold NewEvent. intros. by ok_inv. Qed.

Lemma Request_facts r rt st latest capability opID evID at_ res :
  Engine_Request r rt st latest capability opID evID at_ = Ok res →
  let o := r_Operation res in
  op_id o = opID ∧ op_resourceID o = res_id r ∧ op_capability o = capability ∧
  IsTerminal o = false ∧ ev_operationID (r_Event res) = op_id o ∧
  (∀ l, latest = Some l → IsTerminal l = true) ∧
  (op_targetGeneration o = res_generation r ∨
   ∃ l, latest = Some l ∧ op_targetGeneration o = op_targetGeneration l).
Proof.
  intros H. assert (ev_operationID (r_Event res) = op_id (r_Operation res)) as Hev.
  { unfold Engine_Request in H. ok_inv.
    match goal with H : NewEvent _ _ _ _ _ _ _ _ = _ |- _ =>
      apply NewEvent_fields in H as [_ H]; exact H end. }
  apply Request_inv in H as (retry & retryOf & target & [_ _ _ _ Htarget _ _] & Hnew & _).
  apply new_operation_facts in Hnew as (_ & ? & ? & Hgen & _ & ? & _ & ?). split_and!; try done.
  - intros l ->. unfold requestTarget in Htarget. ok_inv. by apply negb_false_iff.
  - rewrite Hgen. apply requestTarget_ok in Htarget as [(_ & _ & ->)|(l & -> & _ & _ & _ & _ & ->)];
      [by left|right; eauto].
Qed.

Definition stamp (principal : Principal) : EventActor :=
  {| actor_ID := TrimSpace (pr_ID principal); actor_Kind := TrimSpace (pr_Kind principal) |}.

Lemma stampedAdmissionEvent_facts transition principal revision event :
  stampedAdmissionEvent transition principal revision = Ok event →
  ev_id event = ev_id (r_Event transition) ∧
  ev_operationID event = ev_operationID (r_Event transition) ∧
  ev_actor event = Some (stamp principal).
Proof.
  unfold stampedAdmissionEvent, WithActor. intros H. ok_inv.
  case_if_in H0; [by ok_inv|]. unfold WithAdmissionPolicyRevision in H0. by ok_inv.
Qed.

(** ** The effect of a request that was admitted *)

(** The row of the resource and the operation come from the engine: a new
    resource begins its lifecycle; a stored one, perhaps with another spec, is
    given another operation, which may refer to the one created last. *)
Inductive engine_admitted (s : Store) (record : ResourceRecord) (o : Operation) : Prop :=
  | ea_created rt :
      resources s !! res_id (rr_Resource record) = None →
      created rt {| w_resource := rr_Resource record; w_status := rr_Status record;
                    w_latest := o |} →
      engine_admitted s record o
  | ea_requested rt stored latest capability opID evID at_ t :
      resources s !! res_id (rr_Resource record) = Some stored →
      (rr_Resource record = rr_Resource stored ∨
       ∃ spec at_, UpdateSpec (rr_Resource stored) spec at_ = Ok (rr_Resource record)) →
      Engine_Request (rr_Resource record) rt (rr_Status stored) latest capability opID evID at_ =
        Ok t →
      rr_Status record = r_Status t → o = r_Operation t →
      (∀ l, latest = Some l → op_targetGeneration l = res_generation (rr_Resource record) ∧
         ∃ last, opr_Operation last = l ∧
           last_created s (res_id (rr_Resource record)) last) →
      engine_admitted s record o.

Record admitted (r : request) (s s' : Store) (res : AdmissionResult) : Prop := {
  ad_new : operations s !! op_id (ar_Operation res) = None;
  ad_operations : operations s' = <[op_id (ar_Operation res) :=
    {| opr_Operation := ar_Operation res;
       opr_Sequence := u64_incr (nextOperationSequence s); opr_Version := 1 |}]> (operations s);
  ad_active : IsTerminal (ar_Operation res) = false;
  ad_idle : idle s (op_resourceID (ar_Operation res));
  ad_resource : op_resourceID (ar_Operation res) = res_id (rr_Resource (ar_Resource res)) ∧
    resources s' !! op_resourceID (ar_Operation res) = Some (ar_Resource res) ∧
    (∀ i, i ≠ op_resourceID (ar_Operation res) → resources s' !! i = resources s !! i);
  ad_target stored : resources s !! op_resourceID (ar_Operation res) = Some stored →
    resourceTargetOf (ar_Resource res) = resourceTargetOf stored;
  ad_context : specsEqual (res_spec (rr_Resource (ar_Resource res)))
                 (res_spec (rr_Resource (ar_Resource res))) = true →
    validateExecutionContext (ar_Resource res) (ar_Operation res) (ar_Execution res) = Ok tt;
  ad_outcome : replayNeedsEvidence (ar_Operation res) (ar_Execution res) = false;
  ad_execution : pe_OperationID (ar_Execution res) = op_id (ar_Operation res) ∧
    pe_CurrentAttempt (ar_Execution res) = 0%N ∧
    executions s' = <[op_id (ar_Operation res) := ar_Execution res]> (executions s);
  ad_event : ∃ event, ar_Event res = Some event ∧
    events s' = <[ev_id event := event]> (events s) ∧
    ev_operationID event = op_id (ar_Operation res) ∧
    ev_actor event = Some (stamp (request_actor r));
  ad_drive : is_Some (messages s' !! om_ID (DriveMessage (op_id (ar_Operation res)) 1));
  ad_attempts : attempts s' = attempts s;
  ad_engine : engine_admitted s (ar_Resource res) (ar_Operation res);
  ad_sequence : nextOperationSequence s' = u64_incr (nextOperationSequence s) }.

(** The key of an admitted request is bound to its operation. *)
Definition key_bound (r : request) (fingerprint kind : string) (s' : Store)
    (res : AdmissionResult) : Prop :=
  request_key r ≠ "" → idempotency s' !! request_slot r =
    Some (key_record (ar_Resource res) (ar_Operation res) (idempotencyScope (request_actor r))
            (request_key r) fingerprint kind).

(** The execution suits the resource and the operation. *)
Definition suits (record : ResourceRecord) (o : Operation)
    (execution : ProvisioningExecutionRecord) : Prop :=
  op_resourceID o = res_id (rr_Resource record) ∧ pe_OperationID execution = op_id o ∧
  pe_ResourceID execution = res_id (rr_Resource record) ∧
  pe_ResourceType execution = res_type (rr_Resource record) ∧
  pe_Capability execution = op_capability o ∧
  pe_TargetGeneration execution = op_targetGeneration o ∧
  pe_ProvisionerRef execution = rr_ProvisionerRef record ∧
  (pe_Spec execution = res_spec (rr_Resource record) ∨
   specsEqual (pe_Spec execution) (res_spec (rr_Resource record)) = true) ∧
  (pe_State execution = AttemptPending ∨ pe_RecoverySourceAttempt execution ≠ 0%N) ∧
  pe_CurrentAttempt execution = 0%N.

Lemma suits_context record o execution :
  suits record o execution →
  specsEqual (res_spec (rr_Resource record)) (res_spec (rr_Resource record)) = true →
  validateExecutionContext record o execution = Ok tt.
Proof.
  intros (Ho & Hi & Hr & Ht & Hc & Hg & Hp & Hs & _) Hrefl. unfold validateExecutionContext.
  assert (specsEqual (pe_Spec execution) (res_spec (rr_Resource record)) = true) as ->
    by by destruct Hs as [->|].
  rewrite andb_false_r, Hi, Hr, Ht, Hc, Hg, Hp. by rewrite Ho, !(bool_decide_true (_ = _)) by done.
Qed.

Lemma suits_outcome record o execution :
  suits record o execution →
  (pe_RecoverySourceOperationID execution = "" → pe_RecoverySourceAttempt execution = 0%N) →
  IsTerminal o = false → replayNeedsEvidence o execution = false.
Proof.
  intros (_ & _ & _ & _ & _ & _ & _ & _ & Hst & _) Hprov Ht. unfold replayNeedsEvidence.
  rewrite Ht. cbn. destruct Hst as [-> |Hn]; [by rewrite andb_false_r|].
  unfold IsOutputRecovery. by rewrite !bool_decide_false by auto.
Qed.

Lemma pending_suits record o :
  op_resourceID o = res_id (rr_Resource record) → suits record o (pendingExecution record o).
Proof. intros Ho. unfold suits, pendingExecution. cbn. split_and!; try done; by left. Qed.

(** The flows end alike: rows are prepared, then the transition is persisted. *)
Lemma persisted_admitted r record transition execution fingerprint kind s s0 s' res :
  persisted record transition execution (idempotencyScope (request_actor r)) (request_key r)
    fingerprint kind s0 s' res →
  prepared (res_id (rr_Resource record)) s s0 →
  resources s0 !! res_id (rr_Resource record) = Some record →
  (∀ stored, resources s !! res_id (rr_Resource record) = Some stored →
     resourceTargetOf record = resourceTargetOf stored) →
  idle s (res_id (rr_Resource record)) →
  suits record (r_Operation transition) execution →
  engine_admitted s record (r_Operation transition) →
  IsTerminal (r_Operation transition) = false →
  ev_operationID (r_Event transition) = op_id (r_Operation transition) →
  ev_actor (r_Event transition) = Some (stamp (request_actor r)) →
  ar_Replay res = false ∧ admitted r s s' res ∧ key_bound r fingerprint kind s' res.
Proof.
  intros [-> Hnew _ Hops Hseq Hevs Hprov Hexs Hidem Hres Hatt Hdrive] [] Hrec Htarget Hidle Hsuits Hengine Hact Hoid Hactor.
  pose proof (suits_context _ _ _ Hsuits) as Hctx.
  pose proof (suits_outcome _ _ _ Hsuits Hprov Hact) as Hout.
  destruct Hsuits as (Hrid & Hpe & _ & _ & _ & _ & _ & _ & _ & Hcur).
  split_and!; [done|split; cbn|].
  - congruence.
  - rewrite Hops. congruence.
  - done.
  - by rewrite Hrid.
  - rewrite Hres, Hrid. split_and!; [done..|]. apply pp_resources0.
  - by rewrite Hrid.
  - done.
  - done.
  - split_and!; [done..|]. rewrite Hexs, Hpe. congruence.
  - exists (r_Event transition). split_and!; [done| |done|done]. rewrite Hevs. congruence.
  - done.
  - congruence.
  - done.
  - congruence.
  - intros Hk. rewrite Hidem, bool_decide_false by done. by rewrite lookup_insert_eq.
Qed.

(** ** What only reads *)

Lemma requireAbsent_quiet cmd : quiet (requireAbsent cmd).
Proof. unfold requireAbsent. quiet. Qed.
Lemma quotaFacts_quiet cmd plan : quiet (quotaFacts cmd plan).
Proof. unfold quotaFacts, attempted. quiet. Qed.
Lemma decidePolicy_quiet plan facts : quiet (decidePolicy plan facts).
Proof. unfold decidePolicy, reported, reported_as. quiet. Qed.
Lemma requireUnprotected_quiet r id : quiet (requireUnprotected r id).
Proof. unfold requireUnprotected. quiet. Qed.
Lemma effectiveDesired_quiet r contract resource : quiet (effectiveDesired r contract resource).
Proof. unfold effectiveDesired. quiet. Qed.
Lemma updateRevision_quiet r resource : quiet (updateRevision r resource).
Proof. unfold updateRevision, decidePolicy, reported, reported_as. quiet. Qed.
Lemma requireRetryable_quiet cmd record failed : quiet (requireRetryable cmd record failed).
Proof. unfold requireRetryable. quiet. Qed.
Lemma recoveryMapping_quiet source : quiet (recoveryMapping source).
Proof. unfold recoveryMapping, attempted. quiet. Qed.
Lemma recoveryExecution_quiet record o source : quiet (recoveryExecution record o source).
Proof.
  unfold recoveryExecution, recoveryMapping, reported_as, attempted. quiet.
Qed.
Lemma lock_quiet (b : bool) format e owner :
  quiet (if b then reported_as format e (tx_LockOwnerQuota owner) else mret tt).
Proof. unfold reported_as. quiet. Qed.
Lemma targets_quiet (b : bool) actor owner contract edges source targets :
  quiet (if b then tx_validateReferenceTargets actor owner contract edges ≫= λ _,
                   tx_DetectDependencyCycle source targets else mret tt).
Proof. quiet. Qed.

(** The stores before and after the quiet runs of the hypotheses are the same. *)
Ltac settle :=
  repeat match goal with
  | H : ?m ?s = (?t, _) |- _ =>
      is_var t; assert_fails (constr_eq s t);
      let Hq := fresh in
      assert (quiet m) as Hq by
        first [ apply requireAbsent_quiet | apply quotaFacts_quiet | apply decidePolicy_quiet
              | apply requireUnprotected_quiet | apply effectiveDesired_quiet
              | apply updateRevision_quiet | apply requireRetryable_quiet
              | apply recoveryExecution_quiet | apply lock_quiet | apply targets_quiet ];
      pose proof (quiet_run _ _ _ _ Hq H); clear Hq; subst t
  end.

Lemma initialTransition_facts cmd contract resource transition :
  initialTransition cmd contract = Ok (resource, transition) →
  let o := r_Operation transition in
  res_id resource = cc_ID cmd ∧ res_spec resource = cc_Spec cmd ∧
  op_resourceID o = cc_ID cmd ∧
  op_id o = cc_OperationID cmd ∧ op_capability o = CapabilityCreate ∧
  IsTerminal o = false ∧ ev_operationID (r_Event transition) = op_id o ∧
  (∀ s record, rr_Resource record = resource → rr_Status record = r_Status transition →
     resources s !! res_id resource = None → engine_admitted s record o).
Proof.
  unfold initialTransition. intros H. ok_inv.
  assert (∀ s record, rr_Resource record = resource → rr_Status record = r_Status transition →
    resources s !! res_id resource = None → engine_admitted s record (r_Operation transition))
    as Hengine.
  { intros s record Hr Hs Hnone.
    match goal with H : Engine_Request _ _ _ _ _ _ _ _ = _ |- _ =>
      pose proof (Request_inv _ _ _ _ _ _ _ _ _ H) as (? & ? & ? & [Hctx _ _ _ _ _ _] & _) end.
    apply validateResourceContext_ok in Hctx as [Htype _].
    apply (ea_created _ _ _ (ct_Domain contract)); rewrite Hr, ?Hs; [done|].
    econstructor; [|done..].
    match goal with H : NewResource _ _ _ _ _ = _ |- _ =>
      pose proof H as Hn; apply NewResource_ok in Hn as (-> & _) end.
    cbn in Htype. by rewrite <- Htype. }
  match goal with H : NewResource _ _ _ _ _ = _ |- _ => apply NewResource_ok in H as (-> & _) end.
  match goal with H : Engine_Request _ _ _ _ _ _ _ _ = _ |- _ =>
    apply Request_facts in H as (? & ? & ? & ? & ? & _ & _) end.
  by split_and!.
Qed.

Lemma requireAbsent_run cmd s s' u : requireAbsent cmd s = (s', Ok u) → idle s (cc_ID cmd).
Proof.
  unfold requireAbsent. intros H. tx_inv.
  match goal with H : tx_LockResourceID _ _ = _ |- _ => unfold tx_LockResourceID in H end. tx_inv.
  match goal with H : tx_ActiveForResource _ _ = _ |- _ =>
    apply ActiveForResource_run in H as [-> Hidle] end.
  case_match; by tx_inv.
Qed.

#[local] Instance prepared_trans id : Transitive (prepared id).
Proof.
  intros s1 s2 s3 [] []. split; try congruence. intros i Hi. by rewrite pp_resources1, pp_resources0.
Qed.

Lemma admitCreate_run cmd fingerprint s s' res :
  integrity s → admitCreate cmd (idempotencyScope (cc_Actor cmd)) fingerprint s = (s', Ok res) →
  ar_Replay res = false ∧ admitted (ReqCreate cmd) s s' res ∧
  key_bound (ReqCreate cmd) fingerprint CapabilityCreate s' res.
Proof.
  intros Hi H. unfold admitCreate in H. tx_inv. settle.
  match goal with H : initialTransition _ _ = _ |- _ =>
    apply initialTransition_facts in H as (Hid & _ & Hrid & _ & Hcap & Hterm & Hoid & Hengine) end.
  match goal with H : stampedAdmissionEvent _ _ _ = _ |- _ =>
    apply stampedAdmissionEvent_facts in H as (_ & Heid & Hactor) end.
  match goal with H : requireAbsent _ _ = _ |- _ => apply requireAbsent_run in H end.
  unfold persistNewRequest, persistExistingTransition in H. tx_inv.
  match goal with H : tx_CreateResource _ _ = _ |- _ =>
    apply CreateResource_run in H as (Hnone & Hrec & Hprep); [|done] end.
  match goal with H : tx_ReplaceDesiredReferences _ _ _ _ = _ |- _ =>
    apply ReplaceDesired_run in H as [Hres Hprep'] end.
  apply persist_run in H; [|by rewrite (pp_messages _ _ _ (Hprep' "")),
    (pp_messages _ _ _ Hprep); apply reachable_inv, Hi|done].
  cbn in H. rewrite Hcap in H.
  eapply persisted_admitted; [exact H|by etrans|..]; cbn in *; try congruence.
  - by rewrite Hid.
  - apply pending_suits. cbn. congruence.
  - by apply Hengine.
Qed.

Lemma updatedResource_facts request contract resource resource' :
  updatedResource request contract resource = Ok resource' →
  res_id resource' = res_id resource ∧ res_type resource' = res_type resource ∧
  res_owner resource' = res_owner resource ∧
  (resource' = resource ∨ ∃ spec at_, UpdateSpec resource spec at_ = Ok resource').
Proof.
  unfold updatedResource. destruct (er_spec request); intros H; ok_inv; [|by split_and!; try left].
  match goal with H : UpdateSpec _ _ _ = _ |- _ =>
    pose proof H as Hu; apply UpdateSpec_ok in H as (_ & _ & _ & ->) end.
  split_and!; [done..|]. right. eauto.
Qed.

Lemma replaceDesired_prepared (b : bool) id generation edges s s' u i :
  (if b then tx_ReplaceDesiredReferences id generation edges else mret tt) s = (s', Ok u) →
  resources s' = resources s ∧ prepared i s s'.
Proof.
  intros H. destruct b; [|by tx_inv].
  apply ReplaceDesired_run in H as [Hr Hp]. split; [done|apply Hp].
Qed.

Lemma lookup_run {A} (table : Store → gmap string A) e id s s' x :
  reading (λ s, from_option Ok (Err e) (table s !! id)) s = (s', Ok x) →
  s' = s ∧ table s !! id = Some x.
Proof. intros H. apply reading_run in H as [-> H]. split; [done|]. by apply found_run in H. Qed.

Ltac lookups :=
  repeat match goal with
  | H : tx_GetResource _ _ = (_, Ok _) |- _ => apply lookup_run in H as [? H]; subst
  | H : tx_LookupResource _ _ = (_, Ok _) |- _ => apply lookup_run in H as [? H]; subst
  | H : tx_GetOperation _ _ = (_, Ok _) |- _ => apply lookup_run in H as [? H]; subst
  | H : tx_LookupOperation _ _ = (_, Ok _) |- _ => apply lookup_run in H as [? H]; subst
  | H : tx_GetExecution _ _ = (_, Ok _) |- _ => apply lookup_run in H as [? H]; subst
  end.

Lemma admitExisting_run r preflight fingerprint s s' res :
  integrity s →
  admitExisting r preflight (idempotencyScope (er_actor r)) fingerprint s = (s', Ok res) →
  ar_Replay res = false ∧ admitted (ReqExisting r) s s' res ∧
  key_bound (ReqExisting r) fingerprint (er_capability r) s' res.
Proof.
  intros Hi H. unfold admitExisting in H. tx_inv. settle. lookups. settle.
  match goal with H : updatedResource _ _ _ = _ |- _ =>
    apply updatedResource_facts in H as (Hid & Htype & Howner & Hupdate) end.
  match goal with H : Engine_Request _ _ _ _ _ _ _ _ = _ |- _ =>
    pose proof H as Hrequest; apply Request_facts in H as (Hop & Hrid & Hcap & Hterm & Hoid & Hlatest & Hgen) end.
  match goal with H : stampedAdmissionEvent _ _ _ = _ |- _ =>
    apply stampedAdmissionEvent_facts in H as (_ & Heid & Hactor) end.
  match goal with H : resources s !! er_id r = Some ?stored |- _ =>
    pose proof (in_resources _ Hi _ _ H) as Hstored end.
  match goal with H : tx_ActiveForResource _ _ = _ |- _ =>
    apply ActiveForResource_run in H as [-> Hactive] end.
  match type of Hactive with match ?a with _ => _ end => destruct a as [active|] end.
  { exfalso. specialize (Hlatest _ eq_refl). congruence. }
  match goal with H : tx_SaveResource _ _ _ = _ |- _ =>
    apply SaveResource_run in H as (_ & Hrec & Hprep) end.
  cbn in Hrec, Hprep.
  match goal with H : (if _ then tx_ReplaceDesiredReferences _ _ _ else _) _ = _ |- _ =>
    apply (replaceDesired_prepared _ _ _ _ _ _ _ (res_id x14)) in H as [Hres Hprep'] end.
  unfold persistExistingTransition in H.
  apply persist_run in H; [|by rewrite (pp_messages _ _ _ Hprep'),
    (pp_messages _ _ _ Hprep); apply reachable_inv, Hi|done].
  eapply persisted_admitted; [exact H|cbn; by etrans|..]; cbn; try congruence.
  - rewrite Hid, Hstored. intros stored Hst. unfold resourceTargetOf. cbn. congruence.
  - by rewrite Hid, Hstored.
  - by apply pending_suits.
  - match goal with H : resources s !! er_id r = Some _ |- _ => rewrite <- Hstored, <- Hid in H end.
    by eapply ea_requested.
Qed.

Lemma validateOutputRecoveryAdmission_run o source attempt u :
  validateOutputRecoveryAdmission o source attempt = Ok u → pe_CurrentAttempt source ≠ 0%N.
Proof. unfold validateOutputRecoveryAdmission. intros H. ok_inv. bool_facts. by destruct_and!. Qed.

(** The retry carries out what its source did. *)
Lemma recoveryExecution_run record o source s s' child :
  recoveryExecution record o source s = (s', Ok child) →
  pe_Version child = 1%N ∧ pe_CurrentAttempt child = 0%N ∧
  (pe_State child = AttemptPending ∨ pe_RecoverySourceAttempt child ≠ 0%N) ∧
  pe_ProvisionerRef child = pe_ProvisionerRef source ∧
  pe_ResourceID child = pe_ResourceID source ∧ pe_ResourceType child = pe_ResourceType source ∧
  pe_Capability child = pe_Capability source ∧
  pe_TargetGeneration child = pe_TargetGeneration source ∧ pe_Spec child = pe_Spec source.
Proof.
  unfold recoveryExecution. intros H. destruct (outputRecoveryFailure o).
  - tx_inv. case_match; tx_inv.
    match goal with H : validateOutputRecoveryAdmission _ _ _ = _ |- _ =>
      apply validateOutputRecoveryAdmission_run in H end.
    split_and!; try done. by right.
  - tx_inv. split_and!; try done. by left.
Qed.

Lemma validateRetryProvenance_run record o source u :
  validateRetryProvenance record o source = Ok u →
  pe_ResourceID source = res_id (rr_Resource record) ∧
  pe_ResourceType source = res_type (rr_Resource record) ∧
  pe_Capability source = op_capability o ∧ pe_TargetGeneration source = op_targetGeneration o ∧
  pe_ProvisionerRef source = rr_ProvisionerRef record ∧
  specsEqual (pe_Spec source) (res_spec (rr_Resource record)) = true.
Proof.
  unfold validateRetryProvenance. intros H. ok_inv. bool_facts. by destruct_and!.
Qed.

Lemma requireRetryable_run cmd record failed s s' u :
  (∀ k o, operations s !! k = Some o → op_id (opr_Operation o) = k) →
  operations s !! op_id (opr_Operation failed) = Some failed →
  requireRetryable cmd record failed s = (s', Ok u) →
  last_created s (res_id (rr_Resource record)) failed ∧
  idle s (res_id (rr_Resource record)) ∧
  op_resourceID (opr_Operation failed) = res_id (rr_Resource record) ∧
  res_generation (rr_Resource record) = rc_ExpectedGeneration cmd ∧
  op_state (opr_Operation failed) = OperationStateFailed ∧
  op_targetGeneration (opr_Operation failed) = res_generation (rr_Resource record).
Proof.
  unfold requireRetryable. intros Hkeys Hfailed H. tx_inv. bool_facts.
  match goal with H : tx_ActiveForResource _ _ = _ |- _ =>
    apply ActiveForResource_run in H as [-> Hidle] end.
  case_match; tx_inv. bool_facts.
  match goal with H : tx_LatestForResource _ _ = _ |- _ =>
    apply LatestForResource_run in H as [-> Hlast]; [|done] end.
  split_and!; try done.
  match goal with H : non_nil ?l _ = _ |- _ => destruct l as [last|]; [|done]; cbn in H end.
  bool_facts. destruct_and!. destruct (Hlast last eq_refl) as (Hlo & ?).
  assert (last = failed) as <- by congruence. done.
Qed.

Lemma admitRetry_run cmd preflight preflightResource fingerprint s s' res :
  integrity s →
  admitRetry cmd preflight preflightResource (idempotencyScope (rc_Actor cmd)) fingerprint s =
    (s', Ok res) →
  ar_Replay res = false ∧ admitted (ReqRetry cmd) s s' res ∧
  key_bound (ReqRetry cmd) fingerprint "retry" s' res.
Proof.
  intros Hi H. unfold admitRetry in H. tx_inv. settle. lookups. settle.
  match goal with H : requireRetryable _ _ _ _ = _ |- _ =>
    apply requireRetryable_run in H as (Hlast & Hidle & Hown & _ & _ & Htarget);
      [|by apply Hi|match goal with Ho : operations s !! _ = Some _ |- _ =>
                      by rewrite (in_operations _ Hi _ _ Ho) end] end.
  match goal with H : attempted _ _ = _ |- _ => apply attempted_run in H as [-> Hex] end.
  case_match; [|by tx_inv]. tx_inv. settle.
  match goal with H : recoveryExecution _ _ _ _ = _ |- _ =>
    apply recoveryExecution_run in H as (Hver & Hcur & Hstate & Hinherits) end.
  match goal with H : validateRetryProvenance _ _ _ = _ |- _ =>
    apply validateRetryProvenance_run in H as Hprov end.
  match goal with H : Engine_Request _ _ _ _ _ _ _ _ = _ |- _ =>
    pose proof H as Hrequest; apply Request_facts in H as (Hop & Hrid & Hcap & Hterm & Hoid & Hlatest & Hgen) end.
  match goal with H : stampedAdmissionEvent _ _ _ = _ |- _ =>
    apply stampedAdmissionEvent_facts in H as (_ & Heid & Hactor) end.
  match goal with H : tx_SaveResource _ _ _ = _ |- _ =>
    apply SaveResource_run in H as (_ & Hrec & Hprep) end.
  cbn in Hrec, Hprep.
  apply persist_run in H; [|by rewrite (pp_messages _ _ _ Hprep); apply reachable_inv, Hi|].
  2:{ cbn. by rewrite Hver. }
  destruct_and!.
  eapply persisted_admitted; [exact H|done|..]; cbn; try (done || congruence).
  - match goal with H : resources s !! _ = Some _ |- _ =>
      pose proof (in_resources _ Hi _ _ H) as Hstored end.
    intros stored Hst. unfold resourceTargetOf. cbn. congruence.
  - unfold suits. cbn -[specsEqual]. split_and!; try (done || congruence); [|right; congruence].
    destruct Hgen as [?|(l & [= <-] & ?)]; congruence.
  - match goal with H : resources s !! _ = Some _ |- engine_admitted _ _ _ =>
      pose proof H as Hr; rewrite <- (in_resources _ Hi _ _ H) in Hr end.
    eapply ea_requested; [exact Hr|by left|exact Hrequest|done..|].
    intros l [= <-]. by eauto.
Qed.

(** ** Replays *)

(** The answer is the recorded one of a key. *)
Record replayed (rec : IdempotencyRecord) (s : Store) (res : AdmissionResult) : Prop := {
  rp_replay : ar_Replay res = true;
  rp_operation : op_id (ar_Operation res) = ir_OperationID rec;
  rp_resource : res_id (rr_Resource (ar_Resource res)) = ir_ResourceID rec;
  rp_owner : op_resourceID (ar_Operation res) = ir_ResourceID rec;
  rp_stored : (∃ o, operations s !! ir_OperationID rec = Some o ∧
                    opr_Operation o = ar_Operation res) ∧
    resources s !! ir_ResourceID rec = Some (ar_Resource res) ∧
    executions s !! ir_OperationID rec = Some (ar_Execution res) }.

Lemma replayRecorded_run existing key s s' res :
  replayRecorded existing key s = (s', Ok res) → s' = s ∧ replayed existing s res.
Proof.
  unfold replayRecorded. intros H. tx_inv. lookups. bool_facts.
  match goal with H : (if replayNeedsEvidence _ _ then _ else _) _ = (?t, _) |- _ =>
    assert (t = s) as -> by by (case_match; tx_inv) end.
  split; [done|]. destruct_and!. split; cbn; try done; try congruence.
  split_and!; [by eexists|done..].
Qed.

Lemma replayRecorded_quiet existing key : quiet (replayRecorded existing key).
Proof. unfold replayRecorded. quiet. Qed.

(** A key that is bound answers without touching the store, whatever the rest
    of the request would do. *)
Lemma bound_answer scope key fingerprint kind fresh s rec :
  key ≠ "" → idempotency s !! idempotencyMapKey scope key = Some rec →
  let run := unless_replayed scope key fingerprint kind fresh s in
  run.1 = s ∧ ∀ res, run.2 = Ok res →
    replayed rec s res ∧ ir_Fingerprint rec = fingerprint ∧ ir_CommandKind rec = kind.
Proof.
  intros Hk Hrec. unfold unless_replayed, replayWithin. rewrite bool_decide_false by done.
  unfold attempted, handled, tx_GetIdempotency, reading, mbind, tx_bind. rewrite Hrec. cbn.
  destruct (_ || _) eqn:Hm; cbn; [done|].
  destruct (replayRecorded rec key s) as [t out] eqn:Hrun.
  pose proof (quiet_run _ _ _ _ (replayRecorded_quiet rec key) Hrun) as ->.
  destruct out as [res| |]; cbn; [|done..]. split; [done|]. intros ? [= <-].
  apply replayRecorded_run in Hrun as [_ Hrep]. by bool_facts.
Qed.

Lemma unless_replayed_run scope key fingerprint kind fresh s s' res :
  unless_replayed scope key fingerprint kind fresh s = (s', Ok res) →
  (s' = s ∧ ∃ rec, key ≠ "" ∧ idempotency s !! idempotencyMapKey scope key = Some rec ∧
     replayed rec s res ∧ ir_Fingerprint rec = fingerprint ∧ ir_CommandKind rec = kind) ∨
  ((key = "" ∨ idempotency s !! idempotencyMapKey scope key = None) ∧
   fresh s = (s', Ok res)).
Proof.
  intros H. destruct (bool_decide_reflect (key = "")) as [->|Hk].
  { right. split; [by left|]. unfold unless_replayed, replayWithin in H.
    rewrite (bool_decide_true ("" = "")) in H by done. by tx_inv. }
  destruct (idempotency s !! idempotencyMapKey scope key) as [rec|] eqn:Hrec.
  - left. pose proof (bound_answer scope key fingerprint kind fresh s rec Hk Hrec) as [Hs Hr].
    rewrite H in Hs, Hr. cbn in Hs. subst. split; [done|].
    destruct (Hr res eq_refl) as (? & ? & ?). by exists rec.
  - right. split; [by right|]. revert H. unfold unless_replayed, replayWithin.
    rewrite bool_decide_false by done.
    unfold attempted, handled, tx_GetIdempotency, reading, mbind, tx_bind. by rewrite Hrec.
Qed.

(** ** The shape of a request *)

(** The run stops before it has written anything. *)
Definition refused {A} (s : Store) (run : Store * outcome A) : Prop :=
  run.1 = s ∧ is_ok run.2 = false.

Lemma quiet_bind_run {A B} (m : tx A) (f : A → tx B) s :
  quiet m → refused s ((m ≫= f) s) ∨ ∃ x, m s = (s, Ok x) ∧ (m ≫= f) s = f x s.
Proof.
  intros Hm. specialize (Hm s). unfold mbind, tx_bind, refused.
  destruct (m s) as [t [x| |]]; cbn in *; subst; eauto.
Qed.

Lemma guard_cases {A} (b : bool) e (k : tx A) s :
  refused s ((if b then throw e else k) s) ∨
  b = false ∧ (if b then throw e else k) s = k s.
Proof. destruct b; [by left|by right]. Qed.

(** Step over the quiet prefix of a run. *)
Ltac quiet_step :=
  let Hr := fresh in let x := fresh in let Hx := fresh in let Hy := fresh in
  match goal with
  | |- context [(?m ≫= ?f) ?s] =>
      destruct (quiet_bind_run m f s) as [Hr|(x & Hx & Hy)];
      [unfold reported, reported_as; quiet|by left|rewrite Hy; clear Hy]
  | |- context [(if ?b then throw ?e else ?k) ?s] =>
      destruct (guard_cases b e k s) as [Hr|[Hx Hy]]; [by left|rewrite Hy; clear Hy]
  end.

Lemma bind_ok {A B} (m : tx A) (f : A → tx B) s t x :
  m s = (t, Ok x) → (m ≫= f) s = f x t.
Proof. unfold mbind, tx_bind. by intros ->. Qed.

(** A later store in which a request finds what it is authorized against. *)
Record recognises (s s' : Store) : Prop := {
  rs_resources id record : resources s !! id = Some record →
    ∃ record', resources s' !! id = Some record' ∧
      resourceTargetOf record' = resourceTargetOf record;
  rs_operations : operations s ⊆ operations s' }.

Lemma recognises_refl s : recognises s s.
Proof. split; [eauto|done]. Qed.

Lemma lookup_ok {A} (table : Store → gmap string A) e id s x :
  table s !! id = Some x →
  reading (λ s, from_option Ok (Err e) (table s !! id)) s = (s, Ok x).
Proof. unfold reading. by intros ->. Qed.

Lemma reported_ok {A} format e (m : tx A) s s' x :
  m s = (s', Ok x) → reported_as format e m s = (s', Ok x).
Proof. unfold reported_as, handled. by intros ->. Qed.

(** Either it stops before it writes, or it asks for its key first, then and
    whenever it runs again. *)
Lemma unit_shape r s :
  refused s (request_unit r s) ∨
  ∃ fingerprint kind fresh,
    (request_fingerprint r = Ok fingerprint ∧ request_kind r = kind) ∧
    (∀ s', recognises s s' → ∃ again,
       request_unit r s' = unless_replayed (idempotencyScope (request_actor r)) (request_key r)
                             fingerprint kind again s') ∧
    request_unit r s = unless_replayed (idempotencyScope (request_actor r)) (request_key r)
                         fingerprint kind fresh s ∧
    ∀ s' res, integrity s → fresh s = (s', Ok res) →
      ar_Replay res = false ∧ admitted r s s' res ∧ key_bound r fingerprint kind s' res.
Proof.
  destruct r as [cmd|r|cmd]; cbn [request_unit];
    [unfold createUnit|unfold existingUnit|unfold retryUnit];
    repeat quiet_step; right; do 3 eexists;
    (split; [by tx_inv|split; [|split; [done|intros s' res Hi]]]).
  - intros s' _. tx_inv. eexists. by do 2 (erewrite bind_ok; [|by apply lift_run]).
  - by apply admitCreate_run.
  - intros s' Hs'. tx_inv. lookups.
    match goal with H : resources s !! _ = Some _ |- _ =>
      destruct (rs_resources _ _ Hs' _ _ H) as (record' & Hr & Ht) end.
    eexists. erewrite bind_ok; [|by apply reported_ok, lookup_ok].
    rewrite Ht. by do 2 (erewrite bind_ok; [|by apply lift_run]).
  - by apply admitExisting_run.
  - intros s' Hs'. tx_inv. lookups.
    match goal with H : resources s !! _ = Some _ |- _ =>
      destruct (rs_resources _ _ Hs' _ _ H) as (record' & Hr & Ht) end.
    match goal with H : operations s !! _ = Some _ |- _ =>
      pose proof (lookup_weaken _ _ _ _ H (rs_operations _ _ Hs')) end.
    eexists. do 2 (erewrite bind_ok; [|by apply reported_ok, lookup_ok]).
    rewrite Ht. erewrite bind_ok; [|by apply lift_run].
    match goal with H : _ = false |- _ => by rewrite H end.
  - by apply admitRetry_run.
Qed.

Lemma admit_shape r :
  (∀ s, refused s (serve r s)) ∨ (∀ s, serve r s = Within (request_unit r) s).
Proof.
  destruct r; cbn [serve request_unit];
    unfold AdmitCreateResource, AdmitExistingResource, AdmitRetryOperation,
      persistCreateRequest, persistExistingRequest, persistRetryRequest, mbind, tx_bind, lift;
    repeat case_match; (by left) || (by right).
Qed.

Lemma Within_same {A} (m : tx A) s : (m s).1 = s → Within m s = m s.
Proof. unfold Within. destruct (m s) as [t []]; cbn; intros ->; by destruct s. Qed.

(** The record is that of a request for the same. *)
Definition bound_by (r : request) (rec : IdempotencyRecord) : Prop :=
  request_fingerprint r = Ok (ir_Fingerprint rec) ∧ request_kind r = ir_CommandKind rec.

Lemma admit_bound r s rec :
  request_key r ≠ "" → idempotency s !! request_slot r = Some rec →
  (serve r s).1 = s ∧ ∀ res, (serve r s).2 = Ok res → replayed rec s res ∧ bound_by r rec.
Proof.
  intros Hk Hrec.
  assert ((request_unit r s).1 = s ∧
    ∀ res, (request_unit r s).2 = Ok res → replayed rec s res ∧ bound_by r rec) as [Hs Hres].
  { destruct (unit_shape r s) as [[Hs Hok]|(fp & kind & fresh & [Hfp Hkind] & _ & -> & _)].
    - split; [done|]. intros res Hr. by rewrite Hr in Hok.
    - pose proof (bound_answer _ _ fp kind fresh s rec Hk Hrec) as [Hs Hr].
      split; [done|].
      intros res H. destruct (Hr res H) as (? & Hf & Hc). split; [done|].
      unfold bound_by. by rewrite Hf, Hc. }
  destruct (admit_shape r) as [Href|Hw].
  - destruct (Href s) as [? Hok]. split; [done|]. intros res Hr. by rewrite Hr in Hok.
  - by rewrite Hw, Within_same.
Qed.

Lemma admit_run r s s' res :
  integrity s → serve r s = (s', Ok res) →
  (s' = s ∧ ∃ rec, idempotency s !! request_slot r = Some rec ∧ replayed rec s res ∧
     bound_by r rec) ∨
  (ar_Replay res = false ∧ admitted r s s' res ∧ ∃ fingerprint,
     request_fingerprint r = Ok fingerprint ∧ key_bound r fingerprint (request_kind r) s' res).
Proof.
  intros Hi H. destruct (admit_shape r) as [Href|Hw].
  { destruct (Href s) as [_ Hok]. by rewrite H in Hok. }
  specialize (Hw s). rewrite H in Hw. symmetry in Hw. apply (proj1 (Within_run _ _ _ _)) in Hw.
  destruct (unit_shape r s) as [[_ Hok]|(fp & kind & fresh & [Hfp Hkind] & _ & Hu & Hfresh)].
  { by rewrite Hw in Hok. }
  clear H. rename Hw into H. rewrite Hu in H. apply unless_replayed_run in H as [(-> & rec & _ & Hr & Hrep & Hf & Hc)|[_ H]].
  - left. split; [done|]. exists rec. split_and!; [done..|]. unfold bound_by. by rewrite Hf, Hc.
  - right. destruct (Hfresh _ _ Hi H) as (? & ? & ?). rewrite Hkind. eauto.
Qed.

Lemma request_unit_scripted r : scripted request_rights (request_unit r).
Proof.
  destruct r; [apply createUnit_scripted|apply existingUnit_scripted|apply retryUnit_scripted].
Qed.

Lemma admit_respects r : respects (serve r).
Proof.
  intros s. destruct (admit_shape r) as [Href|Hw]; [destruct (Href s) as [Hs _]; by rewrite Hs|].
  rewrite Hw. eapply Within_respects, request_unit_scripted.
Qed.

(** The stores that units of work can lead to. *)
Definition later : relation Store :=
  rtc (λ s s', ∃ A (fn : tx A), scripted all_rights fn ∧ s' = (Within fn s).1).

Lemma later_sound s s' : later s s' → sound_step s s'.
Proof.
  induction 1 as [|s1 s2 s3 (A & fn & Hfn & ->) _ IH]; [reflexivity|].
  etrans; [by apply (Within_respects all_rights fn)|done].
Qed.

(** C11: An admitted request is complete.  A request that succeeds without being
    a replay has created exactly one operation, pending, of its resource, on
    which every earlier operation has ended; its execution record, not yet
    dispatched; the event of the transition, stamped with the requesting
    principal; the binding of its key to its fingerprint; and the work item that drives it.  No
    other operation, execution, event or resource has changed. *)
Theorem admission_complete r s s' res :
  store_reachable s → serve r s = (s', Ok res) → ar_Replay res = false →
  admitted r s s' res ∧ ∃ fingerprint, request_fingerprint r = Ok fingerprint ∧
    key_bound r fingerprint (request_kind r) s' res.
Proof.
  intros Hs%reachable_integrity Hrun Hfresh.
  destruct (admit_run _ _ _ _ Hs Hrun) as [(_ & rec & _ & [] & _)|(_ & ? & ?)]; [congruence|done].
Qed.

(** The answer of a replay of an admitted request. *)
Definition as_replay (res : AdmissionResult) : AdmissionResult :=
  {| ar_Resource := ar_Resource res; ar_Operation := ar_Operation res;
     ar_Execution := ar_Execution res; ar_Event := None; ar_Replay := true |}.

Lemma replayRecorded_answers r s s' res scope key fingerprint kind :
  admitted r s s' res →
  specsEqual (res_spec (rr_Resource (ar_Resource res)))
    (res_spec (rr_Resource (ar_Resource res))) = true →
  replayRecorded (key_record (ar_Resource res) (ar_Operation res) scope key fingerprint kind)
    key s' = (s', Ok (as_replay res)).
Proof.
  intros [_ Hops _ _ (Hid & Hrec & _) _ Hctx Hn (_ & _ & Hex) _ _ _ _] Hspec.
  unfold replayRecorded. cbn [key_record ir_ResourceID ir_OperationID ir_Key].
  rewrite Hid in Hrec. erewrite bind_ok; [|by apply lookup_ok].
  erewrite bind_ok; [|by apply lookup_ok; rewrite Hops; apply lookup_insert_eq].
  cbn [opr_Operation]. rewrite Hid, !(bool_decide_true (_ = _)) by done. cbn [negb orb].
  erewrite bind_ok; [|by apply lookup_ok; rewrite Hex; apply lookup_insert_eq].
  erewrite bind_ok; [|by apply lift_run; split; [|apply Hctx]].
  rewrite Hn. by erewrite bind_ok; [|by apply lift_run].
Qed.

Lemma unless_replayed_answers scope key fingerprint kind again s rec res :
  key ≠ "" → idempotency s !! idempotencyMapKey scope key = Some rec →
  ir_Fingerprint rec = fingerprint → ir_CommandKind rec = kind →
  replayRecorded rec key s = (s, Ok res) →
  unless_replayed scope key fingerprint kind again s = (s, Ok res).
Proof.
  intros Hk Hrec <- <- Hrun.
  assert (replayWithin scope key (ir_Fingerprint rec) (ir_CommandKind rec) s =
          (s, Ok (Some res))) as Hans.
  { unfold replayWithin. rewrite bool_decide_false by done.
    assert (attempted (tx_GetIdempotency scope key) s = (s, Ok (inl rec))) as Hget.
    { unfold attempted, handled, tx_GetIdempotency, reading. by rewrite Hrec. }
    rewrite (bind_ok _ _ _ _ _ Hget), !bool_decide_true by done. cbn [negb orb].
    by rewrite (bind_ok _ _ _ _ _ Hrun). }
  unfold unless_replayed. by rewrite (bind_ok _ _ _ _ _ Hans).
Qed.

Lemma admitted_recognises r s s' res : integrity s → admitted r s s' res → recognises s s'.
Proof.
  intros Hi Ha. destruct (ad_resource _ _ _ _ Ha) as (Hid & Hrec & Hoth). split.
  - intros id record H. destruct (decide (id = op_resourceID (ar_Operation res))) as [->|Hne].
    + eexists. split; [done|]. by apply Ha.
    + exists record. by rewrite Hoth.
  - rewrite (ad_operations _ _ _ _ Ha). apply insert_subseteq, Ha.
Qed.

(** C13: A request that was admitted answers again.  Repeating it right away,
    with its key, writes nothing and returns what the first call returned,
    without the event and marked as a replay: every check of the recorded
    associations, of the execution's context and of its evidence passes. *)
Theorem replay_answers r s s1 res :
  store_reachable s → serve r s = (s1, Ok res) → ar_Replay res = false → request_key r ≠ "" →
  specsEqual (res_spec (rr_Resource (ar_Resource res)))
    (res_spec (rr_Resource (ar_Resource res))) = true →
  serve r s1 = (s1, Ok (as_replay res)).
Proof.
  intros Hs%reachable_integrity Hrun Hfresh Hk Hspec.
  destruct (admit_shape r) as [Href|Hw]; [destruct (Href s) as [_ Hok]; by rewrite Hrun in Hok|].
  rewrite Hw. rewrite Hw in Hrun. apply (proj1 (Within_run _ _ _ _)) in Hrun.
  destruct (unit_shape r s) as [[_ Hok]|(fp & kind & fresh & _ & Hagain & Hu & Hres)];
    [by rewrite Hrun in Hok|].
  rewrite Hu in Hrun. apply unless_replayed_run in Hrun as [(_ & ? & _ & _ & [] & _)|[_ Hrun]];
    [congruence|].
  destruct (Hres _ _ Hs Hrun) as (_ & Ha & Hb).
  destruct (Hagain s1 (admitted_recognises _ _ _ _ Hs Ha)) as [again Ht].
  pose proof (replayRecorded_answers _ _ _ _ (idempotencyScope (request_actor r))
    (request_key r) fp kind Ha Hspec) as Hans.
  eapply unless_replayed_answers in Hans; [|done|by apply Hb|done|done].
  cbn in Hans. by rewrite Within_same; rewrite Ht, Hans.
Qed.

(** ** One operation at a time *)

Definition single_active (s : Store) : Prop :=
  ∀ i j o p, operations s !! i = Some o → operations s !! j = Some p →
    op_resourceID (opr_Operation o) = op_resourceID (opr_Operation p) →
    IsTerminal (opr_Operation o) = false → IsTerminal (opr_Operation p) = false → i = j.

Lemma admit_operations r s :
  integrity s →
  operations (serve r s).1 = operations s ∨
  ∃ res, admitted r s (serve r s).1 res.
Proof.
  intros Hi. destruct (serve r s) as [s' out] eqn:Hrun. cbn.
  destruct (is_ok out) eqn:Hok.
  - destruct out as [res| |]; try done. destruct (admit_run _ _ _ _ Hi Hrun) as [[-> _]|(_ & ? & _)]; eauto.
  - left. destruct (admit_shape r) as [Href|Hw].
    { destruct (Href s) as [Hs _]. rewrite Hrun in Hs. cbn in Hs. by subst. }
    specialize (Hw s). rewrite Hrun in Hw.
    pose proof (Within_rolled_back (request_unit r) s) as Hback.
    rewrite <- Hw in Hback. cbn in Hback. by rewrite (Hback Hok).
Qed.

Lemma admitted_single r s s' res :
  integrity s → admitted r s s' res → single_active s → single_active s'.
Proof.
  intros Hi [Hnew Hops Hact Hidle _ _ _ _ _ _ _ _ _] Hs i j o p. rewrite Hops.
  intros [[<- <-]|[Hi' Ho]]%lookup_insert_Some [[<- <-]|[Hj' Hp]]%lookup_insert_Some; cbn.
  - done.
  - intros Hr _ Hp'. by rewrite (Hidle _ _ Hp) in Hp'.
  - intros Hr Ho' _. by rewrite (Hidle _ _ Ho) in Ho'.
  - intros. by eapply Hs.
Qed.

(** An operation that has yet to end had yet to end before. *)
Lemma kept_active s s' i o :
  kept operation_kept (operations s) (operations s') →
  dom (operations s') = dom (operations s) →
  operations s' !! i = Some o → IsTerminal (opr_Operation o) = false →
  ∃ p, operations s !! i = Some p ∧ IsTerminal (opr_Operation p) = false ∧
    op_resourceID (opr_Operation p) = op_resourceID (opr_Operation o).
Proof.
  intros Hk Hdom Ho Ht. assert (i ∈ dom (operations s)) as [p Hp]%elem_of_dom
    by (rewrite <- Hdom; by eapply elem_of_dom_2).
  exists p. destruct (Hk _ _ Hp) as (o' & Ho' & (Hr & _)%sameIntent_spec & _ & _ & Hterm).
  replace o' with o in * by congruence. split_and!; [done| |done].
  destruct (IsTerminal (opr_Operation p)) eqn:E; [|done]. by rewrite (Hterm eq_refl), E in Ht.
Qed.

End admitted.

(** ** The service *)

Section service.
Context {order : MapOrder}.

(** What a request leaves behind when it succeeds under a key. *)
Lemma served_key (ports : Ports) r s s1 res :
  integrity s → serve r s = (s1, Ok res) → request_key r ≠ "" →
  ∃ rec, idempotency s1 !! request_slot r = Some rec ∧
    ir_OperationID rec = op_id (ar_Operation res) ∧
    ir_ResourceID rec = res_id (rr_Resource (ar_Resource res)) ∧ bound_by r rec.
Proof.
  intros Hi Hrun Hk. destruct (admit_run _ _ _ _ Hi Hrun) as
    [(-> & rec & Hrec & [] & Hb)|(_ & [] & fp & Hfp & Hb)].
  - exists rec. do 3 (split; [by auto|]). done.
  - eexists. split; [by apply Hb|]. by split_and!.
Qed.

Lemma later_key (ports : Ports) r r' s s1 s2 res rec :
  integrity s → serve r s = (s1, Ok res) → later s1 s2 →
  pr_ID (request_actor r') = pr_ID (request_actor r) → request_key r' = request_key r →
  idempotency s1 !! request_slot r = Some rec → idempotency s2 !! request_slot r' = Some rec.
Proof.
  intros Hi Hrun Hlater Hactor Hkey Hrec.
  pose proof (@admit_respects order ports r s Hi) as [Hs1 _]. rewrite Hrun in Hs1.
  destruct (later_sound _ _ Hlater Hs1) as [_ [_ _ _ _ _ _ _ _ Hsub _ _ _ _]].
  unfold request_slot, idempotencyScope. rewrite Hactor, Hkey. by apply (lookup_weaken _ _ _ _ Hrec).
Qed.

(** C9: A request is admitted at most once per key.  Once a principal's request
    with an idempotency key has succeeded, no later request of that principal
    with the same key writes anything, whatever it asks for, whatever the
    service is composed with then and whatever has happened in between; when it
    succeeds it is reported as a replay and answers with the operation and the
    resource of the first, and its fingerprint and kind are those of the first. *)
Theorem exactly_once (ports ports' : Ports) r r' s s1 s2 res :
  store_reachable s → serve (ports := ports) r s = (s1, Ok res) → request_key r ≠ "" →
  later s1 s2 →
  pr_ID (request_actor r') = pr_ID (request_actor r) → request_key r' = request_key r →
  (serve (ports := ports') r' s2).1 = s2 ∧
  ∀ res', (serve (ports := ports') r' s2).2 = Ok res' →
    ar_Replay res' = true ∧ op_id (ar_Operation res') = op_id (ar_Operation res) ∧
    res_id (rr_Resource (ar_Resource res')) = res_id (rr_Resource (ar_Resource res)) ∧
    request_fingerprint (ports := ports') r' = request_fingerprint (ports := ports) r ∧
    request_kind r' = request_kind r.
Proof.
  intros Hs%reachable_integrity Hrun Hk Hlater Hactor Hkey.
  destruct (served_key ports r s s1 res Hs Hrun Hk) as (rec & Hrec & Ho & Hr & [Hf Hc]).
  pose proof (later_key ports r r' s s1 s2 res rec Hs Hrun Hlater Hactor Hkey Hrec) as Hrec2.
  destruct (@admit_bound order ports' r' s2 rec ltac:(congruence) Hrec2) as [Hsame Hans].
  split; [done|]. intros res' [[? ? ? _ _] [? ?]]%Hans. split_and!; congruence.
Qed.


(** The service: requests, at whatever time and with whatever policy, and any
    other unit of work, which may not create operations. *)
Inductive served : Store → Prop :=
  | sv_new : served NewStore
  | sv_request (ports : Ports) r s : served s → served (serve r s).1
  | sv_progress {A} may (fn : tx A) s :
      served s → scripted may fn → ¬ may_create may → served (Within fn s).1.

Lemma served_integrity s : served s → integrity s.
Proof.
  induction 1 as [|ports r s _ IH|A may fn s _ IH Hfn _].
  - apply reachable_integrity. constructor.
  - by apply (@admit_respects order ports).
  - by eapply Within_respects.
Qed.

(** C10: A resource never has two operations that have not ended, whatever
    requests arrive and however the units of work that process them, and never
    create operations, interleave. *)
Theorem one_active_operation s : served s → single_active s.
Proof.
  intros H. induction H as [|ports r s Hs IH|A may fn s Hs IH Hfn Hno].
  - intros i j o p Ho. cbn in Ho. by rewrite lookup_empty in Ho.
  - destruct (@admit_operations order ports r s (served_integrity s Hs)) as [Heq|[res Hres]].
    + unfold single_active. by rewrite Heq.
    + by eapply admitted_single; [apply served_integrity| |].
  - pose proof (scripted_operations may fn Hno Hfn s) as Hdom.
    destruct (Within_respects may fn Hfn s (served_integrity s Hs)) as [_ [_ _ Hk _ _ _ _ _ _ _ _ _ _]].
    intros i j o p Ho Hp Hr Hto Htp.
    destruct (kept_active _ _ _ _ Hk Hdom Ho Hto) as (o' & Ho' & Hto' & Hro).
    destruct (kept_active _ _ _ _ Hk Hdom Hp Htp) as (p' & Hp' & Htp' & Hrp).
    apply (IH i j o' p'); congruence.
Qed.
End service.

(** ** A concrete service *)

#[local] Instance sample_order : MapOrder :=
  {| ranged A m := map_to_list m; ranged_perm A m := reflexivity _ |}.

Definition sample_contract : Contract :=
  {| ct_Domain := sample_lifecycle_type; ct_OutputContract := None;
     ct_ReferenceContract := None; ct_ValidateSpec := λ _, SpecValid;
     ct_ValidateUpdate := λ _ _, SpecValid |}.

#[local] Instance sample_ports : Ports :=
  {| Types_Get _ := Ok (Some sample_contract);
     Selector_Select _ _ := Ok "provisioner";
     Resolver_Resolve _ := Ok None;
     Authorizer_ := Some (λ _ _ _, Ok tt);
     Policy_Plan intent := Ok {| ap_Intent := intent; ap_Revision := "";
       ap_CapabilityDenial := None; ap_CountConstraints := [] |};
     Policy_Decide _ _ := Ok {| ad_Outcome := AdmissionAllowed; ad_Revision := "" |};
     Ports_Digest := sample_digest;
     clock := 20%Z; clock' := 21%Z |}.

Definition sample_principal : Principal :=
  {| pr_ID := "alice"; pr_Kind := "user"; pr_Issuer := "iss"; pr_Subject := "alice";
     pr_Memberships := [sample_owner]; pr_Method := "oidc" |}.

Definition sample_command (operation : OperationID) : CreateResourceCommand :=
  {| cc_Actor := sample_principal; cc_ID := "r-1"; cc_Type := rt_ref sample_lifecycle_type;
     cc_Owner := sample_owner; cc_Spec := sample_spec; cc_References := [];
     cc_OperationID := operation; cc_EventID := "ev-1"; cc_RequestedAt := 10%Z;
     cc_IdempotencyKey := "k" |}.

Definition sample_create : request := ReqCreate (sample_command "op-1").

(** Another request under the same key. *)
Definition sample_delete : request := ReqExisting
  {| er_id := "r-1"; er_expectedGeneration := 1; er_spec := None;
     er_referencesPresent := false; er_references := []; er_capability := CapabilityDelete;
     er_operationID := "op-2"; er_eventID := "ev-2"; er_requestedAt := 30%Z;
     er_idempotencyKey := "k"; er_actor := sample_principal |}.

Definition sample_store : Store := (serve sample_create NewStore).1.
Definition sample_admitted : AdmissionResult := ltac:(run ((serve sample_create NewStore).2)).

Lemma surjective_run {A B} (run : A * B) x : run.2 = x → run = (run.1, x).
Proof. destruct run. by intros <-. Qed.

Lemma sample_admission : serve sample_create NewStore = (sample_store, Ok sample_admitted).
Proof.
  unfold sample_store.
  refine (surjective_run (serve sample_create NewStore) (Ok sample_admitted) _).
  vm_compute. reflexivity.
Qed.

Lemma exactly_once_witness : (serve sample_delete sample_store).1 = sample_store.
Proof.
  refine (proj1 (exactly_once sample_ports sample_ports sample_create sample_delete NewStore sample_store sample_store
    sample_admitted _ sample_admission _ _ _ _)); [constructor|done|constructor|done|done].
Defined.

Lemma admission_complete_witness :
  operations sample_store = {[ "op-1" := {| opr_Operation := ar_Operation sample_admitted;
                                            opr_Sequence := 1; opr_Version := 1 |} ]} ∧
  is_Some (messages sample_store !! om_ID (DriveMessage "op-1" 1)).
Proof.
  destruct (admission_complete sample_create NewStore sample_store sample_admitted
    sr_new sample_admission eq_refl) as [[_ Hops _ _ _ _ _ _ _ _ Hdrive _ _] _].
  exact (conj Hops Hdrive).
Defined.

Lemma replay_answers_witness :
  serve sample_create sample_store = (sample_store, Ok (as_replay sample_admitted)).
Proof.
  apply (replay_answers sample_create NewStore sample_store sample_admitted sr_new
    sample_admission eq_refl); [done|reflexivity].
Defined.

Lemma one_active_operation_witness : single_active sample_store.
Proof. exact (one_active_operation sample_store (sv_request sample_ports sample_create NewStore sv_new)). Defined.

Definition sample_resubmitted : AdmissionResult :=
  ltac:(run ((serve (ReqCreate (sample_command "op-7")) sample_store).2)).

Lemma sample_command_submitted operation : well_submitted (sample_command operation).
Proof.
  split_and!.
  - split_and!; [|vm_compute; reflexivity|].
    + constructor; [apply (bool_decide_unpack _); vm_compute; exact I|].
      repeat constructor; try done; vm_compute; discriminate.
    + intros text Ht. vm_compute in Ht. injection Ht as <-. vm_compute. reflexivity.
  - repeat constructor; done.
  - intros edges He. vm_compute in He. injection He as <-. by repeat constructor.
Qed.

