(* ===== verification/Operator.v ===== *)
(** * The operator plane

    Models [src/internal/application/operator_mutations.go], [operator.go] and
    the parts of [operator_diagnostics.go] the mutations rest on: who may act,
    the revisions of what was diagnosed, and the three recoveries, each one
    unit of work that revalidates, schedules work, audits and binds its
    idempotency key ([runOperatorMutation]).  The planner is in [Recovery]. *)

From S2P Require Import Prelude Operation Values Resource Status Provisioning Records.
From S2P Require Import Engine Submission Policy Text Encoding Strconv Identity Fingerprint.
From S2P Require Import Work Recovery Outbox Store History Rights Admission Idempotency.
Open Scope string_scope.
Open Scope go_scope.

(** ** Commands and ports *)

Definition operatorRequestRepresentationVersion : Z := 1.

Record OperatorMutationCommand := {
  mc_Actor : Principal;
  mc_IdempotencyKey : string;
  mc_RequestID : string;
  mc_IfMatch : string }.

Record OperatorMutationResult := {
  mr_Replay : bool;
  mr_Action : string;
  mr_TargetKind : string;
  mr_TargetID : string;
  mr_OperatorActionID : string;
  mr_CreatedWorkID : string;
  mr_SourceWorkKind : string }.

Definition AuditTriggerObserve : string := "trigger_observe".
Definition AuditTriggerPassiveObserve : string := "trigger_passive_observe".
Definition AuditRecoverDeadWork : string := "recover_dead_work".

(** What the mutations have besides the [Ports]: the operator's authorizer, the
    random bytes of a new action identity, and the clock of the audit row. *)
Class OperatorPorts := {
  OperatorAuthorizer_ : option (Principal → string → OperatorTarget → outcome unit);
  rand_Read : outcome string;
  audit_clock : Time }.

Record operatorMutationPlan := {
  mp_auditAction : string;
  mp_permission : string;
  mp_target : OperatorTarget;
  mp_actionID : string;
  mp_apply : string → tx string }.

(** [StateIdentitySummary], of the OpenTofu control state. *)
Record StateIdentitySummary := {
  si_ProvisionerRef : string;
  si_Engine : string;
  si_Program : string;
  si_Backend : string;
  si_StateKey : string;
  si_LineagePresent : bool;
  si_Serial : uint64;
  si_DigestPrefix : string;
  si_Version : uint64 }.

(** The store keeps no OpenTofu state. *)
Definition tx_StateIdentity (id : ResourceID) : tx (option StateIdentitySummary) :=
  reading (λ _, Ok None).

(** ** Digests *)

Section digests.
Context {digest : Digest}.

Definition operatorDigest (namespace : string) (parts : list string) : string :=
  sha256 (frames (namespace :: parts)).

Definition FingerprintOperatorRequest (action targetKind targetID : string)
    (requestVersion : Z) : string :=
  operatorDigest "liftr/operator-fingerprint/v1"
    [action; targetKind; targetID; FormatInt requestVersion].

Definition DigestOperatorIdempotencyScope (scope key : string) : string :=
  operatorDigest "liftr/operator-idempotency-digest/v1" [scope; key].

(** ** Revisions *)

Definition revisionOf (parts : list string) : string :=
  "diag_v1_" +:+ fingerprintHash ("liftr/operator-revision/v1" :: parts).

Definition boolFlag (value : bool) : string := if value then "1" else "0".

(** [Time.UnixNano], in wrapping [int64] arithmetic. *)
Definition unix_epoch : Time := 62135596800000000000%Z.
Definition UnixNano (t : Time) : Z :=
  ((t - unix_epoch + 2 ^ 63) mod 2 ^ 64 - 2 ^ 63)%Z.

Record OperationRefSummary := {
  os_ID : OperationID;
  os_Capability : Capability;
  os_State : string;
  os_Phase : string;
  os_TargetGeneration : uint64 }.

Definition operationRefOf (operation : Operation) : OperationRefSummary :=
  {| os_ID := op_id operation; os_Capability := op_capability operation;
     os_State := op_state operation; os_Phase := op_phase operation;
     os_TargetGeneration := op_targetGeneration operation |}.

Record ExecutionDiagnostics := {
  ed_State : string;
  ed_Correlation : string;
  ed_AcceptanceConfirmed : bool;
  ed_HandlePresent : bool;
  ed_IsOutputRecovery : bool;
  ed_OutputResolution : string;
  ed_OutputFailureKind : string;
  ed_CurrentAttempt : uint64;
  ed_NextObservationSequence : uint64 }.

Definition failureKindOf (failure : option ExecutionFailure) : string :=
  from_option ef_Kind "" failure.

Definition executionDiagnosticOf (execution : ProvisioningExecutionRecord)
    : ExecutionDiagnostics :=
  {| ed_State := pe_State execution; ed_Correlation := pe_Correlation execution;
     ed_AcceptanceConfirmed := pe_AcceptanceConfirmed execution;
     ed_HandlePresent := non_nil (pe_Handle execution) (λ _, true);
     ed_IsOutputRecovery := IsOutputRecovery execution;
     ed_OutputResolution := pe_OutputResolution execution;
     ed_OutputFailureKind := failureKindOf (pe_LastFailure execution);
     ed_CurrentAttempt := pe_CurrentAttempt execution;
     ed_NextObservationSequence := pe_NextObservation execution |}.

Definition activeWorkParts (work : WorkHistorySummary) : list string :=
  (wh_Active work ≫= λ m,
    ["active-work"; om_ID m; om_Kind m; om_State m; FormatInt (om_AttemptCount m)])%list.

(** [appendOperation]. *)
Definition operationParts (label : string) (summary : option OperationRefSummary)
    : list string :=
  match summary with
  | None => [label; "none"]
  | Some s => [label; os_ID s; os_Capability s; os_State s; os_Phase s;
               FormatUint (os_TargetGeneration s)]
  end.

Definition executionParts (execution : ExecutionDiagnostics) : list string :=
  ["execution"; ed_State execution; ed_Correlation execution;
   ed_OutputResolution execution; FormatUint (ed_CurrentAttempt execution);
   FormatUint (ed_NextObservationSequence execution)].

Definition computeResourceRevision (resourceVersion : uint64) (statusUpdatedAt : Time)
    (generation observedGeneration : uint64) (state : string)
    (active latest : option OperationRefSummary) (binding : option StateIdentitySummary)
    (execution : option ExecutionDiagnostics) (work : WorkHistorySummary)
    (registrationAvailable : bool) : string :=
  revisionOf (["resource"; FormatUint resourceVersion;
     "status"; FormatInt (UnixNano statusUpdatedAt);
     FormatUint generation; FormatUint observedGeneration; state] ++
    operationParts "active" active ++ operationParts "latest" latest ++
    from_option (λ b, ["binding"; FormatUint (si_Version b)]) [] binding ++
    from_option executionParts [] execution ++
    activeWorkParts work ++ ["registration"; boolFlag registrationAvailable])%list.

Record AttemptHistorySummary := {
  ah_Count : uint64;
  ah_Latest : option SubmissionAttemptRecord }.

Definition operationRevision (operation : OperationRecord) (attempts : AttemptHistorySummary)
    (work : WorkHistorySummary) (execution : option ExecutionDiagnostics)
    (registrationAvailable : bool) : string :=
  let o := opr_Operation operation in
  revisionOf (["operation"; op_id o; FormatUint (opr_Version operation); op_state o;
     op_phase o] ++
    from_option (λ a, ["attempt"; FormatUint (sa_AttemptNumber a); sa_State a]) []
      (ah_Latest attempts) ++
    activeWorkParts work ++
    from_option (λ e, executionParts e ++ [boolFlag (ed_AcceptanceConfirmed e);
      boolFlag (ed_HandlePresent e); boolFlag (ed_IsOutputRecovery e);
      ed_OutputFailureKind e])%list [] execution ++
    ["registration"; boolFlag registrationAvailable])%list.

Definition workRevision (message : OutboxMessage) (snapshot : DeadWorkKindSnapshot) : string :=
  revisionOf
    ["work"; om_ID message; om_State message; FormatInt (om_AttemptCount message);
     om_TerminalReason message; boolFlag (om_LeaseToken message <>? "");
     "target"; FormatUint (dws_TargetVersion snapshot); dws_OperationState snapshot;
     dws_ResourceState snapshot;
     "execution"; FormatUint (dws_ExecutionVersion snapshot);
     eos_State (dws_Execution snapshot); eos_Correlation (dws_Execution snapshot);
     "facts"; boolFlag (dws_ActiveEquivalentWork snapshot);
     boolFlag (dws_ActiveOperation snapshot); boolFlag (dws_Superseded snapshot);
     boolFlag (dws_RegistrationAvailable snapshot)].

(** An absent [If-Match] matches; a present one is the quoted revision. *)
Definition quote_char : ascii := ascii_of_nat 34.
Definition matchDiagnosticRevision (ifMatch current : string) : bool :=
  (ifMatch =? "") || (ifMatch =? String quote_char (current +:+ String quote_char "")).
End digests.

(** ** Summaries of the store *)

Section summaries.
Context {order : MapOrder}.

(** One turn of the loop of [SummarizeSubmissionAttempts]. *)
Definition attemptTurn (operationID : OperationID) (summary : AttemptHistorySummary)
    (record : SubmissionAttemptRecord) : AttemptHistorySummary :=
  if sa_OperationID record <>? operationID then summary else
  {| ah_Count := u64_incr (ah_Count summary);
     ah_Latest := match ah_Latest summary with
       | Some latest =>
           if N.ltb (sa_AttemptNumber latest) (sa_AttemptNumber record)
           then Some record else Some latest
       | None => Some record
       end |}.

Definition tx_SummarizeSubmissionAttempts (operationID : OperationID)
    : tx AttemptHistorySummary := reading (λ s,
  Ok (foldl (attemptTurn operationID) {| ah_Count := 0; ah_Latest := None |}
        (ranged (attempts s)).*2)).

Definition tx_SummarizeWorkByOperation (id : OperationID) : tx WorkHistorySummary :=
  reading (λ s, Ok (SummarizeWorkByOperation (ranged (messages s)).*2 id)).

Definition tx_SummarizeWorkByResource (id : ResourceID) : tx WorkHistorySummary :=
  reading (λ s, Ok (SummarizeWorkByResource (ranged (messages s)).*2 id)).
End summaries.

(** ** Authorization and registrations *)

Section operator.
Context {order : MapOrder} {ports : Ports} {operators : OperatorPorts}.

Definition authorizeOperator (principal : Principal) (action : string)
    (target : OperatorTarget) : outcome unit :=
  fail_if negb (ValidOperatorAction action) || negb (ValidOperatorTargetKind (ot_Kind target))
    with ErrNotAuthorized ;;
  fail_if (pr_ID principal =? "") || (pr_Kind principal =? "") with ErrNotAuthorized ;;
  match OperatorAuthorizer_ with
  | None => Err ErrNotAuthorized
  | Some decide =>
      match decide principal action target with
      | Ok _ => Ok tt
      | Err _ => Err ErrNotAuthorized
      | Panic p => Panic p
      end
  end.

Definition resolveRegistration (ref : string) : outcome bool :=
  match Resolver_Resolve ref with
  | Ok provider => Ok (non_nil provider (λ _, true))
  | Err _ => Ok false
  | Panic p => Panic p
  end.

(** [GetExecution] of an operation that may have none. *)
Definition findExecution (id : OperationID) : tx (option ProvisioningExecutionRecord) :=
  found ← attempted (tx_GetExecution id);
  match found with
  | inl execution => mret (Some execution)
  | inr e => if errors_is e ErrResourceNotFound || errors_is e ErrOperationNotFound
             then mret None else throw e
  end.

(** Enqueue the work, reporting a conflict as work that is already there. *)
Definition enqueueRecovery (message : OutboxMessage) (existingWorkID : string) : tx string :=
  enqueued ← attempted (tx_Enqueue clock clock' message);
  match enqueued with
  | inl _ => mret (om_ID message)
  | inr e => throw (if errors_is e ErrConcurrencyConflict
                    then alreadyActiveError existingWorkID else e)
  end.

(** ** The three recoveries *)

(** The zero value of a snapshot's execution. *)
Definition noSummary : executionObservationSummary :=
  {| eos_State := ""; eos_Correlation := ""; eos_OutputResolution := "";
     eos_IsOutputRecovery := false; eos_AcceptanceConfirmed := false |}.

(** [apply] of [TriggerOperationObservation]. *)
Definition applyOperationObservation (operationID : OperationID) (ifMatch : string)
    : tx string :=
  operation ← tx_GetOperation operationID;
  let state := op_state (opr_Operation operation) in
  attempts ← tx_SummarizeSubmissionAttempts operationID;
  work ← tx_SummarizeWorkByOperation operationID;
  found ← findExecution operationID;
  match found with
  | None => throw (plannerError (PlanOperationObserve
      {| ors_OperationState := state; ors_HasExecution := false;
         ors_Execution := noSummary;
         ors_ActiveObserveWork := false; ors_DependencyBlocked := false;
         ors_RegistrationAvailable := false |}) "")
  | Some execution =>
      available ← lift (resolveRegistration (pe_ProvisionerRef execution));
      guard_tx negb (matchDiagnosticRevision ifMatch
                 (operationRevision operation attempts work
                    (Some (executionDiagnosticOf execution)) available))
        with ErrDiagnosticStale ;;
      blocked ← tx_HasDependencyWaitsForOperation operationID;
      let assessment := PlanOperationObserve
        {| ors_OperationState := state; ors_HasExecution := true;
           ors_Execution := executionSummaryOf execution;
           ors_ActiveObserveWork := HasActive work OutboxObserve;
           ors_DependencyBlocked := blocked; ors_RegistrationAvailable := available |} in
      guard_tx negb (assessmentAllows assessment ActionKindTriggerObserve)
        with plannerError assessment (ActiveID work OutboxObserve) ;;
      let '(message, execution) := nextObserveMessage execution in
      tx_SaveExecution execution (pe_Version execution) ≫= λ _,
      enqueueRecovery message (ActiveID work OutboxObserve)
  end.

(** [apply] of [TriggerResourcePassiveObservation]. *)
Definition applyPassiveObservation (actionID : string) (resourceID : ResourceID)
    (ifMatch : string) : tx string :=
  record ← tx_GetResource resourceID;
  active ← tx_ActiveForResource resourceID;
  latest ← tx_LatestForResource resourceID;
  work ← tx_SummarizeWorkByResource resourceID;
  execution ← match active with
    | None => mret None
    | Some a => findExecution (op_id (opr_Operation a))
    end;
  binding ← tx_StateIdentity resourceID;
  available ← lift (resolveRegistration (rr_ProvisionerRef record));
  let refOf := option_map (λ r, operationRefOf (opr_Operation r)) in
  guard_tx negb (matchDiagnosticRevision ifMatch
             (computeResourceRevision (rr_Version record) (st_updatedAt (rr_Status record))
                (res_generation (rr_Resource record))
                (st_observedGeneration (rr_Status record)) (st_state (rr_Status record))
                (refOf active) (refOf latest) binding (executionDiagnosticOf <$> execution)
                work available))
    with ErrDiagnosticStale ;;
  let assessment := PlanResourcePassiveObserve
    {| rps_ResourceState := st_state (rr_Status record);
       rps_ActiveOperation := non_nil active (λ _, true);
       rps_ActivePassiveObserveWork := HasActive work OutboxPassiveObserve;
       rps_RegistrationAvailable := available |} in
  guard_tx negb (assessmentAllows assessment ActionKindTriggerPassiveObserve)
    with plannerError assessment (ActiveID work OutboxPassiveObserve) ;;
  enqueueRecovery (operatorPassiveObserveMessage actionID resourceID (rr_Version record))
    (ActiveID work OutboxPassiveObserve).

(** What a dead message targets, as [deadWorkSnapshot] found it. *)
Record DeadTarget := {
  dt_Snapshot : DeadWorkKindSnapshot;
  dt_EquivalentID : string;
  dt_Execution : option ProvisioningExecutionRecord;
  dt_Resource : option ResourceRecord;
  dt_Operation : option OperationRecord }.

(** The snapshot of a message that targets an operation; the execution is read
    unless the message drives the operation. *)
Definition operationSnapshot (dead : OutboxMessage) (operation : OperationRecord)
    (execution : option ProvisioningExecutionRecord) (equivalentID : string)
    (available : bool) : DeadWorkKindSnapshot :=
  {| dws_Kind := om_Kind dead; dws_State := om_State dead; dws_OperationTarget := true;
     dws_OperationState := op_state (opr_Operation operation);
     dws_Execution := from_option executionSummaryOf noSummary execution;
     dws_HasExecution := non_nil execution (λ _, true);
     dws_ResourceState := ""; dws_ActiveEquivalentWork := equivalentID <>? "";
     dws_ActiveOperation := false;
     dws_Superseded := non_nil execution (λ e,
       if om_Kind dead =? OutboxDispatch then om_AttemptNumber dead <>? pe_CurrentAttempt e
       else (om_Kind dead =? OutboxObserve) &&
            ((om_Sequence dead =? 0%N) ||
             (u64_incr (om_Sequence dead) <>? pe_NextObservation e)));
     dws_RegistrationAvailable := available; dws_TargetVersion := opr_Version operation;
     dws_ExecutionVersion := from_option pe_Version 0%N execution |}.

(** Recovering a dispatch means observing. *)
Definition equivalentKind (dead : OutboxMessage) : string :=
  if om_Kind dead =? OutboxDispatch then OutboxObserve else om_Kind dead.

Definition deadOperationSnapshot (dead : OutboxMessage) : tx DeadTarget :=
  operation ← tx_GetOperation (om_OperationID dead);
  work ← tx_SummarizeWorkByOperation (om_OperationID dead);
  let equivalentID := ActiveID work (equivalentKind dead) in
  if om_Kind dead =? OutboxDrive then
    resource ← tx_GetResource (op_resourceID (opr_Operation operation));
    available ← lift (resolveRegistration (rr_ProvisionerRef resource));
    mret {| dt_Snapshot := operationSnapshot dead operation None equivalentID available;
            dt_EquivalentID := equivalentID; dt_Execution := None; dt_Resource := None;
            dt_Operation := Some operation |}
  else
  found ← findExecution (om_OperationID dead);
  match found with
  | None =>
      mret {| dt_Snapshot := operationSnapshot dead operation None "" false;
              dt_EquivalentID := ""; dt_Execution := None; dt_Resource := None;
              dt_Operation := Some operation |}
  | Some execution =>
      available ← lift (resolveRegistration (pe_ProvisionerRef execution));
      mret {| dt_Snapshot := operationSnapshot dead operation (Some execution) equivalentID
                available;
              dt_EquivalentID := equivalentID; dt_Execution := Some execution;
              dt_Resource := None; dt_Operation := Some operation |}
  end.

Definition deadResourceSnapshot (dead : OutboxMessage) : tx DeadTarget :=
  record ← tx_GetResource (om_ResourceID dead);
  work ← tx_SummarizeWorkByResource (om_ResourceID dead);
  let equivalentID := ActiveID work (om_Kind dead) in
  active ← tx_ActiveForResource (om_ResourceID dead);
  available ← lift (resolveRegistration (rr_ProvisionerRef record));
  mret {| dt_Snapshot :=
            {| dws_Kind := om_Kind dead; dws_State := om_State dead;
               dws_OperationTarget := false; dws_OperationState := "";
               dws_Execution := noSummary;
               dws_HasExecution := false; dws_ResourceState := st_state (rr_Status record);
               dws_ActiveEquivalentWork := equivalentID <>? "";
               dws_ActiveOperation := non_nil active (λ _, true); dws_Superseded := false;
               dws_RegistrationAvailable := available;
               dws_TargetVersion := rr_Version record; dws_ExecutionVersion := 0 |};
          dt_EquivalentID := equivalentID; dt_Execution := None;
          dt_Resource := Some record; dt_Operation := None |}.

Definition deadWorkSnapshot (dead : OutboxMessage) : tx DeadTarget :=
  if om_OperationID dead <>? "" then deadOperationSnapshot dead
  else deadResourceSnapshot dead.

(** [apply] of [RecoverDeadWork]. *)
Definition applyDeadWorkRecovery (actionID workID ifMatch : string) : tx string :=
  dead ← tx_GetOutbox workID;
  guard_tx om_State dead <>? OutboxDead with notApplicable ReasonWorkNotDead ;;
  target ← deadWorkSnapshot dead;
  let snapshot := dt_Snapshot target in
  guard_tx negb (matchDiagnosticRevision ifMatch (workRevision dead snapshot))
    with ErrDiagnosticStale ;;
  let assessment := PlanDeadWorkRecovery snapshot in
  guard_tx negb (assessmentAllows assessment ActionKindRecoverDeadWork)
    with plannerError assessment (dt_EquivalentID target) ;;
  '(created, saved) ← lift (recoveredWork actionID dead (dt_Execution target)
                             (dt_Resource target) (dt_Operation target));
  match saved with
  | Some execution => tx_SaveExecution execution (pe_Version execution)
  | None => mret tt
  end ≫= λ _,
  enqueueRecovery created (dt_EquivalentID target).

(** ** One mutation *)

(** [newOperatorActionID], of 16 random bytes. *)
Definition newOperatorActionID : outcome string :=
  match rand_Read with
  | Ok raw => Ok ("opact_" +:+ hex raw)
  | Err e => Err (Wrapf e "create operator action ID: %w" [])
  | Panic p => Panic p
  end.

(** The kind of the work an action recovered. *)
Definition sourceKind (sourceWorkID : string) : tx string :=
  if sourceWorkID <>? "" then source ← tx_GetOutbox sourceWorkID; mret (om_Kind source)
  else mret "".

(** The recorded action of a key that was used before. *)
Definition replayOperatorAction (bound : OperatorIdempotencyRecord) (fingerprint : string)
    : tx OperatorMutationResult :=
  guard_tx oi_Fingerprint bound <>? fingerprint with ErrIdempotencyConflict ;;
  action ← tx_GetOperatorAction (oi_OperatorActionID bound);
  kind ← sourceKind (oa_SourceWorkID action);
  mret {| mr_Replay := true; mr_Action := oa_Action action;
          mr_TargetKind := oa_TargetKind action; mr_TargetID := oa_TargetID action;
          mr_OperatorActionID := oa_ID action; mr_CreatedWorkID := oa_CreatedWorkID action;
          mr_SourceWorkKind := kind |}.

(** The work an action recovers: the target, when that is work. *)
Definition sourceOf (plan : operatorMutationPlan) : string :=
  if mp_auditAction plan =? AuditRecoverDeadWork then ot_ID (mp_target plan) else "".

Definition auditRecord (cmd : OperatorMutationCommand) (plan : operatorMutationPlan)
    (scope createdWorkID : string) : OperatorActionRecord :=
  {| oa_ID := mp_actionID plan; oa_ActorPrincipalID := pr_ID (mc_Actor cmd);
     oa_ActorKind := pr_Kind (mc_Actor cmd); oa_Action := mp_auditAction plan;
     oa_TargetKind := ot_Kind (mp_target plan); oa_TargetID := ot_ID (mp_target plan);
     oa_SourceWorkID := sourceOf plan; oa_CreatedWorkID := createdWorkID;
     oa_IdempotencyDigest := DigestOperatorIdempotencyScope scope (mc_IdempotencyKey cmd);
     oa_RequestID := mc_RequestID cmd; oa_CreatedAt := audit_clock |}.

Definition operatorKey (cmd : OperatorMutationCommand) (plan : operatorMutationPlan)
    (scope fingerprint : string) : OperatorIdempotencyRecord :=
  {| oi_Scope := scope; oi_Key := mc_IdempotencyKey cmd; oi_Fingerprint := fingerprint;
     oi_OperatorActionID := mp_actionID plan |}.

Definition applyOperatorMutation (cmd : OperatorMutationCommand) (plan : operatorMutationPlan)
    (scope fingerprint : string) : tx OperatorMutationResult :=
  lift (authorizeOperator (mc_Actor cmd) (mp_permission plan) (mp_target plan)) ≫= λ _,
  createdWorkID ← mp_apply plan (mc_IfMatch cmd);
  guard_tx createdWorkID =? ""
    with Wrapf ErrInvalidApplicationCall "%w: accepted operator mutation created no work" [] ;;
  kind ← (if mp_auditAction plan =? AuditRecoverDeadWork
          then source ← tx_GetOutbox (ot_ID (mp_target plan)); mret (om_Kind source)
          else mret "");
  tx_InsertOperatorAction (auditRecord cmd plan scope createdWorkID) ≫= λ _,
  tx_PutOperatorIdempotency (operatorKey cmd plan scope fingerprint) ≫= λ _,
  mret {| mr_Replay := false; mr_Action := mp_auditAction plan;
          mr_TargetKind := ot_Kind (mp_target plan); mr_TargetID := ot_ID (mp_target plan);
          mr_OperatorActionID := mp_actionID plan; mr_CreatedWorkID := createdWorkID;
          mr_SourceWorkKind := kind |}.

Definition planFingerprint (plan : operatorMutationPlan) : string :=
  FingerprintOperatorRequest (mp_auditAction plan) (ot_Kind (mp_target plan))
    (ot_ID (mp_target plan)) operatorRequestRepresentationVersion.

(** The function [runOperatorMutation] gives to [Within]. *)
Definition operatorUnit (cmd : OperatorMutationCommand) (plan : operatorMutationPlan)
    : tx OperatorMutationResult :=
  let scope := pr_ID (mc_Actor cmd) in
  let fingerprint := planFingerprint plan in
  found ← attempted (tx_GetOperatorIdempotency scope (mc_IdempotencyKey cmd));
  match found with
  | inl bound => replayOperatorAction bound fingerprint
  | inr e => if errors_is e ErrOperatorIdempotencyNotFound
             then applyOperatorMutation cmd plan scope fingerprint else throw e
  end.

Definition runOperatorMutation (cmd : OperatorMutationCommand) (plan : operatorMutationPlan)
    : tx OperatorMutationResult :=
  let actor := mc_Actor cmd in
  guard_tx (pr_ID actor =? "") || (pr_Kind actor =? "") || blank (mc_IdempotencyKey cmd) ||
           bool_decide (200 < String.length (mc_IdempotencyKey cmd))%nat
    with Wrapf ErrInvalidApplicationCall "%w: actor and bounded Idempotency-Key are required" [] ;;
  guard_tx blank (mc_RequestID cmd)
    with Wrapf ErrInvalidApplicationCall "%w: request ID is required" [] ;;
  lift (authorizeOperator actor (mp_permission plan) (mp_target plan)) ≫= λ _,
  Within (operatorUnit cmd plan).

(** ** The entry points *)

Inductive operator_target :=
  | ObserveOperation (id : OperationID)
  | ObservePassively (id : ResourceID)
  | RecoverWork (id : string).

(** The plan each entry point builds for its action identity. *)
Definition operator_plan (target : operator_target) (actionID : string)
    : operatorMutationPlan :=
  match target with
  | ObserveOperation id =>
      {| mp_auditAction := AuditTriggerObserve; mp_permission := ActionOperatorObserveTrigger;
         mp_target := {| ot_Kind := OperatorTargetOperation; ot_ID := id |};
         mp_actionID := actionID; mp_apply := applyOperationObservation id |}
  | ObservePassively id =>
      {| mp_auditAction := AuditTriggerPassiveObserve;
         mp_permission := ActionOperatorObserveTrigger;
         mp_target := {| ot_Kind := OperatorTargetResource; ot_ID := id |};
         mp_actionID := actionID; mp_apply := applyPassiveObservation actionID id |}
  | RecoverWork id =>
      {| mp_auditAction := AuditRecoverDeadWork; mp_permission := ActionOperatorWorkRecover;
         mp_target := {| ot_Kind := OperatorTargetWork; ot_ID := id |};
         mp_actionID := actionID; mp_apply := applyDeadWorkRecovery actionID id |}
  end.

Definition operate (cmd : OperatorMutationCommand) (target : operator_target)
    : tx OperatorMutationResult :=
  actionID ← lift newOperatorActionID;
  runOperatorMutation cmd (operator_plan target actionID).

Definition TriggerOperationObservation (cmd : OperatorMutationCommand) (id : OperationID)
    : tx OperatorMutationResult := operate cmd (ObserveOperation id).
Definition TriggerResourcePassiveObservation (cmd : OperatorMutationCommand) (id : ResourceID)
    : tx OperatorMutationResult := operate cmd (ObservePassively id).
Definition RecoverDeadWork (cmd : OperatorMutationCommand) (id : string)
    : tx OperatorMutationResult := operate cmd (RecoverWork id).
End operator.

(** ** What a recovery does *)

Section recoveries.
Context {order : MapOrder} {ports : Ports} {operators : OperatorPorts}.

(** The outbox once a message is scheduled: its key was used before, or nothing
    active competes with it. *)
Definition scheduled (m : OutboxMessage) (o o' : outbox) : Prop :=
  (is_Some (o !! om_ID m) ∧ o' = o) ∨
  (o !! om_ID m = None ∧ (∀ id n, o !! id = Some n → isActive n = true → ¬ competes m n) ∧
   o' = <[om_ID m := stamped m clock clock']> o).

(** An operation of the store that has yet to end, and backend truth about its
    execution that is outstanding: the next observation in its sequence. *)
Definition observed_again (s : Store) (id : OperationID) (m : OutboxMessage)
    (executions' : gmap OperationID ProvisioningExecutionRecord) : Prop :=
  ∃ o e, operations s !! id = Some o ∧ IsTerminal (opr_Operation o) = false ∧
    executions s !! id = Some e ∧ outstanding (executionSummaryOf e) ∧
    m = (nextObserveMessage e).1 ∧
    executions' = <[id := (nextObserveMessage e).2 <| pe_Version := u64_incr (pe_Version e) |>]>
                    (executions s).

Definition driven_again (s : Store) (actionID : string) (id : OperationID)
    (m : OutboxMessage) : Prop :=
  ∃ o, operations s !! id = Some o ∧ IsTerminal (opr_Operation o) = false ∧
    m = operatorDriveMessage actionID id (opr_Version o).

(** A resource that is not deleted and on which no operation is active. *)
Definition quiescent (s : Store) (id : ResourceID) (r : ResourceRecord) : Prop :=
  resources s !! id = Some r ∧ st_state (rr_Status r) ≠ ResourceStateDeleted ∧ idle s id.

(** What each recovery may schedule, and the executions it leaves. *)
Definition recovery (target : operator_target) (actionID : string) (s : Store)
    (m : OutboxMessage) (executions' : gmap OperationID ProvisioningExecutionRecord) : Prop :=
  match target with
  | ObserveOperation id => observed_again s id m executions'
  | ObservePassively id =>
      executions' = executions s ∧ ∃ r, quiescent s id r ∧
        m = operatorPassiveObserveMessage actionID id (rr_Version r)
  | RecoverWork id => ∃ dead, messages s !! id = Some dead ∧ om_State dead = OutboxDead ∧
      ((om_Kind dead = OutboxDispatch ∨ om_Kind dead = OutboxObserve) ∧
         observed_again s (om_OperationID dead) m executions' ∨
       executions' = executions s ∧
         (om_Kind dead = OutboxDrive ∧ driven_again s actionID (om_OperationID dead) m ∨
          ∃ r, quiescent s (om_ResourceID dead) r ∧
            (om_Kind dead = OutboxPassiveObserve ∧
               m = operatorPassiveObserveMessage actionID (om_ResourceID dead) (rr_Version r) ∨
             om_Kind dead = OutboxWakeDependents ∧
               m = operatorWakeDependentsMessage actionID (om_ResourceID dead) (rr_Version r))))
  end.

Lemma recovery_message target actionID s m executions' :
  recovery target actionID s m executions' → fresh m ∧ om_State m = OutboxPending ∧
  om_Kind m ≠ OutboxDispatch.
Proof.
  assert (∀ id, observed_again s id m executions' →
    fresh m ∧ om_State m = OutboxPending ∧ om_Kind m ≠ OutboxDispatch) as Hobs.
  { intros id (o & e & _ & _ & _ & _ & -> & _). by repeat split; try left. }
  destruct target; cbn.
  - apply Hobs.
  - intros (_ & r & _ & ->). by repeat split; try left.
  - intros (d & _ & _ & [[_ H]|[_ [[_ (o & _ & _ & ->)]|(r & _ & [[_ ->]|[_ ->]])]]]);
      [by apply (Hobs (om_OperationID d))|by repeat split; try left..].
Qed.

(** *** The steps of a recovery *)

Lemma findExecution_run id s s' found :
  findExecution id s = (s', Ok found) → s' = s ∧ executions s !! id = found.
Proof.
  unfold findExecution. intros H. tx_inv.
  match goal with H : attempted _ _ = _ |- _ => apply attempted_run in H as [-> Hx] end.
  destruct x0 as [e|e]; [apply ret_run in H as [-> ->]; by apply found_run in Hx|].
  case_match; [|by apply lift_run in H as [_ ?]]. apply ret_run in H as [-> ->].
  by destruct (executions s !! id).
Qed.

Lemma enqueueRecovery_run m existing s s' id :
  outbox_inv (messages s) → fresh m → om_State m = OutboxPending →
  enqueueRecovery m existing s = (s', Ok id) →
  id = om_ID m ∧ ∃ o', scheduled m (messages s) o' ∧ s' = s <| messages := o' |>.
Proof.
  intros Hinv Hf Hstate. unfold enqueueRecovery. intros H. apply bind_run in H as (t & x & Hx & H).
  destruct x as [u|e]; [|by apply lift_run in H as [_ ?]]. apply ret_run in H as [-> ->].
  split; [done|].
  assert (tx_Enqueue clock clock' m s = (t, Ok u)) as (o' & Ho & ->)%on_messages_run.
  { unfold attempted, handled in Hx. destruct (tx_Enqueue _ _ _ _) as [t' []]; by simplify_eq. }
  exists o'. split; [|done]. revert Ho. unfold Enqueue.
  destruct (enqueueConflict _ _) as [[]|] eqn:Hc; intros [= <-].
  - left. split; [|done]. apply enqueueConflict_same in Hc as (n & Hn & Hd).
    rewrite ranged_values in Hn. apply list_elem_of_fmap in Hn as ([i n'] & -> & Hn').
    apply elem_of_map_to_list in Hn'. pose proof (iv_keyed _ Hinv _ _ Hn') as [_ Hi].
    exists n'. rewrite <- (fr_key _ Hf). cbn in Hd. congruence.
  - right. rewrite Hstate.
    assert (∀ i n, messages s !! i = Some n → om_DedupeKey n ≠ om_DedupeKey m ∧
              (isActive n = true → ¬ competes m n)) as Hfree.
    { intros i n Hn. apply (enqueueConflict_None _ _ Hc). rewrite ranged_values.
      apply list_elem_of_fmap. exists (i, n). split; [done|]. by apply elem_of_map_to_list. }
    split_and!; [|intros i n Hn; by apply (Hfree i)|done].
    destruct (messages s !! om_ID m) as [n|] eqn:Hn; [|done].
    destruct (Hfree _ _ Hn) as [Hd _]. destruct Hd.
    rewrite (fr_key _ Hf). by apply (iv_keyed _ Hinv).
Qed.

(** The execution is saved with the next observation of its sequence. *)
Lemma save_observed e s s' u :
  executions s !! pe_OperationID e = Some e →
  let e' := (nextObserveMessage e).2 in
  tx_SaveExecution e' (pe_Version e') s = (s', Ok u) →
  s' = s <| executions := <[pe_OperationID e := e' <| pe_Version := u64_incr (pe_Version e) |>]>
                            (executions s) |>.
Proof.
  intros He. cbn. unfold tx_SaveExecution. intros H%writing_run. cbn in H. rewrite He in H.
  ok_inv. by case_bool_decide.
Qed.

Definition effected (s : Store) (m : OutboxMessage)
    (executions' : gmap OperationID ProvisioningExecutionRecord) (s' : Store) : Prop :=
  ∃ o', scheduled m (messages s) o' ∧
    s' = s <| executions := executions' |> <| messages := o' |>.

Lemma enqueue_effected m existing s executions' s' id :
  outbox_inv (messages s) → fresh m → om_State m = OutboxPending →
  enqueueRecovery m existing (s <| executions := executions' |>) = (s', Ok id) →
  id = om_ID m ∧ effected s m executions' s'.
Proof. intros Hinv Hf Hp H. by apply enqueueRecovery_run in H. Qed.

Lemma enqueue_only m existing s s' id :
  outbox_inv (messages s) → fresh m → om_State m = OutboxPending →
  enqueueRecovery m existing s = (s', Ok id) → id = om_ID m ∧ effected s m (executions s) s'.
Proof.
  intros Hinv Hf Hp H. apply enqueue_effected with existing; [done..|]. by destruct s.
Qed.

(** What the pieces of the hypotheses found. *)
Ltac found :=
  repeat match goal with
  | H : findExecution _ _ = _ |- _ => apply findExecution_run in H as [-> ?]
  | H : tx_ActiveForResource _ _ = _ |- _ => apply ActiveForResource_run in H as [-> ?]
  | H : tx_GetOperation _ _ = _ |- _ => apply reading_run in H as [-> ?%found_run]
  | H : tx_GetResource _ _ = _ |- _ => apply reading_run in H as [-> ?%found_run]
  | H : tx_GetOutbox _ _ = _ |- _ => apply reading_run in H as [-> ?%found_run]
  | H : tx_LatestForResource _ _ = _ |- _ => apply reading_run in H as [-> _]
  | H : tx_StateIdentity _ _ = _ |- _ => apply reading_run in H as [-> _]
  | H : tx_SummarizeSubmissionAttempts _ _ = _ |- _ => apply reading_run in H as [-> _]
  | H : tx_SummarizeWorkByOperation _ _ = _ |- _ => apply reading_run in H as [-> _]
  | H : tx_SummarizeWorkByResource _ _ = _ |- _ => apply reading_run in H as [-> _]
  | H : tx_HasDependencyWaitsForOperation _ _ = _ |- _ => apply reading_run in H as [-> _]
  | H : negb (assessmentAllows _ _) = false |- _ => apply negb_false_iff in H
  end.

(** The last steps of a recovery that observes. *)
Lemma observe_run s id o e existing s' work :
  integrity s → operations s !! id = Some o → IsTerminal (opr_Operation o) = false →
  executions s !! id = Some e → outstanding (executionSummaryOf e) →
  (let '(message, execution) := nextObserveMessage e in
   tx_SaveExecution execution (pe_Version execution) ≫= λ _, enqueueRecovery message existing) s
    = (s', Ok work) →
  ∃ m executions', work = om_ID m ∧ observed_again s id m executions' ∧
    effected s m executions' s'.
Proof.
  intros Hi Ho Ht He Hout H. apply bind_run in H as (t & u & Hsave & H).
  destruct (in_executions _ Hi _ _ He) as [<- _].
  apply (save_observed e) in Hsave as ->; [|done].
  apply enqueue_effected in H as [-> Heff];
    [|by apply reachable_inv, in_messages|by repeat split; try left|done].
  do 2 eexists. split; [done|]. split; [|exact Heff]. by exists o, e.
Qed.

Lemma applyOperationObservation_run id ifMatch s s' work :
  integrity s → applyOperationObservation id ifMatch s = (s', Ok work) →
  ∃ m executions', work = om_ID m ∧ observed_again s id m executions' ∧
    effected s m executions' s'.
Proof.
  intros Hi H. unfold applyOperationObservation in H. tx_inv. found.
  match goal with H : context [match ?x with Some _ => _ | None => _ end] |- _ =>
    destruct x as [e|]; [|tx_inv] end. tx_inv. found.
  match goal with H : assessmentAllows _ _ = true |- _ =>
    apply observe_allowed in H as (Ht & _ & _ & Hout & _) end.
  by eapply observe_run.
Qed.

Lemma applyPassiveObservation_run actionID id ifMatch s s' work :
  integrity s → applyPassiveObservation actionID id ifMatch s = (s', Ok work) →
  ∃ m, work = om_ID m ∧ recovery (ObservePassively id) actionID s m (executions s) ∧
    effected s m (executions s) s'.
Proof.
  intros Hi H. unfold applyPassiveObservation in H. tx_inv. found.
  match goal with H : assessmentAllows _ _ = true |- _ =>
    apply passive_allowed in H as (Hst & _ & Hno & _); cbn in Hst, Hno end.
  destruct x2 as [a|]; [done|].
  match goal with H : mret _ _ = _ |- _ => apply ret_run in H as [-> ->] end.
  apply enqueue_only in H as [-> Heff];
    [|by apply reachable_inv, in_messages|by repeat split; try left|done].
  eexists. split; [done|]. split; [|exact Heff]. split; [done|]. by exists x0.
Qed.

(** *** Dead work *)

Record operation_found (dead : OutboxMessage) (s : Store) (t : DeadTarget) : Prop := {
  of_operation : ∃ o, operations s !! om_OperationID dead = Some o ∧
    dt_Operation t = Some o ∧ dws_OperationState (dt_Snapshot t) = op_state (opr_Operation o);
  of_resource_nil : dt_Resource t = None;
  of_target : dws_OperationTarget (dt_Snapshot t) = true;
  of_execution : dws_HasExecution (dt_Snapshot t) = true → ∃ e,
    dt_Execution t = Some e ∧ executions s !! om_OperationID dead = Some e ∧
    dws_Execution (dt_Snapshot t) = executionSummaryOf e }.

Record resource_found (dead : OutboxMessage) (s : Store) (t : DeadTarget) : Prop := {
  rf_resource : ∃ r, resources s !! om_ResourceID dead = Some r ∧ dt_Resource t = Some r ∧
    dws_ResourceState (dt_Snapshot t) = st_state (rr_Status r);
  rf_idle : dws_ActiveOperation (dt_Snapshot t) = false → idle s (om_ResourceID dead);
  rf_target : dws_OperationTarget (dt_Snapshot t) = false }.

Lemma deadWorkSnapshot_run dead s s' t :
  deadWorkSnapshot dead s = (s', Ok t) →
  s' = s ∧ dws_Kind (dt_Snapshot t) = om_Kind dead ∧
  (operation_found dead s t ∨ resource_found dead s t).
Proof.
  unfold deadWorkSnapshot, deadOperationSnapshot, deadResourceSnapshot. intros H.
  case_match; tx_inv; found.
  - case_match; tx_inv; found.
    + split_and!; [done..|]. left. by split; eauto.
    + match goal with H : context [match ?x with Some _ => _ | None => _ end] |- _ =>
        destruct x as [e|] end; tx_inv; split_and!; try done; left; split; cbn; eauto; done.
  - split_and!; [done..|]. right. split; cbn; eauto.
    match goal with H : match ?x with Some _ => _ | None => _ end |- _ => by destruct x end.
Qed.

Lemma applyDeadWorkRecovery_run actionID id ifMatch s s' work :
  integrity s → applyDeadWorkRecovery actionID id ifMatch s = (s', Ok work) →
  ∃ m executions', work = om_ID m ∧ recovery (RecoverWork id) actionID s m executions' ∧
    effected s m executions' s'.
Proof.
  intros Hi H. unfold applyDeadWorkRecovery in H. tx_inv. found.
  match goal with H : deadWorkSnapshot _ _ = _ |- _ =>
    apply deadWorkSnapshot_run in H as (-> & Hkind & Hfound) end.
  match goal with H : assessmentAllows _ _ = true |- _ =>
    apply dead_work_allowed in H as (_ & _ & Hallow) end.
  match goal with H : (om_State _ <>? _) = false |- _ => bool_facts end.
  match goal with H : recoveredWork _ _ _ _ _ = _ |- _ =>
    apply recoveredWork_cases in H as [(e & Hk & Hex & -> & ->)|[-> Hcases]] end.
  - destruct Hfound as [[(o & Ho & _ & Hst) _ Ht Hhas]|[_ _ Ht]];
      [|exfalso; rewrite Ht, Hkind in Hallow; destruct Hk as [Hk|Hk]; rewrite Hk in Hallow;
        intuition discriminate].
    rewrite Ht, Hkind, Hst in Hallow.
    assert (dws_HasExecution (dt_Snapshot x2) = true ∧ outstanding (dws_Execution (dt_Snapshot x2)) ∧
      operationStateIsTerminal (op_state (opr_Operation o)) = false) as (Hx & Hout & Hterm)
      by (destruct Hk as [Hk|Hk]; rewrite Hk in Hallow; intuition discriminate).
    destruct (Hhas Hx) as (e' & He & Hrow & Hsum). rewrite Hsum in Hout.
    replace e' with e in * by congruence.
    assert ((let '(message, execution) := nextObserveMessage e in
       tx_SaveExecution execution (pe_Version execution) ≫= λ _,
       enqueueRecovery message (dt_EquivalentID x2)) s = (s', Ok work)) as Hrun
      by (apply bind_run; eauto).
    eapply observe_run in Hrun as (m & executions' & -> & Hm & Heff); [|done..].
    exists m, executions'. split_and!; [done| |done]. exists x0. split_and!; [done..|]. by left.
  - tx_inv.
    assert (recovery (RecoverWork id) actionID s o (executions s)) as Hm.
    { exists x0. split_and!; [done..|]. right. split; [done|].
      destruct Hfound as [[(r & Ho & Hop & Hst) Hnil Ht _]|[(r & Hr & Hres & Hst) Hidle Ht]];
        rewrite Ht, Hkind, Hst in Hallow;
        destruct Hcases as [(q & Hk & Hq & ->)|[(q & Hk & Hq & ->)|(q & Hk & Hq & ->)]];
        rewrite Hk in Hallow; try congruence; [|intuition discriminate|right|right].
      - left. split; [done|]. exists r. replace q with r by congruence.
        rewrite (in_operations _ Hi _ _ Ho). split_and!; [done| |done]. by intuition.
      - exists r. replace q with r in * by congruence. rewrite (in_resources _ Hi _ _ Hr).
        split; [split_and!; [done|naive_solver..]|by left].
      - exists r. replace q with r in * by congruence. rewrite (in_resources _ Hi _ _ Hr).
        split; [split_and!; [done|naive_solver..]|by right]. }
    destruct (recovery_message _ _ _ _ _ Hm) as (Hfresh & Hpend & _).
    apply enqueue_only in H as [-> Heff]; [|by apply reachable_inv, in_messages|done..].
    do 2 eexists. split; [done|]. split; [exact Hm|exact Heff].
Qed.

Lemma apply_run target actionID ifMatch s s' work :
  integrity s → mp_apply (operator_plan target actionID) ifMatch s = (s', Ok work) →
  ∃ m executions', work = om_ID m ∧ recovery target actionID s m executions' ∧
    effected s m executions' s'.
Proof.
  intros Hi H. destruct target; cbn [operator_plan mp_apply] in H.
  - by eapply applyOperationObservation_run.
  - apply applyPassiveObservation_run in H as (m & Hm); [|done]. by exists m, (executions s).
  - by eapply applyDeadWorkRecovery_run.
Qed.
(** *** One mutation *)

(** Operators create no operations, settle none and move no attempt. *)
Definition operator_rights : rights :=
  {| may_create := False; may_settle := False; may_move := λ _ _, False |}.

Definition operator_slot (cmd : OperatorMutationCommand) : string :=
  idempotencyMapKey (pr_ID (mc_Actor cmd)) (mc_IdempotencyKey cmd).

(** The answer an audit row stands for. *)
Definition answer (replay : bool) (action : OperatorActionRecord) (kind : string)
    : OperatorMutationResult :=
  {| mr_Replay := replay; mr_Action := oa_Action action;
     mr_TargetKind := oa_TargetKind action; mr_TargetID := oa_TargetID action;
     mr_OperatorActionID := oa_ID action; mr_CreatedWorkID := oa_CreatedWorkID action;
     mr_SourceWorkKind := kind |}.

(** The kind of a message of the store. *)
Definition kind_of (s : Store) (id : string) : string :=
  from_option om_Kind "" (messages s !! id).

(** What an accepted mutation leaves behind, in full. *)
Record accepted (cmd : OperatorMutationCommand) (target : operator_target)
    (s s' : Store) (res : OperatorMutationResult) : Prop := {
  ac_fresh : mr_Replay res = false;
  ac_effect : ∃ actionID m executions' o',
    let plan := operator_plan target actionID in
    let action := auditRecord cmd plan (pr_ID (mc_Actor cmd)) (om_ID m) in
    newOperatorActionID = Ok actionID ∧
    authorizeOperator (mc_Actor cmd) (mp_permission plan) (mp_target plan) = Ok tt ∧
    recovery target actionID s m executions' ∧ om_Kind m ≠ OutboxDispatch ∧
    scheduled m (messages s) o' ∧
    operatorActions s !! actionID = None ∧ operatorIdempotency s !! operator_slot cmd = None ∧
    s' = s <| executions := executions' |> <| messages := o' |>
           <| operatorActions := <[actionID := action]> (operatorActions s) |>
           <| operatorIdempotency := <[operator_slot cmd :=
                operatorKey cmd plan (pr_ID (mc_Actor cmd)) (planFingerprint plan)]>
                (operatorIdempotency s) |> ∧
    res = answer false action (if mp_auditAction plan =? AuditRecoverDeadWork
                               then kind_of s' (oa_SourceWorkID action) else "") }.

(** The answer of a key that was used before. *)
Record replays (cmd : OperatorMutationCommand) (target : operator_target)
    (s : Store) (res : OperatorMutationResult) : Prop := {
  rp_replay : mr_Replay res = true;
  rp_action : ∃ bound action, operatorIdempotency s !! operator_slot cmd = Some bound ∧
    oi_Fingerprint bound = planFingerprint (operator_plan target "") ∧
    operatorActions s !! oi_OperatorActionID bound = Some action ∧
    res = answer true action (if oa_SourceWorkID action =? "" then ""
                              else kind_of s (oa_SourceWorkID action)) }.

Lemma planFingerprint_action target actionID :
  planFingerprint (operator_plan target actionID) = planFingerprint (operator_plan target "").
Proof. by destruct target. Qed.

Lemma InsertOperatorAction_run record s s' u :
  tx_InsertOperatorAction record s = (s', Ok u) →
  operatorActions s !! oa_ID record = None ∧
  s' = s <| operatorActions := <[oa_ID record := record]> (operatorActions s) |>.
Proof.
  unfold tx_InsertOperatorAction. intros H%writing_run. ok_inv. split; [|done].
  match goal with H : bool_decide (is_Some _) = false |- _ => by apply absent in H end.
Qed.

Lemma PutOperatorIdempotency_run record s s' u :
  tx_PutOperatorIdempotency record s = (s', Ok u) →
  let k := idempotencyMapKey (oi_Scope record) (oi_Key record) in
  operatorIdempotency s !! k = None ∧
  s' = s <| operatorIdempotency := <[k := record]> (operatorIdempotency s) |>.
Proof.
  unfold tx_PutOperatorIdempotency. intros H%writing_run. cbn in *. ok_inv. split; [|done].
  match goal with H : bool_decide (is_Some _) = false |- _ => by apply absent in H end.
Qed.

Lemma replayOperatorAction_run bound fingerprint s s' res :
  replayOperatorAction bound fingerprint s = (s', Ok res) →
  s' = s ∧ oi_Fingerprint bound = fingerprint ∧ ∃ action,
    operatorActions s !! oi_OperatorActionID bound = Some action ∧
    res = answer true action (if oa_SourceWorkID action =? "" then ""
                              else kind_of s (oa_SourceWorkID action)).
Proof.
  unfold replayOperatorAction. intros H. tx_inv. bool_facts.
  match goal with H : tx_GetOperatorAction _ _ = _ |- _ =>
    apply reading_run in H as [-> Ha%found_run] end.
  match goal with H : sourceKind _ _ = _ |- _ => rename H into Hk end.
  unfold sourceKind in Hk. case_bool_decide as Hs; cbn in Hk; tx_inv; found;
    (split_and!; [done..|]); eexists; (split; [done|]).
  - by rewrite Hs.
  - unfold kind_of. rewrite bool_decide_false by done.
    match goal with H : messages _ !! _ = Some _ |- _ => by rewrite H end.
Qed.

Lemma createdKind_run plan s s' kind :
  (if mp_auditAction plan =? AuditRecoverDeadWork
   then source ← tx_GetOutbox (ot_ID (mp_target plan)); mret (om_Kind source)
   else mret "") s = (s', Ok kind) →
  s' = s ∧ kind = if mp_auditAction plan =? AuditRecoverDeadWork
                  then kind_of s (sourceOf plan) else "".
Proof.
  unfold sourceOf. case_bool_decide as Hs; intros H; tx_inv; found; [|done]. split; [done|].
  unfold kind_of. match goal with H : messages _ !! _ = Some _ |- _ => by rewrite H end.
Qed.

Lemma applyOperatorMutation_run cmd target actionID s s' res :
  integrity s → newOperatorActionID = Ok actionID →
  let plan := operator_plan target actionID in
  applyOperatorMutation cmd plan (pr_ID (mc_Actor cmd)) (planFingerprint plan) s = (s', Ok res) →
  accepted cmd target s s' res.
Proof.
  intros Hi Hid plan H. unfold applyOperatorMutation in H. tx_inv.
  match goal with H : mp_apply _ _ _ = _ |- _ =>
    apply apply_run in H as (m & executions' & -> & Hrec & (o' & Ho & ->)); [|done] end.
  match goal with H : (if _ then _ else _) _ = _ |- _ => apply createdKind_run in H as [-> ->] end.
  match goal with H : tx_InsertOperatorAction _ _ = _ |- _ =>
    apply InsertOperatorAction_run in H as [Hnew ->] end.
  match goal with H : tx_PutOperatorIdempotency _ _ = _ |- _ =>
    apply PutOperatorIdempotency_run in H as [Hkey ->] end.
  destruct (recovery_message _ _ _ _ _ Hrec) as (_ & _ & Hkind).
  assert (mp_actionID plan = actionID) as Hact by by destruct target.
  cbn in Hnew, Hkey. rewrite Hact in Hnew.
  split; [done|]. exists actionID, m, executions', o'. cbn. rewrite Hact.
  split_and!; try done; [by destruct x0|by destruct target].
Qed.

Lemma operatorUnit_run cmd target actionID s s' res :
  integrity s → newOperatorActionID = Ok actionID →
  operatorUnit cmd (operator_plan target actionID) s = (s', Ok res) →
  (s' = s ∧ replays cmd target s res) ∨
  (operatorIdempotency s !! operator_slot cmd = None ∧ accepted cmd target s s' res).
Proof.
  intros Hi Hid H. unfold operatorUnit in H. apply bind_run in H as (t & found & Hf & H).
  apply attempted_run in Hf as [-> Hf]. destruct found as [bound|e].
  - apply found_run in Hf. apply replayOperatorAction_run in H as (-> & Hfp & action & Ha & ->).
    left. split; [done|]. split; [done|]. exists bound, action.
    by rewrite Hfp, planFingerprint_action.
  - case_match; [|by apply lift_run in H as [_ ?]].
    right. split; [|by eapply applyOperatorMutation_run].
    unfold operator_slot. by destruct (operatorIdempotency s !! _).
Qed.

Lemma operate_shape cmd target s :
  ((operate cmd target s).1 = s ∧ is_ok (operate cmd target s).2 = false) ∨
  ∃ actionID, newOperatorActionID = Ok actionID ∧
    operate cmd target s = Within (operatorUnit cmd (operator_plan target actionID)) s.
Proof.
  unfold operate, runOperatorMutation, mbind, tx_bind, lift. cbv zeta.
  repeat case_match; (by left) || (right; by eauto) || (cbn in *; simplify_eq).
Qed.

(** *** A mutation that fails *)

Definition same_sequences (s s' : Store) : Prop :=
  nextOperationSequence s' = nextOperationSequence s ∧
  nextResourceSequence s' = nextResourceSequence s ∧ nextWaitSequence s' = nextWaitSequence s.

#[local] Instance same_sequences_preorder : PreOrder same_sequences.
Proof.
  unfold same_sequences. split; [by intros|]. intros s1 s2 s3 (? & ? & ?) (? & ? & ?).
  split_and!; congruence.
Qed.

Lemma same_sequences_writing f :
  (∀ s s', f s = Ok s' → same_sequences s s') → relates same_sequences (writing f).
Proof. intros Hf. by apply relates_writing; [apply _|]. Qed.

(** No part of a mutation allocates a sequence number. *)
Ltac steady :=
  repeat first
    [ progress cbv zeta
    | apply relates_bind; [apply _| |intros ? ? ? ?]
    | apply relates_handled
    | case_match
    | (intros ?; reflexivity)
    | solve [ apply same_sequences_writing; intros ? ? ?; cbv zeta in *;
              repeat (ok_inv; case_match); by ok_inv ] ].

Lemma operatorUnit_steady cmd target actionID :
  relates same_sequences (operatorUnit cmd (operator_plan target actionID)).
Proof.
  unfold operatorUnit, attempted, replayOperatorAction, sourceKind. steady.
  unfold applyOperatorMutation. steady.
  destruct target; cbn [operator_plan mp_apply].
  all: unfold applyOperationObservation, applyPassiveObservation, applyDeadWorkRecovery,
    deadWorkSnapshot, deadOperationSnapshot, deadResourceSnapshot, enqueueRecovery, findExecution,
    attempted.
  all: steady.
Qed.

Lemma same_sequences_Within {A} (m : tx A) s :
  relates same_sequences m → is_ok (Within m s).2 = false → (Within m s).1 = s.
Proof.
  intros Hm. specialize (Hm s). unfold Within. destruct (m s) as [t []]; cbn in *; try done.
  destruct Hm as (-> & -> & ->). by destruct s.
Qed.

(** *** A mutation is scripted *)

Lemma observe_fresh e : fresh (nextObserveMessage e).1.
Proof. by repeat split; try left. Qed.

Lemma recovered_fresh actionID dead execution resource operation created saved :
  recoveredWork actionID dead execution resource operation = Ok (created, saved) → fresh created.
Proof.
  intros [(e & _ & _ & -> & _)|[_ [(o & _ & _ & ->)|[(r & _ & _ & ->)|(r & _ & _ & ->)]]]]%recoveredWork_cases;
    by repeat split; try left.
Qed.

Lemma enqueueRecovery_scripted m existing :
  fresh m → scripted operator_rights (enqueueRecovery m existing).
Proof.
  intros Hm. unfold enqueueRecovery, attempted.
  pose proof (sc_Enqueue operator_rights clock clock' m Hm). script.
Qed.

Lemma apply_scripted target actionID ifMatch :
  scripted operator_rights (mp_apply (operator_plan target actionID) ifMatch).
Proof.
  destruct target; cbn [operator_plan mp_apply].
  - unfold applyOperationObservation, findExecution, attempted. script.
    apply enqueueRecovery_scripted. match goal with H : nextObserveMessage ?e = _ |- _ =>
      pose proof (observe_fresh e) as Hf; by rewrite H in Hf end.
  - unfold applyPassiveObservation, findExecution, attempted.
    script; apply enqueueRecovery_scripted; by repeat split; try left.
  - unfold applyDeadWorkRecovery, deadWorkSnapshot, deadOperationSnapshot, deadResourceSnapshot,
      findExecution, attempted. script; apply enqueueRecovery_scripted.
    all: match goal with H : lift (recoveredWork _ _ _ _ _) _ = _ |- _ =>
           apply lift_run in H as [_ H]; by eapply recovered_fresh end.
Qed.

Lemma operatorUnit_scripted cmd target actionID :
  scripted operator_rights (operatorUnit cmd (operator_plan target actionID)).
Proof.
  unfold operatorUnit, replayOperatorAction, sourceKind, attempted. script.
  unfold applyOperatorMutation. script. apply apply_scripted.
Qed.

(** A mutation fails, replays, or is accepted. *)
Lemma operate_cases cmd target s :
  integrity s →
  let run := operate cmd target s in
  (run.1 = s ∧ is_ok run.2 = false) ∨
  (run.1 = s ∧ ∃ res, run.2 = Ok res ∧ replays cmd target s res) ∨
  ∃ res, run.2 = Ok res ∧ operatorIdempotency s !! operator_slot cmd = None ∧
    accepted cmd target s run.1 res.
Proof.
  intros Hi. destruct (operate_shape cmd target s) as [?|(actionID & Hid & ->)]; [by left|].
  cbn. destruct (Within _ s) as [s' out] eqn:Hrun. destruct (is_ok out) eqn:Hok.
  - destruct out as [res| |]; [|done..]. apply (proj1 (Within_run _ _ _ _)) in Hrun.
    apply operatorUnit_run in Hrun as [[-> Hr]|[Hn Ha]]; [| |done..]; right; [left|right]; eauto.
  - left. pose proof (same_sequences_Within _ s (operatorUnit_steady cmd target actionID)) as Hsame.
    rewrite Hrun in Hsame. by split; [apply Hsame|].
Qed.

(** What no mutation touches. *)
Lemma operate_rows cmd target s :
  integrity s →
  let s' := (operate cmd target s).1 in
  resources s' = resources s ∧ operations s' = operations s ∧ attempts s' = attempts s ∧
  nextOperationSequence s' = nextOperationSequence s.
Proof.
  intros Hi. cbn. destruct (operate_cases cmd target s Hi) as [[-> _]|[[-> _]|(res & _ & _ & [_ Ha])]];
    [done..|].
  by destruct Ha as (? & ? & ? & ? & _ & _ & _ & _ & _ & _ & _ & -> & _).
Qed.


Lemma operate_respects cmd target : respects (operate cmd target).
Proof.
  intros s. destruct (operate_shape cmd target s) as [[Hs _]|(actionID & _ & ->)]; [by rewrite Hs|].
  eapply Within_respects, operatorUnit_scripted.
Qed.

(** What a mutation that succeeded left under its key. *)
Lemma operated_key cmd target s s1 res :
  integrity s → operate cmd target s = (s1, Ok res) →
  ∃ bound action kind, operatorIdempotency s1 !! operator_slot cmd = Some bound ∧
    oi_Fingerprint bound = planFingerprint (operator_plan target "") ∧
    operatorActions s1 !! oi_OperatorActionID bound = Some action ∧
    res = answer (mr_Replay res) action kind ∧
    kind = (if oa_SourceWorkID action =? "" then "" else kind_of s1 (oa_SourceWorkID action)) ∧
    (oa_SourceWorkID action ≠ "" → is_Some (messages s1 !! oa_SourceWorkID action)).
Proof.
  intros Hi Hrun. pose proof (proj1 (operate_respects cmd target s Hi)) as Hi1. rewrite Hrun in Hi1.
  destruct (operate_shape cmd target s) as [[_ Hok]|(actionID & Hid & Hw)]; [by rewrite Hrun in Hok|].
  rewrite Hw in Hrun. apply (proj1 (Within_run _ _ _ _)) in Hrun.
  apply operatorUnit_run in Hrun as [[-> [_ (bound & action & Hb & Hf & Ha & ->)]]|[_ Hacc]]; [..|done|done].
  - exists bound, action. eexists. split_and!; try done. apply (in_actions _ Hi1 _ _ Ha).
  - destruct Hacc as [_ (id & m & ex & o' & _ & _ & Hrec & _ & _ & _ & _ & Hs1 & ->)].
    assert (operatorActions s1 !! id =
      Some (auditRecord cmd (operator_plan target id) (pr_ID (mc_Actor cmd)) (om_ID m))) as Ha
      by (rewrite Hs1; apply lookup_insert_eq).
    do 3 eexists. split; [rewrite Hs1; apply lookup_insert_eq|].
    split; [apply planFingerprint_action|]. cbn [oi_OperatorActionID operatorKey].
    replace (mp_actionID (operator_plan target id)) with id by by destruct target.
    split; [done|]. split; [done|]. split; [|apply (in_actions _ Hi1 _ _ Ha)].
    destruct target as [| |w]; [done..|]. cbn. rewrite (bool_decide_false (w = "")); [done|].
    destruct Hrec as (dead & Hdead & _). by apply (iv_named _ (reachable_inv _ (in_messages _ Hi)) _ _ Hdead).
Qed.
End recoveries.

(** ** Keys *)

(** What the fingerprint of a mutation digests. *)
Definition target_parts (target : operator_target) : list string :=
  match target with
  | ObserveOperation id => [AuditTriggerObserve; OperatorTargetOperation; id; "1"]
  | ObservePassively id => [AuditTriggerPassiveObserve; OperatorTargetResource; id; "1"]
  | RecoverWork id => [AuditRecoverDeadWork; OperatorTargetWork; id; "1"]
  end.

Definition target_text (target : operator_target) : string :=
  frames ("liftr/operator-fingerprint/v1" :: target_parts target).

Definition framable_target (target : operator_target) : Prop :=
  match target with
  | ObserveOperation id | ObservePassively id | RecoverWork id => framable id
  end.

Lemma target_text_inj target target' :
  framable_target target → framable_target target' → target_text target = target_text target' →
  target = target'.
Proof.
  intros Ht Ht' H. apply frames_inj in H.
  - by destruct target, target'; cbn in H; injection H as ->.
  - destruct target; cbn in *; by repeat constructor.
  - destruct target'; cbn in *; by repeat constructor.
Qed.

Lemma planFingerprint_text {order : MapOrder} {ports : Ports} target actionID :
  planFingerprint (operator_plan target actionID) = sha256 (target_text target).
Proof. by destruct target. Qed.

Section keys.
Context {order : MapOrder} (ports ports' : Ports) (operators operators' : OperatorPorts).

(** An operator's key answers for one mutation only.  Once a mutation has been
    accepted under a key, whatever that operator asks for later under the same
    key writes nothing, whatever has happened in between; it succeeds only if
    it asks for the same recovery of the same target, and then answers with
    the recorded action and work, marked as a replay. *)
Theorem operator_key_answers_one_mutation cmd cmd' target target' s s1 s2 res :
  store_reachable s →
  operate (ports := ports) (operators := operators) cmd target s = (s1, Ok res) →
  later s1 s2 →
  pr_ID (mc_Actor cmd') = pr_ID (mc_Actor cmd) → mc_IdempotencyKey cmd' = mc_IdempotencyKey cmd →
  @Ports_Digest ports' = @Ports_Digest ports →
  framable_target target → framable_target target' →
  distinguished (digest := @Ports_Digest ports) (target_text target') (target_text target) →
  let run := operate (ports := ports') (operators := operators') cmd' target' s2 in
  run.1 = s2 ∧ ∀ res', run.2 = Ok res' →
    target' = target ∧
    res' = {| mr_Replay := true; mr_Action := mr_Action res;
              mr_TargetKind := mr_TargetKind res; mr_TargetID := mr_TargetID res;
              mr_OperatorActionID := mr_OperatorActionID res;
              mr_CreatedWorkID := mr_CreatedWorkID res;
              mr_SourceWorkKind := mr_SourceWorkKind res |}.
Proof.
  intros Hs%reachable_integrity Hrun Hlater Hactor Hkey Hdig Hf Hf' Hd run.
  pose proof (@operate_respects order ports operators cmd target s Hs) as [Hi1 _].
  rewrite Hrun in Hi1. cbn in Hi1.
  destruct (@operated_key order ports operators _ _ _ _ _ Hs Hrun)
    as (bound & action & kind & Hb & Hfp & Ha & Hres & Hk & Hsource).
  destruct (later_sound _ _ Hlater Hi1) as [Hi2 Hh].
  assert (operatorIdempotency s2 !! operator_slot cmd' = Some bound) as Hb2.
  { unfold operator_slot. rewrite Hactor, Hkey. by apply (lookup_weaken _ _ _ _ Hb), Hh. }
  assert (operatorActions s2 !! oi_OperatorActionID bound = Some action) as Ha2
    by by apply (lookup_weaken _ _ _ _ Ha), Hh.
  destruct (@operate_cases order ports' operators' cmd' target' s2 Hi2)
    as [[Hst Hok]|[[Hst (res' & Hr & [_ Hrep])]|(? & _ & Hn & _)]]; [| |congruence].
  { split; [done|]. subst run. intros res' H. by rewrite H in Hok. }
  split; [done|]. subst run. intros ? H. rewrite Hr in H. injection H as <-.
  destruct Hrep as (bound' & action' & Hb' & Hfp' & Ha' & ->).
  replace bound' with bound in * by congruence. replace action' with action in * by congruence.
  split.
  - apply target_text_inj; [done..|]. apply Hd. rewrite (@planFingerprint_text order ports) in Hfp.
    rewrite (@planFingerprint_text order ports'), Hdig in Hfp'. congruence.
  - rewrite Hres. cbn. unfold answer. f_equal. rewrite Hk. case_bool_decide as Hs0; [done|].
    destruct (Hsource Hs0) as [m Hm]. destruct (hs_messages _ _ Hh _ _ Hm) as (m' & Hm' & Hsame & _).
    unfold kind_of. rewrite Hm, Hm'. cbn. apply Hsame.
Qed.
End keys.

(** ** A concrete recovery *)

#[local] Existing Instance Idempotency.sample_order.

(** The sample service, with a provisioner behind every reference. *)
#[local] Instance sample_ports : Ports :=
  {| Types_Get := @Types_Get Idempotency.sample_ports;
     Selector_Select := @Selector_Select Idempotency.sample_ports;
     Resolver_Resolve _ := Ok (Some {| pv_SelectOutputRecoveryMapping := None |});
     Authorizer_ := @Authorizer_ Idempotency.sample_ports;
     Policy_Plan := @Policy_Plan Idempotency.sample_ports;
     Policy_Decide := @Policy_Decide Idempotency.sample_ports;
     Ports_Digest := sample_digest; clock := 40%Z; clock' := 41%Z |}.

Definition sample_operators (raw : string) : OperatorPorts :=
  {| OperatorAuthorizer_ := Some (λ _ _ _, Ok tt); rand_Read := Ok raw; audit_clock := 42%Z |}.

Definition sample_mutation : OperatorMutationCommand :=
  {| mc_Actor := sample_principal; mc_IdempotencyKey := "key"; mc_RequestID := "req-1";
     mc_IfMatch := "" |}.

(** The drive of the admitted creation was claimed and quarantined. *)
Definition sample_quarantine : tx unit :=
  tx_ClaimOutbox 30%Z "token" 10%Z ≫= λ _, tx_DeadOutbox 31%Z "drive:op-1:1" "token" "broken".

Lemma sample_quarantine_scripted : scripted all_rights sample_quarantine.
Proof. unfold sample_quarantine. script. Qed.

Definition sample_dead_store : Store := (Within sample_quarantine sample_store).1.

Lemma sample_store_reachable : store_reachable sample_store.
Proof.
  unfold sample_store. destruct (@admit_shape Idempotency.sample_order Idempotency.sample_ports
    sample_create) as [Href|Hw].
  - destruct (Href NewStore) as [-> _]. constructor.
  - rewrite Hw. constructor; [constructor|]. eapply scripted_all, request_unit_scripted.
Qed.

Lemma sample_dead_reachable : store_reachable sample_dead_store.
Proof. constructor; [apply sample_store_reachable|apply sample_quarantine_scripted]. Qed.

Definition sample_recovery (raw : string) : Store * outcome OperatorMutationResult :=
  operate (operators := sample_operators raw) sample_mutation (RecoverWork "drive:op-1:1")
    sample_dead_store.
Definition sample_recovered : OperatorMutationResult := ltac:(run ((sample_recovery "raw-1").2)).

Lemma sample_recovery_run : sample_recovery "raw-1" = ((sample_recovery "raw-1").1, Ok sample_recovered).
Proof. apply surjective_run. vm_compute. reflexivity. Qed.


(** Asking again, with fresh random bytes, answers with the recorded action. *)
Lemma operator_key_answers_one_mutation_witness :
  (operate (operators := sample_operators "raw-2") sample_mutation
     (RecoverWork "drive:op-1:1") (sample_recovery "raw-1").1).1 = (sample_recovery "raw-1").1.
Proof.
  refine (proj1 (operator_key_answers_one_mutation sample_ports sample_ports
    (sample_operators "raw-1") (sample_operators "raw-2") sample_mutation sample_mutation
    (RecoverWork "drive:op-1:1") (RecoverWork "drive:op-1:1") sample_dead_store _ _ sample_recovered
    sample_dead_reachable sample_recovery_run (rtc_refl _ _) eq_refl eq_refl eq_refl _ _ _));
    done.
Defined.
