(* ===== verification/Diagnostics.v ===== *)
(** * Operator diagnostics

    Models the reads of [src/internal/application/operator_diagnostics.go]: the
    snapshot of a resource, of an operation and of a work item that an operator
    is shown, with the assessment of what may be done and the revision a
    mutation may be fenced with.  The revisions are in [Operator]; a revision
    that was shown is honoured by the mutation it is shown for. *)

From S2P Require Import Prelude Operation Values Resource Status Provisioning Records.
From S2P Require Import Engine Submission Policy Text Encoding Strconv Identity Fingerprint.
From S2P Require Import Work Recovery Outbox Store History Rights Admission Idempotency Operator.
From Stdlib Require Import SpecFloat.
Open Scope string_scope.
Open Scope go_scope.

(** ** Times *)

Definition maxDuration : Z := (2 ^ 63 - 1)%Z.
Definition minDuration : Z := (- 2 ^ 63)%Z.

(** [Time.Sub] saturates. *)
Definition Sub (t u : Time) : Z := Z.max minDuration (Z.min maxDuration (t - u)).

Definition float64_of (z : Z) : spec_float := binary_normalize 53 1024 z 0 false.

(** [Duration.Seconds]: whole seconds, plus the rest divided by 1e9. *)
Definition Seconds (d : Z) : spec_float :=
  let sec := Z.quot d 1000000000 in
  let nsec := Z.rem d 1000000000 in
  SFadd 53 1024 (float64_of sec) (SFdiv 53 1024 (float64_of nsec) (float64_of 1000000000)).

Definition durationSeconds (d : Z) : spec_float :=
  if bool_decide (d ≤ 0)%Z then S754_zero false else Seconds d.

Definition clampPast (t now : Time) : Time := if IsZero t || After t now then now else t.

(** [lastActivityOf]: the newest of the times that are set. *)
Definition activityCandidates (operation : Operation) (execution : ProvisioningExecutionRecord)
    : list Time :=
  ((if IsZero (op_phaseChangedAt operation) then [] else [op_phaseChangedAt operation]) ++
   (if IsZero (op_startedAt operation) then [] else [op_startedAt operation]) ++
   (if IsZero (pe_LastObservedAt execution) then [] else [pe_LastObservedAt execution]))%list.

Definition lastActivityOf (operation : Operation) (execution : ProvisioningExecutionRecord)
    : Time :=
  foldl (λ newest candidate, if After candidate newest then candidate else newest)
    (op_requestedAt operation) (activityCandidates operation execution).

(** ** Snapshots *)

Record ResourceDiagnostics := {
  rd_ResourceID : ResourceID;
  rd_TypeName : string;
  rd_TypeVersion : string;
  rd_OwnerKind : string;
  rd_OwnerID : string;
  rd_Generation : uint64;
  rd_ObservedGeneration : uint64;
  rd_State : string;
  rd_StatusUpdatedAt : Time;
  rd_ActiveOperation : option OperationRefSummary;
  rd_LatestOperation : option OperationRefSummary;
  rd_OperationAgeSeconds : spec_float;
  rd_ReconciliationSilenceSeconds : spec_float;
  rd_OutputResolution : string;
  rd_ProvisionerRef : string;
  rd_RegistrationAvailable : bool;
  rd_StateIdentity : option StateIdentitySummary;
  rd_SpecDigest : string;
  rd_SpecDigestAvailable : bool;
  rd_Assessment : RecoveryAssessment;
  rd_Revision : string }.

Record AttemptDiagnostic := {
  ad_Number : uint64;
  ad_State : string;
  ad_BoundaryCrossed : bool;
  ad_ClaimedAt : Time;
  ad_ResolvedAt : Time;
  ad_FailureKind : string }.

Record OutstandingWork := {
  ow_ID : string;
  ow_Kind : string;
  ow_State : string;
  ow_CreatedAt : Time;
  ow_AvailableAt : Time;
  ow_AttemptCount : Z }.

Record OperationDiagnostics := {
  od_OperationID : OperationID;
  od_ResourceID : ResourceID;
  od_Capability : Capability;
  od_TargetGeneration : uint64;
  od_State : string;
  od_Phase : string;
  od_RetryOf : OperationID;
  od_RequestedAt : Time;
  od_StartedAt : Time;
  od_CompletedAt : Time;
  od_AgeSeconds : spec_float;
  od_Execution : option ExecutionDiagnostics;
  od_LatestAttempt : option AttemptDiagnostic;
  od_AttemptCount : uint64;
  od_ActiveWork : list OutstandingWork;
  od_ActiveWorkTruncated : bool;
  od_WorkCount : Z;
  od_ProvisionerRef : string;
  od_RegistrationAvailable : bool;
  od_Assessment : RecoveryAssessment;
  od_Revision : string }.

Record WorkDiagnostics := {
  wd_WorkID : string;
  wd_Kind : string;
  wd_State : string;
  wd_OperationID : OperationID;
  wd_ResourceID : ResourceID;
  wd_AttemptNumber : uint64;
  wd_CreatedAt : Time;
  wd_AvailableAt : Time;
  wd_AttemptCount : Z;
  wd_LeaseActive : bool;
  wd_LeaseExpired : bool;
  wd_TerminalReasonClass : string;
  wd_TargetTerminal : bool;
  wd_ActiveEquivalentWork : bool;
  wd_Superseded : bool;
  wd_Assessment : RecoveryAssessment;
  wd_Revision : string }.

Definition WorkActiveLimit : nat := 8.

Definition attemptDiagnosticOf (attempt : SubmissionAttemptRecord) : AttemptDiagnostic :=
  {| ad_Number := sa_AttemptNumber attempt; ad_State := sa_State attempt;
     ad_BoundaryCrossed := negb (IsZero (sa_ClaimedAt attempt));
     ad_ClaimedAt := sa_ClaimedAt attempt; ad_ResolvedAt := sa_ResolvedAt attempt;
     ad_FailureKind := failureKindOf (sa_Failure attempt) |}.

Definition outstandingWorkOf (message : OutboxMessage) : OutstandingWork :=
  {| ow_ID := om_ID message; ow_Kind := om_Kind message; ow_State := om_State message;
     ow_CreatedAt := om_CreatedAt message; ow_AvailableAt := om_AvailableAt message;
     ow_AttemptCount := om_AttemptCount message |}.

(** The sum of the counts does not depend on the order of the map. *)
Definition workTotal (summary : WorkHistorySummary) : Z :=
  foldr Z.add 0%Z (map_to_list (wh_Counts summary)).*2.

Definition knownTerminalReasons : list string :=
  ["StaleWork"; "StaleDrive"; "AlreadyDispatchable"; "Driven";
   "Submitted"; "AmbiguousSubmission"; "OutputsPending";
   "OutputPostconditionRejected"; "TerminalExecution";
   "ObservedNoCurrentExecution"; "ObservedUncorrelatedExecution";
   "ObservedNonterminal"; "StaleObservation"; "SubmissionNotFound";
   "PassivelyObserved"; "DispatchResultPersistenceFailed";
   "StaleExpiredDispatch"; "LeaseExpiredAmbiguous"; "ExpiredFencedDispatch"].

Definition terminalReasonClass (reason : string) : string :=
  if reason =? "" then ""
  else if bool_decide (reason ∈ knownTerminalReasons) then reason
  else "UNCLASSIFIED".

(** ** The reads *)

(** The summary a variable holds before it is assigned. *)
Definition noWork : WorkHistorySummary := {| wh_Active := []; wh_Counts := ∅ |}.

Section diagnostics.
Context {order : MapOrder} {ports : Ports} {operators : OperatorPorts}.
(** [encoding/json] of the values of a spec. *)
Context (Marshal : ResourceSpec → outcome string).

(** The store's [SpecDigest]. *)
Definition tx_SpecDigest (id : ResourceID) : tx (option string) := reading (λ s,
  match resources s !! id with
  | None => Ok None
  | Some record => body ← Marshal (res_spec (rr_Resource record)); Ok (Some (hex (sha256 body)))
  end).

(** What the read of a resource finds out about its operation and its work. *)
Record ResourceFacts := {
  rf_Age : spec_float;
  rf_Silence : spec_float;
  rf_Resolution : string;
  rf_Available : bool;
  rf_Execution : option ProvisioningExecutionRecord;
  rf_Work : WorkHistorySummary;
  rf_Assessment : RecoveryAssessment }.

(** The branch of an active operation. *)
Definition activeFacts (operation : Operation) (now : Time) : tx ResourceFacts :=
  let age := durationSeconds (Sub now (clampPast (op_requestedAt operation) now)) in
  found ← findExecution (op_id operation);
  match found with
  | Some execution =>
      work ← tx_SummarizeWorkByOperation (op_id operation);
      available ← lift (resolveRegistration (pe_ProvisionerRef execution));
      blocked ← tx_HasDependencyWaitsForOperation (op_id operation);
      mret {| rf_Age := age;
              rf_Silence := durationSeconds
                (Sub now (clampPast (lastActivityOf operation execution) now));
              rf_Resolution := pe_OutputResolution execution; rf_Available := available;
              rf_Execution := Some execution; rf_Work := work;
              rf_Assessment := PlanOperationObserve
                {| ors_OperationState := op_state operation; ors_HasExecution := true;
                   ors_Execution := executionSummaryOf execution;
                   ors_ActiveObserveWork := HasActive work OutboxObserve;
                   ors_DependencyBlocked := blocked;
                   ors_RegistrationAvailable := available |} |}
  | None =>
      mret {| rf_Age := age; rf_Silence := S754_zero false; rf_Resolution := "";
              rf_Available := false; rf_Execution := None; rf_Work := noWork;
              rf_Assessment := PlanOperationObserve
                {| ors_OperationState := op_state operation; ors_HasExecution := false;
                   ors_Execution := noSummary; ors_ActiveObserveWork := false;
                   ors_DependencyBlocked := false; ors_RegistrationAvailable := false |} |}
  end.

(** The branch of a resource on which none is active. *)
Definition passiveFacts (record : ResourceRecord) (id : ResourceID) : tx ResourceFacts :=
  available ← lift (resolveRegistration (rr_ProvisionerRef record));
  work ← tx_SummarizeWorkByResource id;
  mret {| rf_Age := S754_zero false; rf_Silence := S754_zero false; rf_Resolution := "";
          rf_Available := available; rf_Execution := None; rf_Work := work;
          rf_Assessment := PlanResourcePassiveObserve
            {| rps_ResourceState := st_state (rr_Status record); rps_ActiveOperation := false;
               rps_ActivePassiveObserveWork := HasActive work OutboxPassiveObserve;
               rps_RegistrationAvailable := available |} |}.

Definition resourceDiagnosticsUnit (id : ResourceID) (now : Time) : tx ResourceDiagnostics :=
  record ← tx_GetResource id;
  active ← tx_ActiveForResource id;
  latest ← tx_LatestForResource id;
  facts ← match active with
          | Some a => activeFacts (opr_Operation a) now
          | None => passiveFacts record id
          end;
  binding ← tx_StateIdentity id;
  specDigest ← tx_SpecDigest id;
  let resource := rr_Resource record in
  let status := rr_Status record in
  let refOf := option_map (λ r, operationRefOf (opr_Operation r)) in
  mret
    {| rd_ResourceID := res_id resource; rd_TypeName := ref_Name (res_type resource);
       rd_TypeVersion := ref_Version (res_type resource);
       rd_OwnerKind := owner_Kind (res_owner resource);
       rd_OwnerID := owner_ID (res_owner resource);
       rd_Generation := res_generation resource;
       rd_ObservedGeneration := st_observedGeneration status; rd_State := st_state status;
       rd_StatusUpdatedAt := st_updatedAt status; rd_ActiveOperation := refOf active;
       rd_LatestOperation := refOf latest; rd_OperationAgeSeconds := rf_Age facts;
       rd_ReconciliationSilenceSeconds := rf_Silence facts;
       rd_OutputResolution := rf_Resolution facts;
       rd_ProvisionerRef := rr_ProvisionerRef record;
       rd_RegistrationAvailable := rf_Available facts; rd_StateIdentity := binding;
       rd_SpecDigest := default "" specDigest;
       rd_SpecDigestAvailable := non_nil specDigest (λ _, true);
       rd_Assessment := rf_Assessment facts;
       rd_Revision := computeResourceRevision (rr_Version record) (st_updatedAt status)
         (res_generation resource) (st_observedGeneration status) (st_state status)
         (refOf active) (refOf latest) binding (executionDiagnosticOf <$> rf_Execution facts)
         (rf_Work facts) (rf_Available facts) |}.

(** A read of a target: authorized, then one unit of work. *)
Definition diagnosed {A} (principal : Principal) (kind id : string) (unit_ : tx A) : tx A :=
  lift (authorizeOperator principal ActionOperatorDiagnosticsRead
    {| ot_Kind := kind; ot_ID := id |}) ≫= λ _,
  Within unit_.

Definition ResourceOperatorDiagnostics (principal : Principal) (id : ResourceID) (now : Time)
    : tx ResourceDiagnostics :=
  diagnosed principal OperatorTargetResource id (resourceDiagnosticsUnit id now).

Definition operationDiagnosticsUnit (id : OperationID) (now : Time) : tx OperationDiagnostics :=
  operation ← tx_GetOperation id;
  let op := opr_Operation operation in
  attempts ← tx_SummarizeSubmissionAttempts id;
  work ← tx_SummarizeWorkByOperation id;
  execution ← findExecution id;
  available ← match execution with
              | Some e => lift (resolveRegistration (pe_ProvisionerRef e))
              | None => mret false
              end;
  let execDiag := executionDiagnosticOf <$> execution in
  mret
    {| od_OperationID := op_id op; od_ResourceID := op_resourceID op;
       od_Capability := op_capability op; od_TargetGeneration := op_targetGeneration op;
       od_State := op_state op; od_Phase := op_phase op; od_RetryOf := op_retryOf op;
       od_RequestedAt := op_requestedAt op; od_StartedAt := op_startedAt op;
       od_CompletedAt := op_completedAt op;
       od_AgeSeconds := durationSeconds (Sub now (clampPast (op_requestedAt op) now));
       od_Execution := execDiag; od_LatestAttempt := attemptDiagnosticOf <$> ah_Latest attempts;
       od_AttemptCount := ah_Count attempts;
       od_ActiveWork := map outstandingWorkOf (wh_Active work);
       od_ActiveWorkTruncated := bool_decide (WorkActiveLimit ≤ length (wh_Active work))%nat;
       od_WorkCount := workTotal work;
       od_ProvisionerRef := from_option pe_ProvisionerRef "" execution;
       od_RegistrationAvailable := available;
       od_Assessment := PlanOperationObserve
         {| ors_OperationState := op_state op; ors_HasExecution := non_nil execution (λ _, true);
            ors_Execution := from_option executionSummaryOf noSummary execution;
            ors_ActiveObserveWork := non_nil execution (λ _, HasActive work OutboxObserve);
            ors_DependencyBlocked := false; ors_RegistrationAvailable := available |};
       od_Revision := operationRevision operation attempts work execDiag available |}.

Definition OperationOperatorDiagnostics (principal : Principal) (id : OperationID) (now : Time)
    : tx OperationDiagnostics :=
  diagnosed principal OperatorTargetOperation id (operationDiagnosticsUnit id now).

(** [activeEquivalentOfWork]: another active message that would do the same. *)
Definition activeEquivalentOfWork (message : OutboxMessage) : tx bool :=
  summary ← (if om_OperationID message <>? ""
             then tx_SummarizeWorkByOperation (om_OperationID message)
             else tx_SummarizeWorkByResource (om_ResourceID message));
  mret (existsb (λ row, (om_ID row <>? om_ID message) &&
                        (om_Kind row =? equivalentKind message)) (wh_Active summary)).

(** The facts of a work item: its snapshot, and whether its target ended. *)
Record WorkFacts := {
  wf_Snapshot : DeadWorkKindSnapshot;
  wf_TargetTerminal : bool }.

(** The snapshot of work of an operation, with whether equivalent work is active. *)
Definition withEquivalent (active : bool) (snapshot : DeadWorkKindSnapshot)
    : DeadWorkKindSnapshot :=
  {| dws_Kind := dws_Kind snapshot; dws_State := dws_State snapshot;
     dws_OperationTarget := dws_OperationTarget snapshot;
     dws_OperationState := dws_OperationState snapshot;
     dws_Execution := dws_Execution snapshot; dws_HasExecution := dws_HasExecution snapshot;
     dws_ResourceState := dws_ResourceState snapshot; dws_ActiveEquivalentWork := active;
     dws_ActiveOperation := dws_ActiveOperation snapshot;
     dws_Superseded := dws_Superseded snapshot;
     dws_RegistrationAvailable := dws_RegistrationAvailable snapshot;
     dws_TargetVersion := dws_TargetVersion snapshot;
     dws_ExecutionVersion := dws_ExecutionVersion snapshot |}.

Definition operationWorkFacts (message : OutboxMessage) : tx WorkFacts :=
  operation ← tx_GetOperation (om_OperationID message);
  let terminal := operationStateIsTerminal (op_state (opr_Operation operation)) in
  if om_Kind message =? OutboxDrive then
    resource ← tx_GetResource (op_resourceID (opr_Operation operation));
    active ← activeEquivalentOfWork message;
    available ← lift (resolveRegistration (rr_ProvisionerRef resource));
    mret {| wf_Snapshot := withEquivalent active
              (operationSnapshot message operation None "" available);
            wf_TargetTerminal := terminal |}
  else
  found ← findExecution (om_OperationID message);
  match found with
  | Some execution =>
      active ← activeEquivalentOfWork message;
      available ← lift (resolveRegistration (pe_ProvisionerRef execution));
      mret {| wf_Snapshot := withEquivalent active
                (operationSnapshot message operation (Some execution) "" available);
              wf_TargetTerminal := terminal |}
  | None =>
      mret {| wf_Snapshot := operationSnapshot message operation None "" false;
              wf_TargetTerminal := terminal |}
  end.

Definition resourceWorkFacts (message : OutboxMessage) : tx WorkFacts :=
  record ← tx_GetResource (om_ResourceID message);
  active ← tx_ActiveForResource (om_ResourceID message);
  equivalent ← activeEquivalentOfWork message;
  available ← lift (resolveRegistration (rr_ProvisionerRef record));
  mret {| wf_Snapshot :=
            {| dws_Kind := om_Kind message; dws_State := om_State message;
               dws_OperationTarget := false; dws_OperationState := "";
               dws_Execution := noSummary; dws_HasExecution := false;
               dws_ResourceState := st_state (rr_Status record);
               dws_ActiveEquivalentWork := equivalent;
               dws_ActiveOperation := non_nil active (λ _, true); dws_Superseded := false;
               dws_RegistrationAvailable := available;
               dws_TargetVersion := rr_Version record; dws_ExecutionVersion := 0 |};
          wf_TargetTerminal := st_state (rr_Status record) =? ResourceStateDeleted |}.

Definition workDiagnosticsUnit (workID : string) (now : Time) : tx WorkDiagnostics :=
  message ← tx_GetOutbox workID;
  facts ← (if om_OperationID message <>? "" then operationWorkFacts message
           else resourceWorkFacts message);
  let snapshot := wf_Snapshot facts in
  let leased := om_State message =? OutboxLeased in
  let live := After (om_LeasedUntil message) now in
  mret
    {| wd_WorkID := om_ID message; wd_Kind := om_Kind message; wd_State := om_State message;
       wd_OperationID := om_OperationID message; wd_ResourceID := om_ResourceID message;
       wd_AttemptNumber := om_AttemptNumber message; wd_CreatedAt := om_CreatedAt message;
       wd_AvailableAt := om_AvailableAt message; wd_AttemptCount := om_AttemptCount message;
       wd_LeaseActive := leased && live; wd_LeaseExpired := leased && negb live;
       wd_TerminalReasonClass := terminalReasonClass (om_TerminalReason message);
       wd_TargetTerminal := wf_TargetTerminal facts;
       wd_ActiveEquivalentWork := dws_ActiveEquivalentWork snapshot;
       wd_Superseded := wf_TargetTerminal facts || dws_Superseded snapshot;
       wd_Assessment := PlanDeadWorkRecovery snapshot;
       wd_Revision := workRevision message snapshot |}.

Definition WorkOperatorDiagnostics (principal : Principal) (workID : string) (now : Time)
    : tx WorkDiagnostics :=
  diagnosed principal OperatorTargetWork workID (workDiagnosticsUnit workID now).

Definition AuthorizeOperatorAction (principal : Principal) (action : string)
    (target : OperatorTarget) : outcome unit := authorizeOperator principal action target.
End diagnostics.

(** ** Revisions that were shown *)

Definition quoted (revision : string) : string :=
  String quote_char (revision +:+ String quote_char "").

Definition fenced (cmd : OperatorMutationCommand) (ifMatch : string) : OperatorMutationCommand :=
  {| mc_Actor := mc_Actor cmd; mc_IdempotencyKey := mc_IdempotencyKey cmd;
     mc_RequestID := mc_RequestID cmd; mc_IfMatch := ifMatch |}.

Lemma matches_quoted revision : matchDiagnosticRevision (quoted revision) revision = true.
Proof. apply orb_true_iff. right. by apply bool_decide_true. Qed.

Section honoured.
Context {order : MapOrder} {ports : Ports} {operators : OperatorPorts}.
Context (Marshal : ResourceSpec → outcome string).

(** A mutation reads its fence only when it is applied. *)
Lemma operate_fenced cmd target s ifMatch ifMatch' :
  (∀ actionID, mp_apply (operator_plan target actionID) ifMatch s =
               mp_apply (operator_plan target actionID) ifMatch' s) →
  operate (fenced cmd ifMatch) target s = operate (fenced cmd ifMatch') target s.
Proof.
  intros Happly. unfold operate, runOperatorMutation, mbind, tx_bind, lift.
  destruct newOperatorActionID as [actionID| |]; [|done..]. cbn [mc_Actor mc_IdempotencyKey mc_RequestID fenced].
  destruct (_ || _ : bool); [done|]. destruct (blank _); [done|].
  destruct (authorizeOperator _ _ _) eqn:Hauth; [|done..].
  unfold Within. enough (operatorUnit (fenced cmd ifMatch) (operator_plan target actionID) s =
    operatorUnit (fenced cmd ifMatch') (operator_plan target actionID) s) as -> by done.
  unfold operatorUnit, mbind, tx_bind. cbn [mc_Actor mc_IdempotencyKey fenced].
  destruct (attempted _ s) as [t [[bound|e]| |]] eqn:Hget; try done.
  apply attempted_run in Hget as [-> _]. destruct (errors_is _ _); [|done].
  unfold applyOperatorMutation, mbind, tx_bind, lift. cbn [mc_Actor mc_IfMatch fenced].
  rewrite Hauth. by rewrite Happly.
Qed.

Lemma findExecution_quiet id : quiet (findExecution id).
Proof. unfold findExecution, attempted. quiet. Qed.

Lemma activeEquivalentOfWork_quiet message : quiet (activeEquivalentOfWork message).
Proof. unfold activeEquivalentOfWork. quiet. Qed.

(** The reads of the hypotheses leave the store as it was. *)
Ltac still :=
  repeat match goal with
  | H : ?m ?s = (?t, Ok _) |- _ =>
      is_var t; assert_fails (constr_eq s t);
      let Hq := fresh in
      assert (quiet m) as Hq by
        first [apply findExecution_quiet | apply activeEquivalentOfWork_quiet | solve [quiet]];
      pose proof (quiet_run _ _ _ _ Hq H); clear Hq; subst t
  end.

Lemma lift_ok {A} (o : outcome A) x (s : Store) : o = Ok x → lift o s = (s, Ok x).
Proof. by intros ->. Qed.

(** Replay the reads of the hypotheses in the goal. *)
Ltac replay :=
  repeat match goal with
  | H : ?m ?s = (?s, Ok _) |- context [(?m ≫= _) ?s] => rewrite !(bind_ok _ _ _ _ _ H)
  | H : ?o = Ok ?x |- context [(lift ?o ≫= _) ?s] =>
      rewrite !(bind_ok _ _ _ _ _ (lift_ok o x s H))
  | |- context [(mret ?x ≫= ?f) ?s] => change ((mret x ≫= f) s) with (f x s); cbn beta
  end.

Lemma shown_operation id now s s' d :
  operationDiagnosticsUnit id now s = (s', Ok d) →
  applyOperationObservation id (quoted (od_Revision d)) s = applyOperationObservation id "" s.
Proof.
  intros H. unfold operationDiagnosticsUnit in H. tx_inv. still. cbn [od_Revision].
  unfold applyOperationObservation. replay.
  match goal with |- match ?e with Some _ => _ | None => _ end _ = _ => destruct e as [e|] end;
    [|done].
  replay. cbn [fmap option_fmap option_map]. by rewrite matches_quoted.
Qed.

Lemma shown_resource id now s s' d :
  resourceDiagnosticsUnit Marshal id now s = (s', Ok d) → rd_ActiveOperation d = None →
  ∀ actionID, applyPassiveObservation actionID id (quoted (rd_Revision d)) s =
              applyPassiveObservation actionID id "" s.
Proof.
  intros H. unfold resourceDiagnosticsUnit in H. tx_inv. cbn [rd_ActiveOperation].
  intros Hactive actionID.
  match goal with H : tx_ActiveForResource _ _ = (_, Ok ?a) |- _ => destruct a end; [done|].
  match goal with H : passiveFacts _ _ _ = _ |- _ => unfold passiveFacts in H end. tx_inv. still.
  cbn [rd_Revision rf_Execution rf_Work rf_Available].
  unfold applyPassiveObservation. replay. by rewrite matches_quoted.
Qed.

(** Whether equivalent work is active, as the read and the mutation ask. *)
Lemma active_equivalent include (o : outbox) message kind :
  outbox_inv o → o !! om_ID message = Some message → isActive message = false →
  let work := summarizeWork include (ranged o).*2 in
  existsb (λ row, (om_ID row <>? om_ID message) && (om_Kind row =? kind)) (wh_Active work) =
    (ActiveID work kind <>? "").
Proof.
  intros Hinv Hm Hact work. unfold ActiveID.
  assert (Forall (λ row, om_ID row ≠ om_ID message ∧ om_ID row ≠ "") (wh_Active work)) as Hrows.
  { apply Forall_forall. intros row. cbn. rewrite sort_by_elem_of, list_elem_of_filter.
    intros [Hrow [_ Hin]%list_elem_of_filter]. rewrite ranged_values in Hin.
    apply list_elem_of_fmap in Hin as ([k r] & -> & Hr%elem_of_map_to_list). cbn in *.
    destruct (iv_keyed _ Hinv _ _ Hr) as [-> _]. split; [|by eapply iv_named].
    intros ->. congruence. }
  induction Hrows as [|row rows [Hid Hne] _ IH]; cbn; [done|].
  rewrite (bool_decide_false (om_ID row = om_ID message)) by done. cbn.
  destruct (om_Kind row =? kind); [|exact IH]. by rewrite (bool_decide_false (om_ID row = "")).
Qed.

Lemma equivalent_run message s s' active :
  integrity s → messages s !! om_ID message = Some message → isActive message = false →
  activeEquivalentOfWork message s = (s', Ok active) →
  active = (ActiveID (if om_OperationID message <>? ""
                      then SummarizeWorkByOperation (ranged (messages s)).*2 (om_OperationID message)
                      else SummarizeWorkByResource (ranged (messages s)).*2 (om_ResourceID message))
              (equivalentKind message) <>? "").
Proof.
  intros Hi Hm Hact H. unfold activeEquivalentOfWork in H. tx_inv.
  case_match; match goal with H : _ = (_, Ok _) |- _ => apply reading_run in H as [-> [= <-]] end;
    (apply active_equivalent; [by apply reachable_inv, in_messages|done..]).
Qed.

Lemma snapshot_shown message s s' facts :
  integrity s → messages s !! om_ID message = Some message → isActive message = false →
  (om_OperationID message = "" → om_Kind message ≠ OutboxDispatch) →
  (if om_OperationID message <>? "" then operationWorkFacts message
   else resourceWorkFacts message) s = (s', Ok facts) →
  ∃ target, deadWorkSnapshot message s = (s, Ok target) ∧
    workRevision message (dt_Snapshot target) = workRevision message (wf_Snapshot facts).
Proof.
  intros Hi Hm Hact Hkind H. unfold deadWorkSnapshot.
  pose proof (λ s' active, equivalent_run message s s' active Hi Hm Hact) as Heq.
  unfold operationWorkFacts, resourceWorkFacts in H.
  unfold deadOperationSnapshot, deadResourceSnapshot.
  assert (tx_SummarizeWorkByOperation (om_OperationID message) s = (s, Ok
    (SummarizeWorkByOperation (ranged (messages s)).*2 (om_OperationID message)))) as Hops by done.
  assert (tx_SummarizeWorkByResource (om_ResourceID message) s = (s, Ok
    (SummarizeWorkByResource (ranged (messages s)).*2 (om_ResourceID message)))) as Hres by done.
  destruct (om_OperationID message <>? "") eqn:Hop; [destruct (om_Kind message =? OutboxDrive)|].
  - tx_inv. still. replay. eexists. split; [reflexivity|]. cbn [dt_Snapshot wf_Snapshot].
    by rewrite (Heq _ _ ltac:(eassumption)).
  - tx_inv. still. replay.
    match goal with H : match ?e with Some _ => _ | None => _ end _ = _ |- _ => destruct e end;
      tx_inv; still; replay; eexists; (split; [reflexivity|]); [|done].
    cbn [dt_Snapshot wf_Snapshot]. by rewrite (Heq _ _ ltac:(eassumption)).
  - tx_inv. still. replay. eexists. split; [reflexivity|]. cbn [dt_Snapshot wf_Snapshot].
    rewrite (Heq _ _ ltac:(eassumption)). unfold equivalentKind.
    rewrite (bool_decide_false (om_Kind message = OutboxDispatch)); [done|].
    apply Hkind. by bool_facts.
Qed.

Lemma shown_work id now s s' d actionID :
  integrity s → workDiagnosticsUnit id now s = (s', Ok d) →
  (wd_OperationID d = "" → wd_Kind d ≠ OutboxDispatch) →
  applyDeadWorkRecovery actionID id (quoted (wd_Revision d)) s =
  applyDeadWorkRecovery actionID id "" s.
Proof.
  intros Hi H. unfold workDiagnosticsUnit in H. tx_inv. cbn [wd_Revision wd_OperationID wd_Kind].
  intros Hkind.
  match goal with H : tx_GetOutbox _ _ = _ |- _ => apply reading_run in H as [-> Hm%found_run] end.
  assert (tx_GetOutbox id s = (s, Ok x0)) as Hget by by apply (lookup_ok messages).
  unfold applyDeadWorkRecovery. replay.
  destruct (bool_decide_reflect (om_State x0 = OutboxDead)) as [Hd|]; cbn [negb]; [|done].
  assert (isActive x0 = false) as Hact by (unfold isActive; rewrite Hd; by eval_decides).
  destruct (iv_keyed _ (reachable_inv _ (in_messages _ Hi)) _ _ Hm) as [<- _].
  match goal with H : (if _ then operationWorkFacts _ else _) _ = _ |- _ =>
    eapply snapshot_shown in H as (target & Hsnap & Hrev); [|done..] end.
  replay. rewrite Hrev. by rewrite matches_quoted.
Qed.

Lemma diagnosed_run {A} principal kind id (unit_ : tx A) s s' d :
  quiet unit_ → diagnosed principal kind id unit_ s = (s', Ok d) → s' = s ∧ unit_ s = (s, Ok d).
Proof.
  intros Hq H. unfold diagnosed in H. tx_inv. apply (proj1 (Within_run _ _ _ _)) in H.
  pose proof (quiet_run _ _ _ _ Hq H) as ->. done.
Qed.

Lemma operationDiagnostics_quiet id now : quiet (operationDiagnosticsUnit id now).
Proof. unfold operationDiagnosticsUnit, findExecution, attempted. quiet. Qed.

Lemma resourceDiagnostics_quiet id now : quiet (resourceDiagnosticsUnit Marshal id now).
Proof.
  unfold resourceDiagnosticsUnit, activeFacts, passiveFacts, findExecution, attempted. quiet.
Qed.

Lemma workDiagnostics_quiet id now : quiet (workDiagnosticsUnit id now).
Proof.
  unfold workDiagnosticsUnit, operationWorkFacts, resourceWorkFacts, activeEquivalentOfWork,
    findExecution, attempted. quiet.
Qed.

(** C15: Diagnosing changes nothing, and what an operator was shown is honoured.
    The three reads leave the store as it was.  The mutation the snapshot is
    for, fenced with the revision that was shown, then does exactly what it
    does without a fence, whoever asks: the revision is never taken for stale
    while the store is the one that was read.  (For a resource this holds when
    no operation is active on it; for dead work of an operation or resource, as
    messages are built.) *)
Theorem shown_revision_honoured principal cmd id now s s' :
  store_reachable s →
  (∀ d, OperationOperatorDiagnostics principal id now s = (s', Ok d) →
     s' = s ∧ operate (fenced cmd (quoted (od_Revision d))) (ObserveOperation id) s =
              operate (fenced cmd "") (ObserveOperation id) s) ∧
  (∀ d, ResourceOperatorDiagnostics Marshal principal id now s = (s', Ok d) →
     s' = s ∧ (rd_ActiveOperation d = None →
       operate (fenced cmd (quoted (rd_Revision d))) (ObservePassively id) s =
       operate (fenced cmd "") (ObservePassively id) s)) ∧
  (∀ d, WorkOperatorDiagnostics principal id now s = (s', Ok d) →
     s' = s ∧ ((wd_OperationID d = "" → wd_Kind d ≠ OutboxDispatch) →
       operate (fenced cmd (quoted (wd_Revision d))) (RecoverWork id) s =
       operate (fenced cmd "") (RecoverWork id) s)).
Proof.
  intros Hs%reachable_integrity. split_and!; intros d [-> Hd]%diagnosed_run;
    eauto using operationDiagnostics_quiet, resourceDiagnostics_quiet, workDiagnostics_quiet;
    (split; [done|]).
  - apply operate_fenced. intros actionID. by eapply shown_operation.
  - intros Hnone. apply operate_fenced. intros actionID. by eapply shown_resource.
  - intros Hkind. apply operate_fenced. intros actionID. by eapply shown_work.
Qed.
End honoured.

(** ** A concrete diagnosis *)

#[local] Existing Instances Idempotency.sample_order Operator.sample_ports.
#[local] Instance sample_admin : OperatorPorts := sample_operators "raw-1".

Definition sample_shown : WorkDiagnostics :=
  ltac:(run ((WorkOperatorDiagnostics sample_principal "drive:op-1:1" 50%Z sample_dead_store).2)).

Lemma sample_shown_run :
  WorkOperatorDiagnostics sample_principal "drive:op-1:1" 50%Z sample_dead_store =
    ((WorkOperatorDiagnostics sample_principal "drive:op-1:1" 50%Z sample_dead_store).1,
     Ok sample_shown).
Proof. apply surjective_run. vm_compute. reflexivity. Qed.

(** The quarantined drive, recovered with the revision the operator was shown. *)
Lemma shown_revision_honoured_witness :
  operate (fenced sample_mutation (quoted (wd_Revision sample_shown)))
    (RecoverWork "drive:op-1:1") sample_dead_store =
  operate (fenced sample_mutation "") (RecoverWork "drive:op-1:1") sample_dead_store.
Proof.
  refine (proj2 (proj2 (proj2 (shown_revision_honoured (λ _, Ok "") sample_principal
    sample_mutation "drive:op-1:1" 50%Z sample_dead_store _ sample_dead_reachable)) sample_shown
    sample_shown_run) _).
  done.
Defined.
