(* ===== verification/Reads.v ===== *)
(** * Reads on behalf of a principal

    Models [src/internal/application/read.go], the access checks of
    [authorization.go] and the discovery reads of [resourcetype.go].  A read
    discloses only what the stored owner of the resource lets the principal
    see, and leaves the store as it was. *)

From S2P Require Import Prelude Operation Values Resource Status Provisioning Records.
From S2P Require Import Engine Submission Outputs Policy Text Identity Fingerprint Outbox Store History Rights.
From S2P Require Import Admission Idempotency.
Open Scope string_scope.
Open Scope go_scope.

Definition MaxResourceOperationPageSize : Z := 100.

Record ResourceView := {
  rv_Resource : ResourceRecord;
  rv_Latest : option Operation;
  rv_Outputs : option ResourceOutputs;
  rv_References : list ReferenceEdge }.

Section reads.
Context {order : MapOrder} {ports : Ports}.

(** The check of every read: [resource:read] of the stored owner. *)
Definition authorizeRead (principal : Principal) (record : ResourceRecord) : tx unit :=
  lift (authorize principal ActionResourceRead (resourceTargetOf record)).

Definition GetResource (principal : Principal) (id : ResourceID) : tx ResourceRecord := Within (
  record ← tx_GetResource id;
  authorizeRead principal record ≫= λ _,
  mret record).

Definition GetOperation (principal : Principal) (id : OperationID) : tx OperationRecord := Within (
  preflight ← tx_LookupOperation id;
  resource ← tx_GetResource (op_resourceID (opr_Operation preflight));
  stored ← tx_GetOperation id;
  guard_tx op_resourceID (opr_Operation stored) <>? res_id (rr_Resource resource)
    with ErrConcurrencyConflict ;;
  authorizeRead principal resource ≫= λ _,
  mret stored).

Definition ListResourceOperations (principal : Principal) (id : ResourceID)
    (beforeSequence : uint64) (limit : Z) : tx OperationPage := Within (
  resource ← tx_GetResource id;
  authorizeRead principal resource ≫= λ _,
  guard_tx bool_decide (limit < 1)%Z || bool_decide (MaxResourceOperationPageSize < limit)%Z
    with Wrapf ErrInvalidApplicationCall
      "%w: operation page limit must be between 1 and %d" [ArgZ MaxResourceOperationPageSize] ;;
  tx_PageForResource id beforeSequence limit).

(** The outputs a view shows: none of a tombstone. *)
Definition visibleOutputs (record : ResourceRecord) (id : ResourceID) : tx (option ResourceOutputs) :=
  if st_state (rr_Status record) <>? ResourceStateDeleted then
    found ← tx_LatestResourceOutputs id;
    mret (ror_Values <$> found)
  else mret None.

Definition GetResourceOperation (principal : Principal) (id : ResourceID) : tx ResourceView := Within (
  record ← tx_GetResource id;
  authorizeRead principal record ≫= λ _,
  latest ← tx_LatestForResource id;
  outputs ← visibleOutputs record id;
  references ← tx_DesiredReferences id;
  mret {| rv_Resource := record; rv_Latest := opr_Operation <$> latest;
          rv_Outputs := outputs; rv_References := references |}).

(** ** Access checks *)

Definition AuthorizeCreateAction (principal : Principal) (ref : ResourceTypeRef)
    (owner : OwnerRef) : outcome unit :=
  authorize principal ActionResourceCreate
    {| rt_Type := ref; rt_Owner := owner; rt_ResourceID := "" |}.

Definition loadResource (id : ResourceID) : tx ResourceRecord :=
  reported ErrResourceNotFound (Within (tx_GetResource id)).

Definition CheckResourceAccess (principal : Principal) (id : ResourceID) (action : string)
    : tx unit :=
  record ← loadResource id;
  lift (authorize principal action (resourceTargetOf record)).

(** [if errors.Is(err, target) { return replacement }; return err]. *)
Definition collapsing {A} (target replacement : error) : tx A → tx A :=
  handled (λ r, match r with
                | Err e => Err (if errors_is e target then replacement else e)
                | r => r
                end).

Definition CheckRetryAccess (principal : Principal) (id : OperationID) : tx ResourceRecord :=
  collapsing ErrOperationNotFound ErrOperationNotFound (Within (
  operation ← tx_LookupOperation id;
  resource ← collapsing ErrResourceNotFound ErrOperationNotFound
    (tx_GetResource (op_resourceID (opr_Operation operation)));
  collapsing ErrNotAuthorized ErrOperationNotFound
    (lift (authorize principal ActionResourceRetry (resourceTargetOf resource))) ≫= λ _,
  mret resource)).

(** ** Discovery *)

Definition noTarget : ResourceTarget :=
  {| rt_Type := {| ref_Name := ""; ref_Version := "" |};
     rt_Owner := {| owner_Kind := ""; owner_ID := "" |}; rt_ResourceID := "" |}.

Definition GetResourceType (principal : Principal) (ref : ResourceTypeRef) : outcome Contract :=
  authorize principal ActionResourceTypeRead
    {| rt_Type := ref; rt_Owner := rt_Owner noTarget; rt_ResourceID := "" |} ≫= λ _,
  match Types_Get ref with
  | Err e => Err (Notef ErrResourceTypeNotFound "%w: %v" e)
  | Ok None => Err (Wrapf ErrResourceTypeNotFound "%w: %v" [])
  | Ok (Some contract) => Ok contract
  | Panic p => Panic p
  end.

(** [Types_List] is the catalog's listing. *)
Definition ListResourceTypes (Types_List : outcome (list Contract)) (principal : Principal)
    : outcome (list Contract) :=
  authorize principal ActionResourceTypeRead noTarget ≫= λ _, Types_List.
End reads.

(** ** What a read discloses *)

Section disclosure.
Context {order : MapOrder} {ports : Ports}.

Lemma reading_bind {A B} (f : Store → outcome A) (k : A → tx B) s :
  (reading f ≫= k) s = match f s with Ok x => k x s | Err e => (s, Err e) | Panic p => (s, Panic p) end.
Proof. unfold mbind, tx_bind, reading. by destruct (f s). Qed.

Lemma quiet_Within {A} (m : tx A) : quiet m → quiet (Within m).
Proof. intros Hm s. specialize (Hm s). unfold Within. destruct (m s) as [t []]; cbn in *; subst; by destruct s. Qed.

Lemma reads_quiet principal id before limit action :
  quiet (GetResource principal id) ∧ quiet (GetOperation principal id) ∧
  quiet (ListResourceOperations principal id before limit) ∧
  quiet (GetResourceOperation principal id) ∧
  quiet (CheckResourceAccess principal id action) ∧ quiet (CheckRetryAccess principal id).
Proof.
  unfold GetResource, GetOperation, ListResourceOperations, GetResourceOperation, visibleOutputs,
    CheckResourceAccess, loadResource, CheckRetryAccess, collapsing, reported, reported_as,
    authorizeRead.
  split_and!; repeat first [apply quiet_Within|progress quiet].
Qed.

(** The principal may read the resource that is stored under the name. *)
Definition readable (principal : Principal) (s : Store) (id : ResourceID) (r : ResourceRecord) : Prop :=
  resources s !! id = Some r ∧ authorize principal ActionResourceRead (resourceTargetOf r) = Ok tt.

Lemma authorized_run principal r s s' u :
  authorizeRead principal r s = (s', Ok u) ↔
  s' = s ∧ authorize principal ActionResourceRead (resourceTargetOf r) = Ok tt.
Proof. unfold authorizeRead. rewrite lift_run. by destruct u. Qed.

Lemma GetResource_run id s s' r :
  tx_GetResource id s = (s', Ok r) ↔ s' = s ∧ resources s !! id = Some r.
Proof. unfold tx_GetResource. by rewrite reading_run, found_run. Qed.

Lemma GetOperation_run id s s' o :
  tx_GetOperation id s = (s', Ok o) ↔ s' = s ∧ operations s !! id = Some o.
Proof. unfold tx_GetOperation. by rewrite reading_run, found_run. Qed.

Lemma GetResource_spec principal id s s' r :
  GetResource principal id s = (s', Ok r) ↔ s' = s ∧ readable principal s id r.
Proof.
  unfold GetResource, readable. rewrite Within_run, bind_run. setoid_rewrite bind_run.
  setoid_rewrite GetResource_run. setoid_rewrite authorized_run. setoid_rewrite ret_run.
  naive_solver.
Qed.

Lemma GetOperation_spec principal id s s' o :
  GetOperation principal id s = (s', Ok o) ↔
  s' = s ∧ operations s !! id = Some o ∧
  ∃ r, readable principal s (op_resourceID (opr_Operation o)) r ∧
       op_resourceID (opr_Operation o) = res_id (rr_Resource r).
Proof.
  unfold GetOperation, readable, tx_LookupOperation. rewrite Within_run, bind_run.
  setoid_rewrite bind_run. setoid_rewrite bind_run. setoid_rewrite guard_run.
  setoid_rewrite bind_run. setoid_rewrite GetResource_run. setoid_rewrite GetOperation_run.
  setoid_rewrite authorized_run. setoid_rewrite ret_run. setoid_rewrite negb_false_iff.
  setoid_rewrite bool_decide_eq_true. naive_solver.
Qed.

(** The newest operation of the resource, if it has any. *)
Definition newest_operation (s : Store) (id : ResourceID) (latest : option Operation) : Prop :=
  match latest with
  | Some o => ∃ last, last_created s id last ∧ o = opr_Operation last
  | None => ∀ k o, operations s !! k = Some o → op_resourceID (opr_Operation o) ≠ id
  end.

(** The snapshot of the highest generation that has one. *)
Definition newest_outputs (s : Store) (id : ResourceID) (shown : option ResourceOutputs) : Prop :=
  let generations := default ∅ (outputs s !! id) in
  match shown with
  | Some values => ∃ n record, generations !! n = Some record ∧ values = ror_Values record ∧
      ∀ n' record', generations !! n' = Some record' → (n' ≤ n)%N
  | None => generations = ∅
  end.

Lemma newest_shown s s' id latest :
  integrity s → tx_LatestForResource id s = (s', Ok latest) →
  s' = s ∧ newest_operation s id (opr_Operation <$> latest).
Proof.
  intros Hi H. pose proof (in_operations _ Hi) as Hkeys.
  destruct (LatestForResource_run _ _ _ _ Hkeys H) as [-> Hlast]. split; [done|].
  destruct latest as [last|]; cbn; [by eauto|]. apply reading_run in H as [_ [= H]].
  pose proof (latestTurn_spec id (ranged (operations s)).*2 None) as Hspec. rewrite H in Hspec.
  destruct Hspec as [_ Hnone]; [done|]. intros k o Ho.
  specialize (Hnone o). unfold of_resource in Hnone. eapply bool_decide_eq_false_1, Hnone. rewrite ranged_values. apply list_elem_of_fmap. exists (k, o). split; [done|].
  by apply elem_of_map_to_list.
Qed.

Lemma newest_generation (generations : gmap uint64 ResourceOutputRecord) :
  match generations !! foldr N.max 0%N (map_to_list generations).*1 with
  | Some record => ∃ n, generations !! n = Some record ∧
      ∀ n' record', generations !! n' = Some record' → (n' ≤ n)%N
  | None => generations = ∅
  end.
Proof.
  set (keys := (map_to_list generations).*1).
  assert (∀ n, n ∈ keys ↔ is_Some (generations !! n)) as Hkeys.
  { intros n. unfold keys. rewrite list_elem_of_fmap. split.
    - intros ([k r] & -> & H%elem_of_map_to_list). by exists r.
    - intros [r H]. exists (n, r). by rewrite elem_of_map_to_list. }
  assert (∀ n, n ∈ keys → (n ≤ foldr N.max 0 keys)%N) as Hmax.
  { clear. induction keys as [|k l IH]; intros n; [by intros ?%not_elem_of_nil|].
    intros [->|H]%elem_of_cons; cbn; [lia|]. specialize (IH _ H). lia. }
  assert (keys ≠ [] → foldr N.max 0%N keys ∈ keys) as Hin.
  { clear. induction keys as [|k l IH]; [done|]. intros _. cbn. destruct l as [|k' l]; cbn in *.
    - rewrite N.max_0_r. by left.
    - destruct (N.max_spec k (N.max k' (foldr N.max 0 l)))%N as [[_ ->]|[_ ->]]; [|by left].
      right. by apply IH. }
  destruct (generations !! _) as [record|] eqn:Hr.
  - eexists. split; [done|]. intros n' r' H. apply Hmax, Hkeys. by exists r'.
  - destruct (decide (keys = [])) as [He|Hne].
    + apply map_to_list_empty_iff. by apply fmap_nil_inv in He.
    + apply Hkeys in Hin as [? ?]; [congruence|done].
Qed.

Lemma visible_shown r id s s' shown :
  visibleOutputs r id s = (s', Ok shown) →
  s' = s ∧ if st_state (rr_Status r) =? ResourceStateDeleted then shown = None
           else newest_outputs s id shown.
Proof.
  unfold visibleOutputs, newest_outputs. destruct (st_state _ =? _); cbn [negb].
  - by intros [-> ->]%ret_run.
  - intros (s1 & found & [-> [= <-]]%reading_run & [-> ->]%ret_run)%bind_run. split; [done|].
    pose proof (newest_generation (default ∅ (outputs s !! id))) as Hn.
    destruct (_ !! foldr _ _ _); cbn; [|done]. destruct Hn as (n & ? & ?). by eauto.
Qed.

Lemma ListResourceOperations_spec principal id before limit s :
  integrity s → ∀ page, ListResourceOperations principal id before limit s = (s, Ok page) →
  (1 ≤ limit ≤ MaxResourceOperationPageSize)%Z ∧ (∃ r, readable principal s id r) ∧
  ∀ o, o ∈ op_Records page → op_resourceID (opr_Operation o) = id ∧
    operations s !! op_id (opr_Operation o) = Some o.
Proof.
  intros Hi page. unfold ListResourceOperations. intros H. apply (proj1 (Within_run _ _ _ _)) in H.
  apply bind_run in H as (s1 & r & [-> Hr]%GetResource_run & H).
  apply bind_run in H as (s2 & u & [-> Ha]%authorized_run & H).
  apply guard_run in H as [Hl H]. apply orb_false_iff in Hl as [Hl1 Hl2].
  apply bool_decide_eq_false_1 in Hl1, Hl2. split; [lia|]. split; [by exists r|].
  unfold tx_PageForResource in H. apply reading_run in H as [_ H]. ok_inv. intros o Ho.
  assert (o ∈ filter (λ r, of_resource id r &&
      ((before =? 0%N) || N.ltb (opr_Sequence r) before) = true) (map_to_list (operations s)).*2)
    as [Hof Hin]%list_elem_of_filter.
  { apply (sort_by_elem_of opr_Sequence (flip N.le)).
    case_bool_decide; [by eapply subseteq_take|done]. }
  apply andb_true_iff in Hof as [Hof%bool_decide_eq_true _].
  apply list_elem_of_fmap in Hin as ([k o'] & -> & Hin%elem_of_map_to_list). cbn in *.
  split; [done|]. by rewrite (in_operations _ Hi _ _ Hin).
Qed.

Lemma GetResourceOperation_spec principal id s :
  integrity s → ∀ view, GetResourceOperation principal id s = (s, Ok view) →
  readable principal s id (rv_Resource view) ∧ newest_operation s id (rv_Latest view) ∧
  rv_References view = default [] (desiredReferences s !! id) ∧
  if st_state (rr_Status (rv_Resource view)) =? ResourceStateDeleted
  then rv_Outputs view = None else newest_outputs s id (rv_Outputs view).
Proof.
  intros Hi view. unfold GetResourceOperation. intros H. apply (proj1 (Within_run _ _ _ _)) in H.
  apply bind_run in H as (s1 & r & [-> Hr]%GetResource_run & H).
  apply bind_run in H as (s2 & u & [-> Ha]%authorized_run & H).
  apply bind_run in H as (s3 & latest & [-> Hl]%newest_shown & H); [|done].
  apply bind_run in H as (s4 & shown & [-> Hv]%visible_shown & H).
  apply bind_run in H as (s5 & references & [-> [= <-]]%reading_run & H).
  by apply ret_run in H as [_ ->].
Qed.

Lemma authorize_error principal action target e :
  authorize principal action target = Err e → errors_is e ErrNotAuthorized = true.
Proof. unfold authorize. intros H. repeat case_match; by simplify_eq. Qed.

Lemma CheckRetryAccess_error principal id s e :
  (CheckRetryAccess principal id s).2 = Err e → e = ErrOperationNotFound.
Proof.
  unfold CheckRetryAccess, collapsing, handled, Within, tx_LookupOperation, tx_GetOperation,
    tx_GetResource, mbind, tx_bind, reading, lift.
  destruct (operations s !! id) as [o|]; cbn; [|by intros [= <-]].
  destruct (resources s !! _) as [r|]; cbn; [|by intros [= <-]].
  destruct (authorize _ _ _) as [u|e'|p] eqn:Ha; cbn; [done| |done].
  rewrite (authorize_error _ _ _ _ Ha). cbn. by intros [= <-].
Qed.

End disclosure.

(** ** A concrete read *)

#[local] Existing Instances Idempotency.sample_order Idempotency.sample_ports.

Lemma sample_store_integrity : integrity sample_store.
Proof. apply (served_integrity _ (sv_request sample_ports sample_create NewStore sv_new)). Qed.

