(* ===== verification/Handlers.v ===== *)
(** * The transactions of the worker

    Models the units of work of [src/internal/worker]: [drive.go] (phases, the
    dependency gate, the recovery of expired dispatches), [dependencies.go]
    (waiting, waking, terminal side effects), and from [executor.go] and
    [worker.go] the units that prepare, record and settle a dispatch or an
    observation.  Each is a computation of [Store] that runs within one
    transaction; [Worker] chains them with the provider calls.  What the worker
    is composed with is an interface, [Composition]; the clock readings of a
    transaction are a [Moment].  Telemetry is left out: it never influences what
    is stored. *)

From S2P Require Import Prelude Operation Values Resource Status Provisioning Records.
From S2P Require Import Engine Submission Outputs Contracts References Dependencies Policy.
From S2P Require Import Text Work Outbox Store Evidence Admission.
Open Scope string_scope.
Open Scope go_scope.

(** ** What the worker is composed with *)

(** A provisioner, as far as the worker asks before it calls it: whether it
    implements [FencedProvisioner], its [OutputMappingRef] and its
    [CanRedeliverExpiredDispatch] if it offers them. *)
Record Provisioner := {
  pv_Fenced : bool;
  pv_OutputMappingRef : option (ResourceTypeRef → Capability → string);
  pv_CanRedeliverExpiredDispatch : option bool }.

(** The fields of [Worker], and functions of other packages: how Go prints an
    error, the SHA-256 digest, and the digests of outputs over their JSON. *)
Class Composition := {
  w_Types : option (ResourceTypeRef → outcome (option Contract));
  w_Resolve : string → outcome (option Provisioner);
  w_Lease : Z;
  w_RetryBase : Z;
  err_Error : error → string;
  sha256_hex : string → string;
  OutputContractDigest : option OutputContract → outcome string;
  ValuesDigest : list (string * value) → outcome string }.

(** The readings of the store's clock, and of the worker's. *)
Record Moment := { m_now : Time; m_now' : Time; m_wall : Time }.

Definition int64_wrap (z : Z) : Z := ((z + 2 ^ 63) mod 2 ^ 64 - 2 ^ 63)%Z.

(** [strings.ToLower] on the phases, which are ASCII. *)
Definition InternalTransitionLabel (phase : OperationPhase) : string :=
  string_of_list_ascii (map ascii_lower (list_ascii_of_string phase)).

Definition ReasonWaitingForDependencies : string := "WaitingForDependencies".
Definition ReasonDependencyFailed : string := "DependencyFailed".
Definition ReasonDependencyInvalid : string := "DependencyInvalid".
Definition ReasonDependenciesSatisfied : string := "DependenciesSatisfied".

Definition nextPhase (operation : Operation) : option OperationPhase :=
  let phase := op_phase operation in
  if phase =? OperationPhaseRequested then Some OperationPhaseValidating
  else if phase =? OperationPhaseValidating then
    Some (if op_capability operation =? CapabilityDelete then OperationPhaseDestroying
          else OperationPhasePlanning)
  else if phase =? OperationPhasePlanning then Some OperationPhaseApplying
  else None.

(** The next observation of the execution, and its message. *)
Definition scheduleObserve (execution : ProvisioningExecutionRecord) (delay : Z)
    : ProvisioningExecutionRecord * OutboxMessage :=
  let sequence := if pe_NextObservation execution =? 0%N then 1%N
                  else pe_NextObservation execution in
  (execution <| pe_NextObservation := u64_incr sequence |>,
   (ObserveMessage (pe_OperationID execution) sequence (u64_incr (pe_Version execution)))
     <| om_Delay := delay |>).

Definition executionRequest (execution : ProvisioningExecutionRecord) : ExecutionRequest :=
  {| Provisioning.er_OperationID := pe_OperationID execution;
     Provisioning.er_AttemptNumber := pe_CurrentAttempt execution;
     Provisioning.er_ResourceID := pe_ResourceID execution;
     Provisioning.er_ResourceType := pe_ResourceType execution;
     Provisioning.er_Spec := pe_Spec execution;
     Provisioning.er_Capability := pe_Capability execution;
     Provisioning.er_TargetGeneration := pe_TargetGeneration execution;
     Provisioning.er_OutputMappingRef := pe_OutputMappingRef execution |}.

Definition observationRequest (execution : ProvisioningExecutionRecord) : ObservationRequest :=
  {| or_OperationID := pe_OperationID execution;
     or_AttemptNumber := pe_CurrentAttempt execution;
     or_ResourceID := pe_ResourceID execution; or_ResourceType := pe_ResourceType execution;
     or_Spec := pe_Spec execution; or_Capability := pe_Capability execution;
     or_TargetGeneration := pe_TargetGeneration execution; or_Handle := pe_Handle execution;
     or_OutputMappingRef := pe_OutputMappingRef execution; or_OutputSourceMappingRef := "" |}.

(** The request of an output recovery observes the source's attempt. *)
Definition recoveryRequest (execution source : ProvisioningExecutionRecord)
    : ObservationRequest :=
  {| or_OperationID := pe_OperationID source;
     or_AttemptNumber := pe_RecoverySourceAttempt execution;
     or_ResourceID := pe_ResourceID source; or_ResourceType := pe_ResourceType source;
     or_Spec := pe_Spec source; or_Capability := pe_Capability source;
     or_TargetGeneration := pe_TargetGeneration source; or_Handle := pe_Handle source;
     or_OutputMappingRef := pe_OutputMappingRef execution;
     or_OutputSourceMappingRef := pe_OutputMappingRef source |}.

(** The request of a passive observation names no operation. *)
Definition passiveRequest (resource : Resource) : ObservationRequest :=
  {| or_OperationID := ""; or_AttemptNumber := 0; or_ResourceID := res_id resource;
     or_ResourceType := res_type resource; or_Spec := res_spec resource; or_Capability := "";
     or_TargetGeneration := res_generation resource; or_Handle := None;
     or_OutputMappingRef := ""; or_OutputSourceMappingRef := "" |}.

Definition observeCompletionReason (observation : ExecutionObservation) : string :=
  match eo_Execution observation with
  | None => "ObservedNoCurrentExecution"
  | Some _ =>
      if eo_Correlation observation <>? RequestCorrelationFound
      then "ObservedUncorrelatedExecution" else "ObservedNonterminal"
  end.

(** Lift terminal evidence to the frontier of the resource. *)
Definition alignEvidenceTimeline (at_ : Time) (execution : ProvisioningExecutionRecord)
    (resource : ResourceRecord) : Time * ProvisioningExecutionRecord :=
  let frontier := st_updatedAt (rr_Status resource) in
  let frontier := if After (res_updatedAt (rr_Resource resource)) frontier
                  then res_updatedAt (rr_Resource resource) else frontier in
  if Before at_ frontier then (frontier, execution <| pe_LastObservedAt := frontier |>)
  else (at_, execution).

(** A save of an operation passes only the operation. *)
Definition saved_operation (operation : Operation) : OperationRecord :=
  {| opr_Operation := operation; opr_Sequence := 0; opr_Version := 0 |}.

(** The zero [ProvisioningExecutionRecord]. *)
Definition zeroExecution : ProvisioningExecutionRecord :=
  {| pe_OperationID := ""; pe_ProvisionerRef := ""; pe_ResourceID := "";
     pe_ResourceType := {| ref_Name := ""; ref_Version := "" |}; pe_Capability := "";
     pe_TargetGeneration := 0; pe_Spec := {| spec_values := [] |}; pe_OutputMappingRef := "";
     pe_OutputResolution := ""; pe_OutputFailureReason := ""; pe_OutputFailureMessage := "";
     pe_RecoverySourceOperationID := ""; pe_RecoverySourceAttempt := 0; pe_Handle := None;
     pe_State := ""; pe_Submission := None; pe_AcceptanceConfirmed := false;
     pe_LastObservation := None; pe_LastObservedAt := time_zero;
     pe_LastProviderObservedAt := time_zero; pe_LastFailure := None; pe_Correlation := "";
     pe_CurrentAttempt := 0; pe_NextObservation := 0; pe_Version := 0 |}.

(** A fresh attempt, which the message dispatches. *)
Definition pendingAttempt (operationID : OperationID) (attempt : uint64) (messageID : string)
    : SubmissionAttemptRecord :=
  {| sa_OperationID := operationID; sa_AttemptNumber := attempt;
     sa_State := SubmissionAttemptPending; sa_DispatchMessage := messageID;
     sa_ClaimedAt := time_zero; sa_ResolvedAt := time_zero; sa_Failure := None |}.

(** An attempt given back: it can be dispatched again. *)
Definition restoredAttempt (attempt : SubmissionAttemptRecord) : SubmissionAttemptRecord :=
  attempt <| sa_State := SubmissionAttemptPending |> <| sa_ClaimedAt := time_zero |>
    <| sa_ResolvedAt := time_zero |> <| sa_Failure := None |>.

Section handlers.
Context {order : MapOrder} {worker : Composition} (at_ : Moment).

Definition observedAt (providerTime : Time) : Time :=
  if negb (IsZero providerTime) then providerTime else m_wall at_.

Definition backoff (attempt : Z) : Z :=
  let attempt := if Z.ltb attempt 1 then 1%Z else attempt in
  let attempt := if Z.ltb 10 attempt then 10%Z else attempt in
  int64_wrap (w_RetryBase * Z.shiftl 1 (attempt - 1)).

Definition enqueue (message : OutboxMessage) : tx unit :=
  tx_Enqueue (m_now at_) (m_now' at_) message.
Definition complete (message : OutboxMessage) (reason : string) : tx unit :=
  tx_CompleteOutbox (m_now at_) (om_ID message) (om_LeaseToken message) reason.

(** The handlers start by reading their message again: the lease must still be
    theirs. *)
Definition requireLease (message : OutboxMessage) : tx unit :=
  current ← tx_GetOutbox (om_ID message);
  guard_tx (om_State current <>? OutboxLeased) ||
           (om_LeaseToken current <>? om_LeaseToken message)
    with ErrConcurrencyConflict ;;
  mret tt.

(** ** Dependencies *)

Definition gateContract (contract : Contract) : GateContract :=
  {| gc_OutputContract := ct_OutputContract contract;
     gc_ReferenceContract := ct_ReferenceContract contract |}.

Definition gateCatalog (get : ResourceTypeRef → outcome (option Contract))
    (ref : ResourceTypeRef) : outcome (option GateContract) :=
  match get ref with
  | Ok contract => Ok (option_map gateContract contract)
  | Err e => Err e
  | Panic p => Panic p
  end.

(** What the gate reads of a unit of work. *)
Definition gate_reads (s : Store) : GateReads :=
  {| types := option_map gateCatalog w_Types;
     DesiredReferences source := (tx_DesiredReferences source s).2;
     LockResources ids := (tx_LockResources ids s).2;
     ActiveForResource id := (tx_ActiveForResource id s).2;
     LatestResourceOutputs id := (tx_LatestResourceOutputs id s).2 |}.

Definition tx_EvaluateDependencies (resource : ResourceRecord)
    : tx (DependencyEvaluation * bool) :=
  reading (λ s, @EvaluateDependencies (gate_reads s) resource).

Definition EnqueueWakeDependentsIfWaited (target : ResourceID) (targetVersion : uint64)
    : tx unit :=
  has ← tx_HasDependencyWaiterForTarget target;
  if negb has then mret tt else
  tx_EnqueueWakeDependents (m_now at_) (m_now' at_) (WakeDependentsMessage target targetVersion).

(** [savedVersion] is the version of the resource after its save. *)
Definition applyTerminalSideEffects (operation : Operation) (resourceID : ResourceID)
    (savedVersion : uint64) : tx unit :=
  tx_DeleteDependencyWaitsForOperation (op_id operation) ≫= λ _,
  (if (op_capability operation =? CapabilityDelete) &&
      (op_state operation =? OperationStateSucceeded)
   then tx_DeleteReferencesForSource resourceID else mret tt) ≫= λ _,
  EnqueueWakeDependentsIfWaited resourceID savedVersion.

(** The waits of a blocked operation: the blocking targets with the versions
    they were read at. *)
Definition waitTargets (evaluation : DependencyEvaluation) : gmap string uint64 :=
  foldl (λ targets target,
    let version := default 0%N (de_TargetVersions evaluation !! target) in
    <[target := if version =? 0%N then 1%N else version]> targets)
    ∅ (de_Blocking evaluation).

Definition settleGateBlock (message : OutboxMessage) (resource : ResourceRecord)
    (operation : OperationRecord) (execution : ProvisioningExecutionRecord)
    (evaluation : DependencyEvaluation) (changedAt : Time) : tx unit :=
  let class := de_Class evaluation in
  let conditionReason :=
    if class =? DependencyWaiting then ReasonWaitingForDependencies
    else if class =? DependencyTerminalFailure then ReasonDependencyFailed
    else ReasonDependencyInvalid in
  status ← lift (SetDependencyCondition (rr_Status resource) ConditionStatusFalse
             conditionReason "" changedAt);
  let resource := resource <| rr_Status := status |> in
  if class =? DependencyWaiting then
    let bumped := u64_incr (opr_Version operation) in
    tx_SaveOperation {| opr_Operation := opr_Operation operation; opr_Sequence := 0;
                        opr_Version := bumped |} (opr_Version operation) ≫= λ _,
    tx_RegisterDependencyWaits (om_OperationID message) bumped (waitTargets evaluation) ≫= λ _,
    tx_SaveResource resource (rr_Version resource) ≫= λ _,
    complete message "WaitingForDependencies"
  else
  let '(failureReason, failureMessage) :=
    if class =? DependencyInvalid
    then (ReasonDependencyInvalid, "a referenced dependency is unavailable or being deleted")
    else (ReasonDependencyFailed, "a referenced dependency failed and has no active recovery") in
  result ← lift (BuildFinishEvidence sha256_hex (opr_Operation operation)
    (rr_Resource resource) (rr_Status resource)
    {| fin_Succeeded := false; fin_Reason := failureReason; fin_Message := failureMessage;
       fin_Facts := no_facts |} changedAt);
  let resource := resource <| rr_Status := r_Status result |> in
  let execution := execution <| pe_State := AttemptFailed |>
    <| pe_Correlation := RequestCorrelationUnknown |> <| pe_AcceptanceConfirmed := false |> in
  tx_SaveResource resource (rr_Version resource) ≫= λ _,
  tx_SaveOperation (saved_operation (r_Operation result)) (opr_Version operation) ≫= λ _,
  tx_Append (r_Event result) ≫= λ _,
  tx_SaveExecution execution (pe_Version execution) ≫= λ _,
  tx_DeleteDependencyWaitsForOperation (om_OperationID message) ≫= λ _,
  complete message "DependencyGateRejected".

(** Whether the operation that waits is no longer the one that registered. *)
Definition waiterStale (wait : DependencyWait) (operation : OperationRecord) : tx bool :=
  if IsTerminal (opr_Operation operation) ||
     (opr_Version operation <>? dw_OperationVersion wait) then mret true else
  found ← attempted (tx_LookupExecution (dw_OperationID wait));
  match found with
  | inl execution => mret ((pe_CurrentAttempt execution <>? 0%N) || IsOutputRecovery execution)
  | inr e => if negb (errors_is e ErrResourceNotFound) then throw e else mret false
  end.

Definition revalidateWaiter (wait : DependencyWait) : tx unit :=
  let forget := tx_DeleteDependencyWaitsForOperation (dw_OperationID wait) in
  found ← attempted (tx_GetOperation (dw_OperationID wait));
  match found with
  | inr e =>
      if errors_is e ErrResourceNotFound || errors_is e ErrOperationNotFound then forget
      else throw e
  | inl operation =>
      stale ← waiterStale wait operation;
      if (stale : bool) then forget else
      enqueued ← attempted (enqueue (DriveMessage (dw_OperationID wait) (opr_Version operation)));
      match enqueued with
      | inl _ => mret tt
      | inr e => if errors_is e ErrConcurrencyConflict then mret tt else throw e
      end
  end.

Fixpoint revalidateWaiters (waits : list DependencyWait) : tx unit :=
  match waits with
  | [] => mret tt
  | wait :: rest => revalidateWaiter wait ≫= λ _, revalidateWaiters rest
  end.

Definition wakeFanoutBatch : nat := 256.

(** One page of [wakeDependents]: the cursor of the next one, or 0. *)
Definition wakePage (message : OutboxMessage) (cursor : uint64) : tx uint64 :=
  requireLease message ≫= λ _,
  '(waits, next) ← tx_PageDependencyWaitersByTarget (om_ResourceID message) cursor
                     wakeFanoutBatch;
  revalidateWaiters (sort_by dw_OperationID string_le waits) ≫= λ _,
  tx_RenewOutbox (m_now at_) (om_ID message) (om_LeaseToken message) w_Lease ≫= λ _,
  mret next.

(** The version handshake that ends [wakeDependents]. *)
Definition wakeFinished (message : OutboxMessage) : tx unit :=
  requireLease message ≫= λ _,
  resource ← tx_GetResource (om_ResourceID message);
  complete message "Woke" ≫= λ _,
  if rr_Version resource <>? om_ExpectedVersion message then
    tx_EnqueueWakeDependents (m_now at_) (m_now' at_)
      (WakeDependentsMessage (om_ResourceID message) (rr_Version resource))
  else mret tt.

(** ** Drive *)

(** The evaluation of the gate, when the resource is gated. *)
Definition gateOf (resource : ResourceRecord) (execution : ProvisioningExecutionRecord)
    (gatingUp : bool) : tx (option DependencyEvaluation) :=
  if gatingUp && (pe_CurrentAttempt execution =? 0%N) && negb (IsOutputRecovery execution) then
    '(evaluation, gated) ← tx_EvaluateDependencies resource;
    mret (if (gated : bool) then Some evaluation else None)
  else mret None.

(** The work that follows a phase: the observation of an output recovery, the
    first dispatch, or the next drive. *)
Definition scheduleNext (message : OutboxMessage) (operation : OperationRecord)
    (execution : ProvisioningExecutionRecord) (next : OperationPhase) : tx unit :=
  if (next =? OperationPhaseApplying) || (next =? OperationPhaseDestroying) then
    guard_tx pe_CurrentAttempt execution <>? 0%N with ErrConcurrencyConflict ;;
    if IsOutputRecovery execution then
      guard_tx (next <>? OperationPhaseApplying) ||
               (pe_Capability execution =? CapabilityDelete) ||
               (pe_State execution <>? AttemptSucceeded) ||
               (pe_OutputResolution execution <>? OutputResolutionPending)
        with Wrapf ErrInvalidApplicationCall "%w: invalid output recovery execution" [] ;;
      let '(execution, observe) := scheduleObserve execution 0 in
      tx_SaveExecution execution (pe_Version execution) ≫= λ _,
      enqueue observe
    else
      let execution := execution <| pe_CurrentAttempt := 1%N |> in
      let dispatch := DispatchMessage (om_OperationID message) 1
                        (u64_incr (pe_Version execution)) in
      tx_CreateSubmissionAttempt (pendingAttempt (om_OperationID message) 1 (om_ID dispatch))
        ≫= λ _,
      tx_SaveExecution execution (pe_Version execution) ≫= λ _,
      enqueue dispatch
  else
    enqueue (DriveMessage (om_OperationID message) (u64_incr (opr_Version operation))).

(** The transition to the next phase; an open gate leaves its condition. *)
Definition advancePhase (message : OutboxMessage) (resource : ResourceRecord)
    (operation : OperationRecord) (execution : ProvisioningExecutionRecord)
    (gate : option DependencyEvaluation) (next : OperationPhase) (changedAt : Time) : tx unit :=
  transition ← lift (Engine_Advance (rr_Resource resource) (rr_Status resource)
    (opr_Operation operation) next
    (internalEventID sha256_hex (op_id (opr_Operation operation)) (InternalTransitionLabel next))
    changedAt);
  status ← (match gate with
    | Some _ =>
        status ← lift (SetDependencyCondition (r_Status transition) ConditionStatusTrue
                   ReasonDependenciesSatisfied "" changedAt);
        tx_DeleteDependencyWaitsForOperation (om_OperationID message) ≫= λ _,
        mret status
    | None => mret (r_Status transition)
    end);
  tx_SaveResource (resource <| rr_Status := status |>) (rr_Version resource) ≫= λ _,
  tx_SaveOperation (saved_operation (r_Operation transition)) (opr_Version operation) ≫= λ _,
  tx_Append (r_Event transition) ≫= λ _,
  complete message "Driven" ≫= λ _,
  scheduleNext message operation execution next.

Definition driveUnit (message : OutboxMessage) : tx unit :=
  requireLease message ≫= λ _,
  preflight ← tx_LookupOperation (om_OperationID message);
  resource ← tx_GetResource (op_resourceID (opr_Operation preflight));
  operation ← tx_GetOperation (om_OperationID message);
  if (opr_Version operation <>? om_ExpectedVersion message) ||
     IsTerminal (opr_Operation operation) then complete message "StaleDrive" else
  match nextPhase (opr_Operation operation) with
  | None => complete message "AlreadyDispatchable"
  | Some next =>
      let changedAt := (op_phaseChangedAt (opr_Operation operation) + 1)%Z in
      let gatingUp := (next =? OperationPhaseApplying) &&
                      (op_capability (opr_Operation operation) <>? CapabilityDelete) in
      execution ← (if gatingUp || (next =? OperationPhaseDestroying)
                   then tx_GetExecution (om_OperationID message) else mret zeroExecution);
      gate ← gateOf resource execution gatingUp;
      match gate with
      | Some evaluation =>
          if de_Class evaluation <>? DependencyReady then
            settleGateBlock message resource operation execution evaluation changedAt
          else advancePhase message resource operation execution gate next changedAt
      | None => advancePhase message resource operation execution gate next changedAt
      end
  end.

(** ** Expired dispatches *)

(** Whether the provider can be given the same attempt again. *)
Definition canRedeliver (ref : string) : outcome bool :=
  match w_Resolve ref with
  | Ok (Some provider) => Ok (default false (pv_CanRedeliverExpiredDispatch provider))
  | Panic p => Panic p
  | _ => Ok false
  end.

Definition recoverMessage (message : OutboxMessage) : tx unit :=
  execution ← tx_GetExecution (om_OperationID message);
  if pe_CurrentAttempt execution <>? om_AttemptNumber message then
    tx_CompleteExpiredOutbox (m_now at_) (om_ID message) (om_LeaseToken message)
      "StaleExpiredDispatch"
  else
  attempt ← tx_GetSubmissionAttempt (om_OperationID message) (om_AttemptNumber message);
  if (pe_State execution =? AttemptPending) && (sa_State attempt =? SubmissionAttemptPending)
  then tx_RequeueExpiredOutbox (m_now at_) (m_now' at_) (om_ID message) (om_LeaseToken message)
  else
  guard_tx (pe_State execution <>? AttemptDispatching) ||
           (sa_State attempt <>? SubmissionAttemptLeased)
    with ErrConcurrencyConflict ;;
  redeliver ← lift (canRedeliver (pe_ProvisionerRef execution));
  if (redeliver : bool) then
    tx_SaveSubmissionAttempt (restoredAttempt attempt) SubmissionAttemptLeased ≫= λ _,
    tx_SaveExecution (execution <| pe_State := AttemptPending |>) (pe_Version execution)
      ≫= λ _,
    tx_RetryExpiredDispatchOutbox (m_now at_) (m_now' at_) (om_ID message)
      (om_LeaseToken message) (u64_incr (pe_Version execution))
      (backoff (om_AttemptCount message)) "ExpiredFencedDispatch"
  else
    tx_SaveSubmissionAttempt (attempt <| sa_State := SubmissionAttemptUnknown |>)
      SubmissionAttemptLeased ≫= λ _,
    let execution := execution <| pe_State := AttemptUnknown |>
      <| pe_Correlation := RequestCorrelationUnknown |> in
    let '(execution, next) := scheduleObserve execution 0 in
    tx_SaveExecution execution (pe_Version execution) ≫= λ _,
    tx_CompleteExpiredOutbox (m_now at_) (om_ID message) (om_LeaseToken message)
      "LeaseExpiredAmbiguous" ≫= λ _,
    enqueue next.

(** Whether an expired dispatch was found. *)
Definition recoverExpiredUnit : tx bool :=
  found ← tx_FindExpiredDispatch (m_now at_);
  match found with
  | None => mret false
  | Some message => recoverMessage message ≫= λ _, mret true
  end.

(** ** The end of an operation *)

(** The rows every terminal transition saves, in the order of the code: the
    resource, [between], the operation, its event and the execution. *)
Definition saveTerminal (resource : ResourceRecord) (operation : OperationRecord)
    (result : Result) (execution : ProvisioningExecutionRecord) (version : uint64)
    (between : tx unit) : tx unit :=
  tx_SaveResource (resource <| rr_Status := r_Status result |>) (rr_Version resource) ≫= λ _,
  between ≫= λ _,
  tx_SaveOperation (saved_operation (r_Operation result)) (opr_Version operation) ≫= λ _,
  tx_Append (r_Event result) ≫= λ _,
  tx_SaveExecution execution version.

(** The side effects and the completion of the message. *)
Definition settleTerminal (message : OutboxMessage) (resource : ResourceRecord)
    (result : Result) (reason : string) : tx unit :=
  applyTerminalSideEffects (r_Operation result) (res_id (rr_Resource resource))
    (u64_incr (rr_Version resource)) ≫= λ _,
  complete message reason.

(** The operation of the execution, with its resource. *)
Definition loadTerminal (execution : ProvisioningExecutionRecord)
    : tx (ResourceRecord * OperationRecord) :=
  preflight ← tx_LookupOperation (pe_OperationID execution);
  resource ← tx_GetResource (op_resourceID (opr_Operation preflight));
  operation ← tx_GetOperation (pe_OperationID execution);
  mret (resource, operation).

Definition finishOperation (message : OutboxMessage) (execution : ProvisioningExecutionRecord)
    (version : uint64) (finish : Finish) (finishedAt : Time) : tx unit :=
  '(resource, operation) ← loadTerminal execution;
  let '(finishedAt, execution) := alignEvidenceTimeline finishedAt execution resource in
  result ← lift (BuildFinishEvidence sha256_hex (opr_Operation operation)
    (rr_Resource resource) (rr_Status resource) finish finishedAt);
  saveTerminal resource operation result execution version (mret tt) ≫= λ _,
  settleTerminal message resource result "TerminalExecution".

(** The plan for the outputs of a success. *)
Definition outputPlan (execution : ProvisioningExecutionRecord)
    (outputs : option OutputEvidence) (finishedAt : Time) : outcome OutputPlan :=
  match w_Types with
  | None =>
      match outputs with
      | None => Ok OutputPlanNone
      | Some _ => Err (Errorf "output evidence requires a composed resource type catalog" [])
      end
  | Some get =>
      match get (pe_ResourceType execution) with
      | Err e => Err (Wrapf e
          "resource type catalog unavailable for output validation: %w" [])
      | Panic p => Panic p
      | Ok contract =>
          PlanTerminalOutputs err_Error (option_map ct_OutputContract contract)
            (pe_Capability execution) outputs (pe_TargetGeneration execution) finishedAt
      end
  end.

(** The row that publishes a snapshot. *)
Definition publishRecord (resource : ResourceRecord) (operation : OperationRecord)
    (execution : ProvisioningExecutionRecord) (snapshot : ResourceOutputs)
    : outcome ResourceOutputRecord :=
  match w_Types with
  | None => Panic "invalid memory address or nil pointer dereference"
  | Some get =>
      match get (pe_ResourceType execution) with
      | Err e => Err (Wrapf e
          "resource type catalog unavailable for output provenance: %w" [])
      | Panic p => Panic p
      | Ok None => Panic "invalid memory address or nil pointer dereference"
      | Ok (Some contract) =>
          contractDigest ← OutputContractDigest (ct_OutputContract contract);
          valuesDigest ← ValuesDigest (ro_values snapshot);
          Ok {| ror_ResourceID := res_id (rr_Resource resource);
                ror_ObservedGeneration := ro_observedGeneration snapshot;
                ror_OperationID := op_id (opr_Operation operation);
                ror_Capability := op_capability (opr_Operation operation);
                ror_OutputMappingRef := pe_OutputMappingRef execution;
                ror_OutputContractDigest := contractDigest;
                ror_Values := snapshot; ror_ValuesDigest := valuesDigest |}
      end
  end.

Fixpoint requireGeneration (generation : uint64) (edges : list ReferenceEdge) : outcome unit :=
  match edges with
  | [] => Ok tt
  | edge :: rest =>
      fail_if edge_Generation edge <>? generation
        with Wrapf ErrReferenceInvariant
          "%w: desired reference generation %d does not match converged generation %d"
          [ArgN (edge_Generation edge); ArgN generation] ;;
      requireGeneration generation rest
  end.

(** Convergence makes the desired references the applied ones. *)
Definition advanceApplied (execution : ProvisioningExecutionRecord) (resource : ResourceRecord)
    (operation : OperationRecord) : tx unit :=
  let generation := op_targetGeneration (opr_Operation operation) in
  if ((pe_Capability execution =? CapabilityCreate) ||
      (pe_Capability execution =? CapabilityUpdate)) &&
     (generation =? res_generation (rr_Resource resource)) then
    desired ← tx_DesiredReferences (res_id (rr_Resource resource));
    lift (requireGeneration generation desired) ≫= λ _,
    tx_AdvanceAppliedReferences (res_id (rr_Resource resource)) generation desired
  else mret tt.

(** The outputs do not realise the contract: the operation fails, the evidence
    of the provider's success stays. *)
Definition rejectOutputs (message : OutboxMessage) (resource : ResourceRecord)
    (operation : OperationRecord) (execution : ProvisioningExecutionRecord) (version : uint64)
    (failure : ExecutionFailure) (finishedAt : Time) : tx unit :=
  result ← lift (BuildFinishEvidence sha256_hex (opr_Operation operation)
    (rr_Resource resource) (rr_Status resource)
    {| fin_Succeeded := false; fin_Reason := ef_Reason failure;
       fin_Message := ef_Message failure; fin_Facts := no_facts |} finishedAt);
  let execution := execution <| pe_State := AttemptSucceeded |>
    <| pe_OutputResolution := OutputResolutionRejected |>
    <| pe_OutputFailureReason := ef_Reason failure |>
    <| pe_OutputFailureMessage := ef_Message failure |> in
  saveTerminal resource operation result execution version (mret tt) ≫= λ _,
  settleTerminal message resource result "OutputPostconditionRejected".

(** The outputs are still to come: observe again. *)
Definition deferOutputs (message : OutboxMessage) (execution : ProvisioningExecutionRecord)
    (version : uint64) : tx unit :=
  let execution := execution <| pe_State := AttemptSucceeded |>
    <| pe_OutputResolution := OutputResolutionPending |> in
  let '(execution, next) := scheduleObserve execution w_RetryBase in
  tx_SaveExecution execution version ≫= λ _,
  complete message "OutputsPending" ≫= λ _,
  enqueue next.

(** Completion, with the published outputs if there are any. *)
Definition completeSuccess (message : OutboxMessage) (resource : ResourceRecord)
    (operation : OperationRecord) (execution : ProvisioningExecutionRecord) (version : uint64)
    (finish : Finish) (finishedAt : Time) (published : option ResourceOutputRecord) : tx unit :=
  let execution := execution <| pe_OutputResolution :=
    match published with Some _ => OutputResolutionPublished | None => OutputResolutionNone end |>
  in
  let '(finishedAt, execution) := alignEvidenceTimeline finishedAt execution resource in
  result ← lift (BuildFinishEvidence sha256_hex (opr_Operation operation)
    (rr_Resource resource) (rr_Status resource) finish finishedAt);
  saveTerminal resource operation result execution version
    (match published with Some record => tx_SaveResourceOutputs record | None => mret tt end)
    ≫= λ _,
  advanceApplied execution resource operation ≫= λ _,
  settleTerminal message resource result "TerminalExecution".

Definition finishSuccessInTx (message : OutboxMessage)
    (execution : ProvisioningExecutionRecord) (version : uint64) (finish : Finish)
    (finishedAt : Time) (outputs : option OutputEvidence) : tx unit :=
  '(resource, operation) ← loadTerminal execution;
  guard_tx IsTerminal (opr_Operation operation)
    with Wrapf ErrInvalidTransition "%w: cannot complete a terminal operation" [] ;;
  lift (ValidateOutputEvidenceMapping (pe_OutputMappingRef execution) outputs) ≫= λ _,
  plan ← lift (outputPlan execution outputs finishedAt);
  match plan with
  | OutputPlanDefer => deferOutputs message execution version
  | OutputPlanReject failure =>
      rejectOutputs message resource operation execution version failure finishedAt
  | OutputPlanPublish snapshot =>
      record ← lift (publishRecord resource operation execution snapshot);
      completeSuccess message resource operation execution version finish finishedAt
        (Some record)
  | OutputPlanNone =>
      completeSuccess message resource operation execution version finish finishedAt None
  end.

(** ** Dispatch *)

(** The execution the message dispatches, still waiting for it. *)
Definition dispatchable (message : OutboxMessage) : tx ProvisioningExecutionRecord :=
  requireLease message ≫= λ _,
  execution ← tx_GetExecution (om_OperationID message);
  guard_tx (pe_Version execution <>? om_ExpectedVersion message) ||
           (pe_CurrentAttempt execution <>? om_AttemptNumber message) ||
           (pe_State execution <>? AttemptPending)
    with ErrConcurrencyConflict ;;
  mret execution.

(** The first transaction of [prepareDispatch]. *)
Definition prepareUnit (message : OutboxMessage) : tx ProvisioningExecutionRecord :=
  execution ← dispatchable message;
  guard_tx IsOutputRecovery execution
    with Wrapf ErrInvalidApplicationCall "%w: output recovery cannot be dispatched" [] ;;
  mret execution.

(** The mapping bound to the execution: its own, or the provider's. *)
Definition boundMapping (provider : Provisioner) (execution : ProvisioningExecutionRecord)
    : string :=
  if pe_OutputMappingRef execution =? "" then
    match pv_OutputMappingRef provider with
    | Some mapping => mapping (pe_ResourceType execution) (pe_Capability execution)
    | None => ""
    end
  else pe_OutputMappingRef execution.

(** The second transaction: the attempt is taken, and the mapping bound. *)
Definition acquireUnit (message : OutboxMessage) (mapping : string)
    : tx ProvisioningExecutionRecord :=
  execution ← dispatchable message;
  attempt ← tx_GetSubmissionAttempt (om_OperationID message) (om_AttemptNumber message);
  guard_tx (sa_State attempt <>? SubmissionAttemptPending) ||
           (sa_DispatchMessage attempt <>? om_ID message)
    with ErrConcurrencyConflict ;;
  tx_RenewOutbox (m_now at_) (om_ID message) (om_LeaseToken message) w_Lease ≫= λ _,
  tx_SaveSubmissionAttempt (attempt <| sa_State := SubmissionAttemptLeased |>)
    SubmissionAttemptPending ≫= λ _,
  let execution := if pe_OutputMappingRef execution =? ""
                   then execution <| pe_OutputMappingRef := mapping |> else execution in
  let execution := execution <| pe_State := AttemptDispatching |> in
  tx_SaveExecution execution (pe_Version execution) ≫= λ _,
  mret (execution <| pe_Version := u64_incr (pe_Version execution) |>).

(** The execution and attempt that were dispatched, still leased. *)
Definition dispatched (message : OutboxMessage) (version : uint64)
    : tx (ProvisioningExecutionRecord * SubmissionAttemptRecord) :=
  requireLease message ≫= λ _,
  execution ← tx_GetExecution (om_OperationID message);
  guard_tx (pe_Version execution <>? version) ||
           (pe_CurrentAttempt execution <>? om_AttemptNumber message) ||
           (pe_State execution <>? AttemptDispatching)
    with ErrConcurrencyConflict ;;
  attempt ← tx_GetSubmissionAttempt (om_OperationID message) (om_AttemptNumber message);
  guard_tx sa_State attempt <>? SubmissionAttemptLeased with ErrConcurrencyConflict ;;
  mret (execution, attempt).

Definition recordDispatch (message : OutboxMessage) (version : uint64)
    (submission : Submission) (submitErr : option error) : tx unit :=
  '(execution, attempt) ← dispatched message version;
  let observedAt := observedAt (eo_ObservedAt (sub_Observation submission)) in
  interpreted ← lift (InterpretSubmission err_Error execution attempt submission submitErr
                  observedAt);
  let '(execution, attempt, result, finish) := interpreted in
  tx_SaveSubmissionAttempt attempt SubmissionAttemptLeased ≫= λ _,
  let observe_again reason :=
    let '(execution, observe) := scheduleObserve execution w_RetryBase in
    tx_SaveExecution execution version ≫= λ _,
    complete message reason ≫= λ _,
    enqueue observe in
  match result with
  | SubmissionOutcomeAmbiguous => observe_again "AmbiguousSubmission"
  | SubmissionOutcomeAccepted => observe_again "Submitted"
  | SubmissionOutcomeSucceeded =>
      finish ← deref finish;
      finishSuccessInTx message execution version finish observedAt
        (eo_Outputs (sub_Observation submission))
  | SubmissionOutcomeRejected | SubmissionOutcomeFailed =>
      finish ← deref finish;
      finishOperation message execution version finish observedAt
  end.

Definition markDispatchUnknown (message : OutboxMessage) (version : uint64) (cause : error)
    : tx unit :=
  '(execution, attempt) ← dispatched message version;
  let failure := {| ef_Kind := FailureUnknown; ef_Reason := "DispatchResultPersistenceFailed";
                    ef_Message := err_Error cause |} in
  tx_SaveSubmissionAttempt (attempt <| sa_State := SubmissionAttemptUnknown |>
                              <| sa_Failure := Some failure |>) SubmissionAttemptLeased ≫= λ _,
  let execution := execution <| pe_State := AttemptUnknown |>
    <| pe_Correlation := RequestCorrelationUnknown |> <| pe_LastFailure := Some failure |> in
  let '(execution, observe) := scheduleObserve execution w_RetryBase in
  tx_SaveExecution execution (pe_Version execution) ≫= λ _,
  complete message "DispatchResultPersistenceFailed" ≫= λ _,
  enqueue observe.

(** [SubmissionNotAttemptedError.Error]. *)
Definition notAttemptedText (failure : SubmissionNotAttemptedError) : string :=
  "provisioner submission was not attempted: " +:+ ExecutionFailure_Error (sna_Failure failure).

Definition retryNotAttemptedDispatch (message : OutboxMessage) (version : uint64)
    (failure : SubmissionNotAttemptedError) : tx unit :=
  '(execution, attempt) ← dispatched message version;
  guard_tx sa_DispatchMessage attempt <>? om_ID message with ErrConcurrencyConflict ;;
  tx_SaveSubmissionAttempt (restoredAttempt attempt) SubmissionAttemptLeased ≫= λ _,
  tx_SaveExecution (execution <| pe_State := AttemptPending |>) version ≫= λ _,
  tx_RetryDispatchOutbox (m_now at_) (m_now' at_) (om_ID message) (om_LeaseToken message)
    (u64_incr version) (backoff (om_AttemptCount message)) (notAttemptedText failure).

(** ** Observation *)

Record observationRecords := {
  ob_execution : ProvisioningExecutionRecord;
  ob_source : ProvisioningExecutionRecord;
  ob_operation : OperationRecord }.

(** A read that only output recoveries make. *)
Definition recovering {A} (preflight : ProvisioningExecutionRecord) (read : tx A)
    : tx (option A) :=
  if IsOutputRecovery preflight then (x ← read; mret (Some x)) else mret None.

Definition lockObservationRecords (operationID : OperationID)
    (expectedVersion expectedNextObservation : uint64) : tx observationRecords :=
  preflight ← tx_LookupExecution operationID;
  guard_tx (pe_Version preflight <>? expectedVersion) ||
           (pe_NextObservation preflight <>? expectedNextObservation)
    with ErrConcurrencyConflict ;;
  resource ← tx_GetResource (pe_ResourceID preflight);
  let sourceID := pe_RecoverySourceOperationID preflight in
  sourceOperation ← recovering preflight (tx_GetOperation sourceID);
  operation ← tx_GetOperation operationID;
  source ← recovering preflight (tx_GetExecution sourceID);
  execution ← tx_GetExecution operationID;
  sourceAttempt ← recovering preflight
    (tx_GetSubmissionAttempt sourceID (pe_RecoverySourceAttempt preflight));
  guard_tx (pe_ResourceID execution <>? pe_ResourceID preflight) ||
           (pe_RecoverySourceOperationID execution <>? pe_RecoverySourceOperationID preflight) ||
           (pe_RecoverySourceAttempt execution <>? pe_RecoverySourceAttempt preflight) ||
           (res_id (rr_Resource resource) <>? pe_ResourceID execution) ||
           (op_id (opr_Operation operation) <>? pe_OperationID execution) ||
           (op_resourceID (opr_Operation operation) <>? pe_ResourceID execution)
    with ErrConcurrencyConflict ;;
  (match sourceOperation, source, sourceAttempt with
   | Some sourceOperation, Some source, Some sourceAttempt =>
       lift (ValidateOutputRecoverySource execution source (opr_Operation sourceOperation)
               sourceAttempt)
   | _, _, _ => mret tt
   end) ≫= λ _,
  mret {| ob_execution := execution; ob_source := default zeroExecution source;
          ob_operation := operation |}.

(** The first transaction of [observe]: the execution and the request. *)
Definition observeUnit (message : OutboxMessage)
    : tx (ProvisioningExecutionRecord * ObservationRequest) :=
  requireLease message ≫= λ _,
  records ← lockObservationRecords (om_OperationID message) (om_ExpectedVersion message)
              (u64_incr (om_Sequence message));
  let loaded := ob_execution records in
  guard_tx (pe_Version loaded <>? om_ExpectedVersion message) ||
           (pe_NextObservation loaded <>? u64_incr (om_Sequence message))
    with ErrConcurrencyConflict ;;
  mret (loaded, if IsOutputRecovery loaded then recoveryRequest loaded (ob_source records)
                else observationRequest loaded).

(** What an observation that still lacks the outputs of a success leaves. *)
Definition recordRecovery (execution : ProvisioningExecutionRecord)
    (observation : ExecutionObservation) : ProvisioningExecutionRecord :=
  execution <| pe_LastObservation := Some observation |>
    <| pe_LastObservedAt := observedAt (eo_ObservedAt observation) |>
    <| pe_Correlation := eo_Correlation observation |>.

(** It is not the success again: an output recovery keeps observing. *)
Definition uncorrelated (message : OutboxMessage) (execution : ProvisioningExecutionRecord)
    (observation : ExecutionObservation) : tx unit :=
  if IsOutputRecovery execution then
    let providerAt := eo_ObservedAt observation in
    let execution := recordRecovery execution observation in
    let execution :=
      if negb (IsZero providerAt) && (IsZero (pe_LastProviderObservedAt execution) ||
                                      After providerAt (pe_LastProviderObservedAt execution))
      then execution <| pe_LastProviderObservedAt := providerAt |> else execution in
    let '(execution, next) := scheduleObserve execution w_RetryBase in
    tx_SaveExecution execution (pe_Version execution) ≫= λ _,
    complete message (observeCompletionReason observation) ≫= λ _,
    enqueue next
  else throw (Wrapf ErrInvalidTransition
    "%w: pending-output observation is not positively correlated terminal success" []).

(** The backend has succeeded and the outputs are outstanding. *)
Definition recordPendingOutputs (message : OutboxMessage)
    (execution : ProvisioningExecutionRecord) (operation : OperationRecord)
    (observation : ExecutionObservation) : tx unit :=
  guard_tx IsTerminal (opr_Operation operation) with ErrConcurrencyConflict ;;
  let providerAt := eo_ObservedAt observation in
  let finish execution finishAt :=
    finishSuccessInTx message execution (pe_Version execution)
      {| fin_Succeeded := true; fin_Reason := "ObservationSucceeded"; fin_Message := "";
         fin_Facts := eo_Resource observation |} finishAt (eo_Outputs observation) in
  match eo_Execution observation with
  | Some backend =>
      if (eo_Correlation observation <>? RequestCorrelationFound) ||
         (ex_State backend <>? ExecutionStateSucceeded)
      then uncorrelated message execution observation
      else if IsOutputRecovery execution then
        let execution := recordRecovery execution observation in
        let execution := match ex_Handle backend with
                         | Some handle => execution <| pe_Handle := Some handle |>
                         | None => execution
                         end in
        let execution := if negb (IsZero providerAt)
                         then execution <| pe_LastProviderObservedAt := providerAt |>
                         else execution in
        finish execution (observedAt providerAt)
      else finish execution (pe_LastObservedAt execution)
  | None => uncorrelated message execution observation
  end.

(** What follows from the interpretation of an observation. *)
Definition applyObservationOutcome (message : OutboxMessage)
    (execution : ProvisioningExecutionRecord) (attempt : SubmissionAttemptRecord)
    (observation : ExecutionObservation) (result : ObservationOutcome)
    (finish : option Finish) (observed : Time) : tx unit :=
  let observe_again reason :=
    let '(execution, next) := scheduleObserve execution w_RetryBase in
    tx_SaveExecution execution (pe_Version execution) ≫= λ _,
    complete message reason ≫= λ _,
    enqueue next in
  match result with
  | ObservationOutcomeStale => observe_again "StaleObservation"
  | ObservationOutcomeRejected =>
      tx_SaveSubmissionAttempt attempt SubmissionAttemptUnknown ≫= λ _,
      finish ← deref finish;
      finishOperation message execution (pe_Version execution) finish observed
  | ObservationOutcomeRetry =>
      let dispatch := DispatchMessage (pe_OperationID execution) (pe_CurrentAttempt execution)
                        (u64_incr (pe_Version execution)) in
      tx_SaveSubmissionAttempt attempt SubmissionAttemptUnknown ≫= λ _,
      tx_CreateSubmissionAttempt (pendingAttempt (pe_OperationID execution)
        (pe_CurrentAttempt execution) (om_ID dispatch)) ≫= λ _,
      tx_SaveExecution execution (pe_Version execution) ≫= λ _,
      complete message "SubmissionNotFound" ≫= λ _,
      enqueue dispatch
  | ObservationOutcomeObserve => observe_again (observeCompletionReason observation)
  | ObservationOutcomeSucceeded =>
      finish ← deref finish;
      finishSuccessInTx message execution (pe_Version execution) finish observed
        (eo_Outputs observation)
  | ObservationOutcomeFailed =>
      finish ← deref finish;
      finishOperation message execution (pe_Version execution) finish observed
  end.

Definition recordObservation (message : OutboxMessage) (loaded : ProvisioningExecutionRecord)
    (observation : ExecutionObservation) : tx unit :=
  requireLease message ≫= λ _,
  records ← lockObservationRecords (om_OperationID message) (pe_Version loaded)
              (u64_incr (om_Sequence message));
  let execution := ob_execution records in
  guard_tx (pe_Version execution <>? pe_Version loaded) ||
           (pe_CurrentAttempt execution <>? pe_CurrentAttempt loaded) ||
           (pe_NextObservation execution <>? u64_incr (om_Sequence message))
    with ErrConcurrencyConflict ;;
  if (pe_State execution =? AttemptSucceeded) &&
     (pe_OutputResolution execution =? OutputResolutionPending)
  then recordPendingOutputs message execution (ob_operation records) observation
  else
  attempt ← tx_GetSubmissionAttempt (pe_OperationID execution) (pe_CurrentAttempt execution);
  let observed := observedAt (eo_ObservedAt observation) in
  interpreted ← lift (InterpretObservation err_Error execution attempt observation observed);
  let '(execution, attempt, result, finish) := interpreted in
  applyObservationOutcome message execution attempt observation result finish observed.

(** ** Passive observation *)

(** The first transaction of [passiveObserve]; [None] when the work is stale. *)
Definition passiveUnit (message : OutboxMessage) : tx (option ResourceRecord) :=
  requireLease message ≫= λ _,
  loaded ← tx_GetResource (om_ResourceID message);
  if rr_Version loaded <>? om_ExpectedVersion message then
    complete message "StalePassiveObservation" ≫= λ _, mret None
  else mret (Some loaded).

Definition isDrifted (status : ResourceStatus) : bool :=
  existsb (λ c, (cond_type c =? "Drifted") && (cond_status c =? ConditionStatusTrue))
    (st_conditions status).

(** The event of a drift that was not there before; [token] is random. *)
Definition driftEvent (token : string) (current : ResourceRecord) (status : ResourceStatus)
    (observed : Time) : tx unit :=
  if negb (isDrifted (rr_Status current)) && isDrifted status then
    event ← lift (NewEvent ("drift-" +:+ token) (res_id (rr_Resource current)) ""
      (u64_incr (rr_Version current)) "DriftDetected" "PassiveObservation"
      "Drift was passively detected from provider drift metrics." observed);
    tx_Append event
  else mret tt.

Definition recordPassive (token : string) (message : OutboxMessage) (loaded : ResourceRecord)
    (observation : ExecutionObservation) : tx unit :=
  requireLease message ≫= λ _,
  current ← tx_GetResource (om_ResourceID message);
  guard_tx rr_Version current <>? rr_Version loaded with ErrConcurrencyConflict ;;
  let observed := observedAt (eo_ObservedAt observation) in
  if Before observed (res_updatedAt (rr_Resource current)) ||
     Before observed (st_updatedAt (rr_Status current))
  then complete message "StaleObservation" else
  active ← tx_ActiveForResource (om_ResourceID message);
  match active with
  | Some _ => complete message "StaleObservation"
  | None =>
      status ← lift (ApplyObservation (rr_Resource current) (rr_Status current)
        (eo_Resource observation) observed);
      driftEvent token current status observed ≫= λ _,
      tx_SaveResource (current <| rr_Status := status |>) (rr_Version current) ≫= λ _,
      complete message "PassivelyObserved" ≫= λ _,
      EnqueueWakeDependentsIfWaited (om_ResourceID message) (u64_incr (rr_Version current))
  end.
End handlers.
