(* ===== verification/Worker.v ===== *)
(** * The worker

    Models the control flow of [src/internal/worker/dispatcher.go],
    [executor.go] and [dependencies.go]: what one call of [RunOnce] does between
    its transactions.  A [job] is that [flow]: it runs the units of work of
    [Handlers] one after the other, and calls the provider between them, so that
    anything can happen to the store while it waits.  What a provider answers,
    and how often a heartbeat renews the lease meanwhile, is up to the
    environment that runs the job ([System]). *)

From S2P Require Import Prelude Operation Values Resource Status Provisioning Records.
From S2P Require Import Engine Submission Text Work Outbox Store Admission Handlers.
Open Scope string_scope.
Open Scope go_scope.

(** ** Jobs *)

(** The errors of a handler that [runOnce] tells apart by their type. *)
Inductive failure :=
  | PlainFailure (e : error)
  | AmbiguousDispatch (cause : error) (leaseLost : bool)
  | DispatchRequeued (cause : error)
  | LeaseOwnershipLost (cause : error).

(** How a call of [RunOnce] ends.  [Unfinished] is not an end of the code: the
    loop of [wakeDependents] was given too few pages. *)
Inductive verdict :=
  | Idle
  | Processed
  | Failed (f : failure)
  | Crashed (value : string)
  | Unfinished.

(** An error a provider returns, with what [AsSubmissionNotAttempted] finds in
    it. *)
Record CallError := {
  ce_error : error;
  ce_notAttempted : option SubmissionNotAttemptedError }.

Inductive answer (A : Type) :=
  | Answered (x : A) (err : option CallError)
  | PanickedWith (value : string).
Arguments Answered {A}.
Arguments PanickedWith {A}.

(** What comes back from a provider: its answer, how often the heartbeat had
    renewed the lease, and the error of the context if it ended first. *)
Record CallReply (A : Type) := {
  cr_answer : answer A;
  cr_renewals : nat;
  cr_interrupted : option error }.
Arguments cr_answer {A}.
Arguments cr_renewals {A}.
Arguments cr_interrupted {A}.

(** A computation that runs units of work and calls providers between them. *)
Inductive flow (V : Type) :=
  | Ends (v : V)
  | Transact {B : Type} (unit_ : Moment → tx B) (next : outcome B → flow V)
  | Submitting (provider : Provisioner) (request : ExecutionRequest)
      (fence : option ExecutionFence) (next : CallReply Submission → flow V)
  | Observing (provider : Provisioner) (request : ObservationRequest)
      (fence : option ExecutionFence) (next : CallReply ExecutionObservation → flow V).
Arguments Ends {V}.
Arguments Transact {V B}.
Arguments Submitting {V}.
Arguments Observing {V}.

Abbreviation job := (flow verdict).

(** Go on with how a flow ends. *)
Fixpoint andThen {V W} (j : flow V) (k : V → flow W) : flow W :=
  match j with
  | Ends v => k v
  | Transact unit_ next => Transact unit_ (λ r, andThen (next r) k)
  | Submitting provider request fence next =>
      Submitting provider request fence (λ r, andThen (next r) k)
  | Observing provider request fence next =>
      Observing provider request fence (λ r, andThen (next r) k)
  end.

Definition plain (e : error) : job := Ends (Failed (PlainFailure e)).

(** [Transactions.Within]; a panic unwinds to the boundary of the work item. *)
Definition within {B} (unit_ : Moment → tx B) (fail : error → job) (k : B → job) : job :=
  Transact unit_ (λ r, match r with
                       | Ok x => k x
                       | Err e => fail e
                       | Panic value => Ends (Crashed value)
                       end).

Inductive failureClass := failureRetryable | failureStale | failurePoison.

Definition classifyFailure (e : error) : failureClass :=
  if errors_is e ErrConcurrencyConflict then failureStale
  else if errors_is e ErrInvalidApplicationCall || errors_is e ErrResourceNotFound ||
          errors_is e ErrOperationNotFound || errors_is e ErrInvalidTransition
  then failurePoison
  else failureRetryable.

Definition executionFence (message : OutboxMessage) (passive : bool) : ExecutionFence :=
  {| fence_MessageID := om_ID message; fence_LeaseToken := om_LeaseToken message;
     fence_Passive := passive |}.

Section worker.
Context {order : MapOrder} {worker : Composition}.

(** ** The heartbeat *)

Definition renew (message : OutboxMessage) (m : Moment) : tx unit :=
  tx_RenewOutbox (m_now m) (om_ID message) (om_LeaseToken message) w_Lease.

(** The renewals of the ticker, and the one of [stop]; the first error ends it.
    A context that ends stops it without another renewal. *)
Fixpoint heartbeat (message : OutboxMessage) (renewals : nat) (interrupted : option error)
    (next : option error → job) : job :=
  match renewals, interrupted with
  | O, Some e => next (Some e)
  | O, None => within (renew message) (λ e, next (Some e)) (λ _, next None)
  | S n, _ => within (renew message) (λ e, next (Some e))
                (λ _, heartbeat message n interrupted next)
  end.

(** ** Dispatch *)

Definition resolved (ref : string) (k : Provisioner → job) : job :=
  match w_Resolve ref with
  | Ok (Some provider) => k provider
  | Ok None => plain (Wrapf ErrProvisionerNotFound "%w: %v" [])
  | Err e => plain (Notef ErrProvisionerNotFound "%w: %v" e)
  | Panic value => Ends (Crashed value)
  end.

(** [prepareDispatch]. *)
Definition prepareDispatch (message : OutboxMessage)
    (k : Provisioner → ProvisioningExecutionRecord → job) : job :=
  within (λ _, prepareUnit message) plain (λ execution,
  resolved (pe_ProvisionerRef execution) (λ provider,
  within (λ m, acquireUnit m message (boundMapping provider execution)) plain (k provider))).

(** Record the submission; if that fails, that its outcome is unknown. *)
Definition recordSubmissionJob (message : OutboxMessage) (version : uint64)
    (submission : Submission) (submitErr : option error) : job :=
  within (λ m, recordDispatch m message version submission submitErr)
    (λ e, within (λ m, markDispatchUnknown m message version e)
            (λ _, Ends (Failed (AmbiguousDispatch e (errors_is e ErrConcurrencyConflict))))
            (λ _, Ends Processed))
    (λ _, Ends Processed).

(** The submission was conclusively not attempted: the exact claim of the
    provider, and no evidence beside it. *)
Definition conclusivelyNotAttempted (failure : SubmissionNotAttemptedError) (e : error)
    (submission : Submission) : bool :=
  is_ok (SubmissionNotAttemptedError_Validate failure) &&
  negb (errors_is e ErrAmbiguousSubmission) && Submission_IsZero submission.

Definition noSubmission : Submission :=
  {| sub_Observation := {| eo_Correlation := ""; eo_Execution := None; eo_Resource := no_facts;
                           eo_ObservedAt := time_zero; eo_Outputs := None |} |}.

(** What [dispatch] makes of the answer, with the error of the heartbeat. *)
Definition submitted (message : OutboxMessage) (version : uint64) (result : answer Submission)
    (heartbeatErr : option error) : job :=
  match result, heartbeatErr with
  | PanickedWith value, _ =>
      Ends (Failed (AmbiguousDispatch (Errorf "provider submit panicked: %s" [ArgS value])
                        false))
  | _, Some _ =>
      Ends (Failed (AmbiguousDispatch (Errorf "dispatch lease ownership lost" []) true))
  | Answered submission err, None =>
      match err with
      | Some {| ce_error := e; ce_notAttempted := Some failure |} =>
          if conclusivelyNotAttempted failure e submission then
            within (λ m, retryNotAttemptedDispatch m message version failure)
              (λ e', Ends (Failed (AmbiguousDispatch e' (errors_is e' ErrConcurrencyConflict))))
              (λ _, Ends (Failed (DispatchRequeued e)))
          else recordSubmissionJob message version noSubmission
                 (Some (Notef ErrAmbiguousSubmission
                    "%w: contradictory submission-not-attempted result: %v" e))
      | _ => recordSubmissionJob message version submission (option_map ce_error err)
      end
  end.

Definition dispatch (message : OutboxMessage) : job :=
  prepareDispatch message (λ provider prepared,
  within (renew message)
    (λ e, Ends (Failed (AmbiguousDispatch
            (Wrapf e "dispatch lease ownership lost: %w" []) true)))
    (λ _, Submitting provider (executionRequest prepared)
      (if pv_Fenced provider then Some (executionFence message false) else None)
      (λ reply, heartbeat message (cr_renewals reply) (cr_interrupted reply)
        (submitted message (pe_Version prepared) (cr_answer reply))))).

(** ** Observation *)

Definition observeWithHeartbeat (message : OutboxMessage) (provider : Provisioner)
    (request : ObservationRequest) (k : ExecutionObservation → job) : job :=
  within (renew message) (λ e, Ends (Failed (LeaseOwnershipLost e)))
    (λ _, Observing provider request
      (if pv_Fenced provider
       then Some (executionFence message (om_Kind message =? OutboxPassiveObserve)) else None)
      (λ reply, heartbeat message (cr_renewals reply) (cr_interrupted reply)
        (λ heartbeatErr,
          match cr_answer reply, heartbeatErr with
          | PanickedWith value, _ => Ends (Crashed value)
          | _, Some e => Ends (Failed (LeaseOwnershipLost e))
          | Answered _ (Some err), None => plain (ce_error err)
          | Answered observation None, None => k observation
          end))).

Definition observe (message : OutboxMessage) : job :=
  within (λ _, observeUnit message) plain (λ '(loaded, request),
  resolved (pe_ProvisionerRef loaded) (λ provider,
  observeWithHeartbeat message provider request (λ observation,
  if negb (ValidCorrelation (eo_Correlation observation)) then
    plain (Errorf "invalid request correlation %q" [ArgS (eo_Correlation observation)])
  else if contradictory observation then
    plain (Errorf "contradictory observation reports NotFound with an execution" [])
  else within (λ m, recordObservation m message loaded observation) plain
         (λ _, Ends Processed)))).

Definition passiveObserve (token : string) (message : OutboxMessage) : job :=
  within (λ m, passiveUnit m message) plain (λ loaded,
  match loaded with
  | None => Ends Processed
  | Some loaded =>
      resolved (rr_ProvisionerRef loaded) (λ provider,
      observeWithHeartbeat message provider (passiveRequest (rr_Resource loaded))
        (λ observation,
      within (λ m, recordPassive m token message loaded observation) plain
        (λ _, Ends Processed)))
  end).

(** ** Waking dependents *)

Fixpoint wakeFrom (pages : nat) (message : OutboxMessage) (cursor : uint64) : job :=
  match pages with
  | O => Ends Unfinished
  | S n =>
      within (λ m, wakePage m message cursor) plain (λ next,
      if next =? 0%N then
        within (λ m, wakeFinished m message) plain (λ _, Ends Processed)
      else wakeFrom n message next)
  end.

Definition wakeDependents (pages : nat) (message : OutboxMessage) : job :=
  wakeFrom pages message 0.

(** ** The loop body *)

Definition drive (message : OutboxMessage) : job :=
  within (λ m, driveUnit m message) plain (λ _, Ends Processed).

(** The handler of a message; [token] is the random token of a drift event. *)
Definition handle (token : string) (pages : nat) (message : OutboxMessage) : job :=
  let kind := om_Kind message in
  if kind =? OutboxDrive then drive message
  else if kind =? OutboxDispatch then dispatch message
  else if kind =? OutboxObserve then observe message
  else if kind =? OutboxPassiveObserve then passiveObserve token message
  else if kind =? OutboxWakeDependents then wakeDependents pages message
  else plain (Errorf "unsupported outbox kind %q" [ArgS kind]).

(** Settle the message of a handler that failed with [e]; an error of that
    other than a conflict is reported beside [e]. *)
Definition settledBy (unit_ : Moment → tx unit) (e : error) (format : string) : job :=
  within unit_
    (λ e', if errors_is e' ErrConcurrencyConflict then plain e else plain (Notef e format e'))
    (λ _, plain e).

Definition settleFailure (message : OutboxMessage) (v : verdict) : job :=
  match v with
  | Failed (PlainFailure e) =>
      match classifyFailure e with
      | failureStale =>
          settledBy (λ m, complete m message "StaleWork") e
            "process work: %w; settle stale work: %v"
      | failurePoison =>
          settledBy (λ m, tx_DeadOutbox (m_now m) (om_ID message) (om_LeaseToken message)
                            (err_Error e)) e "process work: %w; quarantine work: %v"
      | failureRetryable =>
          settledBy (λ m, tx_RetryOutbox (m_now m) (m_now' m) (om_ID message)
                            (om_LeaseToken message) (backoff (om_AttemptCount message))
                            (err_Error e)) e "process work: %w; reschedule: %v"
      end
  | v => Ends v
  end.

(** [RunOnce], with the random tokens of the lease and of a drift event. *)
Definition RunOnce (leaseToken driftToken : string) (pages : nat) : job :=
  within (λ m, recoverExpiredUnit m) plain (λ recovered : bool,
  if recovered then Ends Processed else
  within (λ m, tx_ClaimOutbox (m_now m) leaseToken w_Lease) plain (λ claimed,
  match claimed with
  | None => Ends Idle
  | Some message => andThen (handle driftToken pages message) (settleFailure message)
  end)).
End worker.
