(* ===== verification/WorkerRights.v ===== *)
(** * What the transactions of the worker may change

    Every unit of work of [Handlers] is a computation of [History.scripted]
    under the [worker_rights]: it creates no operation, and it gives an attempt
    back only where the code means to. *)

From S2P Require Import Prelude Operation Values Resource Status Provisioning Records.
From S2P Require Import Engine Submission Outputs Contracts References Dependencies Policy.
From S2P Require Import Text Work Outbox Store History Rights Evidence Admission Idempotency.
From S2P Require Import Handlers Worker.
Open Scope string_scope.
Open Scope go_scope.

(** ** What the worker may do *)

(** The worker creates no operations.  It moves an attempt back to Pending only
    with the first right, and saves resources and operations only with the
    second. *)
Definition worker_rights (may_give_back settles : Prop) : rights :=
  {| may_create := False; may_settle := settles;
     may_move := λ a _, sa_State a = SubmissionAttemptPending → may_give_back |}.

(** ** Where interpretation moves an attempt *)

Definition moves_away {A B} (away : A → bool)
    (m : outcome (ProvisioningExecutionRecord * SubmissionAttemptRecord * A * B)) : Prop :=
  match m with
  | Ok (_, a, r, _) => away r → sa_State a ≠ SubmissionAttemptPending
  | _ => True
  end.

Lemma resolveSubmission_moves Error e attempt submission submitErr at_ :
  moves_away (λ _, true) (resolveSubmission Error e attempt submission submitErr at_).
Proof.
  unfold resolveSubmission, submissionResult, ambiguous. by repeat case_match.
Qed.

Lemma submission_moves Error execution attempt submission submitErr at_ :
  moves_away (λ _, true) (InterpretSubmission Error execution attempt submission submitErr at_).
Proof.
  unfold InterpretSubmission, interpretFresh, ambiguous. set (unknown := execution <| _ := _ |>).
  repeat case_match; apply resolveSubmission_moves || done.
Qed.

(** The outcomes for which an observation saves the attempt. *)
Definition settles_attempt (r : ObservationOutcome) : bool :=
  match r with ObservationOutcomeRejected | ObservationOutcomeRetry => true | _ => false end.

Lemma observation_moves Error execution attempt observation at_ :
  moves_away settles_attempt (InterpretObservation Error execution attempt observation at_).
Proof.
  unfold InterpretObservation, observeFresh.
  assert (∀ e o, moves_away settles_attempt (resolveObservation Error e attempt o at_)) as H.
  { intros e o. unfold resolveObservation. repeat case_match; try done; by intros []. }
  repeat case_match; try apply H; try done; by intros [].
Qed.

Section worker_units.
Context {order : MapOrder} {worker : Composition} (give_back settles : Prop).
Abbreviation permitted := (scripted (worker_rights give_back settles)).

Lemma worker_may_settle : settles → may_settle (worker_rights give_back settles).
Proof. done. Qed.
#[local] Hint Resolve worker_may_settle : scripted.

Lemma delayed_fresh w delay : fresh ((message_of w) <| om_Delay := delay |>).
Proof. destruct w; by split; [| |left|..]. Qed.

Lemma observe_permitted at_ execution delay :
  permitted (enqueue at_ (scheduleObserve execution delay).2).
Proof.
  apply sc_Enqueue. apply (delayed_fresh (Observe (pe_OperationID execution) _ _)).
Qed.

Lemma enqueue_permitted at_ w : permitted (enqueue at_ (message_of w)).
Proof. apply sc_Enqueue, message_fresh. Qed.

Lemma requireLease_permitted message : permitted (requireLease message).
Proof. unfold requireLease. script. Qed.
#[local] Hint Resolve requireLease_permitted : scripted.

Lemma complete_permitted at_ message reason : permitted (complete at_ message reason).
Proof. apply sc_CompleteOutbox. Qed.
#[local] Hint Resolve complete_permitted : scripted.

Lemma waited_permitted at_ target version :
  permitted (EnqueueWakeDependentsIfWaited at_ target version).
Proof.
  unfold EnqueueWakeDependentsIfWaited. script.
  by apply sc_EnqueueWakeDependents; [apply (message_fresh (WakeDependents _ _))|..].
Qed.
#[local] Hint Resolve waited_permitted : scripted.

Lemma settleGateBlock_permitted at_ message resource operation execution evaluation changedAt :
  settles → permitted (settleGateBlock at_ message resource operation execution evaluation changedAt).
Proof. intros Hsettles. unfold settleGateBlock. script. Qed.
#[local] Hint Resolve settleGateBlock_permitted : scripted.

Lemma terminal_permitted at_ operation id version :
  permitted (applyTerminalSideEffects at_ operation id version).
Proof. unfold applyTerminalSideEffects. script. Qed.
#[local] Hint Resolve terminal_permitted : scripted.

Lemma Drive_permitted at_ id v : permitted (enqueue at_ (DriveMessage id v)).
Proof. apply (enqueue_permitted at_ (Drive id v)). Qed.
Lemma Dispatch_permitted at_ id n v : permitted (enqueue at_ (DispatchMessage id n v)).
Proof. apply (enqueue_permitted at_ (Dispatch id n v)). Qed.
Lemma Wake_permitted at_ target v :
  permitted (tx_EnqueueWakeDependents (m_now at_) (m_now' at_) (WakeDependentsMessage target v)).
Proof. by apply sc_EnqueueWakeDependents; [apply (message_fresh (WakeDependents _ _))|..]. Qed.
#[local] Hint Resolve Drive_permitted Dispatch_permitted Wake_permitted : scripted.

Lemma revalidateWaiters_permitted at_ waits : permitted (revalidateWaiters at_ waits).
Proof.
  induction waits as [|wait waits IH]; cbn [revalidateWaiters]; [apply sc_ret|].
  apply sc_bind; [|done]. unfold revalidateWaiter, waiterStale, attempted. script.
Qed.
#[local] Hint Resolve revalidateWaiters_permitted : scripted.

Lemma wakePage_permitted at_ message cursor : permitted (wakePage at_ message cursor).
Proof. unfold wakePage. script. Qed.

Lemma wakeFinished_permitted at_ message : permitted (wakeFinished at_ message).
Proof. unfold wakeFinished. script. Qed.

Ltac observed_permitted :=
  match goal with H : scheduleObserve ?e ?d = (_, ?m) |- scripted _ (enqueue ?at_ ?m) =>
    pose proof (observe_permitted at_ e d) as Hm; rewrite H in Hm; exact Hm end.
#[local] Hint Extern 1 (scripted _ (enqueue _ _)) => observed_permitted : scripted.

Lemma scheduleNext_permitted at_ message operation execution next :
  permitted (scheduleNext at_ message operation execution next).
Proof. unfold scheduleNext. script. Qed.
#[local] Hint Resolve scheduleNext_permitted : scripted.

Lemma driveUnit_permitted at_ message : settles → permitted (driveUnit at_ message).
Proof. intros Hsettles. unfold driveUnit, gateOf, advancePhase. script. Qed.

(** *** The end of an operation *)

Lemma saveTerminal_permitted resource operation result execution version between :
  settles → permitted between → permitted (saveTerminal resource operation result execution version between).
Proof. intros Hsettles ?. unfold saveTerminal. script. Qed.

Lemma settleTerminal_permitted at_ message resource result reason :
  permitted (settleTerminal at_ message resource result reason).
Proof. unfold settleTerminal. script. Qed.
#[local] Hint Resolve settleTerminal_permitted : scripted.

Lemma finishOperation_permitted at_ message execution version finish finishedAt :
  settles → permitted (finishOperation at_ message execution version finish finishedAt).
Proof. intros Hsettles. unfold finishOperation, loadTerminal. script. apply saveTerminal_permitted; [done|script]. Qed.
#[local] Hint Resolve finishOperation_permitted : scripted.

Lemma completeSuccess_permitted at_ message resource operation execution version finish
    finishedAt published :
  settles → permitted (completeSuccess at_ message resource operation execution version finish
    finishedAt published).
Proof.
  intros Hsettles.
  unfold completeSuccess, advanceApplied. script. all: apply saveTerminal_permitted; [done|script].
Qed.
#[local] Hint Resolve completeSuccess_permitted : scripted.

Lemma deferOutputs_permitted at_ message execution version :
  permitted (deferOutputs at_ message execution version).
Proof. unfold deferOutputs. script. Qed.
#[local] Hint Resolve deferOutputs_permitted : scripted.

Lemma finishSuccess_permitted at_ message execution version finish finishedAt outputs :
  settles → permitted (finishSuccessInTx at_ message execution version finish finishedAt outputs).
Proof.
  intros Hsettles.
  unfold finishSuccessInTx, loadTerminal, rejectOutputs. script.
  all: apply saveTerminal_permitted; [done|script].
Qed.
#[local] Hint Resolve finishSuccess_permitted : scripted.

(** *** Dispatch *)

Lemma move_permitted record expected :
  (sa_State record = SubmissionAttemptPending → give_back) →
  permitted (tx_SaveSubmissionAttempt record expected).
Proof. intros H. by apply sc_SaveSubmissionAttempt. Qed.
#[local] Hint Extern 2 (scripted _ (tx_SaveSubmissionAttempt _ _)) =>
  apply move_permitted; done : scripted.

Lemma recoverExpired_permitted at_ :
  (∀ ref, canRedeliver ref = Ok true → give_back) → permitted (recoverExpiredUnit at_).
Proof.
  intros Hback. unfold recoverExpiredUnit, recoverMessage. script.
  apply move_permitted. intros _. match goal with H : lift _ _ = _ |- _ =>
    apply lift_run in H as [_ ?]; by eapply Hback end.
Qed.

Lemma prepare_permitted message : permitted (prepareUnit message).
Proof. unfold prepareUnit, dispatchable. script. Qed.

Lemma acquire_permitted at_ message mapping : permitted (acquireUnit at_ message mapping).
Proof. unfold acquireUnit, dispatchable. script. Qed.

Lemma dispatched_permitted message version : permitted (dispatched message version).
Proof. unfold dispatched. script. Qed.
#[local] Hint Resolve dispatched_permitted : scripted.

Lemma markUnknown_permitted at_ message version cause :
  permitted (markDispatchUnknown at_ message version cause).
Proof. unfold markDispatchUnknown. script. Qed.

Lemma notAttempted_permitted at_ message version failure :
  give_back → permitted (retryNotAttemptedDispatch at_ message version failure).
Proof. intros Hback. unfold retryNotAttemptedDispatch. script. Qed.

Lemma recordDispatch_permitted at_ message version submission submitErr :
  settles → permitted (recordDispatch at_ message version submission submitErr).
Proof.
  intros Hsettles.
  unfold recordDispatch. script.
  all: apply move_permitted; intros Hp; exfalso; revert Hp.
  all: match goal with H : lift _ _ = _ |- _ => apply lift_run in H as [_ H] end.
  all: match goal with H : InterpretSubmission ?E ?e ?a ?s ?m ?t = _ |- _ =>
    pose proof (submission_moves E e a s m t) as Hm; rewrite H in Hm end.
  all: by apply Hm.
Qed.

(** *** Observation *)

Lemma lockObservation_permitted id version next :
  permitted (lockObservationRecords id version next).
Proof. unfold lockObservationRecords, recovering. script. Qed.
#[local] Hint Resolve lockObservation_permitted : scripted.

Lemma observeUnit_permitted message : permitted (observeUnit message).
Proof. unfold observeUnit. script. Qed.

Lemma recordObservation_permitted at_ message loaded observation :
  settles → permitted (recordObservation at_ message loaded observation).
Proof.
  intros Hsettles.
  unfold recordObservation, recordPendingOutputs, uncorrelated, applyObservationOutcome. script.
  all: apply move_permitted; intros Hp; exfalso; revert Hp.
  all: match goal with H : lift (InterpretObservation ?E ?e ?a ?o ?t) _ = _ |- _ =>
    apply lift_run in H as [_ H]; pose proof (observation_moves E e a o t) as Hm;
    rewrite H in Hm end.
  all: by apply Hm.
Qed.

Lemma passiveUnit_permitted at_ message : permitted (passiveUnit at_ message).
Proof. unfold passiveUnit. script. Qed.

Lemma recordPassive_permitted at_ token message loaded observation :
  settles → permitted (recordPassive at_ token message loaded observation).
Proof. intros Hsettles. unfold recordPassive, driftEvent. script. Qed.
End worker_units.

#[export] Hint Resolve requireLease_permitted complete_permitted waited_permitted
  terminal_permitted Drive_permitted Dispatch_permitted Wake_permitted dispatched_permitted
  lockObservation_permitted deferOutputs_permitted : scripted.
#[export] Hint Extern 1 (scripted _ (enqueue _ _)) =>
  match goal with H : scheduleObserve ?e ?d = (?x, ?m) |- scripted ?may (enqueue ?at_ ?m) =>
    change (scripted may (enqueue at_ (x, m).2)); rewrite <- H; apply observe_permitted end
  : scripted.
#[export] Hint Extern 2 (scripted _ (tx_SaveSubmissionAttempt _ _)) =>
  apply move_permitted; done : scripted.
