(* ===== verification/Observer.v ===== *)
(** * Scheduling passive observations

    Models [src/internal/worker/observer.go] and the scheduling calls of
    [executor.go] and [application.go]: the periodic pass over the inventory,
    which enqueues an observation of every resource that is Ready, and the
    calls that enqueue one observation of a resource or of an operation. *)

From S2P Require Import Prelude Operation Values Resource Status Provisioning Records.
From S2P Require Import Engine Submission Outputs Text Work Outbox Store History Rights Admission.
From S2P Require Import Inventory Idempotency Handlers Worker WorkerRights.
Open Scope string_scope.
Open Scope go_scope.

Definition observerLimit : Z := 100.

(** The query of a pass: everything that is not deleted. *)
Definition observerQuery (sequence : uint64) : ResourceListQuery :=
  {| lq_AllowedOwners := []; lq_Unrestricted := true; lq_OwnerFilter := None;
     lq_TypeName := ""; lq_TypeVersion := ""; lq_StateFilter := None;
     lq_IncludeDeleted := false; lq_AfterSequence := sequence; lq_Limit := observerLimit |}.

Section observer.
Context {order : MapOrder} {worker : Composition}.

(** The transaction per resource: whatever fails in it is ignored. *)
Definition observeItemUnit (id : ResourceID) (m : Moment) : tx unit :=
  loaded ← attempted (tx_LookupResource id);
  match loaded with
  | inl loaded =>
      _ ← attempted (enqueue m (PassiveObserveMessage id 0 (rr_Version loaded)));
      mret tt
  | inr _ => mret tt
  end.

(** The items of a page, one transaction each. *)
Fixpoint observeItems (items : list ResourceInventoryItem) (k : job) : job :=
  match items with
  | [] => k
  | item :: rest =>
      if is_State (ii_Status item) =? ResourceStateReady then
        within (observeItemUnit (ii_ID item)) (λ _, observeItems rest k)
          (λ _, observeItems rest k)
      else observeItems rest k
  end.

(** [schedulePassiveObservations]: page after page; an error ends the pass. *)
Fixpoint observePages (pages : nat) (sequence : uint64) : job :=
  match pages with
  | O => Ends Unfinished
  | S n =>
      within (λ _, tx_ListResources (observerQuery sequence)) (λ _, Ends Processed) (λ page,
      observeItems (ip_Items page)
        (if ip_NextSequence page =? 0%N then Ends Processed
         else observePages n (ip_NextSequence page)))
  end.

Definition schedulePassiveObservations (pages : nat) : job := observePages pages 0.

(** [Worker.SchedulePassiveObservation]. *)
Definition SchedulePassiveObservation (resourceID : ResourceID)
    (sequence expectedVersion : uint64) : job :=
  within (λ m, enqueue m (PassiveObserveMessage resourceID sequence expectedVersion)) plain
    (λ _, Ends Processed).

(** *** The calls of the service *)

(** [Service.schedulePassiveObservation]: what [ObserveResource] does. *)
Definition schedulePassiveUnit (id : ResourceID) (m : Moment) : tx ResourceRecord :=
  record ← reported ErrResourceNotFound (tx_GetResource id);
  enqueue m (PassiveObserveMessage id (rr_Version record) (rr_Version record)) ≫= λ _,
  mret record.

Definition observable (execution : ProvisioningExecutionRecord) : bool :=
  (pe_State execution =? AttemptUnknown) || (pe_State execution =? AttemptAccepted) ||
  ((pe_State execution =? AttemptSucceeded) &&
   (pe_OutputResolution execution =? OutputResolutionPending)).

(** [Service.scheduleOperationObservation]: what [ObserveOperation] and
    [RecoverOperation] do. *)
Definition scheduleOperationUnit (operationID : OperationID) (m : Moment)
    : tx (ResourceRecord * OperationRecord * ProvisioningExecutionRecord) :=
  preflight ← reported ErrOperationNotFound (tx_LookupOperation operationID);
  resource ← reported ErrResourceNotFound
               (tx_GetResource (op_resourceID (opr_Operation preflight)));
  operation ← reported ErrOperationNotFound (tx_GetOperation operationID);
  execution ← tx_GetExecution operationID;
  if IsTerminal (opr_Operation operation) then mret (resource, operation, execution) else
  guard_tx negb (observable execution)
    with Wrapf ErrInvalidApplicationCall "%w: execution is not observable from state %s"
           [ArgS (pe_State execution)] ;;
  let '(execution, message) := scheduleObserve execution 0 in
  tx_SaveExecution execution (pe_Version execution) ≫= λ _,
  enqueue m message ≫= λ _,
  mret (resource, operation, execution <| pe_Version := u64_incr (pe_Version execution) |>).

(** The calls that schedule an observation. *)
Inductive scheduling :=
  | PeriodicPass (pages : nat)
  | WorkerSchedules (resourceID : ResourceID) (sequence expectedVersion : uint64)
  | ObserveResource (id : ResourceID)
  | ObserveOperation (id : OperationID).

Definition schedulingCall (c : scheduling) : job :=
  match c with
  | PeriodicPass pages => schedulePassiveObservations pages
  | WorkerSchedules resourceID sequence expectedVersion =>
      SchedulePassiveObservation resourceID sequence expectedVersion
  | ObserveResource id => within (schedulePassiveUnit id) plain (λ _, Ends Processed)
  | ObserveOperation id => within (scheduleOperationUnit id) plain (λ _, Ends Processed)
  end.
End observer.

(** ** What the calls may change *)

Section scheduling.
Context {order : MapOrder} {worker : Composition}.

Lemma passive_permitted give_back settles m id sequence version :
  scripted (worker_rights give_back settles) (enqueue m (PassiveObserveMessage id sequence version)).
Proof. apply sc_Enqueue. by apply (message_fresh (PassiveObserve _ _ _)). Qed.

#[local] Hint Resolve passive_permitted : scripted.

Lemma observeItem_permitted give_back settles id m :
  scripted (worker_rights give_back settles) (observeItemUnit id m).
Proof. unfold observeItemUnit, attempted. script. Qed.

Lemma listing_permitted give_back settles query :
  scripted (worker_rights give_back settles) (tx_ListResources query).
Proof. apply sc_read. Qed.

Lemma schedulePassive_permitted give_back settles id m :
  scripted (worker_rights give_back settles) (schedulePassiveUnit id m).
Proof. unfold schedulePassiveUnit, reported_as. script. Qed.

Lemma scheduleOperation_permitted give_back settles id m :
  scripted (worker_rights give_back settles) (scheduleOperationUnit id m).
Proof. unfold scheduleOperationUnit, reported_as. script. Qed.

(** ** The periodic pass observes a resource once *)

Lemma enqueueConflict_keyed message iteration n :
  n ∈ iteration → om_DedupeKey n = om_DedupeKey message →
  ∃ r, enqueueConflict message iteration = Some r.
Proof.
  intros Hn Hk. destruct (enqueueConflict message iteration) eqn:H; [by eexists|].
  by destruct (enqueueConflict_None _ _ H _ Hn) as [[] _].
Qed.

Definition passKey (id : ResourceID) : string := workKey "passive-observe" id 0.

(** A message of a pass that is there, in whatever state, is not enqueued again. *)
Lemma enqueue_pass_again m id version s :
  integrity s → is_Some (messages s !! passKey id) →
  (enqueue m (PassiveObserveMessage id 0 version) s).1 = s.
Proof.
  intros Hi [n Hn]. destruct (iv_keyed _ (reachable_inv _ (in_messages _ Hi)) _ _ Hn) as [_ Hk].
  destruct (enqueueConflict_keyed (PassiveObserveMessage id 0 version) (ranged (messages s)).*2 n)
    as [r Hr]; [|done|].
  { rewrite ranged_values. apply list_elem_of_fmap. exists (passKey id, n). split; [done|].
    by apply elem_of_map_to_list. }
  unfold enqueue, tx_Enqueue, on_messages, writing, Enqueue. rewrite Hr.
  destruct r; cbn; by destruct s.
Qed.

(** Enqueueing a message of a pass adds it, or does nothing. *)
Lemma enqueue_pass m id version s :
  let run := enqueue m (PassiveObserveMessage id 0 version) s in
  run.1 = s ∨
  run.1 = s <| messages := <[passKey id := stamped (PassiveObserveMessage id 0 version) (m_now m)
                                             (m_now' m)]> (messages s) |>.
Proof.
  unfold enqueue, tx_Enqueue, on_messages, writing, Enqueue.
  destruct (enqueueConflict _ _) as [[]|]; cbn; [by left|left; by destruct s|by right].
Qed.

Lemma observeItem_run id m s :
  (observeItemUnit id m s).1 =
  match resources s !! id with
  | Some r => (enqueue m (PassiveObserveMessage id 0 (rr_Version r)) s).1
  | None => s
  end.
Proof.
  unfold observeItemUnit, attempted, tx_LookupResource, tx_GetResource, handled, reading, mbind,
    tx_bind. destruct (resources s !! id) as [r|]; cbn; [|done].
  by destruct (enqueue _ _ s) as [s' []].
Qed.

(** C17: The periodic pass never observes a resource twice.  The transaction it
    runs for a resource either changes nothing or enqueues the one message that
    is named after the resource, for the version it has; and once it has,
    however the store goes on, it never changes anything again. *)
Theorem periodic_observation_once id m m' s s' :
  integrity s → let s1 := (observeItemUnit id m s).1 in s1 ≠ s →
  (∃ r, resources s !! id = Some r ∧ messages s !! passKey id = None ∧
     s1 = s <| messages := <[passKey id := stamped (PassiveObserveMessage id 0 (rr_Version r))
                                             (m_now m) (m_now' m)]> (messages s) |>) ∧
  (integrity s' → history s1 s' → (observeItemUnit id m' s').1 = s').
Proof.
  intros Hi s1. unfold s1. rewrite !observeItem_run. destruct (resources s !! id) as [r|] eqn:Hr;
    [|done]. intros Hne.
  destruct (enqueue_pass m id (rr_Version r) s) as [?|Hs1]; [done|]. split.
  - exists r. split_and!; [done| |done]. destruct (messages s !! passKey id) eqn:Hk; [|done].
    destruct Hne. by apply enqueue_pass_again.
  - intros Hi' Hh. destruct (resources s' !! id) as [r'|]; [|done].
    apply enqueue_pass_again; [done|]. rewrite Hs1 in Hh.
    destruct (hs_messages _ _ Hh (passKey id) (stamped (PassiveObserveMessage id 0 (rr_Version r))
      (m_now m) (m_now' m))) as (n & Hn & _); [|by exists n].
    cbn. by rewrite lookup_insert_eq.
Qed.
End scheduling.

(** ** A concrete pass *)

#[local] Existing Instances Idempotency.sample_order Idempotency.sample_ports.

Definition sample_moment : Moment := {| m_now := 40%Z; m_now' := 41%Z; m_wall := 42%Z |}.

Definition sample_observed : Store := (observeItemUnit "r-1" sample_moment sample_store).1.

Lemma sample_served_integrity : integrity sample_store.
Proof. apply (served_integrity _ (sv_request sample_ports sample_create NewStore sv_new)). Qed.

Lemma sample_observed_integrity : integrity sample_observed.
Proof.
  pose proof (scripted_respects _ _ (observeItem_permitted True True "r-1" sample_moment)
    sample_store sample_served_integrity) as [Hi _]. exact Hi.
Qed.

Lemma periodic_observation_once_witness :
  sample_observed ≠ sample_store ∧
  (observeItemUnit "r-1" sample_moment sample_observed).1 = sample_observed.
Proof.
  assert (sample_observed ≠ sample_store) as Hne.
  { intros H. apply (f_equal messages) in H. apply (f_equal (lookup (passKey "r-1"))) in H.
    vm_compute in H. discriminate H. }
  split; [exact Hne|].
  refine (proj2 (periodic_observation_once "r-1" sample_moment sample_moment sample_store
    sample_observed sample_served_integrity Hne) sample_observed_integrity _).
  exact (reflexivity _).
Defined.
