(* ===== verification/System.v ===== *)
(** * The system

    Requests, operators and any number of workers over one store.  A [System]
    holds the store, the calls that are under way, and a log of the submissions
    made; a step serves a request or an operator's mutation, starts a call of
    [RunOnce] or one that schedules observations, runs one transaction of a
    call, lets a provider answer, or loses a call to a crash.
    Steps interleave in any way.  The submissions of an attempt are bounded
    whatever happens ([submission_bounded]). *)

From S2P Require Import Prelude Operation Values Resource Status Provisioning Records.
From S2P Require Import Engine Submission Outputs Contracts References Dependencies Policy.
From S2P Require Import Text Work Outbox Store History Rights Evidence Admission Idempotency.
From S2P Require Import Operator Handlers Worker WorkerRights Observer.
Open Scope string_scope.
Open Scope go_scope.
Open Scope list_scope.

(** ** Systems *)

Record System := {
  sys_store : Store;
  sys_jobs : list job;
  sys_submitted : list string;
  sys_returned : list string }.

#[export] Instance System_fields : Fields System := λ r,
  {| sys_store := sys_store r; sys_jobs := sys_jobs r;
     sys_submitted := sys_submitted r; sys_returned := sys_returned r |}.

Definition attempt_of (request : ExecutionRequest) : string :=
  attemptKey (Provisioning.er_OperationID request) (Provisioning.er_AttemptNumber request).

Definition pending (a : SubmissionAttemptRecord) : bool :=
  sa_State a =? SubmissionAttemptPending.

(** The attempts a transaction makes pending again. *)
Definition given_back (s s' : Store) : list string :=
  (filter (λ kv, pending kv.2 && non_nil (attempts s !! kv.1) (λ a, negb (pending a)) = true)
     (map_to_list (attempts s'))).*1.

(** A transaction has taken the system from its store to [s'], a call having
    gone on. *)
Definition moves_on (sys : System) (s' : Store) (jobs : list job) : System :=
  {| sys_store := s'; sys_jobs := jobs; sys_submitted := sys_submitted sys;
     sys_returned := given_back (sys_store sys) s' ++ sys_returned sys |}.

Section system.
Context {order : MapOrder} {worker : Composition}.
(** What a provider may answer to a submission. *)
Context (admissible : ExecutionRequest → CallReply Submission → Prop).

Inductive sys_step (sys : System) : System → Prop :=
  | ss_request (ports : Ports) r :
      sys_step sys (moves_on sys (serve r (sys_store sys)).1 (sys_jobs sys))
  | ss_operate (ports : Ports) (operators : OperatorPorts) cmd target :
      sys_step sys (moves_on sys (operate cmd target (sys_store sys)).1 (sys_jobs sys))
  | ss_start leaseToken driftToken pages :
      sys_step sys (sys <| sys_jobs := RunOnce leaseToken driftToken pages :: sys_jobs sys |>)
  | ss_schedule c :
      sys_step sys (sys <| sys_jobs := schedulingCall c :: sys_jobs sys |>)
  | ss_transact {B} (unit_ : Moment → tx B) next before after m s' r :
      sys_jobs sys = before ++ Transact unit_ next :: after →
      Within (unit_ m) (sys_store sys) = (s', r) →
      sys_step sys (moves_on sys s' (before ++ next r :: after))
  | ss_submit provider request fence next before after reply :
      sys_jobs sys = before ++ Submitting provider request fence next :: after →
      admissible request reply →
      sys_step sys (sys <| sys_jobs := before ++ next reply :: after |>
                        <| sys_submitted := attempt_of request :: sys_submitted sys |>)
  | ss_observe provider request fence next before after reply :
      sys_jobs sys = before ++ Observing provider request fence next :: after →
      sys_step sys (sys <| sys_jobs := before ++ next reply :: after |>)
  | ss_stop j before after :
      sys_jobs sys = before ++ j :: after →
      sys_step sys (sys <| sys_jobs := before ++ after |>).

Definition NewSystem : System :=
  {| sys_store := NewStore; sys_jobs := []; sys_submitted := []; sys_returned := [] |}.

Definition sys_reachable (sys : System) : Prop := rtc sys_step NewSystem sys.
End system.

Definition occurrences (k : string) (l : list string) : nat := length (filter (λ x, x = k) l).
#[global] Arguments occurrences : simpl never.

(** ** Calls that take an attempt before they submit it *)

Definition acquired (k : string) (s s' : Store) : Prop :=
  (∃ a, attempts s !! k = Some a ∧ pending a = true) ∧
  ∃ a, attempts s' !! k = Some a ∧ pending a = false.

Section safe.
Context {order : MapOrder} (give_back : Prop).
Context (admissible : ExecutionRequest → CallReply Submission → Prop).

(** The call submits only the attempt it holds, which it has taken by a
    transaction that found it pending. *)
Fixpoint safe {V} (j : flow V) (held : option string) : Prop :=
  match j with
  | Ends _ => True
  | Transact unit_ next =>
      (∀ m, scripted (worker_rights give_back True) (unit_ m)) ∧
      ∀ m s, integrity s → ∃ held',
        (held' = held ∨ ∃ k, held' = Some k ∧ acquired k s (Within (unit_ m) s).1) ∧
        safe (next (Within (unit_ m) s).2) held'
  | Submitting _ request _ next =>
      held = Some (attempt_of request) ∧
      ∀ reply, admissible request reply → safe (next reply) None
  | Observing _ _ _ next => ∀ reply, safe (next reply) held
  end.

Lemma safe_holding {V} (j : flow V) k : safe j None → safe j (Some k).
Proof.
  induction j as [v|B unit_ next IH|p request f next IH|p request f next IH]; cbn.
  - done.
  - intros [Hs H]. split; [done|]. intros m s Hi.
    destruct (H m s Hi) as (held & [->|(k' & -> & Hk)] & Hn).
    + exists (Some k). split; [by left|]. by apply IH.
    + exists (Some k'). split; [right; by exists k'|done].
  - by intros [? _].
  - intros H reply. by apply IH.
Qed.

Lemma safe_andThen {V W} (j : flow V) (k : V → flow W) held :
  safe j held → (∀ v, safe (k v) None) → safe (andThen j k) held.
Proof.
  intros Hj Hk. revert held Hj.
  induction j as [v|B unit_ next IH|p request f next IH|p request f next IH];
    intros held; cbn.
  - intros _. destruct held; [|done]. by apply safe_holding.
  - intros [Hs H]. split; [done|]. intros m s Hi. destruct (H m s Hi) as (held' & Hh & Hn).
    exists held'. split; [done|]. by apply IH.
  - intros [-> H]. split; [done|]. intros reply Hr. by apply IH, H.
  - intros H reply. by apply IH.
Qed.

(** A transaction after which the call holds what it held. *)
Lemma safe_within {B} (unit_ : Moment → tx B) fail k held :
  (∀ m, scripted (worker_rights give_back True) (unit_ m)) →
  (∀ e, safe (fail e) held) → (∀ x, safe (k x) held) → safe (within unit_ fail k) held.
Proof.
  intros Hs Hf Hk. split; [done|]. intros m s _. exists held. split; [by left|].
  by destruct (Within _ _).2.
Qed.
End safe.

(** ** A call of [RunOnce] is safe *)

(** The reply claims that nothing was submitted. *)
Definition claims_not_attempted (reply : CallReply Submission) : bool :=
  match cr_answer reply with
  | Answered _ (Some e) => non_nil (ce_notAttempted e) (λ _, true)
  | _ => false
  end.

Section run_once.
Context {order : MapOrder} {worker : Composition} (give_back : Prop).
Context (admissible : ExecutionRequest → CallReply Submission → Prop).
Hypothesis redelivery : ∀ ref, canRedeliver ref = Ok true → give_back.
Hypothesis claims : ∀ request reply,
  admissible request reply → claims_not_attempted reply = true → give_back.
Abbreviation safe := (safe give_back admissible).

Lemma SaveSubmissionAttempt_run record expected s s' u :
  tx_SaveSubmissionAttempt record expected s = (s', Ok u) →
  attempts s' =
    <[attemptKey (sa_OperationID record) (sa_AttemptNumber record) := record]> (attempts s).
Proof.
  unfold tx_SaveSubmissionAttempt. intros H%writing_run. cbv zeta in H. case_match; [|done].
  by ok_inv.
Qed.

Lemma SaveExecution_run record version s s' u :
  tx_SaveExecution record version s = (s', Ok u) → attempts s' = attempts s.
Proof.
  unfold tx_SaveExecution. intros H%writing_run. cbv zeta in H. case_match; [|done]. by ok_inv.
Qed.

(** The transaction that takes an attempt: it was pending, and is not any more. *)
Lemma acquire_takes m message mapping s s' execution :
  integrity s → acquireUnit m message mapping s = (s', Ok execution) →
  acquired (attempt_of (executionRequest execution)) s s'.
Proof.
  intros Hi. unfold acquireUnit, dispatchable, requireLease, tx_GetOutbox, tx_GetExecution,
    tx_GetSubmissionAttempt. intros H. tx_inv.
  match goal with H : tx_RenewOutbox _ _ _ _ _ = _ |- _ =>
    apply on_messages_run in H as (? & _ & ->) end.
  match goal with H : tx_SaveSubmissionAttempt _ _ _ = _ |- _ =>
    apply SaveSubmissionAttempt_run in H; rename H into Ha end.
  match goal with H : tx_SaveExecution _ _ _ = _ |- _ =>
    apply SaveExecution_run in H; rename H into He end.
  match goal with H : from_option Ok _ (executions s !! _) = Ok ?e |- _ =>
    apply found_run in H; destruct (in_executions _ Hi _ _ H) as [Hid _];
    assert (pe_CurrentAttempt e = om_AttemptNumber message) as Hn by (bool_facts; tauto) end.
  match goal with H : from_option Ok _ (attempts s !! _) = Ok ?a |- _ =>
    apply found_run in H; pose proof (in_attempts _ Hi _ _ H) as Hk; rename H into Hfound;
    assert (sa_State a = SubmissionAttemptPending) as Hp by (bool_facts; tauto) end.
  match goal with |- acquired (attempt_of (executionRequest ?e)) _ _ =>
    assert (attempt_of (executionRequest e) =
      attemptKey (om_OperationID message) (om_AttemptNumber message)) as -> end.
  { unfold attempt_of. cbn. case_match; cbn; by rewrite Hid, Hn. }
  split; [by eexists; split; [done|]; unfold pending; rewrite Hp|].
  rewrite He, Ha. cbn. rewrite <- Hk. eexists. by rewrite lookup_insert_eq.
Qed.

(** *** The flows *)

Lemma safe_heartbeat message n interrupted next held :
  (∀ e, safe (next e) held) → safe (heartbeat message n interrupted next) held.
Proof.
  intros Hn. induction n as [|n IH]; cbn [heartbeat].
  - case_match; [done|]. apply safe_within; [|done..]. intros m. apply sc_RenewOutbox.
  - apply safe_within; [|done..]. intros m. apply sc_RenewOutbox.
Qed.

Lemma safe_resolved ref k held : (∀ p, safe (k p) held) → safe (resolved ref k) held.
Proof. intros Hk. unfold resolved. by repeat case_match. Qed.

Lemma safe_submitted message version reply heartbeatErr :
  (claims_not_attempted reply = true → give_back) →
  safe (submitted message version (cr_answer reply) heartbeatErr) None.
Proof.
  intros Hc. unfold claims_not_attempted in Hc. destruct reply as [result n i]. cbn in *.
  assert (∀ sub err, safe (recordSubmissionJob message version sub err) None) as Hrecord.
  { intros. apply safe_within; [intros; by apply recordDispatch_permitted| |done].
    intros e. apply safe_within; [intros; apply markUnknown_permitted|done..]. }
  unfold submitted. repeat case_match; try done; try apply Hrecord.
  apply safe_within; [|done..]. intros m. apply notAttempted_permitted. auto.
Qed.

Lemma safe_dispatch message : safe (dispatch message) None.
Proof.
  unfold dispatch, prepareDispatch. apply safe_within; [intros; apply prepare_permitted|done|].
  intros loaded. apply safe_resolved. intros provider. split.
  { intros m. apply acquire_permitted. }
  intros m s Hi. destruct (Within _ s) as [s' r] eqn:Hrun. cbn [fst snd].
  destruct r as [prepared| |]; [|by exists None; split; [left|]..].
  exists (Some (attempt_of (executionRequest prepared))). split.
  { right. eexists. split; [done|]. apply (proj1 (Within_run _ _ _ _)) in Hrun.
    by eapply acquire_takes. }
  apply safe_within; [intros; apply sc_RenewOutbox|done|]. intros _. split; [done|].
  intros reply Hr. apply safe_heartbeat. intros e. apply safe_submitted. by eapply claims.
Qed.

Lemma safe_observing message provider request k held :
  (∀ observation, safe (k observation) held) →
  safe (observeWithHeartbeat message provider request k) held.
Proof.
  intros Hk. apply safe_within; [intros; apply sc_RenewOutbox|done|]. intros _ reply.
  apply safe_heartbeat. intros e. by repeat case_match.
Qed.

Lemma safe_observe message : safe (observe message) None.
Proof.
  apply safe_within; [intros; apply observeUnit_permitted|done|]. intros [loaded request].
  apply safe_resolved. intros provider. apply safe_observing. intros observation.
  do 2 (case_match; [done|]).
  apply safe_within; [intros; by apply recordObservation_permitted|done..].
Qed.

Lemma safe_passiveObserve token message : safe (passiveObserve token message) None.
Proof.
  apply safe_within; [intros; apply passiveUnit_permitted|done|]. intros [loaded|]; [|done].
  apply safe_resolved. intros provider. apply safe_observing. intros observation.
  apply safe_within; [intros; by apply recordPassive_permitted|done..].
Qed.

Lemma safe_wakeFrom pages message cursor : safe (wakeFrom pages message cursor) None.
Proof.
  revert cursor. induction pages as [|n IH]; intros cursor; [done|].
  apply safe_within; [intros; apply wakePage_permitted|done|]. intros next.
  case_match; [|apply IH].
  apply safe_within; [intros; apply wakeFinished_permitted|done..].
Qed.

Lemma safe_handle token pages message : safe (handle token pages message) None.
Proof.
  unfold handle. repeat case_match; try done.
  - apply safe_within; [intros; by apply driveUnit_permitted|done..].
  - apply safe_dispatch.
  - apply safe_observe.
  - apply safe_passiveObserve.
  - apply safe_wakeFrom.
Qed.

Lemma safe_settledBy unit_ e format :
  (∀ m, scripted (worker_rights give_back True) (unit_ m)) → safe (settledBy unit_ e format) None.
Proof. intros Hu. apply safe_within; [done|intros; by case_match|done]. Qed.

Lemma safe_settleFailure message v : safe (settleFailure message v) None.
Proof.
  destruct v as [| |[e| | |]| |]; try exact I. cbn [settleFailure].
  case_match; apply safe_settledBy; intros m;
    [apply sc_RetryOutbox|apply sc_CompleteOutbox|apply sc_DeadOutbox].
Qed.

Lemma safe_RunOnce leaseToken driftToken pages :
  safe (RunOnce leaseToken driftToken pages) None.
Proof.
  apply safe_within; [intros; by apply recoverExpired_permitted|done|]. intros [|]; [done|].
  apply safe_within; [intros; constructor|done|]. intros [message|]; [|done].
  apply safe_andThen; [apply safe_handle|apply safe_settleFailure].
Qed.

(** *** Scheduling *)

Lemma safe_observeItems items k held : safe k held → safe (observeItems items k) held.
Proof.
  intros Hk. induction items as [|item items IH]; [done|]. cbn [observeItems].
  case_match; [|done]. apply safe_within; [intros; apply observeItem_permitted|done..].
Qed.

Lemma safe_observePages pages sequence : safe (observePages pages sequence) None.
Proof.
  revert sequence. induction pages as [|n IH]; intros sequence; [done|].
  apply safe_within; [intros; apply listing_permitted|done|]. intros page.
  apply safe_observeItems. by case_match.
Qed.

Lemma safe_scheduled c : safe (schedulingCall c) None.
Proof.
  destruct c; [apply safe_observePages|..]; (apply safe_within; [intros m|done..]).
  - apply passive_permitted.
  - apply schedulePassive_permitted.
  - apply scheduleOperation_permitted.
Qed.
End run_once.

(** ** Counting submissions *)

Section counting.
Context {order : MapOrder}.

Definition held_by (k : string) (held : option string) : nat :=
  if decide (held = Some k) then 1%nat else 0%nat.

Lemma occurrences_app k l l' : occurrences k (l ++ l') = (occurrences k l + occurrences k l')%nat.
Proof. unfold occurrences. by rewrite filter_app, length_app. Qed.

Lemma occurrences_cons k x l : occurrences k (x :: l) = (held_by k (Some x) + occurrences k l)%nat.
Proof.
  unfold occurrences, held_by. rewrite filter_cons. repeat case_decide; simplify_eq; cbn; lia.
Qed.

Lemma occurrences_in k l : k ∈ l → (1 ≤ occurrences k l)%nat.
Proof.
  intros Hk. unfold occurrences.
  assert (k ∈ filter (λ x, x = k) l) as Hf by (by apply list_elem_of_filter).
  destruct (filter _ l); [by apply elem_of_nil in Hf|cbn; lia].
Qed.

(** The submissions an attempt is still good for: one while it is pending, or
    not yet there. *)
Definition open_attempt (s : Store) (k : string) : nat :=
  match attempts s !! k with
  | Some a => if pending a then 1%nat else 0%nat
  | None => 1%nat
  end.

Definition held_in (k : string) (holds : list (option string)) : nat :=
  sum_list_with (held_by k) holds.

(** What a transaction does to an attempt; it only opens one by giving it back. *)
Lemma open_step s s' k :
  kept (λ _ _, True) (attempts s) (attempts s') →
  (open_attempt s' k ≤ open_attempt s k + occurrences k (given_back s s'))%nat.
Proof.
  intros Hkept. unfold open_attempt. destruct (attempts s !! k) as [a|] eqn:Ha.
  - destruct (Hkept _ _ Ha) as (a' & Ha' & _). rewrite Ha'.
    destruct (pending a') eqn:Hp'; [|lia]. destruct (pending a) eqn:Hp; [lia|].
    enough (1 ≤ occurrences k (given_back s s'))%nat by lia. apply occurrences_in.
    apply list_elem_of_fmap. exists (k, a'). split; [done|]. apply list_elem_of_filter.
    split; [|by apply elem_of_map_to_list]. cbn [fst snd]. rewrite Hp', Ha. cbn. by rewrite Hp.
  - repeat case_match; lia.
Qed.

Lemma acquired_step k s s' : acquired k s s' → open_attempt s k = 1%nat ∧ open_attempt s' k = 0%nat.
Proof.
  intros [(a & Ha & Hp) (a' & Ha' & Hp')]. unfold open_attempt.
  by rewrite Ha, Ha', Hp, Hp'.
Qed.
End counting.

Section bounded.
Context {order : MapOrder} {worker : Composition} (give_back : Prop).
Context (admissible : ExecutionRequest → CallReply Submission → Prop).
Hypothesis redelivery : ∀ ref, canRedeliver ref = Ok true → give_back.
Hypothesis claims : ∀ request reply,
  admissible request reply → claims_not_attempted reply = true → give_back.

(** Every call is safe with what it holds, and the submissions made, those
    about to be made and those an attempt is still good for add up. *)
Record accounted (sys : System) : Prop := {
  ac_store : served (sys_store sys);
  ac_jobs : ∃ holds, Forall2 (safe give_back admissible) (sys_jobs sys) holds ∧
    ∀ k, (occurrences k (sys_submitted sys) + held_in k holds + open_attempt (sys_store sys) k ≤
          1 + occurrences k (sys_returned sys))%nat;
  ac_returned : sys_returned sys ≠ [] → give_back }.

Lemma accounted_new : accounted NewSystem.
Proof.
  split; [constructor| |done]. exists []. split; [constructor|]. intros k.
  unfold open_attempt. cbn. by rewrite lookup_empty.
Qed.

(** Only a unit of work that is entitled to makes an attempt pending again. *)
Lemma returned_entitled {A} may (fn : tx A) s :
  scripted may fn → given_back s (Within fn s).1 ≠ [] →
  ∃ a expected, sa_State a = SubmissionAttemptPending ∧ may_move may a expected.
Proof.
  intros Hfn Hne. pose proof (scripted_attempts may fn Hfn s) as Hmoved.
  destruct (given_back s _) as [|k l] eqn:E; [done|].
  assert (k ∈ given_back s (Within fn s).1) as Hk by (rewrite E; left).
  apply list_elem_of_fmap in Hk as ([k' a'] & -> & [Hp Ha']%list_elem_of_filter).
  apply elem_of_map_to_list in Ha'. specialize (Hmoved k'). cbn in Hp.
  rewrite Ha' in Hmoved. apply andb_true_iff in Hp as [Hp' Hp].
  destruct (attempts s !! k') as [a|] eqn:Ha; [|done].
  apply bool_decide_eq_true in Hp'.
  apply rtc_inv_r in Hmoved as [<-|(b & _ & Hb)].
  - cbn in Hp. unfold pending in Hp. by rewrite Hp' in Hp.
  - by exists a', (sa_State b).
Qed.

Lemma held_in_app k l l' : held_in k (l ++ l') = (held_in k l + held_in k l')%nat.
Proof. apply sum_list_with_app. Qed.

(** Replace a call and what it holds. *)
Lemma replace_call before (j j' : job) after holds :
  Forall2 (safe give_back admissible) (before ++ j :: after) holds →
  ∃ held, safe give_back admissible j held ∧
    ∀ held', safe give_back admissible j' held' → ∃ holds',
      Forall2 (safe give_back admissible) (before ++ j' :: after) holds' ∧
      ∀ k, (held_in k holds' + held_by k held = held_in k holds + held_by k held')%nat.
Proof.
  intros (h1 & h2 & Hb & Ha & ->)%Forall2_app_inv_l.
  apply Forall2_cons_inv_l in Ha as (held & h3 & Hj & Ha & ->).
  exists held. split; [done|]. intros held' Hj'. exists (h1 ++ held' :: h3).
  split; [by apply Forall2_app, Forall2_cons|]. intros k. rewrite !held_in_app. cbn. lia.
Qed.


(** A transaction that changes no call. *)
Lemma moved_accounted sys s' :
  accounted sys → served s' → sound_step (sys_store sys) s' →
  (given_back (sys_store sys) s' ≠ [] → give_back) →
  accounted (moves_on sys s' (sys_jobs sys)).
Proof.
  intros [Hs (holds & Hsafe & Hsum) Hret] Hs' Hstep Hback. split; [done| |].
  - exists holds. split; [done|]. intros k. cbn. rewrite occurrences_app.
    destruct (Hstep (served_integrity _ Hs)) as [_ Hh].
    pose proof (open_step _ _ k (hs_attempts _ _ Hh)). specialize (Hsum k). lia.
  - cbn. destruct (given_back _ _); [done|]. intros _. by apply Hback.
Qed.

Lemma given_back_same s s' : attempts s' = attempts s → given_back s s' = [].
Proof.
  intros Hsame. apply elem_of_nil_inv. intros k. unfold given_back. rewrite Hsame.
  intros ([k' a] & _ & [Hp Ha']%list_elem_of_filter)%list_elem_of_fmap.
  apply elem_of_map_to_list in Ha'. cbn [fst snd] in Hp. rewrite Ha' in Hp. cbn in Hp.
  by destruct (pending a).
Qed.

Lemma request_accounted (ports : Ports) r sys :
  accounted sys → accounted (moves_on sys (serve r (sys_store sys)).1 (sys_jobs sys)).
Proof.
  intros Ha. apply moved_accounted; [done|apply sv_request, Ha|apply admit_respects|].
  destruct (admit_shape r) as [Href|Hw].
  - destruct (Href (sys_store sys)) as [-> _]. intros []. by apply given_back_same.
  - rewrite Hw. intros (_ & _ & _ & [])%(returned_entitled request_rights).
    apply request_unit_scripted.
Qed.

Lemma operator_accounted (ports : Ports) (operators : OperatorPorts) cmd target sys :
  accounted sys → accounted (moves_on sys (operate cmd target (sys_store sys)).1 (sys_jobs sys)).
Proof.
  intros Ha. pose proof (served_integrity _ (ac_store _ Ha)) as Hi.
  apply moved_accounted; [done| |apply operate_respects|].
  - destruct (operate_shape cmd target (sys_store sys)) as [[-> _]|(actionID & _ & ->)]; [apply Ha|].
    apply (sv_progress operator_rights); [apply Ha|apply operatorUnit_scripted|by intros []].
  - assert (attempts (operate cmd target (sys_store sys)).1 = attempts (sys_store sys)) as Hsame.
    { destruct (operate_rows cmd target _ Hi) as (_ & _ & ? & _). done. }
    intros []. by apply given_back_same.
Qed.

(** A transaction of a call. *)
Lemma transact_accounted {B} (unit_ : Moment → tx B) next before after m sys :
  accounted sys → sys_jobs sys = before ++ Transact unit_ next :: after →
  let run := Within (unit_ m) (sys_store sys) in
  accounted (moves_on sys run.1 (before ++ next run.2 :: after)).
Proof.
  intros [Hs (holds & Hsafe & Hsum) Hret] Hjobs. cbv zeta. rewrite Hjobs in Hsafe.
  destruct (replace_call _ _ (next (Within (unit_ m) (sys_store sys)).2) _ _ Hsafe)
    as (held & [Hscript Hnext] & Hreplace).
  pose proof (served_integrity _ Hs) as Hi.
  destruct (Hnext m _ Hi) as (held' & Hheld & (holds' & Hsafe' & Hcount)%Hreplace).
  split; [exact (sv_progress _ _ _ Hs (Hscript m) (λ H, H))|exists holds'; split; [done|]|].
  - intros k. specialize (Hsum k). specialize (Hcount k). cbn. rewrite occurrences_app.
    destruct (Within_respects _ _ (Hscript m) _ Hi) as [_ Hh].
    pose proof (open_step _ _ k (hs_attempts _ _ Hh)).
    destruct Hheld as [->|(k' & -> & Hk)]; [lia|]. unfold held_by in Hcount.
    destruct (decide (Some k' = Some k)) as [[= ->]|]; [|lia].
    apply acquired_step in Hk as [? ?]. lia.
  - cbn. destruct (given_back _ _) eqn:Hback; [done|]. intros _.
    destruct (returned_entitled _ _ _ (Hscript m) ltac:(by rewrite Hback)) as (a & expected & Hp & Hmay).
    by apply Hmay.
Qed.

Lemma step_accounted sys sys' :
  sys_step admissible sys sys' → accounted sys → accounted sys'.
Proof.
  intros Hstep Ha. pose proof Ha as [Hs (holds & Hsafe & Hsum) Hret]. destruct Hstep as
    [ports r|ports operators cmd target|leaseToken driftToken pages|c|B unit_ next before after m s' r Hjobs Hrun
    |p request f next before after reply Hjobs Hadm|p request f next before after reply Hjobs
    |j before after Hjobs].
  - by apply request_accounted.
  - by apply operator_accounted.
  - split; [done| |done]. exists (None :: holds). split.
    + constructor; [by apply safe_RunOnce|done].
    + intros k. apply Hsum.
  - split; [done| |done]. exists (None :: holds). split.
    + constructor; [by apply safe_scheduled|done].
    + intros k. apply Hsum.
  - replace s' with (Within (unit_ m) (sys_store sys)).1 by (by rewrite Hrun).
    replace r with (Within (unit_ m) (sys_store sys)).2 by (by rewrite Hrun).
    by apply transact_accounted.
  - rewrite Hjobs in Hsafe.
    destruct (replace_call _ _ (next reply) _ _ Hsafe) as (held & [-> Hnext] & Hreplace).
    destruct (Hreplace None (Hnext _ Hadm)) as (holds' & Hsafe' & Hcount).
    split; [done|exists holds'; split; [done|]|done]. intros k.
    specialize (Hsum k). specialize (Hcount k). cbn. rewrite occurrences_cons.
    change (held_by k None) with 0%nat in Hcount. lia.
  - rewrite Hjobs in Hsafe.
    destruct (replace_call _ _ (next reply) _ _ Hsafe) as (held & Hnext & Hreplace).
    destruct (Hreplace held (Hnext reply)) as (holds' & Hsafe' & Hcount).
    split; [done|exists holds'; split; [done|]|done]. intros k.
    specialize (Hsum k). specialize (Hcount k). cbn. lia.
  - rewrite Hjobs in Hsafe.
    apply Forall2_app_inv_l in Hsafe as (h1 & h2 & Hb & Haf & ->).
    apply Forall2_cons_inv_l in Haf as (held & h3 & _ & Haf & ->).
    split; [done|exists (h1 ++ h3); split; [by apply Forall2_app|]|done]. intros k.
    specialize (Hsum k). cbn. rewrite !held_in_app in *.
    unfold held_in in *. cbn [sum_list_with] in *. lia.
Qed.

Lemma reachable_accounted sys : sys_reachable admissible sys → accounted sys.
Proof.
  intros H. unfold sys_reachable in H. revert H. generalize accounted_new.
  generalize NewSystem. induction 2; eauto using step_accounted.
Qed.
End bounded.

Section submissions.
Context {order : MapOrder} {worker : Composition}.
Context (admissible : ExecutionRequest → CallReply Submission → Prop).

(** C1: Submissions are bounded.  However requests, operators, workers and
    provider answers interleave, and wherever calls crash, [Submit] is called for an
    attempt at most once, and once more for each time a transaction gave the
    attempt back. *)
Theorem submission_bounded sys k :
  sys_reachable admissible sys →
  (occurrences k (sys_submitted sys) ≤ 1 + occurrences k (sys_returned sys))%nat.
Proof.
  intros H. apply (reachable_accounted True) in H as [_ (holds & _ & Hsum) _]; [|done..].
  specialize (Hsum k). lia.
Qed.

(** C4: Attempts are submitted at most once.  With providers that neither accept
    the redelivery of an expired dispatch nor claim that a submission was not
    attempted, no attempt is ever submitted twice. *)
Theorem submitted_at_most_once sys :
  (∀ ref, canRedeliver ref ≠ Ok true) →
  (∀ request reply, admissible request reply → claims_not_attempted reply = false) →
  sys_reachable admissible sys → NoDup (sys_submitted sys).
Proof.
  intros Hred Hclaims H. apply (reachable_accounted False) in H as [_ (holds & _ & Hsum) Hret].
  - assert (sys_returned sys = []) as Hnone by (destruct (sys_returned sys); naive_solver).
    rewrite Hnone in Hsum. assert (∀ k, (occurrences k (sys_submitted sys) ≤ 1)%nat) as Hone.
    { intros k. specialize (Hsum k). change (occurrences k []) with 0%nat in Hsum. lia. }
    clear -Hone. induction (sys_submitted sys) as [|k l IH]; [constructor|]. constructor.
    + intros Hk%occurrences_in. specialize (Hone k). rewrite occurrences_cons in Hone.
      unfold held_by in Hone. rewrite decide_True in Hone by done. lia.
    + apply IH. intros k'. specialize (Hone k'). rewrite occurrences_cons in Hone. lia.
  - intros ref Hr. by apply (Hred ref).
  - intros request reply Ha Hc. by rewrite (Hclaims _ _ Ha) in Hc.
Qed.

(** C6: The whole system keeps the promises of the store and of the service.  In
    every system that can be reached the tables refer to each other
    consistently, and no resource has two operations that have not ended. *)
Theorem system_consistent sys :
  sys_reachable admissible sys → integrity (sys_store sys) ∧ single_active (sys_store sys).
Proof.
  intros H. apply (reachable_accounted True) in H as [Hs _ _]; [|done..].
  split; [by apply served_integrity|by apply one_active_operation].
Qed.
End submissions.
