(* ===== verification/Scenario.v ===== *)
(** * A run of the whole system

    A scheduler that runs the calls of a [System] one after the other, with the
    proof that what it does are steps of the system, and a concrete composition
    in which it carries requests from their admission to their end. *)

From S2P Require Import Prelude Operation Values Resource Status Provisioning Records.
From S2P Require Import Engine Submission Outputs Contracts References Dependencies Policy.
From S2P Require Import Text Work Lifecycle Outbox Store History Rights Evidence Admission Idempotency.
From S2P Require Import Handlers Worker WorkerRights System.
Open Scope string_scope.
Open Scope go_scope.
Open Scope list_scope.

Section scheduler.
Context {order : MapOrder} {worker : Composition}.
Context (admissible : ExecutionRequest → CallReply Submission → Prop).
Context (submit : CallReply Submission) (observed : CallReply ExecutionObservation).
Hypothesis submit_admissible : ∀ request, admissible request submit.

(** Run the newest call to its end, at a moment; [fuel] bounds its turns. *)
Fixpoint run_call (fuel : nat) (m : Moment) (sys : System) : System :=
  match fuel, sys_jobs sys with
  | S n, Transact unit_ next :: rest =>
      let run := Within (unit_ m) (sys_store sys) in
      run_call n m (moves_on sys run.1 (next run.2 :: rest))
  | S n, Submitting _ request _ next :: rest =>
      run_call n m (sys <| sys_jobs := next submit :: rest |>
                        <| sys_submitted := attempt_of request :: sys_submitted sys |>)
  | S n, Observing _ _ _ next :: rest =>
      run_call n m (sys <| sys_jobs := next observed :: rest |>)
  | S n, Ends _ :: rest => sys <| sys_jobs := rest |>
  | _, _ => sys
  end.

Lemma run_call_steps fuel m sys : rtc (sys_step admissible) sys (run_call fuel m sys).
Proof.
  revert sys. induction fuel as [|n IH]; intros sys; [reflexivity|]. cbn [run_call].
  destruct (sys_jobs sys) as [|[v|B unit_ next|p request f next|p request f next] rest] eqn:E;
    [reflexivity|..].
  - apply rtc_once. by apply (ss_stop admissible sys (Ends v) []).
  - eapply rtc_l; [|apply IH].
    eapply (ss_transact admissible sys unit_ next [] rest m); [done|]. by destruct (Within _ _).
  - eapply rtc_l; [|apply IH].
    by apply (ss_submit admissible sys p request f next [] rest).
  - eapply rtc_l; [|apply IH].
    by apply (ss_observe admissible sys p request f next [] rest).
Qed.

(** A worker takes one work item. *)
Definition work (fuel : nat) (m : Moment) (sys : System) : System :=
  run_call fuel m (sys <| sys_jobs := RunOnce "lease" "drift" 10 :: sys_jobs sys |>).

Lemma work_steps fuel m sys : rtc (sys_step admissible) sys (work fuel m sys).
Proof. eapply rtc_l; [apply ss_start|apply run_call_steps]. Qed.

(** The service serves a request. *)
Definition request_served (ports : Ports) (r : request) (sys : System) : System :=
  moves_on sys (serve r (sys_store sys)).1 (sys_jobs sys).

(** Work off the outbox, a work item per moment. *)
Fixpoint work_off (fuel : nat) (moments : list Moment) (sys : System) : System :=
  match moments with
  | [] => sys
  | m :: rest => work_off fuel rest (work fuel m sys)
  end.

Lemma work_off_steps fuel moments sys :
  rtc (sys_step admissible) sys (work_off fuel moments sys).
Proof.
  revert sys. induction moments as [|m l IH]; intros sys; cbn [work_off]; [reflexivity|].
  refine (transitivity (R := rtc _) (work_steps fuel m sys) (IH (work fuel m sys))).
Qed.
End scheduler.

(** ** A concrete composition *)

#[local] Existing Instance Idempotency.sample_order.

Definition sample_provisioner : Provisioner :=
  {| pv_Fenced := false; pv_OutputMappingRef := None; pv_CanRedeliverExpiredDispatch := None |}.

#[local] Instance sample_worker : Composition :=
  {| w_Types := Some (λ _, Ok (Some sample_contract));
     w_Resolve _ := Ok (Some sample_provisioner);
     w_Lease := 30%Z; w_RetryBase := 5%Z; err_Error _ := "error";
     sha256_hex text := text; OutputContractDigest _ := Ok "contract";
     ValuesDigest _ := Ok "values" |}.

Definition sample_answer : CallReply Submission :=
  {| cr_answer := Answered {| sub_Observation :=
       {| eo_Correlation := RequestCorrelationFound;
          eo_Execution := Some {| ex_State := ExecutionStateSucceeded; ex_Handle := None;
                                  ex_Failure := None |};
          eo_Resource := {| Presence := ResourcePresencePresent;
                            Readiness := ResourceReadinessReady;
                            Drift := ResourceDriftInSync |};
          eo_ObservedAt := 200%Z; eo_Outputs := None |} |} None;
     cr_renewals := 1; cr_interrupted := None |}.

Definition sample_observed : CallReply ExecutionObservation :=
  {| cr_answer := PanickedWith "unused"; cr_renewals := 0; cr_interrupted := None |}.

Definition at_time (t : Z) : Moment := {| m_now := t; m_now' := t; m_wall := t |}.

Definition sample_run : System :=
  work_off sample_answer sample_observed 50 (map at_time [100; 101; 102; 200; 300; 400]%Z)
    (request_served sample_ports sample_create NewSystem).

(** The providers answer as above, and claim nothing. *)
Definition sample_admissible (_ : ExecutionRequest) (reply : CallReply Submission) : Prop :=
  reply = sample_answer.

Lemma sample_run_reachable : sys_reachable sample_admissible sample_run.
Proof.
  unfold sample_run. eapply rtc_l; [by apply (ss_request _ _ sample_ports sample_create)|].
  by apply work_off_steps.
Qed.

(** The resource is created and the operation has succeeded. *)
Example sample_run_succeeds :
  map (λ kv, (kv.1, op_state (opr_Operation kv.2)))
    (map_to_list (operations (sys_store sample_run))) = [("op-1", OperationStateSucceeded)].
Proof. vm_compute. reflexivity. Qed.

Lemma sample_run_submitted : sys_submitted sample_run = ["op-1:1"].
Proof. vm_compute. reflexivity. Qed.

Lemma submission_bounded_witness :
  sys_submitted sample_run = ["op-1:1"] ∧
  (occurrences "op-1:1" (sys_submitted sample_run) ≤
   1 + occurrences "op-1:1" (sys_returned sample_run))%nat.
Proof.
  exact (conj sample_run_submitted
    (submission_bounded sample_admissible sample_run "op-1:1" sample_run_reachable)).
Defined.

Lemma submitted_at_most_once_witness : NoDup (sys_submitted sample_run).
Proof.
  refine (submitted_at_most_once sample_admissible sample_run _ _ sample_run_reachable).
  - intros ref. discriminate.
  - intros request reply ->. reflexivity.
Defined.

Lemma system_consistent_witness :
  sys_submitted sample_run = ["op-1:1"] ∧ single_active (sys_store sample_run).
Proof.
  exact (conj sample_run_submitted
    (proj2 (system_consistent sample_admissible sample_run sample_run_reachable))).
Defined.
