(* ===== verification/Driving.v ===== *)
(** * Driving an operation

    What the transaction of a Drive message does ([Handlers.driveUnit]): it
    leaves stale work alone, waits or fails at the dependency gate, or advances
    the operation and schedules exactly what follows. *)

From S2P Require Import Prelude Operation Values Resource Status Provisioning Records.
From S2P Require Import Engine Submission Outputs Contracts References Dependencies Policy.
From S2P Require Import Text Work Outbox Lifecycle Store History Rights Evidence Admission Idempotency.
From S2P Require Import Handlers Worker WorkerRights System Scenario.
Open Scope string_scope.
Open Scope go_scope.

(** ** Runs of the repository operations *)

(** Nothing but the outbox has changed. *)
Definition only_messages (s s' : Store) : Prop := s' = s <| messages := messages s' |>.

Lemma on_messages_only f s s' u : on_messages f s = (s', Ok u) → only_messages s s'.
Proof. intros (o & _ & ->)%on_messages_run. done. Qed.

Lemma SaveOperation_run record version s s' u :
  tx_SaveOperation record version s = (s', Ok u) →
  let id := op_id (opr_Operation record) in
  ∃ current, operations s !! id = Some current ∧ opr_Version current = version ∧
    s' = s <| operations := <[id := record <| opr_Sequence := opr_Sequence current |>
                                      <| opr_Version := u64_incr version |>]> (operations s) |>.
Proof.
  unfold tx_SaveOperation. intros H%writing_run. cbv zeta in *.
  destruct (operations s !! _) as [current|]; [|done]. ok_inv.
  exists current. split_and!; [done| |done]. by bool_facts.
Qed.

Lemma SaveExecution_full record version s s' u :
  tx_SaveExecution record version s = (s', Ok u) →
  let id := pe_OperationID record in
  s' = s <| executions := <[id := record <| pe_Version := u64_incr version |>]> (executions s) |>.
Proof.
  unfold tx_SaveExecution. intros H%writing_run. cbv zeta in *.
  destruct (executions s !! _) as [current|]; [|done]. ok_inv.
  destruct (bool_decide_reflect (pe_OutputMappingRef current = "")) as [He|He]; cbn in *; [done|].
  bool_facts. f_equal. by destruct record; cbn in *; subst.
Qed.

Lemma CreateSubmissionAttempt_run record s s' u :
  tx_CreateSubmissionAttempt record s = (s', Ok u) →
  let key := attemptKey (sa_OperationID record) (sa_AttemptNumber record) in
  attempts s !! key = None ∧ s' = s <| attempts := <[key := record]> (attempts s) |>.
Proof.
  unfold tx_CreateSubmissionAttempt. intros H%writing_run. cbv zeta in *. ok_inv.
  by apply absent in H.
Qed.

Lemma SaveResource_full record version s s' u :
  tx_SaveResource record version s = (s', Ok u) →
  let id := res_id (rr_Resource record) in
  s' = s <| resources := <[id := record <| rr_Version := u64_incr version |>]> (resources s) |>.
Proof.
  unfold tx_SaveResource. intros H%writing_run. cbv zeta in *. case_match; [|done]. by ok_inv.
Qed.

Lemma Enqueue_run `{MapOrder} now now' message s s' u :
  outbox_reachable (messages s) → om_DedupeKey message = om_ID message →
  tx_Enqueue now now' message s = (s', Ok u) →
  only_messages s s' ∧ is_Some (messages s' !! om_ID message).
Proof.
  intros Hi Hk (o & Ho & ->)%on_messages_run. split; [done|].
  eapply Enqueue_stored; [by apply reachable_inv|done|done].
Qed.

Lemma DeleteWaits_run id s s' u :
  tx_DeleteDependencyWaitsForOperation id s = (s', Ok u) →
  s' = s <| dependencyWaits :=
         filter (λ kv, waitOf id kv.1 = false) (dependencyWaits s) |>.
Proof. unfold tx_DeleteDependencyWaitsForOperation. by intros [= <-]%writing_run. Qed.

Section driving.
Context {order : MapOrder} {worker : Composition}.

Lemma complete_run at_ message reason s s' u :
  complete at_ message reason s = (s', Ok u) →
  only_messages s s' ∧ (outbox_reachable (messages s) → outbox_reachable (messages s')) ∧
  dom (messages s') = dom (messages s).
Proof.
  intros H. split; [by eapply on_messages_only|]. apply on_messages_run in H as (o & Ho & ->).
  split; [intros Hs; eapply or_step; [done|]; by eapply os_complete|].
  unfold CompleteOutbox, updateWhen in Ho. destruct (messages s !! om_ID message) eqn:Hm; [|done].
  destruct (negb _); [done|]. injection Ho as <-. apply dom_insert_lookup_L. by exists o0.
Qed.

Lemma requireLease_run message s s' u : requireLease message s = (s', Ok u) → s' = s.
Proof. unfold requireLease, tx_GetOutbox. intros H. by tx_inv. Qed.

(** ** What the gate says *)

Definition gates (next : OperationPhase) (o : Operation) : bool :=
  (next =? OperationPhaseApplying) && (op_capability o <>? CapabilityDelete).

(** The gate of the store: evaluated for a first dispatch, and only binding when
    the resource is gated. *)
Definition gate_of (s : Store) (resource : ResourceRecord) (e : ProvisioningExecutionRecord)
    (next : OperationPhase) (o : Operation) (gate : option DependencyEvaluation) : Prop :=
  if gates next o && (pe_CurrentAttempt e =? 0%N) && negb (IsOutputRecovery e) then
    ∃ ev gated, @EvaluateDependencies (gate_reads s) resource = Ok (ev, gated) ∧
      gate = if (gated : bool) then Some ev else None
  else gate = None.

Lemma gateOf_run resource e next o s s' gate :
  gateOf resource e (gates next o) s = (s', Ok gate) → s' = s ∧ gate_of s resource e next o gate.
Proof.
  unfold gateOf, gate_of, tx_EvaluateDependencies. case_match; intros Hrun.
  - apply bind_run in Hrun as (t & [ev gated] & [-> Hev]%reading_run & Hrun).
    apply ret_run in Hrun as [-> ->]. eauto 10.
  - by apply ret_run in Hrun as [-> ->].
Qed.

(** ** What follows from the phase *)

Definition dispatching (next : OperationPhase) : bool :=
  (next =? OperationPhaseApplying) || (next =? OperationPhaseDestroying).

(** A drive of the next version, or the first dispatch of the execution, or the
    observation of an output recovery. *)
Record scheduled (id : OperationID) (version : uint64) (e : ProvisioningExecutionRecord)
    (next : OperationPhase) (s s' : Store) : Prop := {
  sd_drive : dispatching next = false →
    executions s' = executions s ∧ attempts s' = attempts s ∧
    is_Some (messages s' !! om_ID (DriveMessage id (u64_incr version)));
  sd_dispatch : dispatching next = true → IsOutputRecovery e = false →
    pe_CurrentAttempt e = 0%N ∧ attempts s !! attemptKey id 1 = None ∧
    attempts s' = <[attemptKey id 1 :=
      pendingAttempt id 1 (om_ID (DispatchMessage id 1 (u64_incr (pe_Version e))))]> (attempts s) ∧
    executions s' = <[pe_OperationID e := e <| pe_CurrentAttempt := 1%N |>
      <| pe_Version := u64_incr (pe_Version e) |>]> (executions s) ∧
    is_Some (messages s' !! om_ID (DispatchMessage id 1 (u64_incr (pe_Version e))));
  sd_observe : dispatching next = true → IsOutputRecovery e = true →
    next = OperationPhaseApplying ∧ pe_State e = AttemptSucceeded ∧
    pe_OutputResolution e = OutputResolutionPending ∧ attempts s' = attempts s ∧
    executions s' = <[pe_OperationID e := (scheduleObserve e 0).1
      <| pe_Version := u64_incr (pe_Version e) |>]> (executions s) ∧
    is_Some (messages s' !! om_ID (scheduleObserve e 0).2) }.

Lemma scheduleNext_run at_ message operation e next s s' u :
  outbox_reachable (messages s) → scheduleNext at_ message operation e next s = (s', Ok u) →
  scheduled (om_OperationID message) (opr_Version operation) e next s s' ∧
  s' = s <| executions := executions s' |> <| attempts := attempts s' |>
         <| messages := messages s' |>.
Proof.
  intros Ho Hrun. unfold scheduleNext in Hrun. fold (dispatching next) in Hrun.
  destruct (dispatching next) eqn:Hd.
  2: { apply Enqueue_run in Hrun as [Hm Hs]; [|done..].
       split; [|by rewrite Hm]. split; try congruence.
       intros _. rewrite Hm. cbn. by rewrite Hm in Hs. }
  tx_inv. bool_facts. destruct (IsOutputRecovery e) eqn:Hr; tx_inv.
  - bool_facts. unfold scheduleObserve in Hrun. tx_inv.
    match goal with H : tx_SaveExecution _ _ _ = _ |- _ =>
      apply SaveExecution_full in H as -> end.
    apply Enqueue_run in Hrun as [Hm Hs]; [|done..]. cbn in Hm, Hs.
    split; [|by rewrite Hm]. split; try congruence. rewrite Hm. intros _ _. rewrite Hm in Hs.
    by split_and!; try tauto.
  - match goal with H : tx_CreateSubmissionAttempt _ _ = _ |- _ =>
      apply CreateSubmissionAttempt_run in H as [Hnew ->] end.
    match goal with H : tx_SaveExecution _ _ _ = _ |- _ =>
      apply SaveExecution_full in H as -> end.
    apply Enqueue_run in Hrun as [Hm Hs]; [|done..]. cbn in Hm, Hs.
    split; [|by rewrite Hm]. split; try congruence. rewrite Hm. intros _ _. rewrite Hm in Hs.
    by split_and!.
Qed.

(** ** The outcomes of a drive *)

Definition gate_open (gate : option DependencyEvaluation) : Prop :=
  ∀ ev, gate = Some ev → de_Class ev = DependencyReady.

(** The operation takes the transition of the engine, its resource the status,
    and what follows is scheduled. *)
Record advanced (message : OutboxMessage) (o : OperationRecord) (r : ResourceRecord)
    (e : ProvisioningExecutionRecord) (gate : option DependencyEvaluation)
    (next : OperationPhase) (s s' : Store) : Prop := {
  av_transition : ∃ t status,
    Engine_Advance (rr_Resource r) (rr_Status r) (opr_Operation o) next
      (internalEventID sha256_hex (op_id (opr_Operation o)) (InternalTransitionLabel next))
      (op_phaseChangedAt (opr_Operation o) + 1) = Ok t ∧
    operations s' = <[op_id (opr_Operation o) := {| opr_Operation := r_Operation t;
      opr_Sequence := opr_Sequence o; opr_Version := u64_incr (opr_Version o) |}]> (operations s) ∧
    resources s' = <[res_id (rr_Resource r) := r <| rr_Status := status |>
      <| rr_Version := u64_incr (rr_Version r) |>]> (resources s) ∧
    events s' = <[ev_id (r_Event t) := r_Event t]> (events s) ∧
    match gate with
    | Some _ => SetDependencyCondition (r_Status t) ConditionStatusTrue
        ReasonDependenciesSatisfied "" (op_phaseChangedAt (opr_Operation o) + 1) = Ok status
    | None => status = r_Status t
    end;
  av_next : scheduled (om_OperationID message) (opr_Version o) e next s s' }.

(** *** Waiting *)

Definition waits_on (s : Store) (id : OperationID) (version : uint64) (target : ResourceID)
    : Prop :=
  ∃ w, dependencyWaits s !! waitKey id target = Some w ∧ dw_OperationID w = id ∧
    dw_TargetID w = target ∧ dw_OperationVersion w = version.

Lemma registerWait_waits id version s entry target :
  waits_on s id version target ∨ entry.1 = target →
  waits_on (registerWait id version s entry) id version target.
Proof.
  intros H. destruct entry as [t tv]. cbn in H.
  assert (∀ s' w, dependencyWaits s' = <[waitKey id t := w]> (dependencyWaits s) →
    dw_OperationID w = id → dw_TargetID w = t → dw_OperationVersion w = version →
    waits_on s' id version target) as Hone.
  { intros s' w Hs' <- <- <-. unfold waits_on. rewrite Hs'.
    destruct (decide (dw_TargetID w = target)) as [<-|Hne].
    - exists w. by rewrite lookup_insert_eq.
    - destruct H as [(w' & Hw & ?)|]; [|done]. exists w'. rewrite lookup_insert_ne; [done|].
      unfold waitKey. intros Heq. by do 2 apply (inj _) in Heq. }
  unfold registerWait. by case_match; eapply Hone.
Qed.

Lemma registered_waits id version entries s target :
  waits_on s id version target ∨ target ∈ entries.*1 →
  waits_on (foldl (registerWait id version) s entries) id version target.
Proof.
  revert s. induction entries as [|e l IH]; intros s H; cbn.
  - by destruct H as [|?%not_elem_of_nil].
  - apply IH. cbn in H. rewrite elem_of_cons in H.
    destruct H as [H|[->|H]]; [left; apply registerWait_waits; by left| |by right].
    left. apply registerWait_waits. by right.
Qed.

Lemma registered_frame id version entries s :
  let s' := foldl (registerWait id version) s entries in
  s' = s <| dependencyWaits := dependencyWaits s' |>
         <| nextWaitSequence := nextWaitSequence s' |>.
Proof.
  revert s. induction entries as [|[t tv] l IH]; intros s; [by destruct s|].
  cbn [foldl]. specialize (IH (registerWait id version s (t, tv))). cbv zeta in *. rewrite IH.
  generalize (foldl (registerWait id version) (registerWait id version s (t, tv)) l).
  intros x. unfold registerWait. by case_match.
Qed.

Lemma RegisterDependencyWaits_run id version targets s s' u :
  tx_RegisterDependencyWaits id version targets s = (s', Ok u) →
  s' = s <| dependencyWaits := dependencyWaits s' |>
         <| nextWaitSequence := nextWaitSequence s' |> ∧
  ∀ target, target ∈ (ranged targets).*1 → waits_on s' id version target.
Proof.
  unfold tx_RegisterDependencyWaits. intros [= <-]%writing_run.
  split; [apply registered_frame|]. intros target Ht. apply registered_waits. by right.
Qed.

Lemma waitTargets_blocking evaluation target :
  target ∈ de_Blocking evaluation → target ∈ (ranged (waitTargets evaluation)).*1.
Proof.
  intros Ht. assert (is_Some (waitTargets evaluation !! target)) as [v Hv].
  { unfold waitTargets. set (f := λ targets target, _).
    assert (∀ l m, is_Some (m !! target) ∨ target ∈ l → is_Some (foldl f m l !! target)) as H.
    { induction l as [|t l IH]; intros m [H|H]; cbn; [done|by apply not_elem_of_nil in H|..].
      - apply IH. left. apply lookup_insert_is_Some'. by right.
      - apply IH. apply elem_of_cons in H as [->|H]; [left|by right].
        apply lookup_insert_is_Some'. by left. }
    apply H. by right. }
  apply list_elem_of_fmap. exists (target, v). split; [done|].
  rewrite ranged_perm. by apply elem_of_map_to_list.
Qed.

(** The operation keeps its phase under a new version, which the waits on all
    blocking targets name. *)
Record waiting (message : OutboxMessage) (o : OperationRecord) (r : ResourceRecord)
    (ev : DependencyEvaluation) (s s' : Store) : Prop := {
  wt_resource : ∃ status reason,
    SetDependencyCondition (rr_Status r) ConditionStatusFalse reason ""
      (op_phaseChangedAt (opr_Operation o) + 1) = Ok status ∧
    resources s' = <[res_id (rr_Resource r) := r <| rr_Status := status |>
      <| rr_Version := u64_incr (rr_Version r) |>]> (resources s);
  wt_operations : operations s' =
    <[op_id (opr_Operation o) := o <| opr_Version := u64_incr (opr_Version o) |>]> (operations s);
  wt_executions : executions s' = executions s;
  wt_attempts : attempts s' = attempts s;
  wt_waits target : target ∈ de_Blocking ev →
    waits_on s' (om_OperationID message) (u64_incr (opr_Version o)) target }.

(** The operation has failed without an attempt; its own waits are gone, and no
    message is added: nobody who waits for its resource is woken. *)
Record refused (o : OperationRecord) (r : ResourceRecord) (e : ProvisioningExecutionRecord)
    (s s' : Store) : Prop := {
  rf_transition : ∃ status condition reason text t,
    let at_ := (op_phaseChangedAt (opr_Operation o) + 1)%Z in
    SetDependencyCondition (rr_Status r) ConditionStatusFalse condition "" at_ = Ok status ∧
    BuildFinishEvidence sha256_hex (opr_Operation o) (rr_Resource r) status
      {| fin_Succeeded := false; fin_Reason := reason; fin_Message := text;
         fin_Facts := no_facts |} at_ = Ok t ∧
    operations s' = <[op_id (opr_Operation o) := {| opr_Operation := r_Operation t;
      opr_Sequence := opr_Sequence o; opr_Version := u64_incr (opr_Version o) |}]> (operations s) ∧
    resources s' = <[res_id (rr_Resource r) := r <| rr_Status := r_Status t |>
      <| rr_Version := u64_incr (rr_Version r) |>]> (resources s);
  rf_execution : ∃ e', executions s' = <[pe_OperationID e := e']> (executions s) ∧
    pe_State e' = AttemptFailed ∧ pe_CurrentAttempt e' = pe_CurrentAttempt e ∧
    pe_Submission e' = pe_Submission e ∧ pe_LastObservation e' = pe_LastObservation e;
  rf_attempts : attempts s' = attempts s;
  rf_waits : dependencyWaits s' =
    filter (λ kv, waitOf (op_id (opr_Operation o)) kv.1 = false) (dependencyWaits s);
  rf_messages : dom (messages s') = dom (messages s) }.

(** The operation of the evidence: the transition of [Succeed] or [Fail]. *)
Lemma BuildFinishEvidence_operation o r st finish at_ t :
  BuildFinishEvidence sha256_hex o r st finish at_ = Ok t →
  if fin_Succeeded finish then Succeed o at_ = Ok (r_Operation t)
  else Fail o (fin_Reason finish) (fin_Message finish) at_ = Ok (r_Operation t).
Proof.
  unfold BuildFinishEvidence, finishTransition. intros (t' & Ht & H)%bind_Ok.
  assert (r_Operation t = r_Operation t') as ->.
  { case_match; ok_inv; [|done]. done. }
  destruct (fin_Succeeded finish); [apply Complete_inv in Ht|apply Fail_inv in Ht]; apply Ht.
Qed.

Lemma settleGateBlock_run at_ message r o e ev s s' u :
  de_Class ev ≠ DependencyReady → op_id (opr_Operation o) = om_OperationID message →
  operations s !! op_id (opr_Operation o) = Some o →
  settleGateBlock at_ message r o e ev (op_phaseChangedAt (opr_Operation o) + 1) s = (s', Ok u) →
  if de_Class ev =? DependencyWaiting then waiting message o r ev s s' else refused o r e s s'.
Proof.
  intros Hready Hid Ho Hrun. unfold settleGateBlock in Hrun.
  apply bind_run in Hrun as (t & status & [-> Hstatus]%lift_run & Hrun).
  destruct (de_Class ev =? DependencyWaiting) eqn:Hw.
  - tx_inv.
    match goal with H : tx_SaveOperation _ _ _ = _ |- _ =>
      apply SaveOperation_run in H as (c & Hc & _ & ->) end.
    match goal with H : tx_RegisterDependencyWaits _ _ _ _ = _ |- _ =>
      apply RegisterDependencyWaits_run in H as [Hf Hwaits] end.
    match goal with H : tx_SaveResource _ _ _ = _ |- _ => apply SaveResource_full in H as -> end.
    apply complete_run in Hrun as [-> _]. cbn in Hc. replace c with o in * by congruence.
    split; rewrite Hf; [by do 2 eexists|done..|]. intros target Ht%waitTargets_blocking.
    rewrite <- Hf. by apply Hwaits.
  - destruct (if de_Class ev =? DependencyInvalid then _ else _) as [reason text].
    apply bind_run in Hrun as (t & result & [-> Hresult]%lift_run & Hrun). tx_inv.
    match goal with H : tx_SaveResource _ _ _ = _ |- _ => apply SaveResource_full in H as -> end.
    match goal with H : tx_SaveOperation _ _ _ = _ |- _ =>
      apply SaveOperation_run in H as (c & Hc & _ & ->) end.
    match goal with H : tx_Append _ _ = _ |- _ => apply Append_run in H as [_ ->] end.
    match goal with H : tx_SaveExecution _ _ _ = _ |- _ => apply SaveExecution_full in H as -> end.
    match goal with H : tx_DeleteDependencyWaitsForOperation _ _ = _ |- _ =>
      apply DeleteWaits_run in H as -> end.
    apply complete_run in Hrun as (-> & _ & Hdom).
    pose proof (BuildFinishEvidence_operation _ _ _ _ _ _ Hresult) as Hfail. cbn in Hfail, Hc.
    destruct (initial_eq _ _ (step_initial _ _ (step_fail _ _ _ _ _ Hfail))) as [Hsame _].
    rewrite Hsame in Hc. replace c with o in * by congruence.
    split; cbn; [|by eexists|done|by rewrite Hid|exact Hdom].
    do 5 eexists. split_and!; [exact Hstatus|exact Hresult| |done]. by rewrite Hsame.
Qed.

(** The code cannot replay such a request: it has failed without evidence of a
    provider, which a replay of an operation that has ended demands. *)
Lemma gate_failure_not_replayed o r e s s' existing key t res :
  refused o r e s s' → pe_OperationID e = op_id (opr_Operation o) →
  pe_Submission e = None → pe_LastObservation e = None →
  ir_OperationID existing = op_id (opr_Operation o) →
  replayRecorded existing key s' ≠ (t, Ok res).
Proof.
  intros Href Hid Hsub Hobs Hex Hrun. destruct (rf_execution _ _ _ _ _ Href) as
    (e' & He' & Hstate & _ & Hsub' & Hobs').
  destruct (rf_transition _ _ _ _ _ Href) as (st & c & reason & text & tr & _ & Hfin & Hops & _).
  unfold replayRecorded, tx_GetResource, tx_GetOperation, tx_GetExecution in Hrun. tx_inv.
  repeat match goal with H : from_option Ok (Err _) _ = Ok _ |- _ => apply found_run in H end.
  rewrite Hex in *. rewrite Hops, lookup_insert_eq in *. rewrite He', <-Hid, lookup_insert_eq in *.
  simplify_eq. apply BuildFinishEvidence_operation, Fail_facts in Hfin as (Hfailed & _).
  match goal with H : (if replayNeedsEvidence _ _ then _ else _) _ = _ |- _ => rename H into Hev end.
  replace (replayNeedsEvidence _ _) with true in Hev.
  - apply lift_run in Hev as [_ Hev]. unfold validatePersistedTerminalEvidence in Hev.
    unfold persistedTerminalExecution, persistedObservation in Hev.
    by rewrite Hobs', Hobs, Hsub', Hsub in Hev.
  - unfold replayNeedsEvidence, IsTerminal. cbn. by rewrite Hfailed.
Qed.

(** *** Advancing *)

Lemma advancePhase_run at_ message r o e gate next s s' u :
  outbox_reachable (messages s) → operations s !! op_id (opr_Operation o) = Some o →
  advancePhase at_ message r o e gate next (op_phaseChangedAt (opr_Operation o) + 1) s =
    (s', Ok u) →
  advanced message o r e gate next s s'.
Proof.
  intros Hm Ho Hrun. unfold advancePhase in Hrun.
  apply bind_run in Hrun as (t & transition & [-> Hadvance]%lift_run & Hrun).
  apply bind_run in Hrun as (t & status & Hstatus & Hrun).
  assert ((∃ w, t = s <| dependencyWaits := w |>) ∧
    match gate with
    | Some _ => SetDependencyCondition (r_Status transition) ConditionStatusTrue
        ReasonDependenciesSatisfied "" (op_phaseChangedAt (opr_Operation o) + 1) = Ok status
    | None => status = r_Status transition
    end) as [[w ->] Hset].
  { destruct gate; tx_inv; [|split; [exists (dependencyWaits s); by destruct s|done]].
    match goal with H : tx_DeleteDependencyWaitsForOperation _ _ = _ |- _ =>
      apply DeleteWaits_run in H as -> end. eauto. }
  clear Hstatus. tx_inv.
  match goal with H : tx_SaveResource _ _ _ = _ |- _ => apply SaveResource_full in H as -> end.
  match goal with H : tx_SaveOperation _ _ _ = _ |- _ =>
    apply SaveOperation_run in H as (c & Hc & _ & ->) end.
  match goal with H : tx_Append _ _ = _ |- _ => apply Append_run in H as [_ ->] end.
  match goal with H : complete _ _ _ _ = _ |- _ => apply complete_run in H as [Hmsg Hreach] end.
  apply scheduleNext_run in Hrun as [Hnext Hframe]; [|by apply Hreach].
  destruct (Advance_inv _ _ _ _ _ _ _ Hadvance) as (_ & Hstep & _).
  destruct (initial_eq _ _ (step_initial _ _ (step_advance _ _ _ _ Hstep))) as [Hsame _].
  cbn in Hc. rewrite Hsame in Hc. replace c with o in * by congruence. split.
  - exists transition, status. rewrite Hframe, Hmsg. cbn. by rewrite Hsame.
  - rewrite Hmsg in Hnext. by destruct Hnext.
Qed.

(** What a drive of the operation [o] of the resource [r] has done. *)
Inductive driven (message : OutboxMessage) (o : OperationRecord) (r : ResourceRecord)
    (s s' : Store) : Prop :=
  | dn_nothing :
      opr_Version o ≠ om_ExpectedVersion message ∨ IsTerminal (opr_Operation o) = true ∨
        nextPhase (opr_Operation o) = None →
      only_messages s s' → driven message o r s s'
  | dn_advanced next e gate :
      nextPhase (opr_Operation o) = Some next →
      (gates next (opr_Operation o) = true ∨ next = OperationPhaseDestroying →
       executions s !! om_OperationID message = Some e) →
      gate_of s r e next (opr_Operation o) gate → gate_open gate →
      advanced message o r e gate next s s' → driven message o r s s'
  | dn_waiting e ev :
      IsTerminal (opr_Operation o) = false →
      nextPhase (opr_Operation o) = Some OperationPhaseApplying →
      gate_of s r e OperationPhaseApplying (opr_Operation o) (Some ev) →
      de_Class ev = DependencyWaiting → waiting message o r ev s s' → driven message o r s s'
  | dn_refused e ev :
      nextPhase (opr_Operation o) = Some OperationPhaseApplying →
      gate_of s r e OperationPhaseApplying (opr_Operation o) (Some ev) →
      de_Class ev ≠ DependencyWaiting → de_Class ev ≠ DependencyReady →
      refused o r e s s' → driven message o r s s'.

(** C5: A drive does one of four things.  It leaves work alone that is stale, has
    ended or has been dispatched; or the gate is open, the operation takes the
    engine's transition to its next phase, and exactly its first dispatch, the
    observation of its output recovery or its next drive is scheduled; or a
    dependency is not ready yet, the operation keeps its phase, nothing is
    dispatched, and it waits on every blocking target under its new version; or
    a dependency has failed or is invalid, and the operation fails without an
    attempt and without a wake for those who wait for its own resource.  So
    nothing is submitted before the dependencies have converged. *)
Theorem driveUnit_spec at_ message s s' :
  integrity s → driveUnit at_ message s = (s', Ok tt) →
  ∃ o r, operations s !! om_OperationID message = Some o ∧
    resources s !! op_resourceID (opr_Operation o) = Some r ∧ driven message o r s s'.
Proof.
  intros Hi Hrun. unfold driveUnit in Hrun.
  apply bind_run in Hrun as (t & ? & ->%requireLease_run & Hrun).
  apply bind_run in Hrun as (t & preflight & [-> Ho]%lookup_run & Hrun).
  apply bind_run in Hrun as (t & r & [-> Hr]%lookup_run & Hrun).
  apply bind_run in Hrun as (t & o & [-> Ho']%lookup_run & Hrun).
  replace preflight with o in * by congruence. exists o, r. split_and!; [done..|].
  pose proof (in_operations _ Hi _ _ Ho) as Hid.
  destruct (_ || _) eqn:Hstale.
  { apply complete_run in Hrun as [Hm _]. apply dn_nothing; [|done]. bool_facts. tauto. }
  destruct (nextPhase _) as [next|] eqn:Hnext.
  2: { apply complete_run in Hrun as [Hm _]. apply dn_nothing; [|done]. tauto. }
  cbv zeta in Hrun. fold (gates next (opr_Operation o)) in Hrun.
  apply bind_run in Hrun as (t & e & He & Hrun).
  assert (t = s ∧ (gates next (opr_Operation o) = true ∨ next = OperationPhaseDestroying →
    executions s !! om_OperationID message = Some e)) as [-> Hexec].
  { destruct (_ || _) eqn:Hg in He; [by apply lookup_run in He as [-> He]|].
    apply ret_run in He as [-> ->]. apply orb_false_iff in Hg as [Hg1 Hg2%bool_decide_eq_false].
    split; [done|]. intros [?|?]; congruence. }
  clear He. apply bind_run in Hrun as (t & gate & [-> Hgate]%gateOf_run & Hrun).
  rewrite <- Hid in Ho. pose proof (in_messages _ Hi) as Hreach.
  destruct gate as [ev|]; [destruct (de_Class ev <>? DependencyReady) eqn:Hready|].
  - bool_facts. assert (next = OperationPhaseApplying) as ->.
    { unfold gate_of in Hgate. destruct (gates next _) eqn:Hg; [|done].
      by apply andb_true_iff in Hg as [?%bool_decide_eq_true _]. }
    apply settleGateBlock_run in Hrun; [|done..]. destruct (_ =? DependencyWaiting) eqn:Hw in Hrun;
      bool_facts;
      [|by eapply dn_refused]. destruct_and?. by eapply dn_waiting.
  - bool_facts. apply advancePhase_run in Hrun; [|done..]. eapply dn_advanced; try done.
    by intros ? [= <-].
  - apply advancePhase_run in Hrun; [|done..]. by eapply dn_advanced.
Qed.
End driving.

(** ** A concrete drive *)

#[local] Existing Instances Idempotency.sample_order Scenario.sample_worker.

Definition sample_claimed : Store := (Within (tx_ClaimOutbox 100 "lease" 30) sample_store).1.

Definition sample_drive : OutboxMessage :=
  (DriveMessage "op-1" 1) <| om_State := OutboxLeased |> <| om_LeaseToken := "lease" |>
    <| om_LeasedUntil := 130%Z |> <| om_AttemptCount := 1%Z |>.

Definition sample_driven : Store := (driveUnit (at_time 100) sample_drive sample_claimed).1.

Lemma sample_claimed_integrity : integrity sample_claimed.
Proof.
  apply served_integrity. apply (sv_progress (worker_rights False True)).
  - apply (sv_request sample_ports sample_create). constructor.
  - constructor.
  - by intros [].
Qed.

Lemma sample_drive_runs :
  driveUnit (at_time 100) sample_drive sample_claimed = (sample_driven, Ok tt).
Proof.
  refine (surjective_run (driveUnit (at_time 100) sample_drive sample_claimed) (Ok tt) _).
  vm_compute. reflexivity.
Qed.

Lemma driveUnit_spec_witness :
  ∃ o r, operations sample_claimed !! "op-1" = Some o ∧
    resources sample_claimed !! op_resourceID (opr_Operation o) = Some r ∧
    driven sample_drive o r sample_claimed sample_driven.
Proof.
  exact (driveUnit_spec (at_time 100) sample_drive sample_claimed sample_driven
    sample_claimed_integrity sample_drive_runs).
Defined.
