(* ===== verification/Coherence.v ===== *)
(** * The system keeps its resources coherent

    The worlds of [Lifecycle] are what one transaction reads and writes; here
    they are found again in the tables of the running system.  In every system
    that can be reached each resource has one operation that determines it: all
    its other operations have ended, and resource, status and that operation
    are a coherent world. *)

From S2P Require Import Prelude Operation Values Resource Status Provisioning Records.
From S2P Require Import Engine Submission Outputs Contracts References Dependencies Policy.
From S2P Require Import Text Work Outbox Lifecycle Store History Rights Evidence Admission Idempotency.
From S2P Require Import Handlers Worker WorkerRights Observer System Scenario Driving.
From S2P Require Import Operator.
Open Scope string_scope.
Open Scope go_scope.

Definition world_of (r : ResourceRecord) (o : OperationRecord) : world :=
  {| w_resource := rr_Resource r; w_status := rr_Status r; w_latest := opr_Operation o |}.

(** A world between two drives: the status of an operation under way is no
    newer than the next drive will be. *)
Record timely (rt : ResourceType) (w : world) : Prop := {
  tm_coherent : coherent rt w;
  tm_drive : IsTerminal (w_latest w) = false →
    (st_updatedAt (w_status w) ≤ op_phaseChangedAt (w_latest w) + 1)%Z }.

(** The operation determines the resource; every other one has ended. *)
Definition determines (s : Store) (id : ResourceID) (k : OperationID) (o : OperationRecord)
    : Prop :=
  operations s !! k = Some o ∧ op_resourceID (opr_Operation o) = id ∧
  ∀ k' o', operations s !! k' = Some o' → op_resourceID (opr_Operation o') = id → k' ≠ k →
    IsTerminal (opr_Operation o') = true.

Record lawful (s : Store) : Prop := {
  lw_resources id r : resources s !! id = Some r → res_id (rr_Resource r) = id;
  lw_operations id o : operations s !! id = Some o → op_id (opr_Operation o) = id;
  lw_worlds id r : resources s !! id = Some r →
    ∃ rt k o, determines s id k o ∧ timely rt (world_of r o) }.

(** ** Transitions of a world *)

(** The world goes on by the transitions of its lifecycle. *)
Definition moves (w w' : world) : Prop :=
  ∀ rt, timely rt w → timely rt w' ∧ rtc (step rt) w w'.

#[local] Instance moves_trans : Transitive moves.
Proof.
  intros w1 w2 w3 H1 H2 rt [Hw2 Hs2]%H1. destruct (H2 rt Hw2) as [? ?]. split; [done|by etrans].
Qed.

Lemma moves_refl w : moves w w.
Proof. by intros rt ?. Qed.

Lemma moves_step w w' :
  (∀ rt, timely rt w → step rt w w') →
  (IsTerminal (w_latest w') = false → IsTerminal (w_latest w) = false →
   (st_updatedAt (w_status w) ≤ op_phaseChangedAt (w_latest w) + 1)%Z →
   (st_updatedAt (w_status w') ≤ op_phaseChangedAt (w_latest w') + 1)%Z) →
  (IsTerminal (w_latest w) = true → IsTerminal (w_latest w') = true) →
  moves w w'.
Proof.
  intros Hstep Ht Hend rt Hw. pose proof (Hstep rt Hw) as Hs. split; [|by apply rtc_once].
  split; [eapply step_coherent; [apply Hw|done]|]. intros Hact.
  destruct (IsTerminal (w_latest w)) eqn:E; [rewrite Hend in Hact by done; done|].
  apply Ht; [done..|]. by apply Hw.
Qed.

Lemma moves_advance r st o next evID at_ t :
  Engine_Advance r st o next evID at_ = Ok t →
  moves {| w_resource := r; w_status := st; w_latest := o |}
        {| w_resource := r; w_status := r_Status t; w_latest := r_Operation t |} ∧
  st_updatedAt (r_Status t) = at_.
Proof.
  intros Ht. pose proof (Advance_inv _ _ _ _ _ _ _ Ht) as (_ & Hstep & [_ _ _ _ Hat _]).
  apply Advance_facts in Hstep as (Ho & _ & _ & Hp). split; [|done].
  apply moves_step; cbn; [|intros; lia|congruence].
  intros rt _. by eapply (step_phase _ {| w_latest := o |}).
Qed.

Lemma moves_dependency r st o status reason message at_ st' :
  SetDependencyCondition st status reason message at_ = Ok st' →
  (∀ rt, timely rt {| w_resource := r; w_status := st; w_latest := o |} →
   (st_updatedAt st ≤ at_)%Z) →
  (IsTerminal o = false → at_ ≤ op_phaseChangedAt o + 1)%Z →
  moves {| w_resource := r; w_status := st; w_latest := o |}
        {| w_resource := r; w_status := st'; w_latest := o |}.
Proof.
  intros Ht Hat Hlate rt Hw.
  pose proof (Dependency_inv r _ _ _ _ _ _ (coh_id _ _ (tm_coherent _ _ Hw)) Ht)
    as [_ _ _ _ Hst _].
  revert rt Hw. apply moves_step; cbn; [|intros Ho _ _; specialize (Hlate Ho); lia|done].
  intros rt Hw. eapply (step_dependency _ {| w_status := st |}); [done|by eapply Hat].
Qed.

Lemma moves_observed r st o facts at_ preserve st' :
  IsTerminal o = true → applyObservation r st facts at_ preserve = Ok st' →
  moves {| w_resource := r; w_status := st; w_latest := o |}
        {| w_resource := r; w_status := st'; w_latest := o |}.
Proof.
  intros Ho Ht. apply moves_step; cbn; [|congruence|done].
  intros rt _. by eapply (step_observe _ {| w_status := st |}).
Qed.

(** The end of an operation, with what the provider reported. *)
Lemma moves_finish sha r st o finish at_ t :
  BuildFinishEvidence sha o r st finish at_ = Ok t →
  moves {| w_resource := r; w_status := st; w_latest := o |}
        {| w_resource := r; w_status := r_Status t; w_latest := r_Operation t |}.
Proof.
  intros H. unfold BuildFinishEvidence, finishTransition in H.
  apply bind_Ok in H as (t0 & Ht0 & H).
  assert (IsTerminal (r_Operation t0) = true ∧
    moves {| w_resource := r; w_status := st; w_latest := o |}
      {| w_resource := r; w_status := r_Status t0; w_latest := r_Operation t0 |}) as (Hend & Hw0).
  { destruct (fin_Succeeded finish).
    - pose proof (Complete_inv _ _ _ _ _ _ Ht0) as (_ & (Hs & ? & ? & _)%Succeed_facts & _).
      assert (IsTerminal (r_Operation t0) = true) by (eapply terminal_state; [done|by left]).
      split; [done|]. apply moves_step; cbn; [|congruence|done].
      intros rt _. by eapply (step_complete _ {| w_latest := o |}).
    - pose proof (Fail_inv _ _ _ _ _ _ _ _ Ht0) as (_ & (Hs & ? & ? & _)%Fail_facts & _).
      assert (IsTerminal (r_Operation t0) = true) by (eapply terminal_state; [done|by right]).
      split; [done|]. apply moves_step; cbn; [|congruence|done].
      intros rt _. by eapply (step_failed _ {| w_latest := o |}). }
  case_match; ok_inv; [|done]. cbn. etrans; [exact Hw0|]. by eapply moves_observed.
Qed.

(** ** Stores whose resources go on *)

(** Every resource and every operation is still there; an operation keeps its
    identity, and does not come back to life; and the world of a resource moves. *)
Record moved (s s' : Store) : Prop := {
  mv_present id : is_Some (resources s' !! id) ↔ is_Some (resources s !! id);
  mv_resources id r r' : resources s !! id = Some r → resources s' !! id = Some r' →
    res_id (rr_Resource r') = res_id (rr_Resource r);
  mv_operations k o' : operations s' !! k = Some o' →
    ∃ o, operations s !! k = Some o ∧ initial (opr_Operation o') = initial (opr_Operation o) ∧
      opr_Sequence o' = opr_Sequence o ∧
      (IsTerminal (opr_Operation o) = true → IsTerminal (opr_Operation o') = true);
  mv_worlds id k r r' o : resources s !! id = Some r → resources s' !! id = Some r' →
    determines s id k o →
    ∃ o', operations s' !! k = Some o' ∧ moves (world_of r o) (world_of r' o') }.

Lemma moved_determines s s' id k o o' :
  moved s s' → determines s id k o → operations s' !! k = Some o' → determines s' id k o'.
Proof.
  intros Hm (Ho & Hid & Hother) Ho'. destruct (mv_operations _ _ Hm _ _ Ho') as (p & Hp & Hi & _).
  replace p with o in * by congruence. destruct (initial_eq _ _ Hi) as (_ & Hr & _).
  split_and!; [done|congruence|]. intros k' q' Hq' Hqid Hne.
  destruct (mv_operations _ _ Hm _ _ Hq') as (q & Hq & Hqi & _ & Hend).
  destruct (initial_eq _ _ Hqi) as (_ & Hqr & _). apply Hend. eapply Hother; [done|congruence|done].
Qed.

Lemma moved_same s s' : same_lifecycle s s' → moved s s'.
Proof.
  intros [Hr Ho]. split; rewrite ?Hr, ?Ho; try done.
  - congruence.
  - eauto 10.
  - intros id k r r' o ?? (Hk & _). exists o. split; [done|].
    replace r' with r by congruence. apply moves_refl.
Qed.

#[local] Instance moved_trans : Transitive moved.
Proof.
  intros s1 s2 s3 H1 H2. split.
  - intros id. by rewrite (mv_present _ _ H2), (mv_present _ _ H1).
  - intros id r r' Hr Hr'. destruct (proj2 (mv_present _ _ H1 id) (ex_intro _ r Hr)) as [m Hm].
    rewrite (mv_resources _ _ H2 _ _ _ Hm Hr'). by eapply (mv_resources _ _ H1).
  - intros k o3 Ho3. destruct (mv_operations _ _ H2 _ _ Ho3) as (o2 & Ho2 & ? & ? & ?).
    destruct (mv_operations _ _ H1 _ _ Ho2) as (o1 & Ho1 & ? & ? & ?).
    exists o1. split_and!; [done|congruence|congruence|auto].
  - intros id k r r' o Hr Hr' Ho.
    destruct (proj2 (mv_present _ _ H1 id) (ex_intro _ r Hr)) as [m Hm].
    destruct (mv_worlds _ _ H1 _ _ _ _ _ Hr Hm Ho) as (o2 & Ho2 & Hw1).
    pose proof (moved_determines _ _ _ _ _ _ H1 Ho Ho2) as Hd.
    destruct (mv_worlds _ _ H2 _ _ _ _ _ Hm Hr' Hd) as (o3 & ? & ?).
    exists o3. split; [done|by etrans].
Qed.

Lemma moved_lawful s s' : lawful s → moved s s' → lawful s'.
Proof.
  intros [Hrs Hos Hws] Hm. split.
  - intros id r' Hr'. destruct (proj1 (mv_present _ _ Hm id) (ex_intro _ r' Hr')) as [r Hr].
    rewrite (mv_resources _ _ Hm _ _ _ Hr Hr'). by apply Hrs.
  - intros k o' (o & Ho & (Hid & _)%initial_eq & _)%(mv_operations _ _ Hm).
    rewrite Hid. by apply Hos.
  - intros id r' Hr'. destruct (proj1 (mv_present _ _ Hm id) (ex_intro _ r' Hr')) as [r Hr].
    destruct (Hws _ _ Hr) as (rt & k & o & Hd & Hw).
    destruct (mv_worlds _ _ Hm _ _ _ _ _ Hr Hr' Hd) as (o' & Ho' & Hmoves).
    exists rt, k, o'. split; [by eapply moved_determines|by apply Hmoves].
Qed.

(** The operation that determines its resource moves on, with its resource. *)
Lemma moved_settle s s' k o o' r r' :
  operations s !! k = Some o → IsTerminal (opr_Operation o) = false →
  resources s !! op_resourceID (opr_Operation o) = Some r →
  operations s' = <[k := o']> (operations s) →
  resources s' = <[op_resourceID (opr_Operation o) := r']> (resources s) →
  initial (opr_Operation o') = initial (opr_Operation o) → opr_Sequence o' = opr_Sequence o →
  res_id (rr_Resource r') = res_id (rr_Resource r) →
  moves (world_of r o) (world_of r' o') → moved s s'.
Proof.
  intros Ho Hact Hr Hops Hress Hi Hseq Hid Hw. split; rewrite ?Hress, ?Hops.
  - intros id. rewrite lookup_insert_is_Some'. naive_solver.
  - intros id x y Hx [[<- <-]|[_ ?]]%lookup_insert_Some; congruence.
  - intros i p [[<- <-]|[_ ?]]%lookup_insert_Some; [exists o; by rewrite Hact|by exists p].
  - intros id i x y p Hx Hy Hd. destruct (decide (i = k)) as [->|Hne].
    + destruct Hd as (Hp & <- & _). replace p with o in * by congruence.
      rewrite lookup_insert_eq in Hy. exists o'. rewrite lookup_insert_eq.
      split; [done|]. by simplify_eq.
    + exists p. rewrite lookup_insert_ne by done. destruct Hd as (Hp & Hpid & Hother).
      split; [done|]. apply lookup_insert_Some in Hy as [[<- <-]|[_ Hy]].
      * by rewrite (Hother _ _ Ho eq_refl) in Hact.
      * simplify_eq. apply moves_refl.
Qed.

(** Only the resource changes, whose operations have all ended. *)
Lemma moved_resource s s' id r r' :
  resources s !! id = Some r → operations s' = operations s →
  resources s' = <[id := r']> (resources s) → res_id (rr_Resource r') = res_id (rr_Resource r) →
  (∀ k o, determines s id k o → moves (world_of r o) (world_of r' o)) → moved s s'.
Proof.
  intros Hr Hops Hress Hid Hw. split; rewrite ?Hress, ?Hops.
  - intros i. rewrite lookup_insert_is_Some'. naive_solver.
  - intros i x y Hx [[<- <-]|[_ ?]]%lookup_insert_Some; congruence.
  - eauto 10.
  - intros i k x y o Hx Hy Hd. pose proof Hd as (Hk & _). exists o. split; [done|].
    apply lookup_insert_Some in Hy as [[<- <-]|[_ Hy]]; simplify_eq; [by eapply Hw|apply moves_refl].
Qed.

(** ** Units of work that keep the store lawful *)

Definition keeps {A} (m : tx A) : Prop := ∀ s s' x, lawful s → m s = (s', Ok x) → moved s s'.

Lemma keeps_bind {A B} (m : tx A) (f : A → tx B) :
  keeps m → (∀ x, keeps (f x)) → keeps (m ≫= f).
Proof.
  intros Hm Hf s s' y Hs (t & x & Ht & H)%bind_run. apply Hm in Ht; [|done].
  etrans; [exact Ht|]. eapply Hf; [|done]. by eapply moved_lawful.
Qed.

Lemma moved_then {A} s t s' (m : tx A) x :
  lawful s → moved s t → keeps m → m t = (s', Ok x) → moved s s'.
Proof. intros Hs Hm Hk Hrun. etrans; [done|]. eapply Hk; [by eapply moved_lawful|done]. Qed.

(** A unit that changes neither resources nor operations. *)
Lemma keeps_quiet `{MapOrder} {A} may (m : tx A) :
  ¬ may_create may → ¬ may_settle may → scripted may m → keeps m.
Proof.
  intros Hc Hset Hm s s' x Hs Hrun. pose proof (scripted_lifecycle may m Hc Hset Hm s) as Hsame.
  rewrite Hrun in Hsame. by apply moved_same.
Qed.

Section units.
Context {order : MapOrder} {worker : Composition}.

(** The units of [WorkerRights], without the right to settle. *)
Abbreviation calm := (scripted (worker_rights True False)).

Lemma calm_same {A} (m : tx A) s s' x :
  calm m → m s = (s', x) → same_lifecycle s s'.
Proof.
  intros Hm Hrun. pose proof (scripted_lifecycle (worker_rights True False) m (λ H, H) (λ H, H)
    Hm s) as Hsame. by rewrite Hrun in Hsame.
Qed.

Lemma keeps_calm {A} (m : tx A) : calm m → keeps m.
Proof. apply (keeps_quiet (worker_rights True False)); exact (λ H, H). Qed.

(** *** The end of an operation *)

Lemma saveTerminal_keeps finish at_ resource operation result execution version between s s' u :
  BuildFinishEvidence sha256_hex (opr_Operation operation) (rr_Resource resource)
    (rr_Status resource) finish at_ = Ok result →
  operations s !! op_id (opr_Operation operation) = Some operation →
  resources s !! op_resourceID (opr_Operation operation) = Some resource →
  calm between → lawful s →
  saveTerminal resource operation result execution version between s = (s', Ok u) → moved s s'.
Proof.
  intros Hfinish Ho Hr Hbetween Hs Hrun.
  assert (IsTerminal (opr_Operation operation) = false ∧
    initial (r_Operation result) = initial (opr_Operation operation)) as [Hact Hi].
  { apply BuildFinishEvidence_operation in Hfinish. destruct (fin_Succeeded finish).
    - by apply Succeed_facts in Hfinish as (_ & ? & ? & _).
    - by apply Fail_facts in Hfinish as (_ & ? & ? & _). }
  pose proof (lw_resources _ Hs _ _ Hr) as Hid. destruct (initial_eq _ _ Hi) as (Hoid & _).
  unfold saveTerminal in Hrun.
  apply bind_run in Hrun as (s1 & ? & ->%SaveResource_full & Hrun).
  apply bind_run in Hrun as (s2 & ? & Hb & Hrun).
  apply calm_same in Hb as [Hrs Hos]; [|done]. cbn in Hrs, Hos.
  apply bind_run in Hrun as (s3 & ? & (c & Hc & _ & ->)%SaveOperation_run & Hrun).
  apply bind_run in Hrun as (s4 & ? & [_ ->]%Append_run & ->%SaveExecution_full).
  cbn in Hc. rewrite Hoid, Hos in Hc. replace c with operation in * by congruence.
  eapply (moved_settle s _ (op_id (opr_Operation operation)) operation); cbn.
  - done.
  - done.
  - exact Hr.
  - by rewrite Hos, Hoid.
  - by rewrite Hrs, Hid.
  - done.
  - done.
  - done.
  - by eapply moves_finish.
Qed.

Lemma settleTerminal_calm at_ message resource result reason :
  calm (settleTerminal at_ message resource result reason).
Proof. apply settleTerminal_permitted. Qed.

Lemma alignEvidence_execution at_ e r :
  pe_OperationID (alignEvidenceTimeline at_ e r).2 = pe_OperationID e.
Proof. unfold alignEvidenceTimeline. by repeat case_match. Qed.

(** An operation with its resource, read at once. *)
Lemma loadTerminal_run e s s' resource operation :
  lawful s → loadTerminal e s = (s', Ok (resource, operation)) →
  s' = s ∧ operations s !! op_id (opr_Operation operation) = Some operation ∧
  resources s !! op_resourceID (opr_Operation operation) = Some resource.
Proof.
  intros Hs Hrun. unfold loadTerminal in Hrun.
  apply bind_run in Hrun as (t & p & [-> Hp]%lookup_run & Hrun).
  apply bind_run in Hrun as (t & r & [-> Hr]%lookup_run & Hrun).
  apply bind_run in Hrun as (t & o & [-> Ho]%lookup_run & [-> [= -> ->]]%ret_run).
  replace p with o in * by congruence. by rewrite (lw_operations _ Hs _ _ Ho).
Qed.

Lemma finishOperation_keeps at_ message e version finish finishedAt :
  keeps (finishOperation at_ message e version finish finishedAt).
Proof.
  intros s s' u Hs Hrun. unfold finishOperation in Hrun.
  apply bind_run in Hrun as (t & [r o] & (-> & Ho & Hr)%loadTerminal_run & Hrun); [|done].
  destruct (alignEvidenceTimeline finishedAt e r) as [finishedAt' e'].
  apply bind_run in Hrun as (t & result & [-> Hfinish]%lift_run & Hrun).
  apply bind_run in Hrun as (t & [] & Hsave & Hrun).
  apply saveTerminal_keeps with (finish := finish) (at_ := finishedAt') in Hsave; try done;
    [|apply sc_ret].
  eapply moved_then; [done|exact Hsave|apply keeps_calm, settleTerminal_calm|done].
Qed.

Lemma completeSuccess_keeps at_ message r o e version finish finishedAt published s s' u :
  operations s !! op_id (opr_Operation o) = Some o →
  resources s !! op_resourceID (opr_Operation o) = Some r → lawful s →
  completeSuccess at_ message r o e version finish finishedAt published s = (s', Ok u) →
  moved s s'.
Proof.
  intros Ho Hr Hs Hrun. unfold completeSuccess in Hrun. cbv zeta in Hrun.
  destruct (alignEvidenceTimeline _ _ _) as [finishedAt' e'].
  apply bind_run in Hrun as (t & result & [-> Hfinish]%lift_run & Hrun).
  apply bind_run in Hrun as (t & [] & Hsave & Hrun).
  apply saveTerminal_keeps with (finish := finish) (at_ := finishedAt') in Hsave; try done;
    [|case_match; [apply sc_SaveResourceOutputs|apply sc_ret]].
  eapply moved_then; [done|exact Hsave| |exact Hrun].
  apply keeps_bind; [|intros _; apply keeps_calm, settleTerminal_calm].
  apply keeps_calm. unfold advanceApplied. script.
Qed.

Lemma rejectOutputs_keeps at_ message r o e version failure finishedAt s s' u :
  operations s !! op_id (opr_Operation o) = Some o →
  resources s !! op_resourceID (opr_Operation o) = Some r → lawful s →
  rejectOutputs at_ message r o e version failure finishedAt s = (s', Ok u) → moved s s'.
Proof.
  intros Ho Hr Hs Hrun. unfold rejectOutputs in Hrun.
  apply bind_run in Hrun as (t & result & [-> Hfinish]%lift_run & Hrun). cbv zeta in Hrun.
  apply bind_run in Hrun as (t & [] & Hsave & Hrun).
  eapply saveTerminal_keeps in Hsave; [|exact Hfinish|done|done|apply sc_ret|done].
  eapply moved_then; [done|exact Hsave|apply keeps_calm, settleTerminal_calm|done].
Qed.

Lemma finishSuccess_keeps at_ message e version finish finishedAt outputs :
  keeps (finishSuccessInTx at_ message e version finish finishedAt outputs).
Proof.
  intros s s' u Hs Hrun. unfold finishSuccessInTx in Hrun.
  apply bind_run in Hrun as (t & [r o] & (-> & Ho & Hr)%loadTerminal_run & Hrun); [|done].
  apply guard_run in Hrun as [_ Hrun].
  apply bind_run in Hrun as (t & ? & [-> _]%lift_run & Hrun).
  apply bind_run in Hrun as (t & plan & [-> _]%lift_run & Hrun). destruct plan.
  - by eapply completeSuccess_keeps in Hrun.
  - apply bind_run in Hrun as (t & record & [-> _]%lift_run & Hrun).
    by eapply completeSuccess_keeps in Hrun.
  - eapply keeps_calm; [apply deferOutputs_permitted|done|exact Hrun].
  - by eapply rejectOutputs_keeps in Hrun.
Qed.

(** *** The units that end operations *)

(** The rest of a unit, whose first part is calm. *)
Lemma keeps_after {A B} (m : tx A) (f : A → tx B) :
  calm m → (∀ x, keeps (f x)) → keeps (m ≫= f).
Proof. intros Hm. apply keeps_bind. by apply keeps_calm. Qed.

Lemma keeps_if {A} (b : bool) e (m : tx A) : keeps m → keeps (if b then throw e else m).
Proof. intros Hm. destruct b; [|done]. by intros s s' x _ [_ ?]%lift_run. Qed.

Lemma recordDispatch_keeps at_ message version submission submitErr :
  keeps (recordDispatch at_ message version submission submitErr).
Proof.
  unfold recordDispatch. apply keeps_after; [apply dispatched_permitted|]. intros [e a].
  apply keeps_after; [apply sc_pure|]. intros [[[e' a'] r] f].
  apply keeps_after; [by apply move_permitted|]. intros _.
  destruct r; first
    [ apply keeps_after; [apply deref_scripted|]; intros finish;
      apply finishSuccess_keeps || apply finishOperation_keeps
    | apply keeps_calm; script ].
Qed.

Lemma uncorrelated_calm at_ message e observation : calm (uncorrelated at_ message e observation).
Proof. unfold uncorrelated. script. Qed.

Lemma recordPendingOutputs_keeps at_ message e o observation :
  keeps (recordPendingOutputs at_ message e o observation).
Proof.
  unfold recordPendingOutputs. apply keeps_if.
  destruct (eo_Execution observation); [|apply keeps_calm, uncorrelated_calm].
  destruct (_ || _); [apply keeps_calm, uncorrelated_calm|].
  destruct (IsOutputRecovery e); apply finishSuccess_keeps.
Qed.

Lemma recordObservation_keeps at_ message loaded observation :
  keeps (recordObservation at_ message loaded observation).
Proof.
  unfold recordObservation. apply keeps_after; [apply requireLease_permitted|]. intros _.
  apply keeps_after; [apply lockObservation_permitted|]. intros records. apply keeps_if.
  destruct (_ && _); [apply recordPendingOutputs_keeps|].
  apply keeps_after; [apply sc_read|]. intros a.
  apply keeps_after; [apply sc_pure|]. intros [[[e' a'] r] f].
  unfold applyObservationOutcome. destruct r.
  - apply keeps_calm. script.
  - apply keeps_after; [by apply move_permitted|]. intros _.
    apply keeps_after; [apply deref_scripted|]. intros finish. apply finishOperation_keeps.
  - apply keeps_calm. script.
  - apply keeps_calm. script.
  - apply keeps_after; [apply deref_scripted|]. intros finish. apply finishSuccess_keeps.
  - apply keeps_after; [apply deref_scripted|]. intros finish. apply finishOperation_keeps.
Qed.

(** *** Passive observation *)

Lemma recordPassive_keeps at_ token message loaded observation :
  keeps (recordPassive at_ token message loaded observation).
Proof.
  intros s s' u Hs Hrun. unfold recordPassive in Hrun.
  apply bind_run in Hrun as (t & ? & ->%requireLease_run & Hrun).
  apply bind_run in Hrun as (t & r & [-> Hr]%lookup_run & Hrun).
  apply guard_run in Hrun as [_ Hrun]. cbv zeta in Hrun.
  destruct (_ || _); [eapply keeps_calm; [apply complete_permitted|done|exact Hrun]|].
  apply bind_run in Hrun as (t & active & [-> Hactive]%ActiveForResource_run & Hrun).
  destruct active; [eapply keeps_calm; [apply complete_permitted|done|exact Hrun]|].
  apply bind_run in Hrun as (t & status & [-> Hstatus]%lift_run & Hrun).
  apply bind_run in Hrun as (t & ? & Hevent & Hrun).
  apply calm_same in Hevent as Hsame; [|unfold driftEvent; script].
  apply bind_run in Hrun as (s1 & ? & ->%SaveResource_full & Hrun).
  pose proof (lw_resources _ Hs _ _ Hr) as Hid. destruct Hsame as [Hrs Hos].
  eapply moved_then; [done| | |exact Hrun].
  2: { apply keeps_after; [apply complete_permitted|intros _; apply keeps_calm; script]. }
  apply (moved_resource s _ (om_ResourceID message) r (r <| rr_Status := status |>
    <| rr_Version := u64_incr (rr_Version r) |>)); cbn; [done..| | |].
  - by rewrite Hrs, Hid.
  - done.
  - intros k o (Ho & Hoid & _). eapply moves_observed; [|done]. by eapply Hactive.
Qed.

(** *** The drive *)

Lemma driveUnit_moved at_ message s s' :
  integrity s → lawful s → driveUnit at_ message s = (s', Ok tt) → moved s s'.
Proof.
  intros Hi Hs Hrun. destruct (driveUnit_spec _ _ _ _ Hi Hrun) as (o & r & Ho & Hr & Hdriven).
  pose proof (lw_operations _ Hs _ _ Ho) as Hid. pose proof (lw_resources _ Hs _ _ Hr) as Hrid.
  rewrite <- Hid in Ho.
  destruct Hdriven as [_ Hm|next e gate _ _ _ _ [(t & status & Ht & Hops & Hress & _ & Hset) _]
    |e ev Hact _ _ _ [(status & reason & Hset & Hress) Hops _ _ _]
    |e ev _ _ _ _ [(status & condition & reason & text & t & Hset & Ht & Hops & Hress) _ _]].
  - apply moved_same. by rewrite Hm.
  - pose proof (Advance_inv _ _ _ _ _ _ _ Ht) as (_ & Hstep & _).
    pose proof (Advance_facts _ _ _ _ Hstep) as (Hact & _ & Hinit & Hat).
    eapply (moved_settle s s' _ o); [done..|by rewrite <- Hrid|done|done|done|].
    destruct (moves_advance _ _ _ _ _ _ _ Ht) as [Hw' Hst].
    destruct gate; [|by subst status]. etrans; [exact Hw'|].
    eapply moves_dependency; [done|lia|cbn; intros; lia].
  - eapply (moved_settle s s' _ o); [done..|by rewrite <- Hrid|done|done|done|].
    eapply moves_dependency; [done|intros rt Hw; by apply (tm_drive _ _ Hw)|done].
  - pose proof (BuildFinishEvidence_operation _ _ _ _ _ _ Ht) as (_ & Hact & Hinit & _)%Fail_facts.
    eapply (moved_settle s s' _ o); [done..|by rewrite <- Hrid|done|done|done|].
    etrans; [|by eapply moves_finish].
    eapply moves_dependency; [done|intros rt Hw; by apply (tm_drive _ _ Hw)|done].
Qed.
End units.

(** *** Admission *)

Lemma Request_timely r rt st latest capability opID evID at_ t :
  Engine_Request r rt st latest capability opID evID at_ = Ok t →
  (st_updatedAt (r_Status t) ≤ op_phaseChangedAt (r_Operation t) + 1)%Z.
Proof.
  intros (retry & retryOf & target & _ & Hno & [_ _ _ _ Hat _])%Request_inv.
  apply new_operation_facts in Hno as (_ & _ & _ & _ & Hphase & _). lia.
Qed.

Lemma created_timely rt w :
  created rt w → (st_updatedAt (w_status w) ≤ op_phaseChangedAt (w_latest w) + 1)%Z.
Proof. intros [? ? ? ? ? ? ? ? ? _ _ Ht]. by eapply Request_timely. Qed.

(** The world an admitted request leaves behind. *)
Lemma admitted_timely s record o version sequence :
  lawful s → engine_admitted s record o →
  ∃ rt, timely rt (world_of record
    {| opr_Operation := o; opr_Sequence := sequence; opr_Version := version |}).
Proof.
  intros Hs [rt _ Hc|rt stored latest capability opID evID at_ t Hr Hspec Ht Hst -> Hl].
  - exists rt. split; [by apply created_coherent|]. intros _. by apply created_timely in Hc.
  - exists rt. destruct (lw_worlds _ Hs _ _ Hr) as (rt0 & k0 & o0 & _ & [Hw0 _]).
    assert (resource_reachable (rr_Resource record)) as Hreach.
    { destruct Hspec as [->|(spec & t0 & Hu)]; [apply (coh_resource _ _ Hw0)|].
      eapply resource_updated; [apply (coh_resource _ _ Hw0)|done]. }
    unfold world_of. rewrite Hst. split; cbn; [|intros _; by eapply Request_timely].
    pose proof (Request_inv _ _ _ _ _ _ _ _ _ Ht) as (? & ? & ? & [Hctx _ _ _ _ _ _] & _).
    apply validateResourceContext_ok in Hctx as [Htype _].
    eapply (Request_coherent rt (rr_Resource record)); [done|done| |exact Ht].
    intros l Hll. destruct (Hl _ Hll) as [-> _].
    pose proof (resource_reachable_wf _ Hreach) as (_ & _ & _ & ?). lia.
Qed.

Lemma admitted_lawful r s s' res :
  integrity s → lawful s → admitted r s s' res → lawful s'.
Proof.
  intros Hi Hs Ha. pose proof Hs as [Hrs Hos Hws]. destruct (ad_resource _ _ _ _ Ha) as (Hid & Hrec & Hoth).
  pose proof (ad_new _ _ _ _ Ha) as Hnew. pose proof (ad_operations _ _ _ _ Ha) as Hops.
  split.
  - intros id x Hx. destruct (decide (id = op_resourceID (ar_Operation res))) as [->|Hne];
      [congruence|]. apply Hrs. by rewrite <- Hoth.
  - intros id x. rewrite Hops. intros [[<- <-]|[_ Hx]]%lookup_insert_Some; [done|by apply Hos].
  - intros id x Hx. destruct (decide (id = op_resourceID (ar_Operation res))) as [->|Hne].
    + replace x with (ar_Resource res) in * by congruence. clear Hx.
      destruct (admitted_timely s _ _ 1 (u64_incr (nextOperationSequence s)) Hs
        (ad_engine _ _ _ _ Ha)) as [rt Hw].
      exists rt, (op_id (ar_Operation res)), {| opr_Operation := ar_Operation res;
        opr_Sequence := u64_incr (nextOperationSequence s); opr_Version := 1 |}.
      split; [|done]. unfold determines. rewrite Hops. split_and!; [by rewrite lookup_insert_eq|done|].
      intros k p [[<- _]|[_ Hp]]%lookup_insert_Some Hr Hne; [done|].
      by eapply (ad_idle _ _ _ _ Ha).
    + rewrite Hoth in Hx by done. destruct (Hws _ _ Hx) as (rt & k & o & (Hk & Hro & Hother) & Hw).
      exists rt, k, o. split; [|done]. unfold determines. rewrite Hops.
      assert (k ≠ op_id (ar_Operation res)) by congruence.
      split_and!; [by rewrite lookup_insert_ne|done|].
      intros k' p [[<- <-]|[_ Hp]]%lookup_insert_Some ??; [done|by eapply Hother].
Qed.

Lemma rolled_back_same s s' : rolled_back s s' → same_lifecycle s s'.
Proof. by intros ->. Qed.

(** Serving a request admits it or leaves the resources as they are. *)
Lemma serve_cases `{order : MapOrder} (ports : Ports) r s :
  integrity s →
  same_lifecycle s (serve r s).1 ∨ ∃ res, admitted r s (serve r s).1 res.
Proof.
  intros Hi. destruct (serve r s) as [s' out] eqn:Hrun. cbn.
  assert (is_ok out = false → same_lifecycle s s') as Hfailed.
  { intros Hout. destruct (admit_shape r) as [Href|Hw].
    - destruct (Href s) as [Hsame _]. rewrite Hrun in Hsame. cbn in Hsame. by subst.
    - apply rolled_back_same. pose proof (Within_rolled_back (request_unit r) s) as Hback.
      rewrite <- Hw, Hrun in Hback. by apply Hback. }
  destruct out as [res|e|p]; [|left; by apply Hfailed..].
  destruct (admit_run _ _ _ _ Hi Hrun) as [[-> _]|(_ & Ha & _)]; [by left|]. right. eauto.
Qed.

(** ** Every unit of a call *)

(** The units a call may still run satisfy the predicate. *)
Fixpoint job_units {V} (P : ∀ B, (Moment → tx B) → Prop) (j : flow V) : Prop :=
  match j with
  | Ends _ => True
  | Transact unit_ next => P _ unit_ ∧ ∀ r, job_units P (next r)
  | Submitting _ _ _ next => ∀ reply, job_units P (next reply)
  | Observing _ _ _ next => ∀ reply, job_units P (next reply)
  end.

Section run_units.
Context {order : MapOrder} {worker : Composition} (P : ∀ B, (Moment → tx B) → Prop).
Abbreviation calm := (scripted (worker_rights True False)).
Hypothesis P_calm : ∀ B (unit_ : Moment → tx B), (∀ m, calm (unit_ m)) → P B unit_.
Hypothesis P_drive : ∀ message, P _ (λ m, driveUnit m message).
Hypothesis P_dispatch : ∀ message version submission submitErr,
  P _ (λ m, recordDispatch m message version submission submitErr).
Hypothesis P_observation : ∀ message loaded observation,
  P _ (λ m, recordObservation m message loaded observation).
Hypothesis P_passive : ∀ token message loaded observation,
  P _ (λ m, recordPassive m token message loaded observation).
Abbreviation units := (job_units P).

Lemma units_within {B} (unit_ : Moment → tx B) fail k :
  P B unit_ → (∀ e, units (fail e)) → (∀ x, units (k x)) → units (within unit_ fail k).
Proof. intros Hu Hf Hk. split; [done|]. intros r. by destruct r. Qed.

Lemma units_calm {B} (unit_ : Moment → tx B) fail k :
  (∀ m, calm (unit_ m)) → (∀ e, units (fail e)) → (∀ x, units (k x)) →
  units (within unit_ fail k).
Proof. intros Hu. apply units_within, P_calm, Hu. Qed.

Lemma units_andThen {V W} (j : flow V) (k : V → flow W) : units j → (∀ v, units (k v)) → units (andThen j k).
Proof.
  intros Hj Hk. induction j as [v|B u next IH|p r f next IH|p r f next IH]; cbn in *; auto.
  destruct Hj as [? ?]. split; [done|]. auto.
Qed.

Lemma units_heartbeat message n interrupted next :
  (∀ e, units (next e)) → units (heartbeat message n interrupted next).
Proof.
  intros Hn. induction n as [|n IH]; cbn [heartbeat].
  - case_match; [done|]. apply units_calm; [|done..]. intros m. apply sc_RenewOutbox.
  - apply units_calm; [|done..]. intros m. apply sc_RenewOutbox.
Qed.

Lemma units_resolved ref k : (∀ p, units (k p)) → units (resolved ref k).
Proof. intros Hk. unfold resolved. by repeat case_match. Qed.

Lemma units_dispatch message : units (dispatch message).
Proof.
  unfold dispatch, prepareDispatch.
  apply units_calm; [intros; apply prepare_permitted|done|]. intros loaded.
  apply units_resolved. intros provider.
  apply units_calm; [intros; apply acquire_permitted|done|]. intros prepared.
  apply units_calm; [intros; apply sc_RenewOutbox|done|]. intros _ reply.
  apply units_heartbeat. intros e.
  assert (∀ sub err, units (recordSubmissionJob message (pe_Version prepared) sub err)) as Hrecord.
  { intros. apply units_within; [apply P_dispatch| |done]. intros e'.
    apply units_calm; [intros; apply markUnknown_permitted|done..]. }
  unfold submitted. repeat case_match; try done; try apply Hrecord.
  apply units_calm; [|done..]. intros m. by apply notAttempted_permitted.
Qed.

Lemma units_observing message provider request k :
  (∀ observation, units (k observation)) →
  units (observeWithHeartbeat message provider request k).
Proof.
  intros Hk. apply units_calm; [intros; apply sc_RenewOutbox|done|]. intros _ reply.
  apply units_heartbeat. intros e. by repeat case_match.
Qed.

Lemma units_observe message : units (observe message).
Proof.
  apply units_calm; [intros; apply observeUnit_permitted|done|]. intros [loaded request].
  apply units_resolved. intros provider. apply units_observing. intros observation.
  do 2 (case_match; [done|]). by apply units_within.
Qed.

Lemma units_passiveObserve token message : units (passiveObserve token message).
Proof.
  apply units_calm; [intros; apply passiveUnit_permitted|done|]. intros [loaded|]; [|done].
  apply units_resolved. intros provider. apply units_observing. intros observation.
  by apply units_within.
Qed.

Lemma units_wakeFrom pages message cursor : units (wakeFrom pages message cursor).
Proof.
  revert cursor. induction pages as [|n IH]; intros cursor; [done|].
  apply units_calm; [intros; apply wakePage_permitted|done|]. intros next.
  case_match; [|apply IH]. apply units_calm; [intros; apply wakeFinished_permitted|done..].
Qed.

Lemma units_settleFailure message v : units (settleFailure message v).
Proof.
  assert (∀ u e format, (∀ m, calm (u m)) → units (settledBy u e format)) as Hsettled.
  { intros. apply units_calm; [done|intros; by case_match|done]. }
  destruct v as [| |[e| | |]| |]; try exact I. cbn [settleFailure].
  case_match; apply Hsettled; intros m;
    [apply sc_RetryOutbox|apply sc_CompleteOutbox|apply sc_DeadOutbox].
Qed.

Lemma RunOnce_units leaseToken driftToken pages : units (RunOnce leaseToken driftToken pages).
Proof.
  apply units_calm; [intros; by apply recoverExpired_permitted|done|]. intros [|]; [done|].
  apply units_calm; [intros; apply sc_ClaimOutbox|done|]. intros [message|]; [|done].
  apply units_andThen; [|apply units_settleFailure]. unfold handle. repeat case_match; try done.
  - by apply units_within.
  - apply units_dispatch.
  - apply units_observe.
  - apply units_passiveObserve.
  - apply units_wakeFrom.
Qed.

Lemma units_observeItems items k : units k → units (observeItems items k).
Proof.
  intros Hk. induction items as [|item items IH]; [done|]. cbn [observeItems].
  case_match; [|done]. apply units_calm; [intros; apply observeItem_permitted|done..].
Qed.

Lemma scheduled_units c : units (schedulingCall c).
Proof.
  destruct c as [pages| | |].
  - cbn. unfold schedulePassiveObservations. generalize 0%N as sequence.
    induction pages as [|n IH]; intros sequence; [done|].
    apply units_calm; [intros; apply listing_permitted|done|]. intros page.
    apply units_observeItems. by case_match.
  - apply units_calm; [intros; apply passive_permitted|done..].
  - apply units_calm; [intros; apply schedulePassive_permitted|done..].
  - apply units_calm; [intros; apply scheduleOperation_permitted|done..].
Qed.
End run_units.

(** ** The system *)

Section system_coherence.
Context {order : MapOrder} {worker : Composition}.
Context (admissible : ExecutionRequest → CallReply Submission → Prop).

(** A transaction by which every resource goes on. *)
Definition preserving (B : Type) (unit_ : Moment → tx B) : Prop :=
  ∀ m s, integrity s → lawful s → moved s (Within (unit_ m) s).1.

Lemma preserving_run {B} (unit_ : Moment → tx B) :
  (∀ m s s' x, integrity s → lawful s → unit_ m s = (s', Ok x) → moved s s') →
  preserving B unit_.
Proof.
  intros Hu m s Hi Hs. destruct (Within (unit_ m) s) as [s' out] eqn:Hrun. cbn.
  destruct (is_ok out) eqn:Hok.
  - destruct out as [x| |]; [|done..]. apply (proj1 (Within_run _ _ _ _)) in Hrun. by eapply Hu.
  - apply moved_same, rolled_back_same.
    pose proof (Within_rolled_back (unit_ m) s) as Hback. rewrite Hrun in Hback. by apply Hback.
Qed.

Lemma keeps_preserving {B} (unit_ : Moment → tx B) :
  (∀ m, keeps (unit_ m)) → preserving B unit_.
Proof. intros Hk. apply preserving_run. intros m s s' x _. apply Hk. Qed.

Lemma RunOnce_preserving leaseToken driftToken pages :
  job_units preserving (RunOnce leaseToken driftToken pages).
Proof.
  apply RunOnce_units.
  - intros B unit_ Hu. apply keeps_preserving. intros m. by apply keeps_calm.
  - intros message. apply preserving_run. intros m s s' []. apply driveUnit_moved.
  - intros. apply keeps_preserving. intros m. apply recordDispatch_keeps.
  - intros. apply keeps_preserving. intros m. apply recordObservation_keeps.
  - intros. apply keeps_preserving. intros m. apply recordPassive_keeps.
Qed.

Lemma scheduled_preserving c : job_units preserving (schedulingCall c).
Proof.
  apply scheduled_units. intros B unit_ Hu. apply keeps_preserving. intros m. by apply keeps_calm.
Qed.

Record orderly (sys : System) : Prop := {
  od_store : lawful (sys_store sys);
  od_jobs : Forall (job_units preserving : job → Prop) (sys_jobs sys) }.

Lemma replace_orderly before j j' after :
  Forall (job_units preserving : job → Prop) (before ++ j :: after)%list →
  (job_units preserving j → job_units preserving j') →
  Forall (job_units preserving : job → Prop) (before ++ j' :: after)%list.
Proof. rewrite !Forall_app, !Forall_cons. tauto. Qed.

(** What a step of the system does to the resources. *)
Lemma step_store sys sys' :
  integrity (sys_store sys) → sys_step admissible sys sys' → orderly sys →
  moved (sys_store sys) (sys_store sys') ∨
  ∃ r res, admitted r (sys_store sys) (sys_store sys') res.
Proof.
  intros Hi Hstep [Hs Hj]. destruct Hstep as
    [ports r|ports operators cmd target| | |B unit_ next before after m s' r Hjobs Hrun| | |];
    try (by left; apply moved_same).
  - destruct (serve_cases ports r _ Hi) as [Hsame|[res Ha]]; [left; by apply moved_same|right; eauto].
  - left. apply moved_same. by destruct (@operate_rows _ ports operators cmd target _ Hi) as (? & ? & _).
  - left. rewrite Hjobs in Hj. apply Forall_app in Hj as [_ [[Hu _] _]%Forall_cons].
    specialize (Hu m _ Hi Hs). by rewrite Hrun in Hu.
Qed.

Lemma step_orderly sys sys' :
  integrity (sys_store sys) → sys_step admissible sys sys' → orderly sys → orderly sys'.
Proof.
  intros Hi Hstep Hsys. split.
  { pose proof (od_store _ Hsys) as Hs.
    destruct (step_store _ _ Hi Hstep Hsys) as [Hm|(r & res & Ha)];
      [by eapply moved_lawful|by eapply admitted_lawful]. }
  destruct Hsys as [_ Hj]. destruct Hstep as
    [ports r|ports operators cmd target|leaseToken driftToken pages|c|B unit_ next before after m s' r Hjobs Hrun
    |p request f next before after reply Hjobs Hadm|p request f next before after reply Hjobs
    |j before after Hjobs]; try rewrite Hjobs in Hj; cbn.
  - done.
  - done.
  - constructor; [apply RunOnce_preserving|done].
  - constructor; [apply scheduled_preserving|done].
  - eapply replace_orderly; [done|]. by intros [_ ?].
  - eapply replace_orderly; [done|]. by intros ?.
  - eapply replace_orderly; [done|]. by intros ?.
  - apply Forall_app in Hj as [? [_ ?]%Forall_cons]. by apply Forall_app.
Qed.

Lemma reachable_orderly sys : sys_reachable admissible sys → orderly sys.
Proof.
  revert sys. refine (rtc_ind_r orderly NewSystem _ _).
  - split; [|constructor]. by split; cbn; intros *; rewrite lookup_empty.
  - intros sys sys' Hr Hstep IH. eapply step_orderly; [|exact Hstep|exact IH].
    apply (reachable_accounted True) in Hr as [Hserved _ _]; [|done..].
    by apply served_integrity.
Qed.

(** C3: The running system keeps every resource coherent.  In every system that
    requests, workers, providers and crashes can reach, however they interleave,
    each resource has one operation that determines it: all its other operations
    have ended, and the resource, its status and that operation agree. The
    status reports an operation under way exactly when that operation has not
    ended, with its capability and its generation; it is well-formed and never
    ahead of the desired generation; a resource is Deleted only after a deletion
    has succeeded, and Failed only after a creation or a deletion has failed. *)
Theorem system_coherent sys id r :
  sys_reachable admissible sys → resources (sys_store sys) !! id = Some r →
  ∃ rt k o, determines (sys_store sys) id k o ∧ coherent rt (world_of r o).
Proof.
  intros [Hs _]%reachable_orderly Hr.
  destruct (lw_worlds _ Hs _ _ Hr) as (rt & k & o & Hd & [Hw _]). eauto.
Qed.
End system_coherence.

#[local] Existing Instances Idempotency.sample_order Scenario.sample_worker.

Lemma system_coherent_witness :
  ∃ r, resources (sys_store sample_run) !! "r-1" = Some r ∧
    ∃ rt k o, determines (sys_store sample_run) "r-1" k o ∧ coherent rt (world_of r o).
Proof.
  refine (ex_intro _ (default (ar_Resource sample_admitted)
    (resources (sys_store sample_run) !! "r-1")) _).
  assert (resources (sys_store sample_run) !! "r-1" =
    Some (default (ar_Resource sample_admitted) (resources (sys_store sample_run) !! "r-1"))) as Hr
    by (vm_compute; reflexivity).
  exact (conj Hr (system_coherent sample_admissible sample_run "r-1" _ sample_run_reachable Hr)).
Defined.
