(* ===== verification/Refinement.v ===== *)
(** * The system refines the lifecycles of its resources

    The specification of Liftr is a [platform]: the worlds of [Lifecycle], one
    per resource, of which one at a time begins or takes a transition of its
    lifecycle.  The running system, with its tables, messages, leases and
    concurrent calls, is mapped to the platform by [platform_of]; every step of
    the system is a sequence of steps of the platform. *)

From S2P Require Import Prelude Operation Values Resource Status Provisioning Records.
From S2P Require Import Engine Submission Outputs Contracts References Dependencies Policy.
From S2P Require Import Text Work Outbox Lifecycle Store History Rights Evidence Admission Idempotency.
From S2P Require Import Handlers Worker WorkerRights System Scenario Driving Coherence.
Open Scope string_scope.
Open Scope go_scope.

(** ** The specification *)

Abbreviation platform := (gmap ResourceID world).

Inductive platform_step (P : platform) : platform → Prop :=
  | ps_begins id rt w :
      P !! id = None → created rt w → res_id (w_resource w) = id →
      platform_step P (<[id := w]> P)
  | ps_goes_on id rt w w' :
      P !! id = Some w → step rt w w' → platform_step P (<[id := w']> P).

Lemma platform_moves (P : platform) id rt w w' :
  P !! id = Some w → rtc (step rt) w w' → rtc platform_step P (<[id := w']> P).
Proof.
  intros Hid Hsteps. revert P Hid. induction Hsteps as [w|w w1 w2 Hstep _ IH]; intros P Hid.
  - by rewrite insert_id.
  - eapply rtc_l; [by eapply ps_goes_on|]. rewrite <- (insert_insert_eq P id w2 w1).
    apply IH. by rewrite lookup_insert_eq.
Qed.

(** Every world of the platform may go on. *)
Lemma platform_moves_all (P P' : platform) :
  dom P' =@{gset ResourceID} dom P →
  (∀ id w w', P !! id = Some w → P' !! id = Some w' → ∃ rt, rtc (step rt) w w') →
  rtc platform_step P P'.
Proof.
  intros Hdom Hmoves.
  assert (∀ (l : list ResourceID) (Q : platform), dom Q =@{gset ResourceID} dom P' →
    (∀ id w, Q !! id = Some w → P !! id = Some w ∨ P' !! id = Some w) →
    (∀ id, id ∈ l ∨ Q !! id = P' !! id) → rtc platform_step Q P') as Hall.
  { induction l as [|id l IH]; intros Q HQ Hof Hin.
    - assert (Q = P') as ->; [|reflexivity]. apply map_eq. intros i.
      by destruct (Hin i) as [?%not_elem_of_nil|].
    - destruct (Q !! id) as [w|] eqn:Hw; cycle 1.
      { apply IH; [done..|]. intros i. destruct (Hin i) as [[->|]%elem_of_cons|]; [right|by left|by right].
        rewrite Hw. symmetry. apply not_elem_of_dom. rewrite <- HQ. by apply not_elem_of_dom. }
      pose proof (elem_of_dom_2 _ _ _ Hw) as Hid. rewrite HQ in Hid.
      apply elem_of_dom in Hid as [w' Hw'].
      etrans; [|apply (IH (<[id := w']> Q))].
      + destruct (Hof _ _ Hw) as [Hw0|Hw0].
        * destruct (Hmoves _ _ _ Hw0 Hw') as [rt Hsteps]. by eapply platform_moves.
        * by rewrite insert_id by congruence.
      + rewrite dom_insert_L. apply elem_of_dom_2 in Hw. set_solver.
      + intros i x [[<- <-]|[_ Hx]]%lookup_insert_Some; [by right|by apply Hof].
      + intros i. destruct (decide (id = i)) as [<-|Hne]; [right; by rewrite lookup_insert_eq|].
        rewrite lookup_insert_ne by done. destruct (Hin i) as [[->|]%elem_of_cons|]; [done|by left|by right]. }
  apply (Hall (elements (dom P : gset ResourceID))); [done|by left|]. intros id.
  destruct (P !! id) eqn:E; [left; apply elem_of_elements; by eapply elem_of_dom_2|].
  right. apply not_elem_of_dom in E. rewrite <- Hdom in E. apply not_elem_of_dom in E. by rewrite E.
Qed.

(** ** The mapping *)

(** The operation of the resource that was created last. *)
Definition latestOperation (s : Store) (id : ResourceID) : option OperationRecord :=
  foldl (latestTurn id) None (map_to_list (operations s)).*2.

Definition platform_of (s : Store) : platform :=
  map_imap (λ id r, world_of r <$> latestOperation s id) (resources s).

(** The operations are numbered in the order of their creation, and the one
    that determines a resource is its last. *)
Record numbered (s : Store) : Prop := {
  nb_bound k o : operations s !! k = Some o → (opr_Sequence o ≤ nextOperationSequence s)%N;
  nb_distinct k k' o o' : operations s !! k = Some o → operations s !! k' = Some o' →
    opr_Sequence o = opr_Sequence o' → k = k';
  nb_last id r : resources s !! id = Some r →
    ∃ rt k o, determines s id k o ∧ timely rt (world_of r o) ∧
      ∀ k' o', operations s !! k' = Some o' → op_resourceID (opr_Operation o') = id →
        (opr_Sequence o' ≤ opr_Sequence o)%N }.

Lemma latestOperation_spec s id k o :
  numbered s → operations s !! k = Some o → op_resourceID (opr_Operation o) = id →
  (∀ k' o', operations s !! k' = Some o' → op_resourceID (opr_Operation o') = id →
     (opr_Sequence o' ≤ opr_Sequence o)%N) →
  latestOperation s id = Some o.
Proof.
  intros Hs Ho Hid Hmax. unfold latestOperation.
  pose proof (latestTurn_spec id (map_to_list (operations s)).*2 None) as Hspec.
  assert (∀ i p, operations s !! i = Some p → p ∈ (map_to_list (operations s)).*2) as Hin.
  { intros i p Hp. apply list_elem_of_fmap. exists (i, p). split; [done|].
    by apply elem_of_map_to_list. }
  assert (of_resource id o = true) as Hof by by apply bool_decide_eq_true.
  destruct (foldl _ _ _) as [last|].
  - destruct Hspec as ([Hl|] & Hlof & Hlmax); [done| |done].
    apply list_elem_of_fmap in Hl as ([k' last'] & -> & Hl). apply elem_of_map_to_list in Hl. cbn in *.
    apply bool_decide_eq_true in Hlof. specialize (Hmax _ _ Hl Hlof).
    specialize (Hlmax o (or_introl (Hin _ _ Ho)) Hof).
    assert (k = k') as <- by (eapply (nb_distinct _ Hs); [done..|lia]). congruence.
  - destruct Hspec as [_ Hnone]; [done|]. rewrite (Hnone o (Hin _ _ Ho)) in Hof. done.
Qed.

Lemma platform_lookup s id r :
  numbered s → resources s !! id = Some r →
  ∃ rt k o, determines s id k o ∧ timely rt (world_of r o) ∧ latestOperation s id = Some o ∧
    platform_of s !! id = Some (world_of r o).
Proof.
  intros Hs Hr. destruct (nb_last _ Hs _ _ Hr) as (rt & k & o & Hd & Hw & Hmax).
  pose proof Hd as (Hk & Hid & _). pose proof (latestOperation_spec _ _ _ _ Hs Hk Hid Hmax) as Hl.
  exists rt, k, o. split_and!; [done..|]. unfold platform_of. by rewrite map_lookup_imap, Hr, Hl.
Qed.

Lemma platform_absent s id : resources s !! id = None → platform_of s !! id = None.
Proof. intros Hr. unfold platform_of. by rewrite map_lookup_imap, Hr. Qed.

Lemma platform_dom s : numbered s → dom (platform_of s) =@{gset ResourceID} dom (resources s).
Proof.
  intros Hs. apply set_eq. intros id. rewrite !elem_of_dom. destruct (resources s !! id) as [r|] eqn:Hr.
  - destruct (platform_lookup _ _ _ Hs Hr) as (? & ? & ? & _ & _ & _ & ->). split; by eexists.
  - rewrite platform_absent by done. split; by intros [].
Qed.

(** ** The steps of the store *)

Lemma moved_numbered s s' :
  numbered s → moved s s' → (nextOperationSequence s ≤ nextOperationSequence s')%N → numbered s'.
Proof.
  intros Hs Hm Hle. split.
  - intros k o' (o & Ho & _ & -> & _)%(mv_operations _ _ Hm). apply (nb_bound _ Hs) in Ho. lia.
  - intros k k' o o' (p & Hp & _ & -> & _)%(mv_operations _ _ Hm)
      (p' & Hp' & _ & -> & _)%(mv_operations _ _ Hm). by eapply (nb_distinct _ Hs).
  - intros id r' Hr'. destruct (proj1 (mv_present _ _ Hm id) (ex_intro _ r' Hr')) as [r Hr].
    destruct (nb_last _ Hs _ _ Hr) as (rt & k & o & Hd & Hw & Hmax).
    destruct (mv_worlds _ _ Hm _ _ _ _ _ Hr Hr' Hd) as (o' & Ho' & Hmoves).
    exists rt, k, o'. split_and!; [by eapply moved_determines|by apply Hmoves|].
    destruct (mv_operations _ _ Hm _ _ Ho') as (p & Hp & _ & -> & _).
    destruct Hd as (Ho & _). replace p with o by congruence.
    intros k' q' (q & Hq & (_ & Hqid & _)%initial_eq & -> & _)%(mv_operations _ _ Hm) Hq'.
    eapply Hmax; [done|congruence].
Qed.

Lemma moved_platform s s' :
  numbered s → numbered s' → moved s s' → rtc platform_step (platform_of s) (platform_of s').
Proof.
  intros Hs Hs' Hm. apply platform_moves_all.
  - rewrite !platform_dom by done. apply set_eq. intros id.
    by rewrite !elem_of_dom, (mv_present _ _ Hm).
  - intros id w w' Hw Hw'.
    destruct (resources s !! id) as [r|] eqn:Hr; [|by rewrite platform_absent in Hw].
    destruct (proj2 (mv_present _ _ Hm id) (ex_intro _ r Hr)) as [r' Hr'].
    destruct (nb_last _ Hs _ _ Hr) as (rt & k & o & Hd & Ht & Hmax).
    pose proof Hd as (Hk & Hid & _).
    pose proof (latestOperation_spec _ _ _ _ Hs Hk Hid Hmax) as Hl.
    destruct (mv_worlds _ _ Hm _ _ _ _ _ Hr Hr' Hd) as (o' & Ho' & Hmoves).
    destruct (mv_operations _ _ Hm _ _ Ho') as (p & Hp & (_ & Hpid & _)%initial_eq & Hseq & _).
    replace p with o in * by congruence.
    assert (latestOperation s' id = Some o') as Hl'.
    { apply (latestOperation_spec _ _ k); [done..|congruence|].
      intros k' q' (q & Hq & (_ & Hqid & _)%initial_eq & -> & _)%(mv_operations _ _ Hm) Hq'.
      rewrite Hseq. eapply Hmax; [done|congruence]. }
    unfold platform_of in Hw, Hw'. rewrite map_lookup_imap, Hr in Hw.
    rewrite map_lookup_imap, Hr' in Hw'. cbn in Hw, Hw'. rewrite Hl in Hw. rewrite Hl' in Hw'.
    cbn in Hw, Hw'. simplify_eq. exists rt. by apply Hmoves.
Qed.

Lemma unwrapped n : (n ≤ u64_incr n)%N → u64_incr n = (n + 1)%N.
Proof.
  unfold u64_incr, two64. intros Hle. pose proof (N.mod_lt (n + 1) 18446744073709551616).
  apply N.mod_small. assert (n + 1 ≠ 18446744073709551616)%N; [|lia].
  intros E. rewrite E, N.Div0.mod_same in Hle. lia.
Qed.

(** The operation of an admitted request is the last of its resource. *)
Lemma admitted_numbered r s s' res :
  numbered s → lawful s → admitted r s s' res →
  (nextOperationSequence s ≤ nextOperationSequence s')%N → numbered s'.
Proof.
  intros Hs Hlaw Ha Hle. pose proof (ad_new _ _ _ _ Ha) as Hnew.
  pose proof (ad_operations _ _ _ _ Ha) as Hops. pose proof (ad_sequence _ _ _ _ Ha) as Hseq.
  rewrite Hseq in Hle. pose proof (unwrapped _ Hle) as Hnext. rewrite Hnext in Hops, Hseq.
  destruct (ad_resource _ _ _ _ Ha) as (Hid & Hrec & Hoth). split.
  - intros k o. rewrite Hops, Hseq. intros [[_ <-]|[_ Ho%(nb_bound _ Hs)]]%lookup_insert_Some; cbn; lia.
  - intros k k' o o'. rewrite Hops.
    intros [[<- <-]|[_ Ho]]%lookup_insert_Some [[<- <-]|[_ Ho']]%lookup_insert_Some; cbn; intros E.
    + done.
    + apply (nb_bound _ Hs) in Ho'. lia.
    + apply (nb_bound _ Hs) in Ho. lia.
    + by eapply (nb_distinct _ Hs).
  - intros id x Hx. destruct (decide (id = op_resourceID (ar_Operation res))) as [->|Hne].
    + replace x with (ar_Resource res) in * by congruence.
      destruct (admitted_timely s _ _ 1 (nextOperationSequence s + 1) Hlaw (ad_engine _ _ _ _ Ha))
        as [rt Hw].
      eexists rt, (op_id (ar_Operation res)), _. split_and!; [|exact Hw|].
      * unfold determines. rewrite Hops. split_and!; [by rewrite lookup_insert_eq|done|].
        intros k p [[<- _]|[_ Hp]]%lookup_insert_Some Hr Hn; [done|].
        by eapply (ad_idle _ _ _ _ Ha).
      * rewrite Hops. intros k p [[_ <-]|[_ Hp%(nb_bound _ Hs)]]%lookup_insert_Some _; cbn; lia.
    + rewrite Hoth in Hx by done. destruct (nb_last _ Hs _ _ Hx) as (rt & k & o & (Hk & Hro & Hother) & Hw & Hmax).
      assert (k ≠ op_id (ar_Operation res)) by congruence.
      exists rt, k, o. unfold determines. rewrite Hops. split_and!; [by rewrite lookup_insert_ne|done| |done|].
      * intros k' p [[<- <-]|[_ Hp]]%lookup_insert_Some ??; [done|by eapply Hother].
      * intros k' p [[<- <-]|[_ Hp]]%lookup_insert_Some Hp'; [done|by eapply Hmax].
Qed.

Lemma last_is_latest s id k o last :
  numbered s → operations s !! k = Some o → op_resourceID (opr_Operation o) = id →
  (∀ k' o', operations s !! k' = Some o' → op_resourceID (opr_Operation o') = id →
     (opr_Sequence o' ≤ opr_Sequence o)%N) →
  last_created s id last → last = o.
Proof.
  intros Hs Ho Hid Hmax (Hlast & Hlid & Hlmax). specialize (Hmax _ _ Hlast Hlid).
  specialize (Hlmax _ _ Ho Hid).
  assert (k = op_id (opr_Operation last)) as -> by (eapply (nb_distinct _ Hs); [done..|lia]).
  congruence.
Qed.

Lemma admitted_platform r s s' res :
  numbered s → numbered s' → lawful s → admitted r s s' res →
  rtc platform_step (platform_of s) (platform_of s').
Proof.
  intros Hs Hs' Hlaw Ha. pose proof (ad_new _ _ _ _ Ha) as Hnew.
  pose proof (ad_operations _ _ _ _ Ha) as Hops.
  destruct (ad_resource _ _ _ _ Ha) as (Hid & Hrec & Hoth).
  set (id := op_resourceID (ar_Operation res)) in *.
  set (w' := {| w_resource := rr_Resource (ar_Resource res); w_status := rr_Status (ar_Resource res);
                w_latest := ar_Operation res |}).
  assert (platform_of s' = <[id := w']> (platform_of s)) as ->.
  { apply map_eq. intros i. destruct (decide (id = i)) as [<-|Hne].
    - destruct (platform_lookup _ _ _ Hs' Hrec) as (rt & k & o & (Hk & Hko & Hother) & _ & _ & ->).
      rewrite lookup_insert_eq. rewrite Hops in Hk, Hother.
      apply lookup_insert_Some in Hk as [[_ <-]|[Hne Hk]]; [done|].
      pose proof (Hother _ _ (lookup_insert_eq _ _ _) eq_refl Hne) as Hend. cbn in Hend.
      by rewrite (ad_active _ _ _ _ Ha) in Hend.
    - rewrite lookup_insert_ne by done.
      destruct (resources s !! i) as [x|] eqn:Hx; cycle 1.
      { assert (resources s' !! i = None) by by rewrite Hoth. by rewrite !platform_absent. }
      assert (resources s' !! i = Some x) as Hx' by by rewrite Hoth.
      destruct (platform_lookup _ _ _ Hs Hx) as (_ & k & o & (Hk & Hko & _) & _ & Hlast & ->).
      destruct (nb_last _ Hs' _ _ Hx') as (_ & k' & o' & (Hk' & Hko' & _) & _ & Hmax).
      pose proof (latestOperation_spec _ _ _ _ Hs' Hk' Hko' Hmax) as Hlast'.
      unfold platform_of. rewrite map_lookup_imap, Hx'. cbn. rewrite Hlast'. cbn.
      rewrite Hops in Hk', Hmax.
      apply lookup_insert_Some in Hk' as [[_ <-]|[Hnk Hk']]; [by destruct Hne|].
      assert (latestOperation s i = Some o') as E; [|by rewrite E in Hlast; simplify_eq].
      apply (latestOperation_spec _ _ k'); [done..|]. intros j p Hp Hpi.
      apply (Hmax j p); [|done]. rewrite lookup_insert_ne; [done|congruence]. }
  destruct (ad_engine _ _ _ _ Ha)
    as [rt Hnone Hc|rt stored latest capability opID evID at_ t Hr Hspec Ht Hst Ho Hl].
  - rewrite <- Hid in Hnone. apply rtc_once, (ps_begins _ _ rt); [by apply platform_absent|done|done].
  - rewrite <- Hid in Hr. destruct (nb_last _ Hs _ _ Hr) as (rt0 & k & o & (Hk & Hko & _) & Hw & Hmax).
    pose proof (latestOperation_spec _ _ _ _ Hs Hk Hko Hmax) as Hlast.
    assert (platform_of s !! id = Some (world_of stored o)) as Hbefore.
    { unfold platform_of. rewrite map_lookup_imap, Hr. cbn. by rewrite Hlast. }
    set (w1 := {| w_resource := rr_Resource (ar_Resource res); w_status := rr_Status stored;
                  w_latest := opr_Operation o |}).
    assert (rtc (step rt) (world_of stored o) w1) as Hspecs.
    { destruct Hspec as [Hsame|(spec & at0 & Hu)].
      - unfold w1. rewrite Hsame. reflexivity.
      - apply rtc_once. by eapply (step_spec _ (world_of stored o)). }
    eapply (platform_moves _ _ rt); [exact Hbefore|]. eapply rtc_r; [exact Hspecs|].
    unfold w'. rewrite Hst, Ho. apply (step_request rt w1 latest capability opID evID at_); [|done].
    destruct latest as [l|]; [left|right].
    + destruct (Hl l eq_refl) as (_ & last & <- & Hcreated). rewrite <- Hid in Hcreated.
      by rewrite (last_is_latest _ _ _ _ _ Hs Hk Hko Hmax Hcreated).
    + split; [done|]. by eapply (ad_idle _ _ _ _ Ha).
Qed.

(** ** The refinement *)

Section refinement.
Context {order : MapOrder} {worker : Composition}.
Context (admissible : ExecutionRequest → CallReply Submission → Prop).

(** A step in which the counter of the operations, a [uint64], does not wrap. *)
Definition steady_step (sys sys' : System) : Prop :=
  sys_step admissible sys sys' ∧
  (nextOperationSequence (sys_store sys) ≤ nextOperationSequence (sys_store sys'))%N.

Lemma steady_reachable sys : rtc steady_step NewSystem sys → sys_reachable admissible sys.
Proof. apply rtc_subrel. by intros ? ? []. Qed.

Lemma steady_simulation sys sys' :
  sys_reachable admissible sys → numbered (sys_store sys) → steady_step sys sys' →
  numbered (sys_store sys') ∧
  rtc platform_step (platform_of (sys_store sys)) (platform_of (sys_store sys')).
Proof.
  intros Hr Hs [Hstep Hle]. pose proof (reachable_orderly _ _ Hr) as Hsys.
  assert (integrity (sys_store sys)) as Hi.
  { apply (reachable_accounted True) in Hr as [Hserved _ _]; [|done..]. by apply served_integrity. }
  destruct (step_store _ _ _ Hi Hstep Hsys) as [Hm|(r & res & Ha)].
  - pose proof (moved_numbered _ _ Hs Hm Hle). split; [done|]. by apply moved_platform.
  - pose proof (admitted_numbered _ _ _ _ Hs (od_store _ Hsys) Ha Hle). split; [done|].
    eapply admitted_platform; [done..|apply Hsys|done].
Qed.

Lemma steady_numbered sys : rtc steady_step NewSystem sys → numbered (sys_store sys).
Proof.
  revert sys. refine (rtc_ind_r (λ sys, numbered (sys_store sys)) NewSystem _ _).
  - by split; cbn; intros *; rewrite lookup_empty.
  - intros sys sys' Hr Hstep Hs. by apply (steady_simulation sys); [apply steady_reachable|..].
Qed.

(** C2: The running system implements the lifecycle specification.  The system is
    mapped to one world per resource - the resource, its status and the
    operation created last for it - and every step, whichever request, operator, worker,
    provider or crash takes it, is on that level a sequence of transitions of
    the lifecycles, or begins one.  So no interleaving and no failure lets the
    tables do what the lifecycle does not allow.  (The counter that numbers the
    operations must not have wrapped at 2^64.) *)
Theorem system_refines_lifecycle sys sys' :
  rtc steady_step NewSystem sys → steady_step sys sys' →
  rtc platform_step (platform_of (sys_store sys)) (platform_of (sys_store sys')) ∧
  ∀ id r, resources (sys_store sys') !! id = Some r →
    ∃ k o, determines (sys_store sys') id k o ∧
      platform_of (sys_store sys') !! id = Some (world_of r o).
Proof.
  intros Hr Hstep. pose proof (steady_numbered _ Hr) as Hs.
  destruct (steady_simulation _ _ (steady_reachable _ Hr) Hs Hstep) as [Hs' Hsim].
  split; [done|]. intros id r Hid.
  destruct (platform_lookup _ _ _ Hs' Hid) as (rt & k & o & Hd & _ & _ & Hw). eauto.
Qed.
End refinement.

#[local] Existing Instances Idempotency.sample_order Scenario.sample_worker.

Definition sample_begun : System := request_served sample_ports sample_create NewSystem.

Lemma system_refines_lifecycle_witness :
  rtc platform_step (platform_of NewStore) (platform_of (sys_store sample_begun)) ∧
  is_Some (platform_of (sys_store sample_begun) !! "r-1").
Proof.
  refine (conj (proj1 (system_refines_lifecycle sample_admissible NewSystem sample_begun
    (rtc_refl _ _) (conj (ss_request _ NewSystem sample_ports sample_create) _))) _).
  - vm_compute. discriminate.
  - apply is_Some_alt. vm_compute. reflexivity.
Defined.
